(* ===== verification/_CoqProject ===== *)
-Q . S2P
Prelude.v
Types.v
Text.v
Chain.v
Heap.v
Validators.v
MsgQueue.v
Snapshots.v
Rlp.v
RlpFacts.v
RlpTree.v
Extra.v
TxSigner.v
Sha256.v
CurveField.v
Vrf.v
Seals.v
Ibft.v
IbftFacts.v
Storage.v
StorageFacts.v
Nibbles.v
Blake2.v
Precompiled.v
PrecompiledFacts.v
Slice.v
VM.v
Opcodes.v
Instructions.v
Interp.v
Logic.v
Safety.v
Run.v
Frame.v
Alu.v
Memory.v
MockHost.v
EvmMain.v
Txn.v
Trie.v
TrieRep.v
TrieOps.v
TrieHash.v
TrieMap.v
TrieState.v
TrieDB.v
Rewards.v
TrieHistory.v
MockTrie.v
TrieMain.v
TxnFacts.v
Bloom.v
Executor.v
Blockchain.v
CalcRoot.v
Syncer.v
SyncFacts.v
CalcFacts.v
BlockchainFacts.v
EngineChain.v
MockEngine.v
ConsensusMain.v
MockChain.v
ChainMain.v
CodecMain.v
CalcMain.v
SyncMain.v
TxPool.v
PoolFacts.v
PoolSystem.v
PoolLive.v
PoolMain.v
ExecFacts.v
TxnLaws.v
ApplyFacts.v
BlockFacts.v
Builder.v
MockWorld.v
StateMain.v
BuildMain.v
