(* ===== verification/Prelude.v ===== *)
(** A model of the node TIE core (the Go program under src/) and its
    correctness.

    * The program

    A node keeps a chain of blocks (src/core) in a key-value database
    (src/storage).  The consensus engine PVBFT (src/consensus/pvbft) agrees with
    the other validators on the next block, which the proposer builds from the
    transaction pool (src/txpool).  A block's transactions are executed on the
    state (src/state) by the virtual machine (src/tievm/evm/execute) and the
    precompiled contracts (src/tievm/evm/precompiled).  Blocks, headers and
    transactions are types of src/types, with RLP encodings; signatures and the
    verifiable random function that picks proposers are in src/common/crypto.  A
    node that is behind fetches blocks from its peers (src/syncer).

    * How the code is modelled

    Definitions carry the names of the Go functions they translate.  A big.Int
    is a [Z]; fixed-width integers are [Z] with the wrap-around written out
    ([uint64], [int64]); a byte slice is a list of byte values, with its
    capacity where the code can see it ([Slice]); a pointer that may be nil is
    an option.  Code that can panic returns an [outcome]: [Ok], [Panic], or
    [OutOfFuel], the model's own bound on a loop.  Code that mutates shared
    state passes the state, mostly in a small state monad of its component.

    What is not under src/ is a class: [Runtime] (Keccak-256), [FastRLP] (the
    package fastrlp) and [NodeRLP] (what else the trie uses of it), [Secp256k1]
    and [Curve] (btcec), [Bn256], [Ripemd160], [Protobuf], [KV] and [LevelDB]
    (goleveldb), [LRU] (the caches), [Sorting] (sort.Slice), [Decimal]
    (shopspring/decimal), [StakingABI] (the ABI packages).  The laws the code
    relies on are separate classes ([FastRLPOk], [KVOk], ...), each with an
    instance; no theorem is about what a staking contract returns, and
    [StakingABI] has no laws.  The standard library is modelled: container/heap,
    crypto/sha256, time, encoding/json and base64 as far as they are used.

    * The files

    - [Prelude]: outcomes, integers, big.Int, byte strings and lists.  [Types]:
      hashes, addresses, forks, contracts, results and the interface [Host]
      (types/types.go, params/params.go, tievm/evm/evm.go).  [Text]: hexadecimal
      text (common/hex).  [Chain]: transactions, receipts, headers and blocks
      (types).
    - The virtual machine: [Slice] (with bitmap.go), [VM] (state.go),
      [Opcodes], [Instructions] (instructions.go), [Interp] (dispatch_table.go,
      the loop of state.go, evm.go).  [Logic] is a calculus of weakest
      preconditions and the machine's invariant; [Safety], [Run], [Frame], [Alu]
      and [Memory] prove the instructions and the loop; [MockHost] is a concrete
      host; [EvmMain] has the theorems.
    - Precompiled contracts: [Blake2], [Sha256], [Precompiled],
      [PrecompiledFacts].
    - The state: [Txn] (txn.go, state.go), [TxnFacts], [TxnLaws]; [Executor]
      (executor.go, fee_pool.go, reward_lock.go), [ExecFacts], [ApplyFacts],
      [BlockFacts], which also puts the precompiled contracts and the signers
      into the executor; [Bloom] (receipt.go); [MockWorld] is a concrete
      database; [StateMain] has the theorems.
    - The state trie (state/trie): [Nibbles] (encoding.go, and the canonical tree
      of a map), [Trie] (trie.go, hasher.go, storage.go, state.go), [TrieDB] (the
      storages of storage.go).  [TrieRep] has what nodes stand for which tree; [TrieOps] proves lookup, insertion and deletion, [TrieHash] the
      hashes, [TrieMap] the trie as a map, [TrieState] the commit,
      [TrieHistory] commits on top of one another; [MockTrie] checks that hashes
      differ; [TrieMain] has the theorems.
    - Roots of lists (types/calcroot): [CalcRoot], [CalcFacts]; [CalcMain] has the
      theorems.
    - Encodings and cryptography: [Rlp], [RlpFacts] (types/rlp_*.go), [RlpTree]
      (an implementation of fastrlp's contract); [Extra] (pvbft/extra.go);
      [TxSigner] (state/txsigner.go, crypto.go); [CurveField], [Vrf]
      (common/crypto/vrf); [CodecMain] has the theorems.
    - The consensus engine: [Heap] (container/heap), [Validators] (validator.go,
      state.go, timeout.go), [MsgQueue] (msg_queue.go), [Snapshots]
      (snapshot.go), [Seals] (sign.go, vrf.go), [Ibft] (ibft.go, pos.go),
      [IbftFacts] (with the agreement of validators); [MockEngine] is a network
      of toy validators; [ConsensusMain] has the theorems.
    - Building a block: [Rewards] (blockreward.go), [Builder] (buildBlock and what
      it calls in ibft.go, contracts/staking/query.go, the queries and the fees of
      pos.go and validator.go); [BuildMain] has the theorems.  The engine itself
      is proved for any implementation of its interface [Backend].
    - The chain: [Storage], [StorageFacts] (storage), [Blockchain],
      [BlockchainFacts] (core/blockchain.go, subscription.go), [EngineChain] (the
      engine as the chain's verifier); [MockChain] is a concrete chain;
      [ChainMain] has the theorems.
    - Synchronisation: [Syncer] (syncer, common/progress), [SyncFacts];
      [SyncMain] has the theorems.
    - The transaction pool: [TxPool] (txpool), [PoolFacts], [PoolSystem] (the
      pool as a transition system), [PoolLive]; [PoolMain] has the theorems.

    * What the theorems show

    - [EvmMain]: running any contract ends, keeps the machine's invariant,
      returns at most its gas, and panics only in two known cases; a static run
      writes nothing; every reached state is at an instruction; the arithmetic
      instructions, shifts, exponentiation, memory and copies compute what the
      instruction set says, at its price.
    - [StateMain]: calls, transactions and blocks mint nothing, account for
      their gas, and roll back when they fail; snapshots and storage read back
      what was written; receipts, bloom filters and intrinsic gas are exact.
    - [TrieMain]: the trie refines a map, its root depends on the map alone and
      determines it, and every state that was committed is read back under its
      root after a restart; and where a deletion removes another key.
    - [CalcMain]: the fast hasher gives the root of the trie, and the header of an
      accepted block determines its transactions.
    - [ConsensusMain]: the commit seals of an honest validator between two
      insertions are for one header, so two certified headers agree unless an
      honest validator tried to insert in between; and a run in which a
      malformed seal makes an honest validator seal two blocks of one height.
    - [ChainMain]: the database implements typed maps; the chain's headers are
      linked and its numbers are the ancestors of the head as long as there was
      no reorganisation (and a reorganisation after which they are not); only
      certified blocks are written; block hashes and gas limits.
    - [PoolMain]: the pool's invariant under any interleaving of its handlers,
      the refinement of promotion, and its liveness.
    - [BuildMain]: filling a block from the pool ends and accounts for gas,
      balances and rewards; a block that is built passes the checks of the other
      validators; and how rewards are paid beyond the supply after a restart, and
      fees are credited twice when a validator has left.
    - [SyncMain]: a node that synchronises with an honest peer writes the blocks of
      the peer without a gap, from the last common one, which the search finds; a
      broadcast block arrives; and requests and answers that make a node panic.
    - [CodecMain]: round trips of RLP, extra data, signatures and the random
      function; blake2f and modexp against RFC 7693 and EIP-198.

    Every theorem with hypotheses has an instance on concrete data, evaluated by
    the kernel.

    * Fuel and bounds

    Loops that are not structural take fuel.  The interpreter's loop gets one
    unit per unit of gas plus the length of the code, and [Run] proves that this
    is enough, as every instruction burns gas or stops; nested calls recurse on
    the call depth, which the code bounds by 1024.  The operations of the trie get
    a few units per nibble of the key, and loading a node one per byte of its
    encoding; [TrieOps] and [TrieRep] prove that this is enough.  The walks along parents in
    the chain get the number of the header they start at.  [hashToInt], which
    tries hashes until one is in range, and the turns of the walks in
    [handleReorg] take an argument: the theorems hold for every value of it.  The
    loop that fills a block gets one unit for each transaction that is shown or
    promoted in the pool, and one more; [BuildMain] proves that this is enough.

    * Not modelled

    The network and its services (p2p, rpc, the gRPC operators), the command line,
    metrics, logging, key files, JSON of the genesis and of the snapshots: input
    and output, and reads of the other components.  The engine does not run on
    [Builder] itself but on its interface.  The state transaction
    is proved over the interfaces [Snapshot] and [State], and the state trie on
    its own; the account data that goes from one to the other is the same type.
    Goroutines are modelled where their order matters: the engine's
    messages and the pool's handlers. *)

From Stdlib Require Import ZArith Lia Zbitwise.
From stdpp Require Import base list numbers.

Open Scope Z_scope.

(** ** Outcomes of a piece of Go code *)

(** [Ok] is a normal return, [Panic] a Go run-time panic (nil dereference,
    index or slice bound out of range), [OutOfFuel] the model's own bound on a
    loop or on a recursion running out. *)
Inductive outcome (A : Type) : Type :=
| Ok (a : A)
| Panic
| OutOfFuel.
Arguments Ok {A} a.
Arguments Panic {A}.
Arguments OutOfFuel {A}.

Definition obind {A B} (m : outcome A) (k : A -> outcome B) : outcome B :=
  match m with
  | Ok a => k a
  | Panic => Panic
  | OutOfFuel => OutOfFuel
  end.

Definition of_option {A} (o : option A) : outcome A :=
  match o with Some a => Ok a | None => Panic end.

Declare Scope outcome_scope.
Delimit Scope outcome_scope with outcome.
Notation "'let^' p := m 'in' k" := (obind m (fun x => match x with p => k end))
  (at level 200, p pattern at level 0, k at level 200) : outcome_scope.

(** ** Fixed-width integers *)

Definition uint64 (z : Z) : Z := z mod 2 ^ 64.
Definition int64 (z : Z) : Z :=
  let u := z mod 2 ^ 64 in if u <? 2 ^ 63 then u else u - 2 ^ 64.
Definition byte_of (z : Z) : Z := z mod 256.

Definition is_u64 (z : Z) : Prop := 0 <= z < 2 ^ 64.
Definition is_word (z : Z) : Prop := 0 <= z < 2 ^ 256.
Definition is_byte (z : Z) : Prop := 0 <= z < 256.
Definition is_addr (z : Z) : Prop := 0 <= z < 2 ^ 160.

(** ** math/big.Int, a big integer is a [Z] *)

Module big.

Definition BitLen (x : Z) : Z := if x =? 0 then 0 else Z.log2 (Z.abs x) + 1.
Definition IsUint64 (x : Z) : bool := (0 <=? x) && (x <? 2 ^ 64).
Definition IsInt64 (x : Z) : bool := (- 2 ^ 63 <=? x) && (x <? 2 ^ 63).
Definition Uint64 (x : Z) : Z := Z.abs x mod 2 ^ 64.
Definition Int64 (x : Z) : Z :=
  let v := int64 (Z.abs x) in if x <? 0 then int64 (- v) else v.
(** [Div] and [Mod] are Euclidean division. *)
Definition Div (x y : Z) : Z := Z.sgn y * (x / Z.abs y).
Definition Mod (x y : Z) : Z := x mod Z.abs y.

End big.

(** The length of a Go slice or string. *)
Definition len {A} (l : list A) : Z := Z.of_nat (length l).

(** A Go byte slice: its length is an int. *)
Definition bytes_ok (l : list Z) : Prop := Forall is_byte l /\ len l < 2 ^ 63.

(** ** Byte strings *)

Fixpoint be_encode (n : nat) (z : Z) : list Z :=
  match n with
  | O => []
  | S n' => be_encode n' (z / 256) ++ [z mod 256]
  end.

Definition be_decode (l : list Z) : Z := foldl (fun acc b => acc * 256 + b) 0 l.

(** [Bytes]: the minimal big-endian encoding of the absolute value. *)
Definition big_Bytes (x : Z) : list Z :=
  be_encode (Z.to_nat ((big.BitLen x + 7) / 8)) (Z.abs x).

(** [Bits]: the 64-bit words of the absolute value, least significant first. *)
Fixpoint le_words (n : nat) (z : Z) : list Z :=
  match n with
  | O => []
  | S n' => z mod 2 ^ 64 :: le_words n' (z / 2 ^ 64)
  end.
Definition big_Bits (x : Z) : list Z :=
  le_words (Z.to_nat ((big.BitLen x + 63) / 64)) (Z.abs x).

(** ** Generic lemmas *)

Lemma Forall_weaken {A} (P Q : A -> Prop) l :
  Forall P l -> (forall x, P x -> Q x) -> Forall Q l.
Proof. intros Hl HPQ. induction Hl; constructor; auto. Qed.

Lemma be_encode_length n z : length (be_encode n z) = n.
Proof.
  revert z; induction n as [|n IH]; intros z; simpl; [done|].
  rewrite length_app, IH; simpl; lia.
Qed.

Lemma be_decode_app l1 l2 :
  be_decode (l1 ++ l2) = be_decode l1 * 256 ^ Z.of_nat (length l2) + be_decode l2.
Proof.
  unfold be_decode. rewrite foldl_app. generalize (foldl (λ acc b : Z, acc * 256 + b) 0 l1).
  induction l2 as [|b l2 IH]; intros a; [simpl; lia|].
  cbn [foldl length]. rewrite IH, (IH (0 * 256 + b)).
  rewrite Nat2Z.inj_succ, Z.pow_succ_r by lia. lia.
Qed.

Lemma be_decode_encode n z : be_decode (be_encode n z) = z mod 256 ^ Z.of_nat n.
Proof.
  revert z; induction n as [|n IH]; intros z.
  { simpl. by rewrite Z.mod_1_r. }
  cbn [be_encode]. rewrite be_decode_app, IH.
  change (be_decode [z mod 256]) with (0 * 256 + z mod 256).
  change (256 ^ Z.of_nat (length [z mod 256])) with 256.
  rewrite Nat2Z.inj_succ, Z.pow_succ_r by lia.
  rewrite Z.rem_mul_r by lia. lia.
Qed.

Lemma be_encode_bytes n z : Forall is_byte (be_encode n z).
Proof.
  revert z; induction n as [|n IH]; intros z; simpl; [constructor|].
  apply Forall_app; split; [apply IH|].
  constructor; [|constructor]. unfold is_byte. apply Z.mod_pos_bound; lia.
Qed.

Lemma be_decode_bound l :
  Forall is_byte l -> 0 <= be_decode l < 256 ^ Z.of_nat (length l).
Proof.
  induction l as [|b l IH] using rev_ind; intros H; [unfold be_decode; simpl; lia|].
  apply Forall_app in H as [Hl Hb]. apply Forall_inv in Hb.
  specialize (IH Hl). rewrite be_decode_app, length_app. cbn [length].
  change (be_decode [b]) with (0 * 256 + b). unfold is_byte in Hb.
  change (256 ^ Z.of_nat 1) with 256.
  rewrite Nat2Z.inj_add, Z.pow_add_r by lia. change (256 ^ Z.of_nat 1) with 256. lia.
Qed.

Lemma be_encode_decode l :
  Forall is_byte l -> be_encode (length l) (be_decode l) = l.
Proof.
  induction l as [|b l IH] using rev_ind; intros H; [done|].
  apply Forall_app in H as [Hl Hb]. apply Forall_inv in Hb.
  rewrite length_app. cbn [length]. rewrite Nat.add_1_r. cbn [be_encode].
  rewrite be_decode_app. cbn [length]. change (be_decode [b]) with (0 * 256 + b).
  change (256 ^ Z.of_nat 1) with 256. unfold is_byte in Hb.
  replace ((be_decode l * 256 + (0 * 256 + b)) / 256) with (be_decode l)
    by (Z.div_mod_to_equations; lia).
  replace ((be_decode l * 256 + (0 * 256 + b)) mod 256) with b
    by (Z.div_mod_to_equations; lia).
  by rewrite IH.
Qed.

Lemma be_decode_zeros_l n l : be_decode (replicate n 0 ++ l) = be_decode l.
Proof.
  rewrite be_decode_app.
  assert (be_decode (replicate n 0) = 0) as ->; [|lia].
  unfold be_decode. induction n as [|n IH]; [done|]. exact IH.
Qed.

(** Fixed-width arithmetic. *)

Lemma uint64_range z : is_u64 (uint64 z).
Proof. unfold is_u64, uint64. apply Z.mod_pos_bound. lia. Qed.

Lemma uint64_small z : is_u64 z -> uint64 z = z.
Proof. unfold is_u64, uint64. intros. by apply Z.mod_small. Qed.

Lemma int64_small z : - 2 ^ 63 <= z < 2 ^ 63 -> int64 z = z.
Proof.
  intros H. unfold int64. destruct (Z.ltb_spec (z mod 2 ^ 64) (2 ^ 63));
    Z.div_mod_to_equations; lia.
Qed.

Lemma int64_range z : - 2 ^ 63 <= int64 z < 2 ^ 63.
Proof.
  unfold int64. destruct (Z.ltb_spec (z mod 2 ^ 64) (2 ^ 63)); Z.div_mod_to_equations; lia.
Qed.

Lemma BitLen_nonneg x : 0 <= big.BitLen x.
Proof. unfold big.BitLen. case_match; [lia|]. pose proof (Z.log2_nonneg (Z.abs x)). lia. Qed.

Lemma BitLen_le x n : 0 <= n -> big.BitLen x <= n <-> Z.abs x < 2 ^ n.
Proof.
  intros Hn. unfold big.BitLen. destruct (Z.eqb_spec x 0) as [->|Hx].
  { simpl. pose proof (Z.pow_pos_nonneg 2 n). lia. }
  rewrite (Z.log2_lt_pow2 (Z.abs x) n) by lia. lia.
Qed.

Lemma BitLen_gt x n : 0 <= n -> n < big.BitLen x <-> 2 ^ n <= Z.abs x.
Proof. intros Hn. pose proof (BitLen_le x n Hn). lia. Qed.

Lemma IsUint64_spec x : big.IsUint64 x = true <-> is_u64 x.
Proof.
  unfold big.IsUint64, is_u64. rewrite andb_true_iff, Z.leb_le, Z.ltb_lt. done.
Qed.

Lemma Uint64_small x : is_u64 x -> big.Uint64 x = x.
Proof.
  unfold is_u64, big.Uint64. intros. rewrite Z.abs_eq by lia. by apply Z.mod_small.
Qed.

Lemma Uint64_range x : is_u64 (big.Uint64 x).
Proof. unfold is_u64, big.Uint64. apply Z.mod_pos_bound. lia. Qed.

Lemma be_decode_big_Bytes x : be_decode (big_Bytes x) = Z.abs x.
Proof.
  unfold big_Bytes. rewrite be_decode_encode. pose proof (BitLen_nonneg x).
  apply Z.mod_small. split; [lia|].
  rewrite Z2Nat.id by (apply Z.div_pos; lia).
  replace 256 with (2 ^ 8) by done. rewrite <- Z.pow_mul_r; [|lia|].
  2:{ apply Z.div_pos; lia. }
  apply BitLen_le; Z.div_mod_to_equations; lia.
Qed.

Lemma big_Bytes_bytes x : Forall is_byte (big_Bytes x).
Proof. apply be_encode_bytes. Qed.

Lemma be_decode_encode_small n z : 0 <= z < 256 ^ Z.of_nat n -> be_decode (be_encode n z) = z.
Proof. intros Hz. rewrite be_decode_encode. by apply Z.mod_small. Qed.

Lemma big_Bytes_length n m : 0 <= n < 256 ^ Z.of_nat m -> (length (big_Bytes n) <= m)%nat.
Proof.
  intros Hn. unfold big_Bytes. rewrite be_encode_length.
  assert (big.BitLen n <= 8 * Z.of_nat m) as Hb.
  { apply BitLen_le; [lia|]. rewrite Z.abs_eq by lia. rewrite Z.pow_mul_r by lia. apply Hn. }
  pose proof (BitLen_nonneg n). Z.div_mod_to_equations; lia.
Qed.

Lemma big_Bytes_nonempty n : 0 < n -> (1 <= length (big_Bytes n))%nat.
Proof.
  intros Hn. unfold big_Bytes. rewrite be_encode_length.
  assert (0 < big.BitLen n) by (apply BitLen_gt; lia). Z.div_mod_to_equations; lia.
Qed.

(** Padding the minimal encoding. *)
Lemma big_Bytes_pad n x : 0 <= x < 256 ^ Z.of_nat n ->
  replicate (n - length (big_Bytes x)) 0 ++ big_Bytes x = be_encode n x.
Proof.
  intros Hx. pose proof (big_Bytes_length x n Hx) as Hl.
  set (l := replicate _ _ ++ _).
  assert (length l = n) as Hn by (subst l; rewrite length_app, length_replicate; lia).
  rewrite <- (be_encode_decode l).
  2:{ subst l. apply Forall_app. split; [apply Forall_replicate; unfold is_byte; lia|apply big_Bytes_bytes]. }
  subst l. rewrite Hn, be_decode_zeros_l, be_decode_big_Bytes. by rewrite Z.abs_eq by lia.
Qed.

Lemma big_Bytes_full x n : 256 ^ Z.of_nat n <= x < 256 ^ Z.of_nat (S n) ->
  length (big_Bytes x) = S n.
Proof.
  intros Hx. assert (0 < 256 ^ Z.of_nat n) by (apply Z.pow_pos_nonneg; lia).
  assert (length (big_Bytes x) <= S n)%nat by (apply big_Bytes_length; lia).
  destruct (decide (length (big_Bytes x) <= n)%nat) as [Hle|]; [exfalso|lia].
  pose proof (be_decode_bound (big_Bytes x) (big_Bytes_bytes x)) as Hb.
  rewrite be_decode_big_Bytes, Z.abs_eq in Hb by lia.
  assert (256 ^ Z.of_nat (length (big_Bytes x)) <= 256 ^ Z.of_nat n) by (apply Z.pow_le_mono_r; lia).
  lia.
Qed.
