(* ===== verification/Types.v ===== *)
(** Data shared by the EVM and the state layer: hashes and addresses
    (src/types/types.go), the fork switches (src/params/params.go), and the
    contract, result, error and host types of src/tievm/evm/evm.go. *)


From Stdlib Require Import ZArith.
From stdpp Require Import base list numbers gmap.
From S2P Require Import Prelude.

Open Scope Z_scope.

(** ** Hashes and addresses

    [Hash] is a [32]byte and [Address] a [20]byte.  Both are represented by the
    number their bytes spell in big-endian order, so [Bytes] is [be_encode]
    at the array's length. *)

Abbreviation Hash := Z (only parsing).
Abbreviation Address := Z (only parsing).

Definition HashLength : nat := 32.
Definition AddressLength : nat := 20.

Definition Hash_Bytes (h : Hash) : list Z := be_encode HashLength h.
Definition Address_Bytes (a : Address) : list Z := be_encode AddressLength a.

(** [copy(h[HashLength-min:], b[len(b)-min:])]: the last [min] bytes of [b]
    land at the right end of a zeroed array. *)
Definition BytesToHash (b : list Z) : Hash :=
  let m := Nat.min (length b) HashLength in
  be_decode (replicate (HashLength - m) 0 ++ drop (length b - m) b).

Definition BytesToAddress (b : list Z) : Address :=
  let m := Nat.min (length b) AddressLength in
  be_decode (replicate (AddressLength - m) 0 ++ drop (length b - m) b).

(** ** Forks active at a block *)

Record ForksInTime := mkForks {
  Homestead : bool;
  Byzantium : bool;
  Constantinople : bool;
  Petersburg : bool;
  Istanbul : bool;
  EIP150 : bool;
  EIP158 : bool;
  EIP155 : bool
}.

(** [Forks]: the activation block of each fork, [None] for a nil pointer. *)
Record Forks := mkForkBlocks {
  fHomestead : option Z;
  fByzantium : option Z;
  fConstantinople : option Z;
  fPetersburg : option Z;
  fIstanbul : option Z;
  fEIP150 : option Z;
  fEIP158 : option Z;
  fEIP155 : option Z
}.

Definition Fork_Active (f : Z) (block : Z) : bool := f <=? block.

Definition Forks_active (ff : option Z) (block : Z) : bool :=
  match ff with None => false | Some f => Fork_Active f block end.

Definition Forks_At (f : Forks) (block : Z) : ForksInTime :=
  {| Homestead := Forks_active (fHomestead f) block;
     Byzantium := Forks_active (fByzantium f) block;
     Constantinople := Forks_active (fConstantinople f) block;
     Petersburg := Forks_active (fPetersburg f) block;
     Istanbul := Forks_active (fIstanbul f) block;
     EIP150 := Forks_active (fEIP150 f) block;
     EIP158 := Forks_active (fEIP158 f) block;
     EIP155 := Forks_active (fEIP155 f) block |}.

Definition AllForksEnabled : Forks :=
  {| fHomestead := Some 0; fByzantium := Some 0; fConstantinople := Some 0;
     fPetersburg := Some 0; fIstanbul := Some 0; fEIP150 := Some 0;
     fEIP158 := Some 0; fEIP155 := Some 0 |}.

(** ** Errors of the virtual machine *)

Inductive vmerror :=
| ErrOutOfGas
| ErrStackOverflow
| ErrStackUnderflow
| ErrNotEnoughFunds
| ErrInsufficientBalance
| ErrMaxCodeSizeExceeded
| ErrContractAddressCollision
| ErrDepth
| ErrExecutionReverted
| ErrCodeStoreOutOfGas
| errGasUintOverflow
| errWriteProtection
| errInvalidJump
| errOpCodeNotFound
| errReturnDataOutOfBounds
| errOther.

#[export] Instance vmerror_eq_dec : EqDecision vmerror.
Proof. solve_decision. Defined.

(** ** Contracts, results, transaction context *)

Inductive CallType := Call | CallCode | DelegateCall | StaticCall | Create | Create2.

#[export] Instance CallType_eq_dec : EqDecision CallType.
Proof. solve_decision. Defined.

Record Contract := mkContract {
  cCode : list Z;
  cType : CallType;
  cCodeAddress : Address;
  cAddress : Address;
  cOrigin : Address;
  cCaller : Address;
  cDepth : Z;
  cValue : option Z;
  cInput : list Z;
  cGas : Z;
  cStatic : bool
}.

(** [NewContract]: the fields it does not name keep Go's zero value. *)
Definition NewContract (depth : Z) (origin from to : Address) (value : option Z)
    (gas : Z) (code : list Z) : Contract :=
  {| cCode := code; cType := Call; cCodeAddress := to; cAddress := to;
     cOrigin := origin; cCaller := from; cDepth := depth; cValue := value;
     cInput := []; cGas := gas; cStatic := false |}.

Definition NewContractCreation (depth : Z) (origin from to : Address)
    (value : option Z) (gas : Z) (code : list Z) : Contract :=
  NewContract depth origin from to value gas code.

Definition NewContractCall (depth : Z) (origin from to : Address)
    (value : option Z) (gas : Z) (code input : list Z) : Contract :=
  let c := NewContract depth origin from to value gas code in
  {| cCode := cCode c; cType := cType c; cCodeAddress := cCodeAddress c;
     cAddress := cAddress c; cOrigin := cOrigin c; cCaller := cCaller c;
     cDepth := cDepth c; cValue := cValue c; cInput := input; cGas := cGas c;
     cStatic := cStatic c |}.

Record ExecutionResult := mkResult {
  ReturnValue : list Z;
  GasLeft : Z;
  GasUsed : Z;
  Err : option vmerror
}.

Definition Succeeded (r : ExecutionResult) : bool :=
  match Err r with None => true | Some _ => false end.
Definition Failed (r : ExecutionResult) : bool :=
  match Err r with None => false | Some _ => true end.
Definition Reverted (r : ExecutionResult) : bool :=
  bool_decide (Err r = Some ErrExecutionReverted).

Definition UpdateGasUsed (r : ExecutionResult) (gasLimit refund : Z) : ExecutionResult :=
  let used := uint64 (gasLimit - GasLeft r) in
  let maxRefund := used / 2 in
  let refund := if maxRefund <? refund then maxRefund else refund in
  {| ReturnValue := ReturnValue r;
     GasLeft := uint64 (GasLeft r + refund);
     GasUsed := uint64 (used - refund);
     Err := Err r |}.

Record TxContext := mkTxContext {
  txGasPrice : Hash;
  txOrigin : Address;
  txCoinbase : Address;
  txNumber : Z;
  txTimestamp : Z;
  txGasLimit : Z;
  txChainID : Z;
  txDifficulty : Hash
}.

Inductive StorageStatus :=
| StorageUnchanged
| StorageModified
| StorageModifiedAgain
| StorageAdded
| StorageDeleted.

(** ** The host interface

    A host is a state [H] and the operations the virtual machine calls on it.
    [GetCode] and [GetCodeSize] return the state too, because the
    implementation fills a code cache.  [Callx] can panic or, in a model that
    bounds the call depth, run out of fuel. *)
Class Host (H : Type) := {
  AccountExists : H -> Address -> bool;
  GetStorage : H -> Address -> Hash -> Hash;
  SetStorage : H -> Address -> Hash -> Hash -> ForksInTime -> StorageStatus * H;
  GetBalance : H -> Address -> Z;
  GetCodeSize : H -> Address -> Z * H;
  GetCodeHash : H -> Address -> Hash;
  GetCode : H -> Address -> list Z * H;
  Selfdestruct : H -> Address -> Address -> H;
  GetTxContext : H -> TxContext;
  GetBlockHash : H -> Z -> Hash;
  EmitLog : H -> Address -> list Hash -> list Z -> H;
  Callx : H -> Contract -> outcome (ExecutionResult * H);
  Empty : H -> Address -> bool;
  GetNonce : H -> Address -> Z
}.

(** ** Code outside the repository

    [append_cap c n] is the capacity Go's append gives a slice of capacity [c]
    that has to hold [n] elements, [Keccak256] the sha3 package's hash and
    [rlp_address_nonce a n] the fastrlp encoding of the list of an address and
    a nonce. *)
Class Runtime := {
  append_cap : nat -> nat -> nat;
  append_cap_ge : forall c n, (n <= append_cap c n)%nat;
  Keccak256 : list Z -> list Z;
  Keccak256_length : forall b, length (Keccak256 b) = 32%nat;
  Keccak256_bytes : forall b, Forall is_byte (Keccak256 b);
  rlp_address_nonce : list Z -> Z -> list Z
}.

Definition CreateAddress `{Runtime} (addr : Address) (nonce : Z) : Address :=
  BytesToAddress (drop 12 (Keccak256 (rlp_address_nonce (Address_Bytes addr) nonce))).

Definition CreateAddress2 `{Runtime} (addr : Address) (salt : Hash) (inithash : list Z) : Address :=
  BytesToAddress (drop 12 (Keccak256
    ([255] ++ Address_Bytes addr ++ Hash_Bytes salt ++ Keccak256 inithash))).

(** ** Lemmas *)

Lemma be_decode_suffix (b : list Z) (n : nat) :
  Forall is_byte b ->
  be_decode (drop (length b - Nat.min (length b) n) b) = be_decode b mod 256 ^ Z.of_nat n.
Proof.
  intros Hb. set (k := (length b - Nat.min (length b) n)%nat).
  assert (Hd : Forall is_byte (drop k b)) by (by apply Forall_drop).
  pose proof (be_decode_bound _ Hd) as Hbd. rewrite length_drop in Hbd.
  rewrite <- (take_drop k b) at 2. rewrite be_decode_app, length_drop.
  destruct (decide (length b <= n)%nat) as [Hle|Hgt].
  - assert (k = 0%nat) as Hk by (subst k; lia). rewrite Hk in *. simpl.
    change (be_decode []) with 0. rewrite Z.mul_0_l, Z.add_0_l, drop_0 in *.
    symmetry. apply Z.mod_small. split; [lia|].
    eapply Z.lt_le_trans; [apply Hbd|]. apply Z.pow_le_mono_r; lia.
  - replace (length b - k)%nat with n in * by (subst k; lia).
    rewrite Z.add_comm, Z.mod_add by (apply Z.pow_nonzero; lia).
    symmetry. apply Z.mod_small. lia.
Qed.

Lemma BytesToHash_decode b : Forall is_byte b -> BytesToHash b = be_decode b mod 2 ^ 256.
Proof.
  intros. unfold BytesToHash. rewrite be_decode_zeros_l, be_decode_suffix by done. done.
Qed.

Lemma BytesToAddress_decode b : Forall is_byte b -> BytesToAddress b = be_decode b mod 2 ^ 160.
Proof.
  intros. unfold BytesToAddress. rewrite be_decode_zeros_l, be_decode_suffix by done. done.
Qed.

Lemma BytesToHash_range b : Forall is_byte b -> is_word (BytesToHash b).
Proof. intros. rewrite BytesToHash_decode by done. unfold is_word. apply Z.mod_pos_bound. lia. Qed.

Lemma BytesToAddress_range b : Forall is_byte b -> is_addr (BytesToAddress b).
Proof. intros. rewrite BytesToAddress_decode by done. unfold is_addr. apply Z.mod_pos_bound. lia. Qed.

Lemma BytesToHash_big x : is_word x -> BytesToHash (big_Bytes x) = x.
Proof.
  unfold is_word. intros. rewrite BytesToHash_decode by apply big_Bytes_bytes.
  rewrite be_decode_big_Bytes, Z.abs_eq by lia. apply Z.mod_small. lia.
Qed.

Lemma BytesToAddress_big x : 0 <= x -> BytesToAddress (big_Bytes x) = x mod 2 ^ 160.
Proof.
  intros. rewrite BytesToAddress_decode by apply big_Bytes_bytes.
  by rewrite be_decode_big_Bytes, Z.abs_eq by lia.
Qed.

Lemma decode_Hash_Bytes h : is_word h -> be_decode (Hash_Bytes h) = h.
Proof.
  unfold is_word, Hash_Bytes. intros. rewrite be_decode_encode. apply Z.mod_small. exact H.
Qed.

Lemma decode_Address_Bytes a : is_addr a -> be_decode (Address_Bytes a) = a.
Proof.
  unfold is_addr, Address_Bytes. intros. rewrite be_decode_encode. apply Z.mod_small. exact H.
Qed.

Lemma BytesToHash_Hash_Bytes h : is_word h -> BytesToHash (Hash_Bytes h) = h.
Proof.
  intros Hh. rewrite BytesToHash_decode by apply be_encode_bytes. rewrite decode_Hash_Bytes by done.
  by apply Z.mod_small.
Qed.

Lemma Hash_Bytes_BytesToHash b : length b = 32%nat -> Forall is_byte b -> Hash_Bytes (BytesToHash b) = b.
Proof.
  intros Hl Hb. rewrite BytesToHash_decode by done. pose proof (be_decode_bound b Hb) as Hd. rewrite Hl in Hd.
  rewrite Z.mod_small by exact Hd. unfold Hash_Bytes, HashLength. rewrite <- Hl. by apply be_encode_decode.
Qed.

Lemma Hash_Bytes_inj h h' : is_word h -> is_word h' -> Hash_Bytes h = Hash_Bytes h' -> h = h'.
Proof. intros Hh Hh' E. by rewrite <- (decode_Hash_Bytes h), <- (decode_Hash_Bytes h'), E. Qed.

(** The cache of the package golang-lru, as the chain and the state use it. *)

(** golang-lru's cache, with keys that are hashes; [Get] counts as a use. *)
Class LRU := {
  lru : Type -> Type;
  lru_New {V} : lru V;
  lru_Add {V} : Hash -> V -> lru V -> lru V;
  lru_Get {V} : Hash -> lru V -> option V * lru V
}.

(** What golang-lru promises: an entry is the last one added for its key. *)
Class LRUOk `{LRU} := {
  lru_in {V} : Hash -> V -> lru V -> Prop;
  in_new {V} k (v : V) : ~ lru_in k v lru_New;
  in_add {V} k (v : V) k' v' c : lru_in k v (lru_Add k' v' c) ->
    (k = k' /\ v = v') \/ (k <> k' /\ lru_in k v c);
  get_in {V} k (v : V) c c' : lru_Get k c = (Some v, c') -> lru_in k v c;
  get_keeps {V} k k' (v : V) r c c' : lru_Get k c = (r, c') -> lru_in k' v c' -> lru_in k' v c
}.

(** A cache that evicts nothing. *)
Definition map_lru : LRU := {|
  lru := gmap Z;
  lru_New _ := ∅;
  lru_Add _ k v c := <[k := v]> c;
  lru_Get _ k c := (c !! k, c)
|}.

Definition map_lru_ok : @LRUOk map_lru.
Proof.
  refine (@Build_LRUOk map_lru (fun V k v c => (c : gmap Z V) !! k = Some v) _ _ _ _).
  - intros V k v. cbn. by rewrite lookup_empty.
  - intros V k v k' v' c. cbn. intros [[-> ->]|[? ?]]%lookup_insert_Some; [by left|right]. by split.
  - intros V k v c c'. cbn. by intros [= -> _].
  - intros V k k' v r c c'. cbn. by intros [= _ <-].
Defined.
