(* ===== verification/Text.v ===== *)
(** Text forms: src/common/hex/hex.go, and the string conversions of hashes and
    addresses of src/types/types.go.  A string is the list of its bytes; all
    strings made here are ASCII. *)

From Stdlib Require Import ZArith Lia.
From stdpp Require Import base list numbers.
From S2P Require Import Prelude Types.

Open Scope Z_scope.

(** ** Hexadecimal *)

(** The digits of [encoding/hex], '0'..'9' and 'a'..'f'. *)
Definition hex_char (d : Z) : Z := if d <? 10 then 48 + d else 87 + d.

Definition EncodeToString (b : list Z) : list Z :=
  flat_map (fun x => [hex_char (x / 16); hex_char (x mod 16)]) b.

Definition prefix_0x : list Z := [48; 120].

Definition EncodeToHex (b : list Z) : list Z := prefix_0x ++ EncodeToString b.

Definition fromHexChar (c : Z) : option Z :=
  if (48 <=? c) && (c <=? 57) then Some (c - 48)
  else if (97 <=? c) && (c <=? 102) then Some (c - 97 + 10)
  else if (65 <=? c) && (c <=? 70) then Some (c - 65 + 10)
  else None.

(** [DecodeString]: the bytes before the first error, and whether there was
    none. *)
Fixpoint DecodeString (s : list Z) : list Z * bool :=
  match s with
  | [] => ([], true)
  | [_] => ([], false)
  | a :: b :: s =>
    match fromHexChar a, fromHexChar b with
    | Some a, Some b => let (r, ok) := DecodeString s in (a * 16 + b :: r, ok)
    | _, _ => ([], false)
    end
  end.

(** [strings.TrimPrefix(str, "0x")]. *)
Definition trim_0x (s : list Z) : list Z :=
  match s with
  | a :: b :: s' => if (a =? 48) && (b =? 120) then s' else s
  | _ => s
  end.

(** [DecodeHex]; [None] is the error. *)
Definition DecodeHex (s : list Z) : option (list Z) :=
  let (b, ok) := DecodeString (trim_0x s) in if ok then Some b else None.

Definition MustDecodeHex (s : list Z) : outcome (list Z) := of_option (DecodeHex s).

Definition BadNibble : Z := 2 ^ 64 - 1.

Definition DecodeNibble (c : Z) : Z :=
  if (48 <=? c) && (c <=? 57) then c - 48
  else if (65 <=? c) && (c <=? 70) then c - 65 + 10
  else if (97 <=? c) && (c <=? 102) then c - 97 + 10
  else BadNibble.

(** ** Hashes and addresses *)

Definition stringToBytes (s : list Z) : list Z :=
  let s := trim_0x s in
  let s := if len s mod 2 =? 1 then 48 :: s else s in
  fst (DecodeString s).

Definition StringToHash (s : list Z) : Hash := BytesToHash (stringToBytes s).
Definition StringToAddress (s : list Z) : Address := BytesToAddress (stringToBytes s).

Definition Hash_String (h : Hash) : list Z := EncodeToHex (Hash_Bytes h).

(** [unicode.ToUpper] of an ASCII letter or digit. *)
Definition to_upper (c : Z) : Z := if (97 <=? c) && (c <=? 122) then c - 32 else c.

Section text.
Context `{Runtime}.

(** [checksumEncode], EIP-55; the index into the hash is in range. *)
Definition checksumEncode (a : Address) : list Z :=
  let lowercaseHex := drop 2 (EncodeToHex (Address_Bytes a)) in
  let hashedAddress := drop 2 (EncodeToHex (Keccak256 lowercaseHex)) in
  let result := imap (fun idx ch =>
    let h := default 0 (hashedAddress !! idx) in
    if (48 <=? ch) && (ch <=? 57) || (48 <=? h) && (h <=? 55) then ch else to_upper ch) lowercaseHex in
  prefix_0x ++ result.

Definition Address_String (a : Address) : list Z := checksumEncode a.

Definition Hash_MarshalText (h : Hash) : list Z := Hash_String h.
Definition Address_MarshalText (a : Address) : list Z := Address_String a.

End text.

Definition Hash_UnmarshalText (input : list Z) : Hash := BytesToHash (stringToBytes input).

(** [None] is the error for a wrong length. *)
Definition Address_UnmarshalText (input : list Z) : option Address :=
  let buf := stringToBytes input in
  if negb (len buf =? 20) then None else Some (BytesToAddress buf).

(** ** Round trips *)

Lemma fromHexChar_hex d : 0 <= d < 16 -> fromHexChar (hex_char d) = Some d.
Proof.
  intros Hd. unfold hex_char, fromHexChar. destruct (Z.ltb_spec d 10).
  - replace ((48 <=? 48 + d) && (48 + d <=? 57)) with true by lia. f_equal. lia.
  - replace ((48 <=? 87 + d) && (87 + d <=? 57)) with false by lia.
    replace ((97 <=? 87 + d) && (87 + d <=? 102)) with true by lia. f_equal. lia.
Qed.

Lemma fromHexChar_upper d : 0 <= d < 16 -> fromHexChar (to_upper (hex_char d)) = Some d.
Proof.
  intros Hd. unfold hex_char, to_upper. destruct (Z.ltb_spec d 10).
  - replace ((97 <=? 48 + d) && (48 + d <=? 122)) with false by lia.
    unfold fromHexChar. replace ((48 <=? 48 + d) && (48 + d <=? 57)) with true by lia. f_equal. lia.
  - replace ((97 <=? 87 + d) && (87 + d <=? 122)) with true by lia. unfold fromHexChar.
    replace ((48 <=? 87 + d - 32) && (87 + d - 32 <=? 57)) with false by lia.
    replace ((97 <=? 87 + d - 32) && (87 + d - 32 <=? 102)) with false by lia.
    replace ((65 <=? 87 + d - 32) && (87 + d - 32 <=? 70)) with true by lia. f_equal. lia.
Qed.

(** Characters that read as the digits of [b], in either case. *)
Definition spells (s : list Z) (b : list Z) : Prop :=
  Forall2 (fun c d => fromHexChar c = Some d) s (flat_map (fun x => [x / 16; x mod 16]) b).

Lemma DecodeString_spells b s : spells s b -> DecodeString s = (b, true).
Proof.
  revert s; induction b as [|x b IH]; intros s Hs; unfold spells in Hs; cbn [flat_map app] in Hs.
  { by apply Forall2_nil_inv_r in Hs as ->. }
  apply Forall2_cons_inv_r in Hs as (c1 & s1 & H1 & Hs & ->).
  apply Forall2_cons_inv_r in Hs as (c2 & s2 & H2 & Hs & ->).
  cbn [DecodeString]. rewrite H1, H2, (IH s2 Hs). f_equal. f_equal.
  pose proof (Z.div_mod x 16). lia.
Qed.

Lemma EncodeToString_spells b : Forall is_byte b -> spells (EncodeToString b) b.
Proof.
  unfold spells, EncodeToString. induction 1 as [|x b Hx _ IH]; cbn [flat_map app]; [constructor|].
  unfold is_byte in Hx. constructor; [|constructor; [|exact IH]]; apply fromHexChar_hex.
  - split; [apply Z.div_pos; lia|apply Z.div_lt_upper_bound; lia].
  - apply Z.mod_pos_bound. lia.
Qed.

Lemma DecodeHex_EncodeToHex b : Forall is_byte b -> DecodeHex (EncodeToHex b) = Some b.
Proof.
  intros Hb. unfold DecodeHex. change (trim_0x (EncodeToHex b)) with (EncodeToString b).
  by rewrite (DecodeString_spells b) by (by apply EncodeToString_spells).
Qed.

Lemma EncodeToHex_inj b b' : Forall is_byte b -> Forall is_byte b' -> EncodeToHex b = EncodeToHex b' -> b = b'.
Proof.
  intros Hb Hb' E. enough (Some b = Some b') by congruence.
  rewrite <- (DecodeHex_EncodeToHex b Hb), <- (DecodeHex_EncodeToHex b' Hb'). by rewrite E.
Qed.

Lemma EncodeToString_length b : length (EncodeToString b) = (2 * length b)%nat.
Proof. unfold EncodeToString. induction b as [|x b IH]; [done|]. cbn [flat_map app length] in *. lia. Qed.

Lemma spells_length s b : spells s b -> length s = (2 * length b)%nat.
Proof.
  intros Hs%Forall2_length. rewrite Hs. clear Hs. induction b as [|x b IH]; [done|].
  cbn [flat_map app length] in *. lia.
Qed.

Lemma stringToBytes_spells s b : spells s b -> stringToBytes (prefix_0x ++ s) = b.
Proof.
  intros Hs. unfold stringToBytes, prefix_0x. cbn [app trim_0x Z.eqb Pos.eqb andb].
  assert (len s mod 2 = 0) as ->.
  { unfold len. rewrite (spells_length s b Hs), Nat2Z.inj_mul. rewrite Z.mul_comm. apply Z_mod_mult. }
  cbn [Z.eqb]. by rewrite (DecodeString_spells b s Hs).
Qed.

Lemma spells_cases s b (f : nat -> Z -> Z) :
  spells s b ->
  (forall i c d, fromHexChar c = Some d -> s !! i = Some c -> fromHexChar (f i c) = Some d) ->
  spells (imap f s) b.
Proof.
  unfold spells. intros Hs Hf. apply Forall2_same_length_lookup_2.
  { rewrite length_imap. by apply Forall2_length in Hs. }
  intros i x y Hx Hy. rewrite list_lookup_imap in Hx.
  destruct (s !! i) as [c|] eqn:Ec; [|done]. injection Hx as <-.
  apply (Hf i c y); [|done]. exact (Forall2_lookup_lr _ _ _ _ _ _ Hs Ec Hy).
Qed.

Section facts.
Context `{Runtime}.

Lemma checksum_spells a :
  exists s, checksumEncode a = prefix_0x ++ s /\ spells s (Address_Bytes a).
Proof.
  eexists. split; [done|].
  assert (drop 2 (EncodeToHex (Address_Bytes a)) = EncodeToString (Address_Bytes a)) as -> by done.
  apply spells_cases.
  - apply EncodeToString_spells, be_encode_bytes.
  - intros i c d Hc Hi. cbv zeta. match goal with |- fromHexChar (if ?b then _ else _) = _ => destruct b; [done|] end.
    unfold EncodeToString in Hi. apply list_elem_of_lookup_2, list_elem_of_In, in_flat_map in Hi as (x & Hx & Hin).
    assert (is_byte x) as Hbx.
    { pose proof (be_encode_bytes AddressLength a) as Hb. rewrite List.Forall_forall in Hb. by apply Hb. }
    unfold is_byte in Hbx.
    assert (exists e, 0 <= e < 16 /\ c = hex_char e) as (e & He & ->).
    { destruct Hin as [<-|[<-|[]]]; eexists; (split; [|done]).
      - split; [apply Z.div_pos; lia|apply Z.div_lt_upper_bound; lia].
      - apply Z.mod_pos_bound. lia. }
    rewrite fromHexChar_upper by done. by rewrite fromHexChar_hex in Hc.
Qed.

(** An address that is printed and read again. *)
Lemma StringToAddress_String a : is_addr a -> StringToAddress (Address_String a) = a.
Proof.
  intros Ha. unfold StringToAddress, Address_String.
  destruct (checksum_spells a) as (s & -> & Hs). rewrite (stringToBytes_spells _ _ Hs).
  unfold BytesToAddress, Address_Bytes. rewrite be_encode_length. change (Nat.min _ _) with 20%nat.
  rewrite !Nat.sub_diag. by apply be_decode_encode_small.
Qed.

Lemma Address_String_inj a b : is_addr a -> is_addr b -> Address_String a = Address_String b -> a = b.
Proof.
  intros Ha Hb E. rewrite <- (StringToAddress_String a Ha), <- (StringToAddress_String b Hb). by rewrite E.
Qed.

End facts.
