(* ===== verification/Chain.v ===== *)
(** The chain's data, src/types: logs and receipts (receipt.go), transactions
    (transaction.go), headers, bodies and blocks (header.go). *)

From Stdlib Require Import ZArith Lia.
From stdpp Require Import base list numbers.
From S2P Require Import Prelude Types.

Open Scope Z_scope.

(** ** Logs and receipts *)

Record Log := mkLog { lAddress : Address; lTopics : list Hash; lData : list Z }.

(** [ReceiptStatus], a uint64. *)
Definition ReceiptFailed : Z := 0.
Definition ReceiptSuccess : Z := 1.

(** A nil [Status] is [None]; the bloom filter is its 256 bytes. *)
Record Receipt := mkReceipt {
  rRoot : Hash;
  rCumulativeGasUsed : Z;
  rLogsBloom : list Z;
  rLogs : list Log;
  rStatus : option Z;
  rGasUsed : Z;
  rContractAddress : Address;
  rTxHash : Hash
}.

(** ** Transactions *)

(** [To], [V], [R] and [S] may be nil; the gas price and the value are never.
    [Size] caches the length of the encoding, which no code changes
    afterwards, so the cache is left out. *)
Record Transaction := mkTransaction {
  tNonce : Z;
  tGasPrice : Z;
  tGas : Z;
  tTo : option Address;
  tValue : Z;
  tInput : list Z;
  tV : option Z;
  tR : option Z;
  tS : option Z;
  tHash : Hash;
  tFrom : Address
}.

Definition with_from (from : Address) (x : Transaction) : Transaction :=
  mkTransaction (tNonce x) (tGasPrice x) (tGas x) (tTo x) (tValue x) (tInput x)
    (tV x) (tR x) (tS x) (tHash x) from.

Definition with_hash (hash : Hash) (x : Transaction) : Transaction :=
  mkTransaction (tNonce x) (tGasPrice x) (tGas x) (tTo x) (tValue x) (tInput x)
    (tV x) (tR x) (tS x) hash (tFrom x).

Definition with_signature (v r s : Z) (x : Transaction) : Transaction :=
  mkTransaction (tNonce x) (tGasPrice x) (tGas x) (tTo x) (tValue x) (tInput x)
    (Some v) (Some r) (Some s) (tHash x) (tFrom x).

Definition IsContractCreation (x : Transaction) : bool :=
  match tTo x with None => true | Some _ => false end.

(** [hex.EncodeToString], as the values of the hexadecimal digits. *)
Definition hex_digits (b : list Z) : list Z := flat_map (fun x => [x / 16; x mod 16]) b.

(** [strings.Count(s, sub) > 0]. *)
Fixpoint occurs (sub s : list Z) : bool :=
  bool_decide (take (length sub) s = sub) ||
  match s with [] => false | _ :: s' => occurs sub s' end.

Definition WithdrawFeeMethod : list Z := [0; 7; 0; 15; 4; 6; 8; 13].
Definition FixedRewardMethod : list Z := [5; 7; 3; 0; 5; 9; 2; 0].

Definition IsWithdrawFee (x : Transaction) : bool := occurs WithdrawFeeMethod (hex_digits (tInput x)).
Definition IsFixedRewardTx (x : Transaction) : bool := occurs FixedRewardMethod (hex_digits (tInput x)).

Definition ExceedsBlockGasLimit (x : Transaction) (blockGasLimit : Z) : bool := blockGasLimit <? tGas x.

Definition IsUnderpriced (x : Transaction) (priceLimit : Z) : bool := tGasPrice x <? priceLimit.

(** [Cost]: gas * gasPrice + value. *)
Definition Cost (x : Transaction) : Z := tGasPrice x * tGas x + tValue x.

(** [Copy]: [SetBits] of the words of [R] and [S] drops their signs. *)
Definition Transaction_Copy (x : Transaction) : Transaction :=
  mkTransaction (tNonce x) (tGasPrice x) (tGas x) (tTo x) (tValue x) (tInput x)
    (tV x) (Z.abs <$> tR x) (Z.abs <$> tS x) (tHash x) (tFrom x).

(** ** Headers and blocks *)

(** [hNonce] is an [8]byte. *)
Record Header := mkHeader {
  hParentHash : Hash;
  hSha3Uncles : Hash;
  hMiner : Address;
  hStateRoot : Hash;
  hTxRoot : Hash;
  hReceiptsRoot : Hash;
  hLogsBloom : list Z;
  hDifficulty : Z;
  hNumber : Z;
  hGasLimit : Z;
  hGasUsed : Z;
  hTimestamp : Z;
  hExtraData : list Z;
  hMixHash : Hash;
  hNonce : list Z;
  hHash : Hash
}.

Definition EmptyRootHash : Hash :=
  0x56e81f171bcc55a6ff8345e692c0f86e5b48e01b996cadc001622fb5e363b421.
Definition EmptyUncleHash : Hash :=
  0x1dcc4de8dec75d7aab85b567b6ccd41ad312451b948a7413f0a142fd40d49347.

(** [&Header{}]. *)
Definition zero_header : Header :=
  mkHeader 0 0 0 0 0 0 (replicate 256 0) 0 0 0 0 0 [] 0 (replicate 8 0) 0.

Definition Header_Equal (h hh : Header) : bool := hHash h =? hHash hh.

Definition HasBody (h : Header) : bool :=
  negb (hTxRoot h =? EmptyRootHash) || negb (hSha3Uncles h =? EmptyUncleHash).

Definition HasReceipts (h : Header) : bool := negb (hReceiptsRoot h =? EmptyRootHash).

Definition with_nonce (nonce : list Z) (h : Header) : Header :=
  mkHeader (hParentHash h) (hSha3Uncles h) (hMiner h) (hStateRoot h) (hTxRoot h)
    (hReceiptsRoot h) (hLogsBloom h) (hDifficulty h) (hNumber h) (hGasLimit h) (hGasUsed h)
    (hTimestamp h) (hExtraData h) (hMixHash h) nonce (hHash h).

Definition SetNonce_header (i : Z) (h : Header) : Header := with_nonce (be_encode 8 i) h.

Definition with_header_hash (hash : Hash) (h : Header) : Header :=
  mkHeader (hParentHash h) (hSha3Uncles h) (hMiner h) (hStateRoot h) (hTxRoot h)
    (hReceiptsRoot h) (hLogsBloom h) (hDifficulty h) (hNumber h) (hGasLimit h) (hGasUsed h)
    (hTimestamp h) (hExtraData h) (hMixHash h) (hNonce h) hash.

Record Body := mkBody { bodyTransactions : list Transaction; bodyUncles : list Header }.

Record Block := mkBlock {
  bkHeader : Header;
  bkTransactions : list Transaction;
  bkUncles : list Header
}.

Definition Block_Body (b : Block) : Body := mkBody (bkTransactions b) (bkUncles b).

Definition WithSeal (b : Block) (header : Header) : Block :=
  mkBlock header (bkTransactions b) (bkUncles b).
