(* ===== verification/Heap.v ===== *)
(** The binary heap of the standard library package container/heap, on a slice
    with a comparison of elements: the queues of the transaction pool and of the
    consensus messages.  The operations permute the elements, keep the heap
    order, and [Pop] returns a least element. *)

From Stdlib Require Import Arith ZArith Lia ZifyNat.
From stdpp Require Import base list sorting.
From S2P Require Import Prelude.

Open Scope nat_scope.

(** [lia] reasons about the division that gives the parent. *)
Local Ltac Zify.zify_post_hook ::= Z.div_mod_to_equations.

Section heap.
Context {A : Type} (Less : A -> A -> bool).
Implicit Types (l : list A) (x y z : A).

(** ** Operations *)

(** The [Less(i, j)] and [Swap(i, j)] of the slice; the indices are in range. *)
Definition less_at l (i j : nat) : bool :=
  match l !! i, l !! j with Some x, Some y => Less x y | _, _ => false end.

Definition swap l (i j : nat) : list A :=
  match l !! i, l !! j with
  | Some x, Some y => <[i := y]> (<[j := x]> l)
  | _, _ => l
  end.

Definition parent (j : nat) : nat := (j - 1) / 2.

(** The loop goes from [j] to smaller indices: [S j] turns are enough. *)
Fixpoint up_loop (fuel : nat) l (j : nat) : list A :=
  match fuel with
  | O => l
  | S fuel' =>
    let i := parent j in
    if (i =? j) || negb (less_at l j i) then l
    else up_loop fuel' (swap l i j) i
  end.
Definition up l (j : nat) : list A := up_loop (S j) l j.

(** The loop goes to larger indices below [n]: [n] turns are enough. *)
Fixpoint down_loop (fuel : nat) l (i n : nat) : list A :=
  match fuel with
  | O => l
  | S fuel' =>
    let j1 := 2 * i + 1 in
    if n <=? j1 then l
    else
      let j2 := j1 + 1 in
      let j := if (j2 <? n) && less_at l j2 j1 then j2 else j1 in
      if negb (less_at l j i) then l
      else down_loop fuel' (swap l i j) j n
  end.
Definition down l (i n : nat) : list A := down_loop n l i n.

Definition heap_Push l x : list A := up (l ++ [x]) (length l).

(** [None] on an empty slice, where the package panics. *)
Definition heap_Pop l : option (A * list A) :=
  let n := length l - 1 in
  let l' := down (swap l 0 n) 0 n in
  x ← l' !! n; Some (x, take n l').

(** The loop of [Init]: [down] from [i - 1] to 0. *)
Fixpoint init_loop (i n : nat) l : list A :=
  match i with
  | O => l
  | S i' => init_loop i' n (down l i' n)
  end.
Definition heap_Init l : list A := init_loop (length l / 2) (length l) l.

(** ** The order *)

(** [Less] is a strict weak order. *)
Class WeakOrder : Prop := {
  Less_asym x y : Less x y = true -> Less y x = false;
  Less_negtrans x y z : Less y x = false -> Less z y = false -> Less z x = false
}.

Definition le_at l (i j : nat) : Prop :=
  forall x y, l !! i = Some x -> l !! j = Some y -> Less y x = false.

(** Every element is not less than its parent. *)
Definition heap_ok l : Prop := forall j, 0 < j -> le_at l (parent j) j.

(** ** Swapping *)

Lemma lookup_swap l i j k : i < length l -> j < length l ->
  swap l i j !! k = if decide (k = i) then l !! j else if decide (k = j) then l !! i else l !! k.
Proof.
  intros Hi Hj. unfold swap.
  destruct (lookup_lt_is_Some_2 l i Hi) as [x Ex]. destruct (lookup_lt_is_Some_2 l j Hj) as [y Ey].
  rewrite Ex, Ey. destruct (decide (k = i)) as [->|].
  { rewrite list_lookup_insert_eq; [done|by rewrite length_insert]. }
  rewrite list_lookup_insert_ne by done. destruct (decide (k = j)) as [->|].
  - by rewrite list_lookup_insert_eq.
  - by rewrite list_lookup_insert_ne.
Qed.

Lemma length_swap l i j : length (swap l i j) = length l.
Proof. unfold swap. repeat case_match; by rewrite ?length_insert. Qed.

Lemma swap_perm l i j : swap l i j ≡ₚ l.
Proof.
  unfold swap. destruct (l !! i) as [x|] eqn:Ex; [|done]. destruct (l !! j) as [y|] eqn:Ey; [|done].
  destruct (decide (i = j)) as [->|Hne].
  { replace y with x by congruence. rewrite list_insert_insert, decide_True by done.
    by rewrite list_insert_id. }
  apply Permutation_inj. split; [by rewrite !length_insert|].
  exists (fun k => if decide (k = i) then j else if decide (k = j) then i else k). split.
  - intros a b. repeat case_decide; congruence.
  - intros k. pose proof (lookup_lt_Some _ _ _ Ex). pose proof (lookup_lt_Some _ _ _ Ey).
    pose proof (lookup_swap l i j k ltac:(done) ltac:(done)) as E. unfold swap in E. rewrite Ex, Ey in E.
    rewrite E. repeat case_decide; congruence.
Qed.

Lemma less_at_Some l i j : less_at l i j = true ->
  exists x y, l !! i = Some x /\ l !! j = Some y /\ Less x y = true.
Proof. unfold less_at. repeat case_match; try done. intros. eauto. Qed.

Lemma le_at_not_less l i j : less_at l j i = false -> le_at l i j.
Proof. unfold less_at. intros Hl x y Ex Ey. by rewrite Ex, Ey in Hl. Qed.

(** ** Permutations *)

Lemma up_perm fuel l j : up_loop fuel l j ≡ₚ l.
Proof.
  revert l j; induction fuel as [|fuel IH]; intros l j; [done|]. cbn [up_loop].
  case_match; [done|]. by rewrite IH, swap_perm.
Qed.

Lemma down_perm fuel l i n : down_loop fuel l i n ≡ₚ l.
Proof.
  revert l i; induction fuel as [|fuel IH]; intros l i; [done|]. cbn [down_loop].
  case_match; [done|]. case_match; [done|]. by rewrite IH, swap_perm.
Qed.

Lemma Push_perm l x : heap_Push l x ≡ₚ x :: l.
Proof. unfold heap_Push, up. rewrite up_perm. symmetry. apply Permutation_cons_append. Qed.

Lemma Pop_perm l x l' : heap_Pop l = Some (x, l') -> x :: l' ≡ₚ l.
Proof.
  unfold heap_Pop. set (n := length l - 1). set (m := down (swap l 0 n) 0 n).
  assert (m ≡ₚ l) as Hm by (subst m; unfold down; by rewrite down_perm, swap_perm).
  destruct (m !! n) as [y|] eqn:E; [|done]. cbn. intros [= -> <-].
  rewrite <- Hm. rewrite <- (take_drop_middle m n x E) at 2.
  rewrite drop_ge. { apply Permutation_cons_append. }
  apply Permutation_length in Hm. lia.
Qed.

Lemma Pop_empty : heap_Pop [] = None.
Proof. done. Qed.

Lemma Pop_Some l : l <> [] -> exists x l', heap_Pop l = Some (x, l').
Proof.
  intros Hl. unfold heap_Pop. set (n := length l - 1). set (m := down (swap l 0 n) 0 n).
  assert (length m = length l) as Hm.
  { apply Permutation_length. subst m. unfold down. by rewrite down_perm, swap_perm. }
  destruct (lookup_lt_is_Some_2 m n) as [x E]. { destruct l; [done|]. subst n. cbn in *. lia. }
  rewrite E. eauto.
Qed.

(** ** The order is kept *)

Context `{!WeakOrder}.

Lemma parent_lt j : 0 < j -> parent j < j.
Proof. unfold parent. intros. lia. Qed.

Lemma le_at_trans l i j k : j < length l -> le_at l i j -> le_at l j k -> le_at l i k.
Proof.
  intros Hj H1 H2 x z Ex Ez. destruct (lookup_lt_is_Some_2 l j Hj) as [y Ey].
  eapply Less_negtrans; [by eapply H1|by eapply H2].
Qed.

(** The slice is a heap but for the element at [j], which may be too small. *)
Definition rising l (j : nat) : Prop :=
  (forall k, 0 < k -> k <> j -> le_at l (parent k) k) /\
  (forall k, 0 < k -> parent k = j -> 0 < j -> le_at l (parent j) k).

Lemma rising_step l j : j < length l -> 0 < j -> rising l j -> less_at l j (parent j) = true ->
  rising (swap l (parent j) j) (parent j).
Proof.
  intros Hj H0 [Hr Hc] Hl. set (i := parent j). assert (i < j) as Hij by (by apply parent_lt).
  destruct (less_at_Some _ _ _ Hl) as (y & x & Ey & Ex & Hlt). fold i in Ex.
  assert (forall k, swap l i j !! k =
    if decide (k = i) then Some y else if decide (k = j) then Some x else l !! k) as Hs.
  { intros k. rewrite lookup_swap by lia. by rewrite Ex, Ey. }
  split.
  - intros k Hk Hki u v. rewrite !Hs. destruct (decide (k = i)); [done|].
    destruct (decide (k = j)) as [->|Hkj].
    + fold i. rewrite decide_True by done. intros [= <-] [= <-]. by apply Less_asym.
    + destruct (decide (parent k = i)) as [Epi|Hpi].
      * intros [= <-] Ev. assert (Less v x = false) as Hvx.
        { apply (Hr k Hk Hkj); [by rewrite Epi|done]. }
        eapply Less_negtrans; [|exact Hvx]. by apply Less_asym.
      * destruct (decide (parent k = j)) as [Epj|Hpj].
        { intros [= <-] Ev. by apply (Hc k Hk Epj H0). }
        intros Eu Ev. by apply (Hr k Hk Hkj).
  - intros k Hk Epk Hi u v. rewrite !Hs. assert (parent i < i) by (by apply parent_lt).
    rewrite (decide_False (P := parent i = i)), (decide_False (P := parent i = j)) by lia.
    assert (k <> i). { intros ->. lia. } rewrite (decide_False (P := k = i)) by done.
    assert (forall w, l !! parent i = Some u -> l !! i = Some w -> Less w u = false) as Hpi.
    { intros w. apply (Hr i Hi). lia. }
    destruct (decide (k = j)) as [->|Hkj].
    + intros Eu [= <-]. by apply Hpi.
    + intros Eu Ev. eapply Less_negtrans; [by apply Hpi|]. apply (Hr k Hk Hkj); [by rewrite Epk|done].
Qed.

Lemma up_ok fuel l j : j < fuel -> j < length l -> rising l j -> heap_ok (up_loop fuel l j).
Proof.
  revert l j; induction fuel as [|fuel IH]; intros l j Hf Hj Hr; [lia|]. cbn [up_loop].
  destruct (Nat.eqb_spec (parent j) j) as [E|Hne]; cbn [orb].
  { assert (j = 0) as ->. { destruct (decide (0 < j)) as [Hp|]; [apply parent_lt in Hp|]; lia. }
    intros k Hk. apply (proj1 Hr); lia. }
  assert (0 < j) as H0. { destruct (decide (j = 0)) as [->|]; [done|lia]. }
  destruct (less_at l j (parent j)) eqn:El; cbn [negb].
  - pose proof (parent_lt j H0). apply IH; [lia|by rewrite length_swap; lia|by apply rising_step].
  - intros k Hk. destruct (decide (k = j)) as [->|]; [by apply le_at_not_less|by apply (proj1 Hr)].
Qed.

Lemma Push_ok l x : heap_ok l -> heap_ok (heap_Push l x).
Proof.
  intros Hl. apply up_ok; [lia|rewrite length_app; cbn; lia|].
  assert (forall k, length l < k -> (l ++ [x]) !! k = None) as Hout.
  { intros k Hk. apply lookup_ge_None. rewrite length_app. cbn. lia. }
  split.
  - intros k Hk Hkl u v Eu Ev. destruct (decide (length l < k)); [by rewrite Hout in Ev|].
    pose proof (parent_lt k Hk). rewrite lookup_app_l in Eu, Ev by lia. by apply (Hl k Hk).
  - intros k Hk Ep H0 u v Eu Ev. pose proof (parent_lt k Hk). by rewrite Hout in Ev by lia.
Qed.

(** Below [n], a heap but for the element at [i], which may be too large. *)
Definition sinking l (i n : nat) : Prop :=
  (forall k, 0 < k < n -> parent k <> i -> le_at l (parent k) k) /\
  (forall k, 0 < k < n -> parent k = i -> 0 < i -> le_at l (parent i) k).

Definition heap_below l (n : nat) : Prop := forall k, 0 < k < n -> le_at l (parent k) k.

(** The smaller child of [i]. *)
Lemma child_spec l i n j :
  n <= length l -> 2 * i + 1 < n ->
  j = (if (2 * i + 1 + 1 <? n) && less_at l (2 * i + 1 + 1) (2 * i + 1) then 2 * i + 1 + 1 else 2 * i + 1) ->
  i < j < n /\ parent j = i /\ forall k, 0 < k < n -> parent k = i -> le_at l j k.
Proof.
  intros Hn H1 ->. set (j1 := 2 * i + 1) in *. set (j2 := j1 + 1).
  assert (forall k, le_at l k k) as Hrefl.
  { intros k u v Eu Ev. replace v with u by congruence. destruct (Less u u) eqn:E; [|done].
    by rewrite (Less_asym u u E) in E. }
  assert (forall k, 0 < k -> parent k = i -> k = j1 \/ k = j2) as Hk.
  { unfold parent. intros k Hk0 Hk. subst j1 j2. lia. }
  assert (parent j1 = i /\ parent j2 = i) as [E1 E2] by (unfold parent; subst j1 j2; lia).
  destruct (Nat.ltb_spec j2 n) as [H2|H2]; cbn [andb].
  - destruct (less_at l j2 j1) eqn:El.
    + split_and!; [subst j1 j2; lia|lia|done|]. intros k Hkn Ek.
      destruct (Hk k ltac:(lia) Ek) as [->| ->]; [|apply Hrefl]. intros u v Eu Ev.
      destruct (less_at_Some _ _ _ El) as (a & b & Ea & Eb & Hab). simplify_eq. by apply Less_asym.
    + split_and!; [subst j1; lia|lia|done|]. intros k Hkn Ek.
      destruct (Hk k ltac:(lia) Ek) as [->| ->]; [apply Hrefl|]. by apply le_at_not_less.
  - split_and!; [subst j1; lia|lia|done|]. intros k Hkn Ek.
    destruct (Hk k ltac:(lia) Ek) as [->| ->]; [apply Hrefl|]. subst j1 j2. lia.
Qed.

Lemma sinking_step l i j n :
  n <= length l -> i < j < n -> parent j = i -> (forall k, 0 < k < n -> parent k = i -> le_at l j k) ->
  sinking l i n -> less_at l j i = true -> sinking (swap l i j) j n.
Proof.
  intros Hn Hij Epj Hmin [Hs Hg] Hl. destruct (less_at_Some _ _ _ Hl) as (y & x & Ey & Ex & Hlt).
  assert (forall k, swap l i j !! k =
    if decide (k = i) then Some y else if decide (k = j) then Some x else l !! k) as Hsw.
  { intros k. rewrite lookup_swap by lia. by rewrite Ex, Ey. }
  split.
  - intros k Hk Hpk u v. rewrite !Hsw. rewrite (decide_False (P := parent k = j)) by done.
    destruct (decide (k = i)) as [->|Hki].
    { pose proof (parent_lt i ltac:(lia)). rewrite decide_False by lia. intros Eu [= <-].
      by apply (Hg j ltac:(lia) Epj ltac:(lia)). }
    destruct (decide (parent k = i)) as [Epi|Hpi].
    + intros [= <-]. destruct (decide (k = j)) as [->|]; [intros [= <-]; by apply Less_asym|].
      intros Ev. by apply (Hmin k Hk Epi).
    + destruct (decide (k = j)) as [->|]; [done|]. by apply (Hs k Hk Hpi).
  - intros k Hk Epk Hj u v. rewrite !Hsw. rewrite Epj, (decide_True (P := i = i)) by done.
    pose proof (parent_lt k ltac:(lia)).
    rewrite (decide_False (P := k = i)), (decide_False (P := k = j)) by lia.
    intros [= <-] Ev. apply (Hs k Hk ltac:(lia)); [by rewrite Epk|done].
Qed.

Lemma down_ok fuel l i n : n <= length l -> n <= fuel + i -> sinking l i n ->
  heap_below (down_loop fuel l i n) n.
Proof.
  revert l i; induction fuel as [|fuel IH]; intros l i Hn Hf Hs.
  { intros k Hk. cbn. apply (proj1 Hs k Hk). pose proof (parent_lt k ltac:(lia)). lia. }
  cbn [down_loop]. destruct (Nat.leb_spec n (2 * i + 1)) as [Hle|Hlt].
  { intros k Hk. apply (proj1 Hs k Hk). unfold parent. lia. }
  set (j := if _ && _ then _ else _).
  destruct (child_spec l i n j Hn Hlt eq_refl) as (Hij & Epj & Hmin).
  destruct (less_at l j i) eqn:El; cbn [negb].
  - apply IH; [by rewrite length_swap|lia|by eapply sinking_step].
  - intros k Hk. destruct (decide (parent k = i)) as [E|]; [|by apply (proj1 Hs)].
    rewrite E. eapply le_at_trans; [|by apply le_at_not_less|by apply Hmin]. lia.
Qed.

(** [down] below [n] does not touch the rest. *)
Lemma down_above fuel l i n k : n <= length l -> i < n -> n <= k -> down_loop fuel l i n !! k = l !! k.
Proof.
  revert l i; induction fuel as [|fuel IH]; intros l i Hn Hi Hk; [done|]. cbn [down_loop].
  destruct (Nat.leb_spec n (2 * i + 1)) as [Hle|Hlt]; [done|].
  set (j := if _ && _ then _ else _).
  destruct (child_spec l i n j Hn Hlt eq_refl) as (Hij & _ & _).
  case_match; [done|]. rewrite IH by (rewrite ?length_swap; lia).
  rewrite lookup_swap by lia. by rewrite !decide_False by lia.
Qed.

Lemma Pop_ok l x l' : heap_ok l -> heap_Pop l = Some (x, l') -> heap_ok l'.
Proof.
  unfold heap_Pop. set (n := length l - 1). set (m := down (swap l 0 n) 0 n). intros Hl.
  destruct (m !! n) as [y|] eqn:E; [|done]. cbn. intros [= -> <-].
  assert (0 < length l) as H0.
  { destruct l; [|cbn; lia]. by subst m n. }
  assert (heap_below m n) as Hb.
  { apply down_ok; [rewrite length_swap; lia|lia|]. split.
    - intros k Hk Hpk u v. rewrite !lookup_swap by lia. pose proof (parent_lt k ltac:(lia)).
      rewrite !decide_False by lia. by apply (Hl k ltac:(lia)).
    - lia. }
  intros k Hk u v Eu Ev. pose proof (parent_lt k Hk).
  assert (k < n). { apply lookup_lt_Some in Ev. rewrite length_take in Ev. lia. }
  rewrite lookup_take_lt in Eu, Ev by lia. by apply (Hb k ltac:(lia)).
Qed.

(** The root of a heap is a least element. *)
Lemma root_least l x k y : heap_ok l -> l !! 0 = Some x -> l !! k = Some y -> Less y x = false.
Proof.
  intros Hl Ex. revert y. induction k as [k IH] using lt_wf_ind. intros y Ey.
  destruct (decide (k = 0)) as [->|Hk].
  { replace y with x by congruence. destruct (Less x x) eqn:E; [|done]. by rewrite (Less_asym x x E) in E. }
  pose proof (parent_lt k ltac:(lia)). destruct (lookup_lt_is_Some_2 l (parent k)) as [z Ez].
  { apply lookup_lt_Some in Ey. lia. }
  eapply Less_negtrans; [by eapply IH|]. by apply (Hl k ltac:(lia)).
Qed.

Lemma Pop_root l x l' : heap_Pop l = Some (x, l') -> l !! 0 = Some x.
Proof.
  unfold heap_Pop. set (n := length l - 1).
  destruct (decide (length l = 0)) as [Hl|Hl]. { apply nil_length_inv in Hl as ->. done. }
  destruct (decide (n = 0)) as [Hn|Hn].
  - rewrite Hn. unfold down. cbn [down_loop]. destruct l as [|a [|b l]]; [done| |cbn in *; lia].
    cbn. by intros [= <- <-].
  - unfold down. rewrite down_above by (rewrite ?length_swap; lia). rewrite lookup_swap by lia.
    rewrite decide_False, decide_True by lia. destruct (l !! 0); [|done]. by intros [= -> _].
Qed.

Lemma Pop_least l x l' y : heap_ok l -> heap_Pop l = Some (x, l') -> y ∈ l -> Less y x = false.
Proof.
  intros Hl Hp [k Ek]%list_elem_of_lookup_1. eapply root_least; [done|by eapply Pop_root|done].
Qed.

Lemma nil_ok : heap_ok [].
Proof. intros k Hk x y. by rewrite lookup_nil. Qed.

End heap.
