(* ===== verification/Validators.v ===== *)
(** The consensus engine's data, src/consensus/pvbft: the validator set
    (validator.go), messages and views (proto), the round state (state.go) and
    the round timeout (timeout.go). *)

From Stdlib Require Import ZArith Lia.
From stdpp Require Import base gmap list numbers.
From S2P Require Import Prelude Types Text Chain.

Open Scope Z_scope.

(** ** Validator sets *)

(** A nil map entry is a missing one; [randPools] is never filled. *)
Record ValidatorSet := mkValidatorSet {
  vsStakeTotal : Z;
  vsValidators : list Address;
  vsRandPools : list Address;
  vsStakeList : gmap Z Z
}.

Definition NewValidatorSet : ValidatorSet := mkValidatorSet 0 [] [] ∅.

Definition AppendStakeList (account : Address) (amount : Z) (v : ValidatorSet) : ValidatorSet :=
  mkValidatorSet (vsStakeTotal v) (vsValidators v) (vsRandPools v) (<[account := amount]> (vsStakeList v)).

Definition SetValidators (validators : list Address) (v : ValidatorSet) : ValidatorSet :=
  mkValidatorSet (vsStakeTotal v) validators (vsRandPools v) (vsStakeList v).

Definition SetStakeTotal (total : Z) (v : ValidatorSet) : ValidatorSet :=
  mkValidatorSet total (vsValidators v) (vsRandPools v) (vsStakeList v).

Definition GetValidators (v : ValidatorSet) : list Address := vsValidators v.
Definition Add (addr : Address) (v : ValidatorSet) : ValidatorSet :=
  SetValidators (vsValidators v ++ [addr]) v.
Definition Len (v : ValidatorSet) : Z := len (vsValidators v).
Definition Plen (v : ValidatorSet) : Z := len (vsRandPools v).

Definition calcPooLen (v : ValidatorSet) : Z :=
  let vLen := Len v in
  let bmod := vLen / 100 * 100 in
  uint64 ((if bmod =? 0 then 0 else vLen - vLen mod bmod) + 100).

(** The search shared by [ValidatorSet.Index] and [Snapshot.Index]. *)
Fixpoint index_from (i : Z) (addr : Address) (set : list Address) : Z :=
  match set with
  | [] => -1
  | a :: set => if a =? addr then i else index_from (i + 1) addr set
  end.

Definition Index (addr : Address) (v : ValidatorSet) : Z := index_from 0 addr (vsValidators v).
Definition Includes (addr : Address) (v : ValidatorSet) : bool := negb (Index addr v =? -1).

(** The element-wise comparison of [ValidatorSet.Equal] and [Snapshot.SetEqual]. *)
Fixpoint set_equal (x y : list Address) : bool :=
  match x, y with
  | [], [] => true
  | a :: x, b :: y => (a =? b) && set_equal x y
  | _, _ => false
  end.

Definition Equal (v : ValidatorSet) (vv : list Address) : bool := set_equal (vsValidators v) vv.

(** [Del] of both types: the loop ranges over the old slice while the deletion
    shifts its backing array [arr], whose first [m] elements are the current
    slice. *)
Fixpoint del_loop (n : nat) (i : nat) (addr : Address) (arr : list Address) (m : nat)
    : outcome (list Address * nat) :=
  match n with
  | O => Ok (arr, m)
  | S n =>
    if default 0 (arr !! i) =? addr then
      if (m <? i + 1)%nat then Panic
      else del_loop n (S i) addr (take i arr ++ drop (i + 1) (take m arr) ++ drop (m - 1) arr) (m - 1)
    else del_loop n (S i) addr arr m
  end.

Definition del (addr : Address) (set : list Address) : outcome (list Address) :=
  obind (del_loop (length set) 0 addr set (length set)) (fun '(arr, m) => Ok (take m arr)).

Definition Del (addr : Address) (v : ValidatorSet) : outcome ValidatorSet :=
  obind (del addr (vsValidators v)) (fun set => Ok (SetValidators set v)).

(** Integer division truncates, so an empty set gives 0. *)
Definition max_faulty (n : Z) : Z := Z.quot (n - 1) 3.
Definition MaxFaultyNodes (v : ValidatorSet) : Z := max_faulty (Len v).

(** An empty set is a division by zero. *)
Definition pick_validator (seed : Z) (v : ValidatorSet) : outcome Address :=
  if Len v =? 0 then Panic
  else of_option (vsValidators v !! Z.to_nat (seed mod uint64 (Len v))).

Definition CalcProposerPoa (round : Z) (lastProposer : Address) (v : ValidatorSet) : outcome Address :=
  let seed :=
    if lastProposer =? 0 then round
    else
      let offset := if negb (Index lastProposer v =? -1) then Index lastProposer v else 0 in
      uint64 (uint64 offset + round + 1) in
  pick_validator seed v.

Definition CalcProposer (randInt : Z) (v : ValidatorSet) : outcome Address := pick_validator randInt v.

(** ** Messages *)

Record View := mkView { vRound : Z; vSequence : Z }.

(** The type is an open enumeration: a peer may send any number.  [View] and
    [Proposal] are nil when the peer leaves them out; strings are bytes. *)
Record MessageReq := mkMessageReq {
  mType : Z;
  mFrom : list Z;
  mSeal : list Z;
  mSignature : list Z;
  mView : option View;
  mDigest : list Z;
  mProposal : option (list Z)
}.

Definition MessageReq_Preprepare : Z := 0.
Definition MessageReq_Prepare : Z := 1.
Definition MessageReq_Commit : Z := 2.
Definition MessageReq_RoundChange : Z := 3.

Definition set_from (from : list Z) (m : MessageReq) : MessageReq :=
  mkMessageReq (mType m) from (mSeal m) (mSignature m) (mView m) (mDigest m) (mProposal m).
Definition set_signature (sig : list Z) (m : MessageReq) : MessageReq :=
  mkMessageReq (mType m) (mFrom m) (mSeal m) sig (mView m) (mDigest m) (mProposal m).

Definition FromAddr (m : MessageReq) : Address := StringToAddress (mFrom m).
Definition ViewMsg (sequence round : Z) : View := mkView round sequence.

(** ** The round state *)

Inductive IbftState := AcceptState | RoundChangeState | ValidateState | CommitState | SyncState.

#[export] Instance IbftState_eq_dec : EqDecision IbftState.
Proof. solve_decision. Defined.

Inductive stateError := errIncorrectBlockLocked | errBlockVerificationFailed | errFailedToInsertBlock.

Record currentState := mkCurrentState {
  csVset : ValidatorSet;
  csState : IbftState;
  csBlock : option Block;
  csProposer : Address;
  csView : option View;
  csPrepared : gmap Z MessageReq;
  csCommitted : gmap Z MessageReq;
  csRoundMessages : gmap Z (gmap Z MessageReq);
  csLocked : bool;
  csErr : option stateError
}.

Definition set_csVset (x : ValidatorSet) (c : currentState) : currentState :=
  mkCurrentState x (csState c) (csBlock c) (csProposer c) (csView c) (csPrepared c) (csCommitted c)
    (csRoundMessages c) (csLocked c) (csErr c).
Definition setState (x : IbftState) (c : currentState) : currentState :=
  mkCurrentState (csVset c) x (csBlock c) (csProposer c) (csView c) (csPrepared c) (csCommitted c)
    (csRoundMessages c) (csLocked c) (csErr c).
Definition set_csBlock (x : option Block) (c : currentState) : currentState :=
  mkCurrentState (csVset c) (csState c) x (csProposer c) (csView c) (csPrepared c) (csCommitted c)
    (csRoundMessages c) (csLocked c) (csErr c).
Definition set_csProposer (x : Address) (c : currentState) : currentState :=
  mkCurrentState (csVset c) (csState c) (csBlock c) x (csView c) (csPrepared c) (csCommitted c)
    (csRoundMessages c) (csLocked c) (csErr c).
Definition set_csView (x : option View) (c : currentState) : currentState :=
  mkCurrentState (csVset c) (csState c) (csBlock c) (csProposer c) x (csPrepared c) (csCommitted c)
    (csRoundMessages c) (csLocked c) (csErr c).
Definition set_messages (prepared committed : gmap Z MessageReq)
    (roundMessages : gmap Z (gmap Z MessageReq)) (c : currentState) : currentState :=
  mkCurrentState (csVset c) (csState c) (csBlock c) (csProposer c) (csView c) prepared committed
    roundMessages (csLocked c) (csErr c).
Definition set_csErr (x : option stateError) (c : currentState) : currentState :=
  mkCurrentState (csVset c) (csState c) (csBlock c) (csProposer c) (csView c) (csPrepared c) (csCommitted c)
    (csRoundMessages c) (csLocked c) x.

Definition resetRoundMsgs (c : currentState) : currentState := set_messages ∅ ∅ ∅ c.

Definition newState : currentState :=
  resetRoundMsgs (mkCurrentState NewValidatorSet AcceptState None 0 None ∅ ∅ ∅ false None).

Definition NumValid (c : currentState) : Z := 2 * MaxFaultyNodes (csVset c).

(** [getErr] returns the error and consumes it. *)
Definition getErr (c : currentState) : option stateError * currentState := (csErr c, set_csErr None c).

(** [maxRound]: the highest round above 0 with more than F messages. *)
Definition maxRound (c : currentState) : option Z :=
  let num := MaxFaultyNodes (csVset c) + 1 in
  map_fold (fun k round acc =>
    if Z.of_nat (size round) <? num then acc
    else if default 0 acc <? k then Some k else acc) None (csRoundMessages c).

(** A nil view is a nil dereference. *)
Definition cs_CalcProposerPoa (lastProposer : Address) (c : currentState) : outcome currentState :=
  obind (of_option (csView c)) (fun view =>
  obind (CalcProposerPoa (vRound view) lastProposer (csVset c)) (fun p => Ok (set_csProposer p c))).

Definition cs_CalcProposer (randInt : Z) (c : currentState) : outcome currentState :=
  obind (CalcProposer (big.Uint64 randInt) (csVset c)) (fun p => Ok (set_csProposer p c)).

Definition lock (c : currentState) : currentState :=
  mkCurrentState (csVset c) (csState c) (csBlock c) (csProposer c) (csView c) (csPrepared c) (csCommitted c)
    (csRoundMessages c) true (csErr c).

Definition unlock (c : currentState) : currentState :=
  mkCurrentState (csVset c) (csState c) None (csProposer c) (csView c) (csPrepared c) (csCommitted c)
    (csRoundMessages c) false (csErr c).

Definition cleanRound (round : Z) (c : currentState) : currentState :=
  set_messages (csPrepared c) (csCommitted c) (delete round (csRoundMessages c)) c.

Definition addMessage (msg : MessageReq) (c : currentState) : outcome currentState :=
  let addr := FromAddr msg in
  if negb (Includes addr (csVset c)) then Ok c
  else if mType msg =? MessageReq_Commit then
    Ok (set_messages (csPrepared c) (<[addr := msg]> (csCommitted c)) (csRoundMessages c) c)
  else if mType msg =? MessageReq_Prepare then
    Ok (set_messages (<[addr := msg]> (csPrepared c)) (csCommitted c) (csRoundMessages c) c)
  else if mType msg =? MessageReq_RoundChange then
    obind (of_option (mView msg)) (fun view =>
    let round := default ∅ (csRoundMessages c !! vRound view) in
    Ok (set_messages (csPrepared c) (csCommitted c)
          (<[vRound view := <[addr := msg]> round]> (csRoundMessages c)) c))
  else Ok c.

(** [AddRoundMessage], and the number of messages of the round. *)
Definition AddRoundMessage (msg : MessageReq) (c : currentState) : outcome (Z * currentState) :=
  if negb (mType msg =? MessageReq_RoundChange) then Ok (0, c)
  else
    obind (addMessage msg c) (fun c =>
    obind (of_option (mView msg)) (fun view =>
    Ok (Z.of_nat (size (default ∅ (csRoundMessages c !! vRound view))), c))).

Definition addPrepared (msg : MessageReq) (c : currentState) : outcome currentState :=
  if negb (mType msg =? MessageReq_Prepare) then Ok c else addMessage msg c.

Definition addCommitted (msg : MessageReq) (c : currentState) : outcome currentState :=
  if negb (mType msg =? MessageReq_Commit) then Ok c else addMessage msg c.

Definition numPrepared (c : currentState) : Z := Z.of_nat (size (csPrepared c)).
Definition numCommitted (c : currentState) : Z := Z.of_nat (size (csCommitted c)).

(** ** Timeouts, in seconds *)

Definition baseTimeout : Z := 10.
Definition maxTimeout : Z := 300.

Definition exponentialTimeout (exponent : Z) : Z :=
  if 8 <? exponent then maxTimeout
  else baseTimeout + (if 0 <? exponent then 2 ^ exponent else 0).
