(* ===== verification/MsgQueue.v ===== *)
(** The message queues of the consensus engine, src/consensus/pvbft/msg_queue.go. *)

From Stdlib Require Import ZArith Lia.
From stdpp Require Import base gmap list numbers.
From S2P Require Import Prelude Types Text Chain Heap Validators.

Open Scope Z_scope.

(** ** Tasks *)

(** [MsgType], in the order of priority. *)
Definition msgRoundChange : Z := 0.
Definition msgPreprepare : Z := 1.
Definition msgCommit : Z := 2.
Definition msgPrepare : Z := 3.

Definition protoTypeToMsg (msgType : Z) : Z :=
  if msgType =? MessageReq_Preprepare then msgPreprepare
  else if msgType =? MessageReq_Prepare then msgPrepare
  else if msgType =? MessageReq_Commit then msgCommit
  else msgRoundChange.

Definition msgToState (msg : Z) : outcome IbftState :=
  if msg =? msgRoundChange then Ok RoundChangeState
  else if msg =? msgPreprepare then Ok AcceptState
  else if (msg =? msgPrepare) || (msg =? msgCommit) then Ok ValidateState
  else Panic.

Record msgTask := mkMsgTask { qView : option View; qMsg : Z; qObj : MessageReq }.

Definition cmpView (v y : View) : Z :=
  if negb (vSequence v =? vSequence y) then (if vSequence v <? vSequence y then -1 else 1)
  else if negb (vRound v =? vRound y) then (if vRound v <? vRound y then -1 else 1)
  else 0.

Definition task_view (t : msgTask) : View := default (mkView 0 0) (qView t).
Definition nil_view (t : msgTask) : bool := match qView t with None => true | Some _ => false end.

(** [msgQueueImpl.Less], for tasks with a view. *)
Definition task_Less (ti tj : msgTask) : bool :=
  let vi := task_view ti in
  let vj := task_view tj in
  if negb (vSequence vi =? vSequence vj) then vSequence vi <? vSequence vj
  else if negb (vRound vi =? vRound vj) then vRound vi <? vRound vj
  else qMsg ti <? qMsg tj.

(** ** Queues *)

Record msgQueue := mkMsgQueue {
  roundChangeStateQueue : list msgTask;
  acceptStateQueue : list msgTask;
  validateStateQueue : list msgTask
}.

Definition newMsgQueue : msgQueue := mkMsgQueue [] [] [].

Definition getQueue (state : IbftState) (m : msgQueue) : list msgTask :=
  match state with
  | RoundChangeState => roundChangeStateQueue m
  | AcceptState => acceptStateQueue m
  | _ => validateStateQueue m
  end.

Definition putQueue (state : IbftState) (q : list msgTask) (m : msgQueue) : msgQueue :=
  match state with
  | RoundChangeState => mkMsgQueue q (acceptStateQueue m) (validateStateQueue m)
  | AcceptState => mkMsgQueue (roundChangeStateQueue m) q (validateStateQueue m)
  | _ => mkMsgQueue (roundChangeStateQueue m) (acceptStateQueue m) q
  end.

(** [heap.Push].  The first comparison is with the last element's parent, and
    dereferences both views; a task without a view can only be in a queue of
    one, so there the comparison meets it. *)
Definition queue_push (t : msgTask) (q : list msgTask) : outcome (list msgTask) :=
  match q with
  | [] => Ok [t]
  | _ => if existsb nil_view (t :: q) then Panic else Ok (heap_Push task_Less q t)
  end.

Definition queue_pushMessage (t : msgTask) (m : msgQueue) : outcome msgQueue :=
  obind (msgToState (qMsg t)) (fun state =>
  obind (queue_push t (getQueue state m)) (fun q => Ok (putQueue state q m))).

(** The loop of [readMessage] pops in every turn, so the length of the queue
    is enough. *)
Fixpoint read_loop (fuel : nat) (state : IbftState) (current : View) (q : list msgTask)
    : outcome (option msgTask * list msgTask) :=
  match q !! 0%nat with
  | None => Ok (None, q)
  | Some t =>
    obind (of_option (qView t)) (fun v =>
    let future :=
      if decide (state = RoundChangeState) then vSequence current <? vSequence v
      else 0 <? cmpView v current in
    if future then Ok (None, q)
    else
      match fuel with
      | O => OutOfFuel
      | S fuel' =>
        let q' := match heap_Pop task_Less q with Some (_, q') => q' | None => q end in
        if cmpView v current <? 0 then read_loop fuel' state current q'
        else Ok (Some t, q')
      end)
  end.

Definition readMessage (state : IbftState) (current : View) (m : msgQueue)
    : outcome (option msgTask * msgQueue) :=
  let q := getQueue state m in
  obind (read_loop (length q) state current q) (fun '(t, q') => Ok (t, putQueue state q' m)).

(** ** Reading a queue *)

#[export] Instance task_order : WeakOrder task_Less.
Proof.
  assert (forall x y, task_Less x y = true <->
    vSequence (task_view x) < vSequence (task_view y) \/
    vSequence (task_view x) = vSequence (task_view y) /\
      (vRound (task_view x) < vRound (task_view y) \/
       vRound (task_view x) = vRound (task_view y) /\ qMsg x < qMsg y)) as Hl.
  { intros x y. unfold task_Less.
    destruct (Z.eqb_spec (vSequence (task_view x)) (vSequence (task_view y))) as [->|]; cbn [negb]; [|lia].
    destruct (Z.eqb_spec (vRound (task_view x)) (vRound (task_view y))) as [->|]; cbn [negb]; lia. }
  split; intros x y; [|intros z]; repeat match goal with |- context [task_Less ?a ?b] =>
    let E := fresh in pose proof (Hl a b) as E; destruct (task_Less a b) end; try done; lia.
Qed.

Definition views_ok (q : list msgTask) : Prop := Forall (fun t => is_Some (qView t)) q.

(** Views in their order. *)
Definition view_lt (v w : View) : Prop :=
  vSequence v < vSequence w \/ vSequence v = vSequence w /\ vRound v < vRound w.

Lemma cmpView_spec v w :
  (cmpView v w <? 0) = true <-> view_lt v w.
Proof.
  unfold cmpView, view_lt. destruct (Z.eqb_spec (vSequence v) (vSequence w)) as [->|]; cbn [negb].
  - destruct (Z.eqb_spec (vRound v) (vRound w)) as [->|]; cbn [negb]; [lia|].
    destruct (Z.ltb_spec (vRound v) (vRound w)); lia.
  - destruct (Z.ltb_spec (vSequence v) (vSequence w)); lia.
Qed.

Lemma cmpView_gt v w : (0 <? cmpView v w) = true <-> view_lt w v.
Proof.
  unfold cmpView, view_lt. destruct (Z.eqb_spec (vSequence v) (vSequence w)) as [->|]; cbn [negb].
  - destruct (Z.eqb_spec (vRound v) (vRound w)) as [->|]; cbn [negb]; [lia|].
    destruct (Z.ltb_spec (vRound v) (vRound w)); lia.
  - destruct (Z.ltb_spec (vSequence v) (vSequence w)); lia.
Qed.

(** A message whose turn has not come yet in [state]. *)
Definition is_future (state : IbftState) (current v : View) : Prop :=
  match state with
  | RoundChangeState => vSequence current < vSequence v
  | _ => view_lt current v
  end.

Lemma future_spec state current v :
  (if decide (state = RoundChangeState) then vSequence current <? vSequence v
   else 0 <? cmpView v current) = true <-> is_future state current v.
Proof.
  destruct (decide (state = RoundChangeState)) as [->|Hne].
  - cbn. lia.
  - rewrite cmpView_gt. by destruct state.
Qed.

Lemma head_least q t u : heap_ok task_Less q -> q !! 0%nat = Some t -> u ∈ q -> task_Less u t = false.
Proof. intros Hq Ht [k Hk]%list_elem_of_lookup_1. exact (root_least _ q t k u Hq Ht Hk). Qed.

Lemma Less_future state current t u :
  task_Less u t = false -> is_future state current (task_view t) -> is_future state current (task_view u).
Proof.
  unfold task_Less. intros Hl Hf.
  destruct (Z.eqb_spec (vSequence (task_view u)) (vSequence (task_view t))) as [E|]; cbn [negb] in Hl.
  - destruct (Z.eqb_spec (vRound (task_view u)) (vRound (task_view t))); cbn [negb] in Hl;
      destruct state; cbn in *; unfold view_lt in *; lia.
  - destruct state; cbn in *; unfold view_lt in *; lia.
Qed.

(** What [readMessage] does to a queue: it drops messages of older views, and
    returns the next message of its turn, or nothing when only messages of the
    future are left. *)
Inductive reads (state : IbftState) (current : View) (q : list msgTask)
    : option msgTask -> list msgTask -> Prop :=
| reads_some old t q' :
    q ≡ₚ old ++ t :: q' -> Forall (fun u => view_lt (task_view u) current) old ->
    ~ view_lt (task_view t) current -> ~ is_future state current (task_view t) ->
    Forall (fun u => task_Less u t = false) q' ->
    reads state current q (Some t) q'
| reads_none old q' :
    q ≡ₚ old ++ q' -> Forall (fun u => view_lt (task_view u) current) old ->
    Forall (fun u => is_future state current (task_view u)) q' ->
    reads state current q None q'.

Lemma read_loop_spec fuel state current q :
  heap_ok task_Less q -> views_ok q -> (length q <= fuel)%nat ->
  exists o q', read_loop fuel state current q = Ok (o, q') /\ reads state current q o q' /\
    heap_ok task_Less q' /\ views_ok q'.
Proof.
  revert q; induction fuel as [|fuel IH]; intros q Hq Hv Hf.
  { assert (q = []) as -> by (destruct q; [done|cbn in Hf; lia]). exists None, [].
    split; [done|]. split; [by apply (reads_none _ _ _ []); constructor|done]. }
  cbn [read_loop]. destruct (q !! 0%nat) as [t|] eqn:Et.
  2:{ destruct q; [|done]. exists None, []. split; [done|].
      split; [by apply (reads_none _ _ _ []); constructor|done]. }
  assert (is_Some (qView t)) as [v Ev].
  { unfold views_ok in Hv. rewrite List.Forall_forall in Hv. apply Hv, list_elem_of_In.
    by eapply list_elem_of_lookup_2. }
  assert (task_view t = v) as Etv by (unfold task_view; by rewrite Ev).
  rewrite Ev. cbn [of_option obind].
  destruct (if decide (state = RoundChangeState) then _ else _) eqn:Efut.
  { apply future_spec in Efut. exists None, q. split; [done|]. split; [|done].
    apply (reads_none _ _ _ []); [done|constructor|]. apply List.Forall_forall. intros u Hu%list_elem_of_In.
    eapply Less_future; [by eapply head_least|]. by rewrite Etv. }
  destruct (Pop_Some task_Less q) as (x & q' & Ep); [by destruct q|]. rewrite Ep.
  pose proof (Pop_root task_Less q x q' Ep) as Hr. rewrite Et in Hr. injection Hr as <-.
  pose proof (Pop_perm task_Less _ _ _ Ep) as Hp. pose proof (Pop_ok task_Less _ _ _ Hq Ep) as Hq'.
  assert (views_ok q') as Hv'.
  { unfold views_ok in *. rewrite <- Hp in Hv. by apply List.Forall_cons_iff in Hv as [_ Hv]. }
  destruct (cmpView v current <? 0) eqn:Ec.
  - destruct (IH q' Hq' Hv') as (o & q2 & -> & Hr2 & ? & ?).
    { apply Permutation_length in Hp. cbn [length] in Hp. lia. }
    exists o, q2. split; [done|]. split; [|done]. apply cmpView_spec in Ec. rewrite <- Etv in Ec.
    destruct Hr2 as [old u q2 P1 F1 N1 N2 L|old q2 P1 F1 F2].
    + apply (reads_some _ _ _ (t :: old)); [|by constructor|done|done|done]. by rewrite <- Hp, P1.
    + apply (reads_none _ _ _ (t :: old)); [|by constructor|done]. by rewrite <- Hp, P1.
  - exists (Some t), q'. split; [done|]. split; [|done].
    apply (reads_some _ _ _ []); [by rewrite <- Hp|constructor| | |].
    + rewrite Etv, <- cmpView_spec. by rewrite Ec.
    + rewrite Etv, <- future_spec. by rewrite Efut.
    + apply List.Forall_forall. intros u Hu%list_elem_of_In. eapply head_least; [exact Hq|exact Et|].
      rewrite <- Hp. by apply list_elem_of_further.
Qed.

Lemma queue_push_ok t q : heap_ok task_Less q -> views_ok q -> is_Some (qView t) ->
  exists q', queue_push t q = Ok q' /\ q' ≡ₚ t :: q /\ heap_ok task_Less q' /\ views_ok q'.
Proof.
  intros Hq Hv Ht. unfold queue_push. destruct q as [|u q0] eqn:E.
  { exists [t]. split_and!; [done|done| |by constructor].
    intros j Hj x y Hx Hy. destruct j as [|j]; [lia|]. by destruct j. }
  rewrite <- E in *. assert (existsb nil_view (t :: q) = false) as ->.
  { apply not_true_is_false. intros (u' & Hin & Hn)%existsb_exists.
    assert (views_ok (t :: q)) as Hv2 by (by constructor). unfold views_ok in Hv2.
    rewrite List.Forall_forall in Hv2. destruct (Hv2 u' Hin) as [v Ev]. unfold nil_view in Hn. by rewrite Ev in Hn. }
  exists (heap_Push task_Less q t). pose proof (Push_perm task_Less q t) as Hp.
  split_and!; [done|done|exact (Push_ok _ _ _ Hq)|]. unfold views_ok. rewrite Hp. by constructor.
Qed.

(** A message without a view stops the node, at the latest when it is read. *)
Lemma nil_view_panics fuel state current t q :
  qView t = None -> obind (queue_push t q) (read_loop fuel state current) = Panic.
Proof.
  intros Ht. unfold queue_push. destruct q as [|u q0]; cbn [obind existsb].
  - destruct fuel; cbn; by rewrite Ht.
  - unfold nil_view at 1. by rewrite Ht.
Qed.
