(* ===== verification/Snapshots.v ===== *)
(** Validator snapshots, src/consensus/pvbft/snapshot.go: votes, snapshots, and
    the store that keeps them sorted by block number. *)

From Stdlib Require Import ZArith Lia.
From stdpp Require Import base gmap list numbers sorting.
From S2P Require Import Prelude Types Text Chain Validators.

Open Scope Z_scope.

(** ** Votes and snapshots *)

Record Vote := mkVote { voteValidator : Address; voteAddress : Address; voteAuthorize : bool }.

Definition Vote_Equal (v vv : Vote) : bool :=
  if negb (voteValidator v =? voteValidator vv) then false
  else if negb (voteAddress v =? voteAddress vv) then false
  else if negb (eqb (voteAuthorize v) (voteAuthorize vv)) then false
  else true.

Definition Vote_Copy (v : Vote) : Vote := mkVote (voteValidator v) (voteAddress v) (voteAuthorize v).

Record Snapshot := mkSnapshot {
  sNumber : Z;
  sHash : list Z;
  sVotes : list Vote;
  sSet : list Address
}.

Module Snap.

Definition SetEqual (vv : list Address) (s : Snapshot) : bool := set_equal (sSet s) vv.

Fixpoint votes_equal (x y : list Vote) : bool :=
  match x, y with
  | [], [] => true
  | a :: x, b :: y => Vote_Equal a b && votes_equal x y
  | _, _ => false
  end.

Definition Equal (s ss : Snapshot) : bool := votes_equal (sVotes s) (sVotes ss) && SetEqual (sSet ss) s.

Definition Index (addr : Address) (s : Snapshot) : Z := index_from 0 addr (sSet s).
Definition Includes (addr : Address) (s : Snapshot) : bool := negb (Index addr s =? -1).

Definition Del (addr : Address) (s : Snapshot) : outcome Snapshot :=
  obind (del addr (sSet s)) (fun set => Ok (mkSnapshot (sNumber s) (sHash s) (sVotes s) set)).

Definition MaxFaultyNodes (s : Snapshot) : Z := max_faulty (len (sSet s)).

Definition Count (h : Vote -> bool) (s : Snapshot) : Z :=
  foldl (fun count v => if h v then count + 1 else count) 0 (sVotes s).

(** The loop of [RemoveVotes] removes an element or moves on, so the number of
    votes is enough. *)
Fixpoint remove_loop (fuel : nat) (h : Vote -> bool) (i : nat) (votes : list Vote) : list Vote :=
  match fuel with
  | O => votes
  | S fuel' =>
    match votes !! i with
    | None => votes
    | Some v =>
      if h v then remove_loop fuel' h i (take i votes ++ drop (i + 1) votes)
      else remove_loop fuel' h (i + 1) votes
    end
  end.
Definition RemoveVotes (h : Vote -> bool) (s : Snapshot) : Snapshot :=
  mkSnapshot (sNumber s) (sHash s) (remove_loop (length (sVotes s)) h 0 (sVotes s)) (sSet s).

(** [Copy]; the hash is not copied, the set is shared. *)
Definition Copy (s : Snapshot) : Snapshot :=
  mkSnapshot (sNumber s) [] (Vote_Copy <$> sVotes s) (sSet s).

End Snap.

(** ** The store *)

(** [sort.Sort] by number: a sorted permutation, not stable. *)
Class Sorting := {
  sort_Sort : list Snapshot -> list Snapshot;
  sort_perm l : sort_Sort l ≡ₚ l;
  sort_sorted l : StronglySorted (fun s ss => sNumber s <= sNumber ss) (sort_Sort l)
}.

Record snapshotStore := mkStore { lastNumber : Z; storeList : list Snapshot }.

Definition newSnapshotStore : snapshotStore := mkStore 0 [].

(** [sort.Search]: the interval halves, so its length is enough. *)
Fixpoint search_loop (fuel : nat) (f : nat -> bool) (i j : nat) : nat :=
  match fuel with
  | O => i
  | S fuel' =>
    if (i <? j)%nat then
      let h := ((i + j) / 2)%nat in
      if f h then search_loop fuel' f i h else search_loop fuel' f (S h) j
    else i
  end.
Definition sort_Search (n : nat) (f : nat -> bool) : nat := search_loop n f 0 n.

Module Store.

Definition getLastBlock (s : snapshotStore) : Z := lastNumber s.
Definition updateLastBlock (num : Z) (s : snapshotStore) : snapshotStore := mkStore num (storeList s).

(** The predicate of both searches; indices are in range. *)
Definition at_least (num : Z) (l : list Snapshot) (i : nat) : bool :=
  match l !! i with Some s => num <=? sNumber s | None => false end.

Definition deleteLower (num : Z) (s : snapshotStore) : snapshotStore :=
  let l := storeList s in
  mkStore (lastNumber s) (drop (sort_Search (length l) (at_least num l)) l).

Definition find (num : Z) (s : snapshotStore) : option Snapshot :=
  let l := storeList s in
  match list.last l with
  | None => None
  | Some last =>
    if sNumber last <? num then Some last
    else
      let i := sort_Search (length l) (at_least num l) in
      if (i <? length l)%nat then
        if (i =? 0)%nat then l !! 0%nat
        else
          match l !! i with
          | Some s => if sNumber s =? num then Some s else l !! (i - 1)%nat
          | None => None
          end
      else None
  end.

Section sorting.
Context `{Sorting}.

Definition add (snap : Snapshot) (s : snapshotStore) : snapshotStore :=
  mkStore (lastNumber s) (sort_Sort (storeList s ++ [snap])).

End sorting.

Fixpoint replace_first (snap : Snapshot) (l : list Snapshot) : list Snapshot :=
  match l with
  | [] => []
  | s :: l => if sNumber s =? sNumber snap then snap :: l else s :: replace_first snap l
  end.
Definition replace (snap : Snapshot) (s : snapshotStore) : snapshotStore :=
  mkStore (lastNumber s) (replace_first snap (storeList s)).

End Store.

(** ** Facts *)

Lemma index_from_spec i addr set : 0 <= i ->
  (index_from i addr set = -1 /\ addr ∉ set) \/
  (exists k, index_from i addr set = i + Z.of_nat k /\ set !! k = Some addr).
Proof.
  revert i; induction set as [|a set IH]; intros i Hi; cbn [index_from].
  { left. split; [done|apply not_elem_of_nil]. }
  destruct (Z.eqb_spec a addr) as [->|Hne].
  { right. exists 0%nat. split; [lia|done]. }
  destruct (IH (i + 1)) as [[E Hn]|(k & E & Hk)]; [lia| |].
  - left. split; [done|]. rewrite not_elem_of_cons. split; [congruence|done].
  - right. exists (S k). split; [lia|done].
Qed.

Lemma includes_spec addr set : negb (index_from 0 addr set =? -1) = true <-> addr ∈ set.
Proof.
  destruct (index_from_spec 0 addr set) as [[-> Hn]|(k & -> & Hk)]; [lia| |].
  - done.
  - split; [intros _; by eapply list_elem_of_lookup_2|]. intros _.
    destruct (Z.eqb_spec (0 + Z.of_nat k) (-1)); [lia|done].
Qed.

Lemma set_equal_spec x y : set_equal x y = true <-> x = y.
Proof.
  revert y; induction x as [|a x IH]; intros [|b y]; cbn; try done.
  rewrite andb_true_iff, IH, Z.eqb_eq. split; [by intros [-> ->]|by intros [= -> ->]].
Qed.

(** [sort.Search] on a predicate that stays true once it is true. *)
Lemma search_loop_spec n fuel f i j : (j - i <= fuel)%nat -> (i <= j <= n)%nat ->
  (forall a b, (a <= b < n)%nat -> f a = true -> f b = true) ->
  (forall a, (a < i)%nat -> f a = false) ->
  let r := search_loop fuel f i j in
  (i <= r <= j)%nat /\ (forall a, (a < r)%nat -> f a = false) /\ ((r < j)%nat -> f r = true).
Proof.
  intros Hf Hij Hmono. revert i j Hf Hij.
  induction fuel as [|fuel IH]; intros i j Hf Hij Hlow; cbn [search_loop].
  { split; [lia|]. split; [done|lia]. }
  destruct (Nat.ltb_spec i j) as [Hlt|]; [|split; [lia|]; split; [done|lia]].
  assert (i <= (i + j) / 2 < j)%nat as Hh.
  { split; [apply Nat.div_le_lower_bound; lia|apply Nat.Div0.div_lt_upper_bound; lia]. }
  set (h := ((i + j) / 2)%nat) in *. destruct (f h) eqn:Eh.
  - destruct (IH i h) as (H1 & H2 & H3); [lia|lia|done|]. split; [lia|]. split; [done|].
    intros Hr. destruct (decide (search_loop fuel f i h < h)%nat) as [|Hge]; [auto|].
    replace (search_loop fuel f i h) with h by lia. done.
  - destruct (IH (S h) j) as (H1 & H2 & H3); [lia|lia| |split; [lia|by split]].
    intros a Ha. destruct (f a) eqn:Ea; [|done]. rewrite (Hmono a h) in Eh; [done|lia|done].
Qed.

Lemma sort_Search_spec n f :
  (forall a b, (a <= b < n)%nat -> f a = true -> f b = true) ->
  let r := sort_Search n f in
  (r <= n)%nat /\ (forall a, (a < r)%nat -> f a = false) /\ ((r < n)%nat -> f r = true).
Proof.
  intros Hm. destruct (search_loop_spec n n f 0 n) as (H1 & H2 & H3); [lia|lia|done|lia|].
  split; [unfold sort_Search; lia|by split].
Qed.

Abbreviation by_number := (StronglySorted (fun s ss => sNumber s <= sNumber ss)).

Lemma sorted_lookup l a b s t : by_number l -> (a <= b)%nat ->
  l !! a = Some s -> l !! b = Some t -> sNumber s <= sNumber t.
Proof.
  intros Hs. revert a b. induction Hs as [|x l Hs IH Hx]; intros a b Hab Ha Hb; [done|].
  destruct a as [|a], b as [|b]; cbn in Ha, Hb; simplify_eq; [lia| |lia|].
  - rewrite List.Forall_forall in Hx. by eapply Hx, list_elem_of_In, list_elem_of_lookup_2.
  - eapply IH; [|done|done]. lia.
Qed.

Lemma at_least_mono num l a b : by_number l -> (a <= b < length l)%nat ->
  Store.at_least num l a = true -> Store.at_least num l b = true.
Proof.
  unfold Store.at_least. intros Hs Hab. destruct (l !! a) as [s|] eqn:Ea; [|done].
  destruct (lookup_lt_is_Some_2 l b) as [t Et]; [lia|]. rewrite Et.
  pose proof (sorted_lookup l a b s t Hs ltac:(lia) Ea Et). lia.
Qed.

(** The snapshot in force at a height: the latest one not above it, or the
    first one when all are above it. *)
Definition in_force (num : Z) (l : list Snapshot) (s : Snapshot) : Prop :=
  s ∈ l /\
  ((sNumber s <= num /\ forall t, t ∈ l -> sNumber t <= num -> sNumber t <= sNumber s) \/
   (forall t, t ∈ l -> num < sNumber s <= sNumber t)).

Lemma find_in_force num st : by_number (storeList st) ->
  match Store.find num st with
  | None => storeList st = []
  | Some s => in_force num (storeList st) s
  end.
Proof.
  intros Hs. unfold Store.find. set (l := storeList st) in *.
  destruct (list.last l) as [last|] eqn:El; [|by apply last_None in El].
  rewrite last_lookup in El.
  destruct (Z.ltb_spec (sNumber last) num) as [Hlt|Hge].
  { split; [by eapply list_elem_of_lookup_2|]. left. split; [lia|].
    intros t [k Ek]%list_elem_of_lookup_1 _. eapply (sorted_lookup l k (pred (length l))); try done.
    apply lookup_lt_Some in Ek. lia. }
  destruct (sort_Search_spec (length l) (Store.at_least num l)) as (H1 & H2 & H3).
  { intros a b. by apply at_least_mono. }
  set (i := sort_Search _ _) in *. destruct (Nat.ltb_spec i (length l)) as [Hi|Hi].
  2:{ assert (pred (length l) < i)%nat as Hp by (apply lookup_lt_Some in El; lia).
      apply H2 in Hp. unfold Store.at_least in Hp. rewrite El in Hp. lia. }
  specialize (H3 Hi). unfold Store.at_least in H3.
  assert (forall t k, l !! k = Some t -> (k < i)%nat -> sNumber t < num) as Hbelow.
  { intros t k Ek Hk. specialize (H2 k Hk). unfold Store.at_least in H2. rewrite Ek in H2. lia. }
  destruct (l !! i) as [s|] eqn:Ei; [|done].
  destruct (Nat.eqb_spec i 0) as [E0|Hne].
  { rewrite E0 in Ei. rewrite Ei. split; [by eapply list_elem_of_lookup_2|].
    assert (forall t, t ∈ l -> sNumber s <= sNumber t) as Hmin.
    { intros t [k Ek]%list_elem_of_lookup_1. eapply (sorted_lookup l 0 k); try done. lia. }
    destruct (Z.eq_dec (sNumber s) num) as [E|]; [left|right; intros t Ht; specialize (Hmin t Ht); lia].
    split; [lia|]. intros t _ Ht. lia. }
  destruct (Z.eqb_spec (sNumber s) num) as [E|Hne'].
  { split; [by eapply list_elem_of_lookup_2|]. left. split; [lia|]. intros t _ Ht. lia. }
  destruct (lookup_lt_is_Some_2 l (i - 1)%nat) as [u Eu]; [lia|]. rewrite Eu.
  split; [by eapply list_elem_of_lookup_2|]. left.
  pose proof (Hbelow u _ Eu ltac:(lia)). split; [lia|].
  intros t [k Ek]%list_elem_of_lookup_1 Ht. destruct (decide (k < i)%nat) as [Hk|Hk].
  - eapply (sorted_lookup l k (i - 1)); try done. lia.
  - pose proof (sorted_lookup l i k s t Hs ltac:(lia) Ei Ek). lia.
Qed.

(** Removing votes one by one is filtering them. *)
Lemma remove_loop_filter fuel h l1 l2 : (length l2 <= fuel)%nat ->
  Snap.remove_loop fuel h (length l1) (l1 ++ l2) = l1 ++ filter (fun v => h v = false) l2.
Proof.
  revert l1 l2; induction fuel as [|fuel IH]; intros l1 l2 Hf.
  { destruct l2; [|cbn in Hf; lia]. done. }
  cbn [Snap.remove_loop]. rewrite lookup_app_r, Nat.sub_diag by lia.
  destruct l2 as [|v l2]; cbn [lookup list_lookup]; [done|]. cbn [length] in Hf.
  rewrite filter_cons. destruct (h v) eqn:Eh.
  - rewrite take_app_le, take_ge, drop_app_ge by lia.
    replace (length l1 + 1 - length l1)%nat with 1%nat by lia. cbn [drop].
    rewrite drop_0, IH by lia. by rewrite decide_False by done.
  - rewrite decide_True by done. specialize (IH (l1 ++ [v]) l2 ltac:(lia)).
    rewrite length_app, <- !app_assoc in IH. exact IH.
Qed.

Lemma RemoveVotes_filter h s :
  sVotes (Snap.RemoveVotes h s) = filter (fun v => h v = false) (sVotes s).
Proof. exact (remove_loop_filter (length (sVotes s)) h [] (sVotes s) ltac:(done)). Qed.

(** Deleting a member that occurs once. *)
Lemma del_loop_skip n i addr arr m : (forall k, (i <= k < i + n)%nat -> arr !! k <> Some addr) ->
  (i + n <= length arr)%nat -> del_loop n i addr arr m = Ok (arr, m).
Proof.
  revert i; induction n as [|n IH]; intros i Hno Hl; cbn [del_loop]; [done|].
  destruct (lookup_lt_is_Some_2 arr i) as [a Ea]; [lia|]. rewrite Ea. cbn [default from_option id].
  destruct (Z.eqb_spec a addr) as [->|]; [exfalso; by apply (Hno i); [lia|]|].
  apply IH; [|lia]. intros k Hk. apply Hno. lia.
Qed.

Lemma del_spec addr l1 l2 : addr ∉ l1 -> addr ∉ l2 -> del addr (l1 ++ addr :: l2) = Ok (l1 ++ l2).
Proof.
  intros H1 H2. unfold del. set (set := l1 ++ addr :: l2).
  assert (length set = (length l1 + S (length l2))%nat) as Hl by (subst set; by rewrite length_app).
  assert (forall n i, (i + n = length l1)%nat ->
    del_loop (n + S (length l2)) i addr set (length set) =
    del_loop (S (length l2)) (length l1) addr set (length set)) as Hskip.
  { induction n as [|n IH]; intros i Hi; [by replace i with (length l1) by lia|].
    cbn [Nat.add del_loop]. destruct (lookup_lt_is_Some_2 l1 i) as [a Ea]; [lia|].
    change (set !! i) with ((l1 ++ addr :: l2) !! i). rewrite (lookup_app_l_Some l1 _ i a Ea). cbn [default from_option id].
    destruct (Z.eqb_spec a addr) as [->|]; [|apply IH; lia].
    exfalso. by eapply H1, list_elem_of_lookup_2. }
  rewrite Hl at 1. rewrite (Hskip (length l1) 0%nat eq_refl). cbn [del_loop].
  subst set. rewrite lookup_app_r, Nat.sub_diag by lia. cbn [lookup list_lookup default from_option id].
  rewrite Z.eqb_refl. destruct (Nat.ltb_spec (length (l1 ++ addr :: l2)) (length l1 + 1)); [lia|].
  rewrite take_app_le, take_ge by lia. rewrite (take_ge (l1 ++ addr :: l2)) by lia.
  rewrite (drop_app_ge l1) by lia. replace (length l1 + 1 - length l1)%nat with 1%nat by lia.
  cbn [drop]. rewrite drop_0, (app_assoc l1 l2).
  set (rest := drop _ _). set (m := (length (l1 ++ addr :: l2) - 1)%nat).
  assert (m = length (l1 ++ l2)) as Hm by (subst m; rewrite length_app; cbn; rewrite length_app; lia).
  rewrite del_loop_skip; cbn [obind].
  - rewrite Hm, take_app_le, take_ge by lia. done.
  - intros k Hk Ek. apply lookup_app_Some in Ek as [Ek|[Hge Ek]].
    + rewrite lookup_app_Some in Ek. destruct Ek as [Ek|[_ Ek]]; by apply list_elem_of_lookup_2 in Ek.
    + subst rest. rewrite lookup_drop, lookup_app_r in Ek by (rewrite !length_app in *; cbn [length] in *; lia).
      match type of Ek with _ !! ?n = _ => destruct n as [|j] eqn:Ej end.
      { rewrite !length_app in *. cbn [length] in *. lia. }
      by apply (list_elem_of_lookup_2 l2 j) in Ek.
  - subst rest. rewrite length_app, length_drop, <- Hm. fold m. subst m. rewrite !length_app. cbn [length]. lia.
Qed.
