(* ===== verification/Rlp.v ===== *)
(** The encodings of src/types/rlp_marshal.go, rlp_unmarshal.go,
    rlp_marshal_storage.go and rlp_unmarshal_storage.go, and the hashes of
    header_hash.go and transaction.go.  The package fastrlp, which builds,
    prints and parses the values, is a class. *)

From Stdlib Require Import ZArith Lia.
From stdpp Require Import base list numbers.
From S2P Require Import Prelude Types Chain.

Open Scope Z_scope.

(** ** The package fastrlp

    [NewArray] is [NewArray] followed by a [Set] per element, [NewBytes] also
    stands for [NewCopyBytes], and [Parser_Hash] for the method [Hash] of the
    parser.  A getter is [None] when it returns an error. *)
Class FastRLP := {
  Value : Type;
  NewArray : list Value -> Value;
  NewBytes : list Z -> Value;
  NewUint : Z -> Value;
  NewBigInt : option Z -> Value;
  NewNull : Value;
  NewNullArray : Value;
  MarshalTo : Value -> list Z;
  Parse : list Z -> option Value;
  GetElems : Value -> option (list Value);
  Value_Bytes : Value -> option (list Z);
  GetBytes : Value -> option nat -> option (list Z);
  GetHash : Value -> option (list Z);
  GetAddr : Value -> option (list Z);
  GetUint64 : Value -> option Z;
  GetBigInt : Value -> option Z;
  Parser_Hash : Value -> list Z
}.

(** What the code relies on: a value that is printed and parsed again reads as
    the value that was built.  [rlp_wf v] says that [v] was built from bytes,
    [decoded v v'] that [v'] was parsed from the encoding of [v]. *)
Class FastRLPOk `{FastRLP} `{Runtime} := {
  rlp_wf : Value -> Prop;
  decoded : Value -> Value -> Prop;
  wf_array vs : Forall rlp_wf vs -> rlp_wf (NewArray vs);
  wf_bytes b : Forall is_byte b -> rlp_wf (NewBytes b);
  wf_uint n : is_u64 n -> rlp_wf (NewUint n);
  wf_bigint x : rlp_wf (NewBigInt x);
  wf_null : rlp_wf NewNull;
  wf_nullarray : rlp_wf NewNullArray;
  parse_marshal v : rlp_wf v -> len (MarshalTo v) < 2 ^ 63 ->
    exists v', Parse (MarshalTo v) = Some v' /\ decoded v v';
  decoded_array vs v' : decoded (NewArray vs) v' ->
    exists vs', GetElems v' = Some vs' /\ Forall2 decoded vs vs';
  decoded_bytes b v' : decoded (NewBytes b) v' ->
    Value_Bytes v' = Some b /\
    GetBytes v' None = Some b /\
    (forall n, length b = n -> GetBytes v' (Some n) = Some b) /\
    (length b = 32%nat -> GetHash v' = Some b) /\
    (length b = 20%nat -> GetAddr v' = Some b) /\
    ((length b <= 8)%nat -> GetUint64 v' = Some (be_decode b));
  decoded_uint n v' : is_u64 n -> decoded (NewUint n) v' ->
    GetUint64 v' = Some n /\ Value_Bytes v' = Some (big_Bytes n);
  decoded_bigint x v' : decoded (NewBigInt x) v' ->
    GetBigInt v' = Some (Z.abs (default 0 x));
  decoded_null v' : decoded NewNull v' -> Value_Bytes v' = Some [] /\ GetBytes v' None = Some [];
  decoded_nullarray v' : decoded NewNullArray v' -> GetElems v' = Some [];
  decoded_hash v v' : decoded v v' -> Parser_Hash v' = Keccak256 (MarshalTo v)
}.

Section rlp.
Context `{FastRLP} `{Runtime}.

(** The variable [HeaderHash], which the consensus engine sets. *)
Context (HeaderHash : Header -> Hash).

(** ** Marshalling *)

Definition Transaction_MarshalRLPWith (t : Transaction) : Value :=
  NewArray
    [ NewUint (tNonce t);
      NewBigInt (Some (tGasPrice t));
      NewUint (tGas t);
      match tTo t with Some a => NewBytes (Address_Bytes a) | None => NewNull end;
      NewBigInt (Some (tValue t));
      NewBytes (tInput t);
      NewBigInt (tV t);
      NewBigInt (tR t);
      NewBigInt (tS t) ].

Definition Header_MarshalRLPWith (h : Header) : Value :=
  NewArray
    [ NewBytes (Hash_Bytes (hParentHash h));
      NewBytes (Hash_Bytes (hSha3Uncles h));
      NewBytes (Address_Bytes (hMiner h));
      NewBytes (Hash_Bytes (hStateRoot h));
      NewBytes (Hash_Bytes (hTxRoot h));
      NewBytes (Hash_Bytes (hReceiptsRoot h));
      NewBytes (hLogsBloom h);
      NewUint (hDifficulty h);
      NewUint (hNumber h);
      NewUint (hGasLimit h);
      NewUint (hGasUsed h);
      NewUint (hTimestamp h);
      NewBytes (hExtraData h);
      NewBytes (Hash_Bytes (hMixHash h));
      NewBytes (hNonce h) ].

Definition Block_MarshalRLPWith (b : Block) : Value :=
  NewArray
    [ Header_MarshalRLPWith (bkHeader b);
      if len (bkTransactions b) =? 0 then NewNullArray
      else NewArray (Transaction_MarshalRLPWith <$> bkTransactions b);
      if len (bkUncles b) =? 0 then NewNullArray
      else NewArray (Header_MarshalRLPWith <$> bkUncles b) ].

Definition Log_MarshalRLPWith (l : Log) : Value :=
  NewArray
    [ NewBytes (Address_Bytes (lAddress l));
      NewArray ((fun t => NewBytes (Hash_Bytes t)) <$> lTopics l);
      NewBytes (lData l) ].

Definition MarshalLogsWith (r : Receipt) : Value :=
  if len (rLogs r) =? 0 then NewNullArray else NewArray (Log_MarshalRLPWith <$> rLogs r).

Definition Receipt_MarshalRLPWith (r : Receipt) : Value :=
  NewArray
    [ match rStatus r with Some s => NewUint s | None => NewBytes (Hash_Bytes (rRoot r)) end;
      NewUint (rCumulativeGasUsed r);
      NewBytes (rLogsBloom r);
      MarshalLogsWith r ].

Definition Receipts_MarshalRLPWith (rs : list Receipt) : Value :=
  NewArray (Receipt_MarshalRLPWith <$> rs).

(** The encodings of the database, with what the sender and the receipt's
    transaction add. *)
Definition MarshalStoreRLPWith (t : Transaction) : Value :=
  NewArray [ Transaction_MarshalRLPWith t; NewBytes (Address_Bytes (tFrom t)) ].

Definition Body_MarshalRLPWith (b : Body) : Value :=
  NewArray
    [ if len (bodyTransactions b) =? 0 then NewNullArray
      else NewArray (MarshalStoreRLPWith <$> bodyTransactions b);
      if len (bodyUncles b) =? 0 then NewNullArray
      else NewArray (Header_MarshalRLPWith <$> bodyUncles b) ].

Definition Receipt_MarshalStoreRLPWith (r : Receipt) : Value :=
  NewArray
    [ Receipt_MarshalRLPWith r;
      if rContractAddress r =? 0 then NewNull else NewBytes (Address_Bytes (rContractAddress r));
      NewUint (rGasUsed r) ].

Definition Receipts_MarshalStoreRLPWith (rs : list Receipt) : Value :=
  NewArray (Receipt_MarshalStoreRLPWith <$> rs).

(** ** Hashes *)

(** [keccak.Keccak256Rlp] and [WriteRlp]. *)
Definition Keccak256Rlp (v : Value) : list Z := Keccak256 (MarshalTo v).

Definition ComputeHash (t : Transaction) : Transaction :=
  with_hash (be_decode (Keccak256Rlp (Transaction_MarshalRLPWith t))) t.

Definition defHeaderHash (h : Header) : Hash :=
  be_decode (Keccak256Rlp (Header_MarshalRLPWith h)).

Definition Header_ComputeHash (h : Header) : Header := with_header_hash (HeaderHash h) h.

Definition Transaction_MarshalRLP (t : Transaction) : list Z := MarshalTo (Transaction_MarshalRLPWith t).
Definition Transaction_Size (t : Transaction) : Z := uint64 (len (Transaction_MarshalRLP t)).
Definition Block_MarshalRLP (b : Block) : list Z := MarshalTo (Block_MarshalRLPWith b).
Definition Block_Size (b : Block) : Z := uint64 (len (Block_MarshalRLP b)).

(** ** Unmarshalling

    The first argument is the receiver before the call.  After an error the
    receiver is partly filled; no caller uses it then, so the result is
    [None]. *)

Definition UnmarshalRlp {A} (obj : Value -> option A) (input : list Z) : option A :=
  v ← Parse input; obj v.

Definition Transaction_UnmarshalRLPFrom (t : Transaction) (v : Value) : option Transaction :=
  elems ← GetElems v;
  match elems with
  | [e0; e1; e2; e3; e4; e5; e6; e7; e8] =>
    let hash := be_decode (Parser_Hash v) in
    nonce ← GetUint64 e0;
    gasPrice ← GetBigInt e1;
    gas ← GetUint64 e2;
    let vv := default [] (Value_Bytes e3) in
    let to := if len vv =? 20 then Some (BytesToAddress vv) else None in
    value ← GetBigInt e4;
    input ← GetBytes e5 None;
    V ← GetBigInt e6;
    R ← GetBigInt e7;
    S ← GetBigInt e8;
    Some (mkTransaction nonce gasPrice gas to value input (Some V) (Some R) (Some S) hash (tFrom t))
  | _ => None
  end.

Definition Header_UnmarshalRLPFrom (h : Header) (v : Value) : option Header :=
  elems ← GetElems v;
  match elems with
  | [e0; e1; e2; e3; e4; e5; e6; e7; e8; e9; e10; e11; e12; e13; e14] =>
    parentHash ← GetHash e0;
    sha3Uncles ← GetHash e1;
    miner ← GetAddr e2;
    stateRoot ← GetHash e3;
    txRoot ← GetHash e4;
    receiptsRoot ← GetHash e5;
    logsBloom ← GetBytes e6 (Some 256%nat);
    difficulty ← GetUint64 e7;
    number ← GetUint64 e8;
    gasLimit ← GetUint64 e9;
    gasUsed ← GetUint64 e10;
    timestamp ← GetUint64 e11;
    extraData ← GetBytes e12 None;
    mixHash ← GetHash e13;
    nonce ← GetUint64 e14;
    let h := mkHeader (be_decode parentHash) (be_decode sha3Uncles) (be_decode miner)
               (be_decode stateRoot) (be_decode txRoot) (be_decode receiptsRoot) logsBloom
               difficulty number gasLimit gasUsed timestamp extraData (be_decode mixHash)
               (hNonce h) (hHash h) in
    Some (Header_ComputeHash (SetNonce_header nonce h))
  | _ => None
  end.

(** The loops that decode a list, each element into a new object. *)
Definition zero_transaction : Transaction :=
  mkTransaction 0 0 0 None 0 [] None None None 0 0.

Definition Block_UnmarshalRLPFrom (b : Block) (v : Value) : option Block :=
  elems ← GetElems v;
  match elems with
  | [e0; e1; e2] =>
    header ← Header_UnmarshalRLPFrom zero_header e0;
    txns ← GetElems e1;
    transactions ← mapM (Transaction_UnmarshalRLPFrom zero_transaction) txns;
    uncles ← GetElems e2;
    bUncles ← mapM (Header_UnmarshalRLPFrom zero_header) uncles;
    Some (mkBlock header (bkTransactions b ++ transactions) (bkUncles b ++ bUncles))
  | _ => None
  end.

Definition Log_UnmarshalRLPFrom (v : Value) : option Log :=
  elems ← GetElems v;
  match elems with
  | [e0; e1; e2] =>
    address ← GetAddr e0;
    topicElems ← GetElems e1;
    topics ← mapM GetHash topicElems;
    data ← GetBytes e2 None;
    Some (mkLog (be_decode address) (be_decode <$> topics) data)
  | _ => None
  end.

(** [&Receipt{}]. *)
Definition zero_receipt : Receipt := mkReceipt 0 0 (replicate 256 0) [] None 0 0 0.

Definition Receipt_UnmarshalRLPFrom (r : Receipt) (v : Value) : option Receipt :=
  elems ← GetElems v;
  match elems with
  | [e0; e1; e2; e3] =>
    buf ← Value_Bytes e0;
    let '(root, status) :=
      if len buf =? 32 then (be_decode buf, rStatus r)
      else if len buf =? 1 then (rRoot r, Some (be_decode buf))
      else (rRoot r, Some 0) in
    cumulativeGasUsed ← GetUint64 e1;
    logsBloom ← GetBytes e2 (Some 256%nat);
    logsElems ← GetElems e3;
    logs ← mapM Log_UnmarshalRLPFrom logsElems;
    Some (mkReceipt root cumulativeGasUsed logsBloom (rLogs r ++ logs) status
            (rGasUsed r) (rContractAddress r) (rTxHash r))
  | _ => None
  end.

Definition Receipts_UnmarshalRLPFrom (rs : list Receipt) (v : Value) : option (list Receipt) :=
  elems ← GetElems v;
  rs' ← mapM (Receipt_UnmarshalRLPFrom zero_receipt) elems;
  Some (rs ++ rs').

Definition UnmarshalStoreRLPFrom (t : Transaction) (v : Value) : option Transaction :=
  elems ← GetElems v;
  match elems with
  | [e0; e1] =>
    t ← Transaction_UnmarshalRLPFrom t e0;
    from ← GetAddr e1;
    Some (with_from (be_decode from) t)
  | _ => None
  end.

Definition Body_UnmarshalRLPFrom (b : Body) (v : Value) : option Body :=
  tuple ← GetElems v;
  match tuple with
  | [e0; e1] =>
    txns ← GetElems e0;
    transactions ← mapM (UnmarshalStoreRLPFrom zero_transaction) txns;
    uncles ← GetElems e1;
    bUncles ← mapM (Header_UnmarshalRLPFrom zero_header) uncles;
    Some (mkBody (bodyTransactions b ++ transactions) (bodyUncles b ++ bUncles))
  | _ => None
  end.

Definition with_context (gasUsed : Z) (contractAddress : Address) (r : Receipt) : Receipt :=
  mkReceipt (rRoot r) (rCumulativeGasUsed r) (rLogsBloom r) (rLogs r) (rStatus r)
    gasUsed contractAddress (rTxHash r).

Definition Receipt_UnmarshalStoreRLPFrom (r : Receipt) (v : Value) : option Receipt :=
  elems ← GetElems v;
  match elems with
  | [e0; e1; e2] =>
    r ← Receipt_UnmarshalRLPFrom r e0;
    vv ← Value_Bytes e1;
    let contractAddress :=
      if len vv =? 20 then BytesToAddress vv else rContractAddress r in
    gasUsed ← GetUint64 e2;
    Some (with_context gasUsed contractAddress r)
  | _ => None
  end.

Definition Receipts_UnmarshalStoreRLPFrom (rs : list Receipt) (v : Value) : option (list Receipt) :=
  elems ← GetElems v;
  rs' ← mapM (Receipt_UnmarshalStoreRLPFrom zero_receipt) elems;
  Some (rs ++ rs').

Definition Transaction_UnmarshalRLP (t : Transaction) (input : list Z) : option Transaction :=
  UnmarshalRlp (Transaction_UnmarshalRLPFrom t) input.
Definition Header_UnmarshalRLP (h : Header) (input : list Z) : option Header :=
  UnmarshalRlp (Header_UnmarshalRLPFrom h) input.
Definition Block_UnmarshalRLP (b : Block) (input : list Z) : option Block :=
  UnmarshalRlp (Block_UnmarshalRLPFrom b) input.
Definition Body_UnmarshalRLP (b : Body) (input : list Z) : option Body :=
  UnmarshalRlp (Body_UnmarshalRLPFrom b) input.
Definition Receipts_UnmarshalStoreRLP (rs : list Receipt) (input : list Z) : option (list Receipt) :=
  UnmarshalRlp (Receipts_UnmarshalStoreRLPFrom rs) input.

End rlp.
