(* ===== verification/RlpFacts.v ===== *)
(** Decoding an encoded transaction, header, receipt, block or body gives it
    back, for every implementation of fastrlp that meets its contract. *)

From Stdlib Require Import ZArith Lia.
From stdpp Require Import base list numbers.
From S2P Require Import Prelude Types Chain Rlp.

Open Scope Z_scope.

(** ** Well-formed data: the ranges of the Go types *)

Definition opt_nonneg (x : option Z) : Prop := 0 <= default 0 x.

Record tx_wf (t : Transaction) : Prop := {
  wf_nonce : is_u64 (tNonce t);
  wf_gasPrice : 0 <= tGasPrice t;
  wf_gas : is_u64 (tGas t);
  wf_to : default True (is_addr <$> tTo t);
  wf_value : 0 <= tValue t;
  wf_input : Forall is_byte (tInput t);
  wf_V : opt_nonneg (tV t);
  wf_R : opt_nonneg (tR t);
  wf_S : opt_nonneg (tS t)
}.

Definition bytes_of (n : nat) (b : list Z) : Prop := length b = n /\ Forall is_byte b.

Record header_wf (h : Header) : Prop := {
  wf_parentHash : is_word (hParentHash h);
  wf_sha3Uncles : is_word (hSha3Uncles h);
  wf_miner : is_addr (hMiner h);
  wf_stateRoot : is_word (hStateRoot h);
  wf_txRoot : is_word (hTxRoot h);
  wf_receiptsRoot : is_word (hReceiptsRoot h);
  wf_logsBloom : bytes_of 256 (hLogsBloom h);
  wf_difficulty : is_u64 (hDifficulty h);
  wf_number : is_u64 (hNumber h);
  wf_gasLimit : is_u64 (hGasLimit h);
  wf_gasUsed : is_u64 (hGasUsed h);
  wf_timestamp : is_u64 (hTimestamp h);
  wf_extraData : Forall is_byte (hExtraData h);
  wf_mixHash : is_word (hMixHash h);
  wf_hnonce : bytes_of 8 (hNonce h)
}.

Record log_wf (l : Log) : Prop := {
  wf_laddress : is_addr (lAddress l);
  wf_ltopics : Forall is_word (lTopics l);
  wf_ldata : Forall is_byte (lData l)
}.

(** A receipt has a status, of one byte, or a state root. *)
Record receipt_wf (r : Receipt) : Prop := {
  wf_root : match rStatus r with None => is_word (rRoot r) | Some s => is_byte s /\ rRoot r = 0 end;
  wf_cumulative : is_u64 (rCumulativeGasUsed r);
  wf_rbloom : bytes_of 256 (rLogsBloom r);
  wf_rlogs : Forall log_wf (rLogs r);
  wf_rgasUsed : is_u64 (rGasUsed r);
  wf_contract : is_addr (rContractAddress r)
}.

(** ** Bytes of hashes and addresses *)

Lemma Hash_Bytes_wf h : bytes_of 32 (Hash_Bytes h).
Proof. split; [apply be_encode_length|apply be_encode_bytes]. Qed.

Lemma Address_Bytes_wf a : bytes_of 20 (Address_Bytes a).
Proof. split; [apply be_encode_length|apply be_encode_bytes]. Qed.

Lemma BytesToAddress_Bytes a : is_addr a -> BytesToAddress (Address_Bytes a) = a.
Proof.
  intros Ha. destruct (Address_Bytes_wf a) as [Hl _]. unfold BytesToAddress. rewrite Hl.
  change (Nat.min 20 AddressLength) with 20%nat. rewrite !Nat.sub_diag. by apply decode_Address_Bytes.
Qed.

Lemma be_encode_nonce b : bytes_of 8 b -> be_encode 8 (be_decode b) = b.
Proof. intros [Hl Hb]. rewrite <- Hl. by apply be_encode_decode. Qed.

Lemma big_Bytes_one s : is_byte s -> s <> 0 -> big_Bytes s = [s].
Proof.
  unfold is_byte. intros Hs H0. unfold big_Bytes.
  assert (1 <= big.BitLen s <= 8) as Hb.
  { split.
    - unfold big.BitLen. case_match eqn:E; [lia|]. pose proof (Z.log2_nonneg (Z.abs s)). lia.
    - apply BitLen_le; lia. }
  replace (Z.to_nat ((big.BitLen s + 7) / 8)) with 1%nat by (Z.div_mod_to_equations; lia).
  cbn [be_encode app]. by rewrite Z.abs_eq, Z.mod_small by lia.
Qed.

(** ** Decoding *)

(** Splits the elements of a decoded array of known length. *)
Ltac inv_elems :=
  repeat match goal with
  | Hf : Forall2 _ (_ :: _) _ |- _ =>
      apply Forall2_cons_inv_l in Hf; destruct Hf as (? & ? & ? & ? & ->)
  | Hf : Forall2 _ [] _ |- _ => apply Forall2_nil_inv_l in Hf; subst
  end.

Create HintDb rlp.

Section facts.
Context `{FastRLP} `{Runtime} `{!FastRLPOk}.
Context (HeaderHash : Header -> Hash).
Context (HeaderHash_pure : forall x h, HeaderHash (with_header_hash x h) = HeaderHash h).

Lemma mapM_decoded {A B} (f : A -> Value) (g : Value -> option B) (k : A -> B) xs vs :
  Forall2 decoded (f <$> xs) vs ->
  Forall (fun x => forall v, decoded (f x) v -> g v = Some (k x)) xs ->
  mapM g vs = Some (k <$> xs).
Proof.
  revert vs; induction xs as [|x xs IH]; intros vs Hd Hk; cbn in Hd; inv_elems; [done|].
  apply List.Forall_cons_iff in Hk as [Hx Hxs]. cbn. erewrite Hx by done. cbn.
  by erewrite IH.
Qed.

(** An array that is written as a null array when it is empty. *)
Lemma decoded_list {A B} (f : A -> Value) (g : Value -> option B) (k : A -> B) (xs : list A) v :
  decoded (if len xs =? 0 then NewNullArray else NewArray (f <$> xs)) v ->
  Forall (fun x => forall w, decoded (f x) w -> g w = Some (k x)) xs ->
  exists vs, GetElems v = Some vs /\ mapM g vs = Some (k <$> xs).
Proof.
  intros Hd Hk. destruct xs as [|x xs].
  - exists []. split; [by apply decoded_nullarray|done].
  - destruct (Z.eqb_spec (len (x :: xs)) 0) as [E|_]; [by unfold len in E|].
    apply decoded_array in Hd as (vs & ? & Hvs). exists vs. split; [done|].
    by eapply mapM_decoded.
Qed.

Lemma read_hash h v : is_word h -> decoded (NewBytes (Hash_Bytes h)) v ->
  exists b, GetHash v = Some b /\ be_decode b = h.
Proof.
  intros Hh Hd. apply decoded_bytes in Hd as (_ & _ & _ & Hr & _). destruct (Hash_Bytes_wf h).
  exists (Hash_Bytes h). split; [by apply Hr|by apply decode_Hash_Bytes].
Qed.

Lemma read_addr a v : is_addr a -> decoded (NewBytes (Address_Bytes a)) v ->
  exists b, GetAddr v = Some b /\ be_decode b = a.
Proof.
  intros Ha Hd. apply decoded_bytes in Hd as (_ & _ & _ & _ & Hr & _). destruct (Address_Bytes_wf a).
  exists (Address_Bytes a). split; [by apply Hr|by apply decode_Address_Bytes].
Qed.

Lemma read_bytes b v : decoded (NewBytes b) v -> GetBytes v None = Some b.
Proof. intros Hd. by apply decoded_bytes in Hd as (_ & ? & _). Qed.

Lemma read_bytes_n n b v : length b = n -> decoded (NewBytes b) v -> GetBytes v (Some n) = Some b.
Proof. intros Hl Hd. apply decoded_bytes in Hd as (_ & _ & Hr & _). by apply Hr. Qed.

Lemma read_uint n v : is_u64 n -> decoded (NewUint n) v -> GetUint64 v = Some n.
Proof. intros Hn Hd. by apply decoded_uint in Hd as [? _]. Qed.

Lemma read_bigint x v : decoded (NewBigInt x) v -> opt_nonneg x -> GetBigInt v = Some (default 0 x).
Proof. unfold opt_nonneg. intros Hd Hx. apply decoded_bigint in Hd. rewrite Hd. f_equal. lia. Qed.

Lemma read_to to v : default True (is_addr <$> to) ->
  decoded (match to with Some a => NewBytes (Address_Bytes a) | None => NewNull end) v ->
  (let vv := default [] (Value_Bytes v) in
   if len vv =? 20 then Some (BytesToAddress vv) else None) = to.
Proof.
  destruct to as [a|]; intros Ha Hd; cbv zeta.
  - apply decoded_bytes in Hd as (-> & _). cbn [from_option id]. destruct (Address_Bytes_wf a) as [Hl _].
    unfold len. rewrite Hl. change (Z.of_nat 20 =? 20) with true. by rewrite BytesToAddress_Bytes.
  - apply decoded_null in Hd as [-> _]. done.
Qed.

Lemma read_status r v :
  match rStatus r with None => is_word (rRoot r) | Some s => is_byte s /\ rRoot r = 0 end ->
  decoded (match rStatus r with Some s => NewUint s | None => NewBytes (Hash_Bytes (rRoot r)) end) v ->
  exists buf, Value_Bytes v = Some buf /\
    (if len buf =? 32 then (be_decode buf, None)
     else if len buf =? 1 then (0, Some (be_decode buf)) else (0, Some 0)) = (rRoot r, rStatus r).
Proof.
  intros Hr Hd. destruct (rStatus r) as [s|].
  - destruct Hr as [Hs Hr]. exists (big_Bytes s). split.
    + apply (decoded_uint s); [unfold is_byte, is_u64 in *; lia|done].
    + rewrite Hr. destruct (decide (s = 0)) as [->|]; [done|]. by rewrite big_Bytes_one.
  - exists (Hash_Bytes (rRoot r)). destruct (Hash_Bytes_wf (rRoot r)) as [Hl _]. split.
    + by apply (decoded_bytes (Hash_Bytes (rRoot r))).
    + unfold len. rewrite Hl. change (Z.of_nat 32 =? 32) with true. by rewrite decode_Hash_Bytes.
Qed.

Lemma read_contract a v : is_addr a ->
  decoded (if a =? 0 then NewNull else NewBytes (Address_Bytes a)) v ->
  exists vv, Value_Bytes v = Some vv /\ (if len vv =? 20 then BytesToAddress vv else 0) = a.
Proof.
  intros Ha Hd. destruct (Z.eqb_spec a 0) as [E|].
  - exists []. split; [by apply decoded_null in Hd as [-> _]|done].
  - exists (Address_Bytes a). destruct (Address_Bytes_wf a) as [Hl _].
    split; [by apply (decoded_bytes (Address_Bytes a))|].
    unfold len. rewrite Hl. change (Z.of_nat 20 =? 20) with true. by apply BytesToAddress_Bytes.
Qed.

(** Reads one element that was just written. *)
Ltac read1 :=
  match goal with
  | Hd : decoded (NewUint ?n) ?v |- context [GetUint64 ?v] =>
      rewrite (read_uint n v ltac:(assumption) Hd); clear Hd
  | Hd : decoded (NewBigInt ?x) ?v |- context [GetBigInt ?v] =>
      rewrite (read_bigint x v Hd ltac:(assumption)); clear Hd
  | Hd : decoded (NewBytes ?b) ?v |- context [GetBytes ?v None] =>
      rewrite (read_bytes b v Hd); clear Hd
  | Hd : decoded (NewBytes ?b) ?v |- context [GetBytes ?v (Some ?n)] =>
      rewrite (read_bytes_n n b v ltac:(assumption) Hd); clear Hd
  | Hd : decoded (NewBytes (Hash_Bytes ?h)) ?v |- context [GetHash ?v] =>
      let b := fresh "b" in let E := fresh "E" in
      destruct (read_hash h v ltac:(assumption) Hd) as (b & -> & E); clear Hd
  | Hd : decoded (NewBytes (Address_Bytes ?h)) ?v |- context [GetAddr ?v] =>
      let b := fresh "b" in let E := fresh "E" in
      destruct (read_addr h v ltac:(assumption) Hd) as (b & -> & E); clear Hd
  end; cbn [mbind option_bind].

(** Reads a list element by element, each giving its [k]. *)
Ltac read_list g k :=
  match goal with
  | Hd : decoded (if len ?xs =? 0 then NewNullArray else NewArray (?f <$> ?xs)) ?v
    |- context [GetElems ?v] =>
      let vs := fresh "vs" in let Hvs := fresh "Hvs" in
      destruct (decoded_list f g k xs v Hd) as (vs & -> & Hvs);
      [|cbn [mbind option_bind]; rewrite Hvs; cbn [mbind option_bind]; clear Hd Hvs]
  end.

(** A decoded transaction: its hash is that of the encoding, the sender that of
    the receiver, and missing signature values are 0. *)
Lemma decoded_tx_from t0 t v : tx_wf t -> decoded (Transaction_MarshalRLPWith t) v ->
  Transaction_UnmarshalRLPFrom t0 v =
  Some (with_from (tFrom t0) (with_hash (be_decode (Keccak256Rlp (Transaction_MarshalRLPWith t)))
    (with_signature (default 0 (tV t)) (default 0 (tR t)) (default 0 (tS t)) t))).
Proof.
  intros [] Hd. unfold Transaction_UnmarshalRLPFrom.
  pose proof (decoded_hash _ _ Hd) as Hh. apply decoded_array in Hd as (vs & -> & Hvs). inv_elems.
  cbn [mbind option_bind]. assert (opt_nonneg (Some (tGasPrice t))) by done.
  assert (opt_nonneg (Some (tValue t))) by done.
  do 3 read1. pose proof (read_to (tTo t)) as Hto. cbv zeta in Hto. rewrite Hto by done.
  repeat read1. rewrite Hh. done.
Qed.

Lemma decoded_header h0 h v : header_wf h -> decoded (Header_MarshalRLPWith h) v ->
  Header_UnmarshalRLPFrom HeaderHash h0 v = Some (Header_ComputeHash HeaderHash h).
Proof.
  intros [] Hd. unfold Header_UnmarshalRLPFrom.
  apply decoded_array in Hd as (vs & -> & Hvs). inv_elems. cbn [mbind option_bind].
  destruct wf_logsBloom0, wf_hnonce0. do 14 read1.
  match goal with Hn : decoded (NewBytes (hNonce h)) _ |- _ =>
    apply decoded_bytes in Hn as (_ & _ & _ & _ & _ & Hn); rewrite Hn by lia end.
  cbn [mbind option_bind]. subst. f_equal. unfold Header_ComputeHash, SetNonce_header.
  rewrite be_encode_nonce by done. set (h' := with_nonce _ _).
  assert (h' = with_header_hash (hHash h0) h) as -> by (subst h'; unfold with_nonce, with_header_hash; cbn; congruence).
  by rewrite HeaderHash_pure.
Qed.

Lemma decoded_log l v : log_wf l -> decoded (Log_MarshalRLPWith l) v -> Log_UnmarshalRLPFrom v = Some l.
Proof.
  intros [] Hd. unfold Log_UnmarshalRLPFrom. apply decoded_array in Hd as (vs & -> & Hvs). inv_elems.
  cbn [mbind option_bind]. read1.
  match goal with Ht : decoded (NewArray _) _ |- _ => apply decoded_array in Ht as (ts & -> & Hts) end.
  cbn [mbind option_bind]. rewrite (mapM_decoded _ GetHash Hash_Bytes (lTopics l) ts Hts).
  2:{ apply List.Forall_forall. intros t _ w Hw. apply decoded_bytes in Hw as (_ & _ & _ & Hr & _).
      apply Hr, Hash_Bytes_wf. }
  cbn [mbind option_bind]. read1. destruct l as [a ts' d]; cbn in *. subst. do 2 f_equal.
  rewrite <- list_fmap_compose. rewrite <- (list_fmap_id ts') at 2. apply list_fmap_ext.
  intros i t Ht. apply decode_Hash_Bytes. eapply List.Forall_forall; [exact wf_ltopics0|].
  apply list_elem_of_In. by eapply list_elem_of_lookup_2.
Qed.

(** What a receipt keeps of the receiver: its gas, contract and hash. *)
Definition receipt_read (r0 r : Receipt) : Receipt :=
  mkReceipt (rRoot r) (rCumulativeGasUsed r) (rLogsBloom r) (rLogs r) (rStatus r)
    (rGasUsed r0) (rContractAddress r0) (rTxHash r0).

Lemma decoded_receipt r v : receipt_wf r -> decoded (Receipt_MarshalRLPWith r) v ->
  Receipt_UnmarshalRLPFrom zero_receipt v = Some (receipt_read zero_receipt r).
Proof.
  intros [] Hd. unfold Receipt_UnmarshalRLPFrom.
  apply decoded_array in Hd as (vs & -> & Hvs). inv_elems. cbn [mbind option_bind].
  destruct wf_rbloom0.
  match goal with Ht : decoded (match rStatus r with Some _ => _ | None => _ end) _ |- _ =>
    destruct (read_status r _ wf_root0 Ht) as (buf & -> & Hbuf) end.
  cbn [mbind option_bind]. change (rStatus zero_receipt) with (@None Z). change (rRoot zero_receipt) with 0.
  rewrite Hbuf. do 2 read1.
  unfold MarshalLogsWith in *. read_list Log_UnmarshalRLPFrom (@id Log).
  { eapply Forall_weaken; [exact wf_rlogs0|]. intros l Hl w Hw. by apply decoded_log. }
  by rewrite list_fmap_id.
Qed.

Lemma decoded_store_tx t0 t v : tx_wf t -> is_addr (tFrom t) -> decoded (MarshalStoreRLPWith t) v ->
  UnmarshalStoreRLPFrom t0 v =
  Some (with_hash (be_decode (Keccak256Rlp (Transaction_MarshalRLPWith t)))
    (with_signature (default 0 (tV t)) (default 0 (tR t)) (default 0 (tS t)) t)).
Proof.
  intros Ht Ha Hd. unfold UnmarshalStoreRLPFrom.
  apply decoded_array in Hd as (vs & -> & Hvs). inv_elems. cbn [mbind option_bind].
  erewrite decoded_tx_from by done. cbn [mbind option_bind]. read1. by rewrite E.
Qed.

Lemma decoded_store_receipt r v : receipt_wf r -> decoded (Receipt_MarshalStoreRLPWith r) v ->
  Receipt_UnmarshalStoreRLPFrom zero_receipt v =
  Some (mkReceipt (rRoot r) (rCumulativeGasUsed r) (rLogsBloom r) (rLogs r) (rStatus r)
          (rGasUsed r) (rContractAddress r) 0).
Proof.
  intros Hr Hd. unfold Receipt_UnmarshalStoreRLPFrom.
  apply decoded_array in Hd as (vs & -> & Hvs). inv_elems. cbn [mbind option_bind].
  rewrite (decoded_receipt r) by done. cbn [mbind option_bind]. destruct Hr.
  match goal with Ht : decoded (if rContractAddress r =? 0 then _ else _) _ |- _ =>
    destruct (read_contract _ _ wf_contract0 Ht) as (vv & -> & Hvv) end.
  cbn [mbind option_bind]. change (rContractAddress (receipt_read zero_receipt r)) with 0.
  rewrite Hvv. by read1.
Qed.

(** ** Encoded data is well formed *)

#[local] Hint Resolve wf_array wf_bytes wf_uint wf_bigint wf_null wf_nullarray : rlp.
#[local] Hint Extern 1 (Forall is_byte (Hash_Bytes _)) => apply Hash_Bytes_wf : rlp.
#[local] Hint Extern 1 (Forall is_byte (Address_Bytes _)) => apply Address_Bytes_wf : rlp.

Lemma tx_rlp_wf t : tx_wf t -> rlp_wf (Transaction_MarshalRLPWith t).
Proof.
  intros []. unfold Transaction_MarshalRLPWith. apply wf_array.
  repeat (apply List.Forall_cons; [auto with rlp|]); [|auto with rlp].
  destruct (tTo t); auto with rlp.
Qed.

Lemma header_rlp_wf h : header_wf h -> rlp_wf (Header_MarshalRLPWith h).
Proof.
  intros []. destruct wf_logsBloom0, wf_hnonce0. unfold Header_MarshalRLPWith. apply wf_array.
  repeat (apply List.Forall_cons; [auto with rlp|]). auto with rlp.
Qed.

Lemma list_rlp_wf {A} (f : A -> Value) (xs : list A) : Forall (fun x => rlp_wf (f x)) xs ->
  rlp_wf (if len xs =? 0 then NewNullArray else NewArray (f <$> xs)).
Proof. intros Hxs. case_match; [apply wf_nullarray|]. apply wf_array. by apply Forall_fmap. Qed.

Lemma log_rlp_wf l : log_wf l -> rlp_wf (Log_MarshalRLPWith l).
Proof.
  intros []. apply wf_array. repeat (apply List.Forall_cons; [auto with rlp|]); [|auto with rlp].
  apply wf_array, Forall_fmap, List.Forall_forall. intros t _. apply wf_bytes, Hash_Bytes_wf.
Qed.

Lemma receipt_rlp_wf r : receipt_wf r -> rlp_wf (Receipt_MarshalRLPWith r).
Proof.
  intros []. destruct wf_rbloom0. apply wf_array.
  repeat (apply List.Forall_cons; [auto with rlp|]); [| |auto with rlp].
  - destruct (rStatus r); [apply wf_uint|auto with rlp]. destruct wf_root0.
    unfold is_byte, is_u64 in *; lia.
  - unfold MarshalLogsWith. apply list_rlp_wf. eapply Forall_weaken; [exact wf_rlogs0|]. apply log_rlp_wf.
Qed.

Lemma store_receipt_rlp_wf r : receipt_wf r -> rlp_wf (Receipt_MarshalStoreRLPWith r).
Proof.
  intros Hr. apply wf_array. pose proof (wf_rgasUsed r Hr).
  repeat (apply List.Forall_cons; [auto using receipt_rlp_wf with rlp|]); [|auto with rlp].
  case_match; auto with rlp.
Qed.

(** ** Whole encodings *)

Lemma unmarshal_ok {A} (obj : Value -> option A) v a :
  rlp_wf v -> len (MarshalTo v) < 2 ^ 63 -> (forall v', decoded v v' -> obj v' = Some a) ->
  UnmarshalRlp obj (MarshalTo v) = Some a.
Proof.
  intros Hw Hl Ha. unfold UnmarshalRlp. destruct (parse_marshal v Hw Hl) as (v' & -> & Hd).
  by apply Ha.
Qed.

(** A transaction whose hash is that of its encoding. *)
Definition hashed (t : Transaction) : Prop :=
  tHash t = be_decode (Keccak256Rlp (Transaction_MarshalRLPWith t)).

(** A transaction as it travels: signed and hashed. *)
Record tx_complete (t : Transaction) : Prop := {
  complete_wf : tx_wf t;
  complete_sig : is_Some (tV t) /\ is_Some (tR t) /\ is_Some (tS t);
  complete_hash : hashed t
}.

Lemma complete_same t : tx_complete t ->
  with_hash (be_decode (Keccak256Rlp (Transaction_MarshalRLPWith t)))
    (with_signature (default 0 (tV t)) (default 0 (tR t)) (default 0 (tS t)) t) = t.
Proof.
  intros [_ ([v Ev] & [r Er] & [s Es]) Hh]. rewrite <- Hh, Ev, Er, Es. cbn.
  destruct t; cbn in *; by subst.
Qed.

Definition header_complete (h : Header) : Prop := header_wf h /\ hHash h = HeaderHash h.

Lemma header_same h : header_complete h -> Header_ComputeHash HeaderHash h = h.
Proof. intros [_ Hh]. unfold Header_ComputeHash. rewrite <- Hh. by destruct h. Qed.

Lemma transaction_roundtrip t : tx_complete t -> len (Transaction_MarshalRLP t) < 2 ^ 63 ->
  Transaction_UnmarshalRLP zero_transaction (Transaction_MarshalRLP t) = Some (with_from 0 t).
Proof.
  intros Ht Hl. apply unmarshal_ok; [apply tx_rlp_wf, Ht|done|].
  intros v' Hd. rewrite (decoded_tx_from _ t) by (apply Ht || done). by rewrite complete_same.
Qed.

Lemma block_roundtrip b :
  header_complete (bkHeader b) -> Forall header_complete (bkUncles b) ->
  Forall tx_complete (bkTransactions b) -> len (Block_MarshalRLP b) < 2 ^ 63 ->
  Block_UnmarshalRLP HeaderHash (mkBlock zero_header [] []) (Block_MarshalRLP b) =
  Some (mkBlock (bkHeader b) (with_from 0 <$> bkTransactions b) (bkUncles b)).
Proof.
  intros Hh Hu Ht Hl. apply unmarshal_ok; [|done|].
  { apply wf_array. repeat apply List.Forall_cons; [by apply header_rlp_wf, Hh| | |by constructor];
      apply list_rlp_wf.
    - eapply Forall_weaken; [exact Ht|]. intros t Hc. apply tx_rlp_wf, Hc.
    - eapply Forall_weaken; [exact Hu|]. intros h Hc. apply header_rlp_wf, Hc. }
  intros v' Hd. unfold Block_UnmarshalRLPFrom.
  apply decoded_array in Hd as (vs & -> & Hvs). inv_elems. cbn [mbind option_bind].
  rewrite (decoded_header _ (bkHeader b)) by (apply Hh || done). cbn [mbind option_bind].
  rewrite header_same by done.
  read_list (Transaction_UnmarshalRLPFrom zero_transaction) (with_from 0).
  { eapply Forall_weaken; [exact Ht|]. intros t Hc w Hw.
    rewrite (decoded_tx_from _ t) by (apply Hc || done). by rewrite complete_same. }
  read_list (Header_UnmarshalRLPFrom HeaderHash zero_header) (@id Header).
  { eapply Forall_weaken; [exact Hu|]. intros h Hc w Hw.
    rewrite (decoded_header _ h) by (apply Hc || done). by rewrite header_same. }
  by rewrite list_fmap_id.
Qed.

Lemma body_roundtrip b :
  Forall header_complete (bodyUncles b) ->
  Forall (fun t => tx_complete t /\ is_addr (tFrom t)) (bodyTransactions b) ->
  len (MarshalTo (Body_MarshalRLPWith b)) < 2 ^ 63 ->
  Body_UnmarshalRLP HeaderHash (mkBody [] []) (MarshalTo (Body_MarshalRLPWith b)) = Some b.
Proof.
  intros Hu Ht Hl. apply unmarshal_ok; [|done|].
  { apply wf_array. repeat apply List.Forall_cons; [| |by constructor]; apply list_rlp_wf.
    - eapply Forall_weaken; [exact Ht|]. intros t [Hc _]. apply wf_array.
      repeat apply List.Forall_cons; [apply tx_rlp_wf, Hc|auto with rlp|auto with rlp].
    - eapply Forall_weaken; [exact Hu|]. intros h Hc. apply header_rlp_wf, Hc. }
  intros v' Hd. unfold Body_UnmarshalRLPFrom.
  apply decoded_array in Hd as (vs & -> & Hvs). inv_elems. cbn [mbind option_bind].
  read_list (UnmarshalStoreRLPFrom zero_transaction) (@id Transaction).
  { eapply Forall_weaken; [exact Ht|]. intros t [Hc Ha] w Hw.
    rewrite (decoded_store_tx _ t) by (apply Hc || done). by rewrite complete_same. }
  read_list (Header_UnmarshalRLPFrom HeaderHash zero_header) (@id Header).
  { eapply Forall_weaken; [exact Hu|]. intros h Hc w Hw.
    rewrite (decoded_header _ h) by (apply Hc || done). by rewrite header_same. }
  rewrite !list_fmap_id. by destruct b.
Qed.

Lemma receipts_roundtrip rs :
  Forall receipt_wf rs -> len (MarshalTo (Receipts_MarshalStoreRLPWith rs)) < 2 ^ 63 ->
  Receipts_UnmarshalStoreRLP [] (MarshalTo (Receipts_MarshalStoreRLPWith rs)) =
  Some ((fun r => mkReceipt (rRoot r) (rCumulativeGasUsed r) (rLogsBloom r) (rLogs r) (rStatus r)
                    (rGasUsed r) (rContractAddress r) 0) <$> rs).
Proof.
  intros Hr Hl. apply unmarshal_ok; [|done|].
  { apply wf_array, Forall_fmap. eapply Forall_weaken; [exact Hr|]. apply store_receipt_rlp_wf. }
  intros v' Hd. unfold Receipts_UnmarshalStoreRLPFrom.
  apply decoded_array in Hd as (vs & -> & Hvs). cbn [mbind option_bind].
  erewrite mapM_decoded; [done|exact Hvs|].
  eapply Forall_weaken; [exact Hr|]. intros r Hc w Hw. by apply decoded_store_receipt.
Qed.

End facts.
