(* ===== verification/RlpTree.v ===== *)
(** The recursive length prefix encoding as the Ethereum documentation defines
    it, on trees of byte strings: an implementation of the contract that
    [Rlp.FastRLPOk] states for the package fastrlp. *)

From Stdlib Require Import ZArith Lia.
From stdpp Require Import base list numbers.
From S2P Require Import Prelude Types Chain Rlp.

Open Scope Z_scope.

Inductive tree := RBytes (b : list Z) | RArray (vs : list tree).

(** ** Encoding *)

(** The prefix of a payload of [n] bytes; [base] is 0x80 or 0xc0. *)
Definition prefix (base n : Z) : list Z :=
  if n <=? 55 then [base + n] else (base + 55 + len (big_Bytes n)) :: big_Bytes n.

Fixpoint encode (v : tree) : list Z :=
  match v with
  | RBytes b =>
    match b with
    | [x] => if x <? 128 then [x] else prefix 128 1 ++ b
    | _ => prefix 128 (len b) ++ b
    end
  | RArray vs => let p := concat (map encode vs) in prefix 192 (len p) ++ p
  end.

(** ** Decoding *)

(** Splits the payload off: [c] is the first byte, less [base]. *)
Definition payload (c : Z) (r : list Z) : option (list Z * list Z) :=
  if c <=? 55 then
    if len r <? c then None else Some (take (Z.to_nat c) r, drop (Z.to_nat c) r)
  else
    let k := Z.to_nat (c - 55) in
    if len r <? c - 55 then None
    else
      let n := be_decode (take k r) in
      let r := drop k r in
      if len r <? n then None else Some (take (Z.to_nat n) r, drop (Z.to_nat n) r).

(** [k] bounds the number of elements, [fuel] the nesting. *)
Fixpoint decode_elems (dec : list Z -> option (tree * list Z)) (k : nat) (p : list Z)
    : option (list tree) :=
  match p with
  | [] => Some []
  | _ =>
    match k with
    | O => None
    | S k' => '(v, p') ← dec p; vs ← decode_elems dec k' p'; Some (v :: vs)
    end
  end.

Fixpoint decode (fuel : nat) (b : list Z) : option (tree * list Z) :=
  match fuel, b with
  | S n, c :: r =>
    if c <? 128 then Some (RBytes [c], r)
    else if c <? 192 then
      '(p, rest) ← payload (c - 128) r; Some (RBytes p, rest)
    else
      '(p, rest) ← payload (c - 192) r;
      vs ← decode_elems (decode n) (length p) p;
      Some (RArray vs, rest)
  | _, _ => None
  end.

Definition parse (b : list Z) : option tree :=
  match decode (S (length b)) b with Some (v, []) => Some v | _ => None end.

(** ** The round trip *)

Fixpoint tree_ind' (P : tree -> Prop) (Hb : forall b, P (RBytes b))
    (Ha : forall vs, Forall P vs -> P (RArray vs)) (v : tree) : P v :=
  match v with
  | RBytes b => Hb b
  | RArray vs =>
    Ha vs ((fix go (l : list tree) : Forall P l :=
              match l with
              | [] => List.Forall_nil P
              | x :: l' => @List.Forall_cons _ P x l' (tree_ind' P Hb Ha x) (go l')
              end) vs)
  end.

Fixpoint bytes_in (v : tree) : Prop :=
  match v with
  | RBytes b => Forall is_byte b
  | RArray vs => foldr (fun v P => bytes_in v /\ P) True vs
  end.

Lemma bytes_in_elems vs : bytes_in (RArray vs) <-> Forall bytes_in vs.
Proof.
  cbn. induction vs as [|v vs IH]; cbn; [split; [constructor|done]|].
  rewrite List.Forall_cons_iff, IH. done.
Qed.

(** Reading back a payload behind its prefix. *)
Lemma payload_prefix base p rest :
  len p < 2 ^ 63 ->
  exists c r, prefix base (len p) ++ p ++ rest = (base + c) :: r /\ 0 <= c < 64 /\
    payload c r = Some (p, rest).
Proof.
  intros Hp. unfold prefix, len in *. destruct (Z.leb_spec (Z.of_nat (length p)) 55).
  - exists (Z.of_nat (length p)), (p ++ rest). split; [done|]. split; [lia|]. unfold payload, len.
    destruct (Z.leb_spec (Z.of_nat (length p)) 55); [|lia].
    rewrite length_app. destruct (Z.ltb_spec (Z.of_nat (length p + length rest)) (Z.of_nat (length p))); [lia|].
    by rewrite Nat2Z.id, take_app_length, drop_app_length.
  - set (n := Z.of_nat (length p)) in *.
    assert (length (big_Bytes n) <= 8)%nat by (apply big_Bytes_length; lia).
    assert (1 <= length (big_Bytes n))%nat by (apply big_Bytes_nonempty; lia).
    exists (55 + Z.of_nat (length (big_Bytes n))), (big_Bytes n ++ p ++ rest).
    split; [rewrite <- app_comm_cons; f_equal; lia|]. split; [lia|]. unfold payload, len.
    destruct (Z.leb_spec (55 + Z.of_nat (length (big_Bytes n))) 55); [lia|].
    replace (55 + Z.of_nat (length (big_Bytes n)) - 55) with (Z.of_nat (length (big_Bytes n))) by lia.
    rewrite Nat2Z.id. rewrite take_app_length, drop_app_length.
    destruct (Z.ltb_spec (Z.of_nat (length (big_Bytes n ++ p ++ rest))) (Z.of_nat (length (big_Bytes n))));
      [rewrite length_app in *; lia|].
    rewrite be_decode_big_Bytes, Z.abs_eq by lia. rewrite length_app.
    destruct (Z.ltb_spec (Z.of_nat (length p + length rest)) n); [lia|].
    subst n. by rewrite Nat2Z.id, take_app_length, drop_app_length.
Qed.

Lemma encode_nonempty v : (1 <= length (encode v))%nat.
Proof.
  assert (forall base n p, (1 <= length (prefix base n ++ p))%nat) as Hp.
  { intros. unfold prefix. case_match; cbn; lia. }
  destruct v as [[|x [|y b]]|vs]; cbn [encode]; try apply Hp. case_match; [done|apply Hp].
Qed.

Lemma encode_elems_length vs : (length vs <= length (concat (map encode vs)))%nat.
Proof.
  induction vs as [|v vs IH]; cbn; [lia|]. rewrite length_app. pose proof (encode_nonempty v). lia.
Qed.

Lemma decode_elems_ok dec vs : forall k, (length vs <= k)%nat ->
  Forall (fun v => forall rest, dec (encode v ++ rest) = Some (v, rest)) vs ->
  decode_elems dec k (concat (map encode vs)) = Some vs.
Proof.
  induction vs as [|v vs IH]; intros k Hk Hd; [by destruct k|].
  apply List.Forall_cons_iff in Hd as [Hv Hvs]. cbn [length] in Hk. destruct k as [|k]; [lia|].
  cbn [map concat decode_elems]. pose proof (encode_nonempty v).
  destruct (encode v ++ concat (map encode vs)) as [|c r] eqn:E.
  { apply (f_equal length) in E. rewrite length_app in E. cbn in E. lia. }
  rewrite <- E, Hv. cbn [mbind option_bind]. by rewrite IH by (lia || done).
Qed.

(** The elements of an array are shorter than the array. *)
Lemma encode_elem_length v vs : In v vs -> (length (encode v) < length (encode (RArray vs)))%nat.
Proof.
  intros Hv. cbn [encode]. rewrite length_app.
  assert (length (encode v) <= length (concat (map encode vs)))%nat.
  { apply in_split in Hv as (l1 & l2 & ->). rewrite map_app, concat_app, length_app. cbn.
    rewrite length_app. lia. }
  unfold prefix. case_match; cbn [length]; lia.
Qed.

Lemma decode_encode v : forall fuel rest, bytes_in v -> len (encode v) < 2 ^ 63 ->
  (length (encode v) < fuel)%nat -> decode fuel (encode v ++ rest) = Some (v, rest).
Proof.
  induction v as [b|vs IH] using tree_ind'; intros fuel rest Hb Hl Hf;
    (destruct fuel as [|fuel]; [lia|]).
  - assert (forall p, p = b -> len p < 2 ^ 63 ->
      decode (S fuel) ((prefix 128 (len p) ++ p) ++ rest) = Some (RBytes p, rest)) as Hlong.
    { intros p Hpb Hp. rewrite <- app_assoc.
      destruct (payload_prefix 128 p rest Hp) as (c & r & -> & Hc & Hr). cbn [decode].
      destruct (Z.ltb_spec (128 + c) 128); [lia|]. destruct (Z.ltb_spec (128 + c) 192); [|lia].
      replace (128 + c - 128) with c by lia. by rewrite Hr. }
    assert (len b < 2 ^ 63) as Hlb.
    { revert Hl. unfold len. destruct b as [|x [|y b]]; cbn [encode]; [cbn; lia| |];
        [case_match; cbn; lia|rewrite length_app; lia]. }
    destruct b as [|x [|y b]]; [by apply Hlong| |by apply Hlong].
    cbn [encode]. destruct (Z.ltb_spec x 128); [|by apply (Hlong [x])].
    cbn. by destruct (Z.ltb_spec x 128); [|lia].
  - cbn [encode]. set (p := concat (map encode vs)). rewrite <- app_assoc.
    assert (len p < 2 ^ 63) as Hp.
    { revert Hl. cbn [encode]. fold p. unfold len. rewrite length_app. lia. }
    destruct (payload_prefix 192 p rest Hp) as (c & r & -> & Hc & Hr). cbn [decode].
    destruct (Z.ltb_spec (192 + c) 128); [lia|]. destruct (Z.ltb_spec (192 + c) 192); [lia|].
    replace (192 + c - 192) with c by lia. rewrite Hr. cbn [mbind option_bind].
    unfold p. rewrite decode_elems_ok; [done|apply encode_elems_length|].
    apply bytes_in_elems in Hb. rewrite List.Forall_forall in *. intros v Hv rest'.
    pose proof (encode_elem_length v vs Hv). unfold len in *. apply IH; [done|by apply Hb|lia|lia].
Qed.

Lemma parse_encode v : bytes_in v -> len (encode v) < 2 ^ 63 -> parse (encode v) = Some v.
Proof.
  intros Hb Hl. unfold parse. rewrite <- (app_nil_r (encode v)) at 2.
  by rewrite decode_encode by (rewrite ?app_nil_r; auto; lia).
Qed.

(** ** The instance *)

Definition tree_bytes (v : tree) : option (list Z) :=
  match v with RBytes b => Some b | RArray _ => None end.

Definition tree_sized (n : nat) (v : tree) : option (list Z) :=
  b ← tree_bytes v; if bool_decide (length b = n) then Some b else None.

#[export] Instance tree_rlp `{Runtime} : FastRLP := {|
  Value := tree;
  NewArray := RArray;
  NewBytes := RBytes;
  NewUint n := RBytes (big_Bytes n);
  NewBigInt x := RBytes (big_Bytes (default 0 x));
  NewNull := RBytes [];
  NewNullArray := RArray [];
  MarshalTo := encode;
  Parse := parse;
  GetElems v := match v with RArray vs => Some vs | RBytes _ => None end;
  Value_Bytes := tree_bytes;
  GetBytes v size := match size with None => tree_bytes v | Some n => tree_sized n v end;
  GetHash := tree_sized 32;
  GetAddr := tree_sized 20;
  GetUint64 v := b ← tree_bytes v; if len b <=? 8 then Some (be_decode b) else None;
  GetBigInt v := b ← tree_bytes v; Some (be_decode b);
  Parser_Hash v := Keccak256 (encode v)
|}.

#[export] Instance tree_rlp_ok `{Runtime} : FastRLPOk.
Proof.
  refine {| rlp_wf := bytes_in : Value -> Prop; decoded := fun v v' => v = v' |}.
  - intros vs Hvs. by apply bytes_in_elems.
  - done.
  - intros n _. apply big_Bytes_bytes.
  - intros x. apply big_Bytes_bytes.
  - by constructor.
  - done.
  - intros v Hw Hl. exists v. split; [by apply parse_encode|done].
  - intros vs v' <-. exists vs. split; [done|]. by induction vs; constructor.
  - intros b v' <-. cbn. repeat split; unfold tree_sized; cbn; try (intros; by rewrite bool_decide_true).
    intros Hl. unfold len. by destruct (Z.leb_spec (Z.of_nat (length b)) 8); [|lia].
  - intros n v' Hn <-. cbn. split; [|done]. unfold is_u64 in Hn.
    assert (length (big_Bytes n) <= 8)%nat by (apply big_Bytes_length; lia). unfold len.
    destruct (Z.leb_spec (Z.of_nat (length (big_Bytes n))) 8); [|lia].
    by rewrite be_decode_big_Bytes, Z.abs_eq by lia.
  - intros x v' <-. cbn. by rewrite be_decode_big_Bytes.
  - by intros v' <-.
  - by intros v' <-.
  - by intros v v' <-.
Defined.
