(* ===== verification/Extra.v ===== *)
(** The extra data of a header, src/consensus/pvbft/extra.go, and the header
    hashes that leave the seals out (header_hash.go and calculateHeaderHash of
    sign.go). *)

From Stdlib Require Import ZArith Lia.
From stdpp Require Import base list numbers.
From S2P Require Import Prelude Types Chain Rlp RlpFacts.

Open Scope Z_scope.

Definition IstanbulDigest : Hash :=
  0x63746963616c2062797a616e74696e65206661756c7420746f6c6572616e6365.
Definition IstanbulExtraVanity : nat := 32.
Definition IstanbulExtraSeal : Z := 65.

Record IstanbulExtra := mkExtra {
  eValidators : list Address;
  eSeal : list Z;
  eCommittedSeal : list (list Z);
  eVrfValue : list Z;
  eVrfProof : list Z
}.

Definition SetVrfInfo (value proof : list Z) (e : IstanbulExtra) : IstanbulExtra :=
  mkExtra (eValidators e) (eSeal e) (eCommittedSeal e) value proof.
Definition set_eSeal (seal : list Z) (e : IstanbulExtra) : IstanbulExtra :=
  mkExtra (eValidators e) seal (eCommittedSeal e) (eVrfValue e) (eVrfProof e).
Definition set_eCommittedSeal (seals : list (list Z)) (e : IstanbulExtra) : IstanbulExtra :=
  mkExtra (eValidators e) (eSeal e) seals (eVrfValue e) (eVrfProof e).

Definition with_extra (extra : list Z) (h : Header) : Header :=
  mkHeader (hParentHash h) (hSha3Uncles h) (hMiner h) (hStateRoot h) (hTxRoot h)
    (hReceiptsRoot h) (hLogsBloom h) (hDifficulty h) (hNumber h) (hGasLimit h) (hGasUsed h)
    (hTimestamp h) extra (hMixHash h) (hNonce h) (hHash h).

(** The first 32 bytes of the extra data, padded with zeros. *)
Definition vanity (extra : list Z) : list Z :=
  if (length extra <? IstanbulExtraVanity)%nat
  then extra ++ replicate (IstanbulExtraVanity - length extra) 0
  else take IstanbulExtraVanity extra.

Section extra.
Context `{FastRLP} `{Runtime}.

(** ** Encoding *)

Definition bytes_or_null (b : list Z) : Value := if len b =? 0 then NewNull else NewBytes b.

(** An empty committed seal adds a null to the outer array, before the list of
    the seals. *)
Definition Extra_MarshalRLPWith (i : IstanbulExtra) : Value :=
  NewArray
    ([ NewArray ((fun a => NewBytes (Address_Bytes a)) <$> eValidators i);
       bytes_or_null (eSeal i) ] ++
     (if len (eCommittedSeal i) =? 0 then [ NewNullArray ]
      else ((fun _ => NewNull) <$> filter (fun a => len a = 0) (eCommittedSeal i)) ++
           [ NewArray (NewBytes <$> filter (fun a => len a <> 0) (eCommittedSeal i)) ]) ++
     [ bytes_or_null (eVrfValue i); bytes_or_null (eVrfProof i) ]).

Definition Extra_MarshalRLPTo (i : IstanbulExtra) : list Z := MarshalTo (Extra_MarshalRLPWith i).

Definition Extra_UnmarshalRLPFrom (v : Value) : option IstanbulExtra :=
  elems ← GetElems v;
  match elems with
  | [e0; e1; e2; e3; e4] =>
    vals ← GetElems e0;
    validators ← mapM GetAddr vals;
    seal ← GetBytes e1 None;
    vals ← GetElems e2;
    committed ← mapM (fun v => GetBytes v None) vals;
    vrfValue ← GetBytes e3 None;
    vrfProof ← GetBytes e4 None;
    Some (mkExtra (be_decode <$> validators) seal committed vrfValue vrfProof)
  | _ => None
  end.

Definition Extra_UnmarshalRLP (input : list Z) : option IstanbulExtra :=
  UnmarshalRlp Extra_UnmarshalRLPFrom input.

(** ** Headers *)

Definition putIbftExtraValidators (h : Header) (validators : list Address) : Header :=
  with_extra (vanity (hExtraData h) ++ Extra_MarshalRLPTo (mkExtra validators [] [] [] [])) h.

Definition PutIbftExtra (h : Header) (istanbulExtra : IstanbulExtra) : Header :=
  with_extra (vanity (hExtraData h) ++ Extra_MarshalRLPTo istanbulExtra) h.

Definition getIbftExtra (h : Header) : option IstanbulExtra :=
  if (length (hExtraData h) <? IstanbulExtraVanity)%nat then None
  else Extra_UnmarshalRLP (drop IstanbulExtraVanity (hExtraData h)).

(** What is signed: the header without its seals. *)
Definition seal_fields (h : Header) : Value :=
  NewArray
    [ NewBytes (Hash_Bytes (hParentHash h));
      NewBytes (Hash_Bytes (hSha3Uncles h));
      NewBytes (Address_Bytes (hMiner h));
      NewBytes (Hash_Bytes (hStateRoot h));
      NewBytes (Hash_Bytes (hTxRoot h));
      NewBytes (Hash_Bytes (hReceiptsRoot h));
      NewBytes (hLogsBloom h);
      NewUint (hDifficulty h);
      NewUint (hNumber h);
      NewUint (hGasLimit h);
      NewUint (hGasUsed h);
      NewUint (hTimestamp h);
      NewBytes (hExtraData h) ].

Definition calculateHeaderHash (h : Header) : option (list Z) :=
  extra ← getIbftExtra h;
  let h := putIbftExtraValidators h (eValidators extra) in
  Some (Keccak256Rlp (seal_fields h)).

Definition istanbulHeaderHash (h : Header) : Hash :=
  match getIbftExtra h with
  | None => 0
  | Some extra =>
    let h := putIbftExtraValidators h (eValidators extra) in
    BytesToHash (Keccak256Rlp (seal_fields h))
  end.

End extra.

(** ** Facts *)

Section facts.
Context `{FastRLP} `{Runtime} `{!FastRLPOk}.

(** Extra data that can be read back: addresses, bytes, and no empty seal. *)
Record extra_wf (e : IstanbulExtra) : Prop := {
  wf_validators : Forall is_addr (eValidators e);
  wf_seal : Forall is_byte (eSeal e);
  wf_committed : Forall (fun s => Forall is_byte s /\ s <> []) (eCommittedSeal e);
  wf_vrfValue : Forall is_byte (eVrfValue e);
  wf_vrfProof : Forall is_byte (eVrfProof e);
  wf_size : len (Extra_MarshalRLPTo e) < 2 ^ 63
}.

Lemma bytes_or_null_wf b : Forall is_byte b -> rlp_wf (bytes_or_null b).
Proof. intros Hb. unfold bytes_or_null. case_match; [apply wf_null|by apply wf_bytes]. Qed.

Lemma read_bytes_or_null b v : decoded (bytes_or_null b) v -> GetBytes v None = Some b.
Proof.
  unfold bytes_or_null. destruct b as [|x b]; cbn [len length Z.of_nat Z.eqb]; intros Hd.
  - by apply decoded_null in Hd as [_ ->].
  - by apply decoded_bytes in Hd as (_ & -> & _).
Qed.

Lemma no_empty_seals (l : list (list Z)) : Forall (fun s => Forall is_byte s /\ s <> []) l ->
  filter (fun a => len a = 0) l = [] /\ filter (fun a => len a <> 0) l = l.
Proof.
  induction 1 as [|s l [_ Hs] _ [IH1 IH2]]; [done|]. rewrite !filter_cons.
  assert (len s <> 0) as Hn by (unfold len; destruct s; [done|cbn [length]; lia]).
  rewrite decide_False, decide_True by done. by rewrite IH1, IH2.
Qed.

(** Without empty seals the committed seals are one list. *)
Lemma committed_elem e : extra_wf e ->
  Extra_MarshalRLPWith e = NewArray
    [ NewArray ((fun a => NewBytes (Address_Bytes a)) <$> eValidators e); bytes_or_null (eSeal e);
      if len (eCommittedSeal e) =? 0 then NewNullArray else NewArray (NewBytes <$> eCommittedSeal e);
      bytes_or_null (eVrfValue e); bytes_or_null (eVrfProof e) ].
Proof.
  intros [_ _ Hc _ _ _]. unfold Extra_MarshalRLPWith. destruct (no_empty_seals _ Hc) as [-> ->].
  by destruct (len (eCommittedSeal e) =? 0).
Qed.

Lemma extra_rlp_wf e : extra_wf e -> rlp_wf (Extra_MarshalRLPWith e).
Proof.
  intros He. rewrite (committed_elem e He). destruct He. apply wf_array.
  repeat (apply List.Forall_cons; [auto using bytes_or_null_wf|]); [| |constructor].
  - apply wf_array, Forall_fmap, List.Forall_forall. intros a _. apply wf_bytes, Address_Bytes_wf.
  - apply list_rlp_wf. eapply Forall_weaken; [exact wf_committed0|]. intros s [Hs _]. by apply wf_bytes.
Qed.

Lemma decoded_extra e v : extra_wf e -> decoded (Extra_MarshalRLPWith e) v ->
  Extra_UnmarshalRLPFrom v = Some e.
Proof.
  intros He Hd. rewrite (committed_elem e He) in Hd. destruct He.
  apply decoded_array in Hd as (vs & E & Hvs). inv_elems. unfold Extra_UnmarshalRLPFrom.
  rewrite E. cbn [mbind option_bind].
  match goal with Ht : decoded (NewArray ((fun a => NewBytes (Address_Bytes a)) <$> _)) _ |- _ =>
    apply decoded_array in Ht as (ts & -> & Hts) end.
  cbn [mbind option_bind]. rewrite (mapM_decoded _ GetAddr Address_Bytes (eValidators e) ts Hts).
  2:{ apply List.Forall_forall. intros a _ w Hw. apply decoded_bytes in Hw as (_ & _ & _ & _ & Hr & _).
      apply Hr, Address_Bytes_wf. }
  cbn [mbind option_bind].
  match goal with Ht : decoded (bytes_or_null (eSeal e)) _ |- _ => rewrite (read_bytes_or_null _ _ Ht) end.
  cbn [mbind option_bind].
  match goal with Ht : decoded (if _ then NewNullArray else NewArray _) _ |- _ =>
    destruct (decoded_list NewBytes (fun v => GetBytes v None) id (eCommittedSeal e) _ Ht) as (cs & -> & Hcs) end.
  { apply List.Forall_forall. intros s _ w Hw. by apply decoded_bytes in Hw as (_ & -> & _). }
  cbn [mbind option_bind]. rewrite Hcs, list_fmap_id. cbn [mbind option_bind].
  match goal with Ht : decoded (bytes_or_null (eVrfValue e)) _ |- _ => rewrite (read_bytes_or_null _ _ Ht) end.
  match goal with Ht : decoded (bytes_or_null (eVrfProof e)) _ |- _ => rewrite (read_bytes_or_null _ _ Ht) end.
  cbn [mbind option_bind]. f_equal. rewrite <- list_fmap_compose.
  assert (be_decode ∘ Address_Bytes <$> eValidators e = eValidators e) as ->; [|by destruct e].
  rewrite <- (list_fmap_id (eValidators e)) at 2. apply list_fmap_ext. intros i a Ha. cbn.
  apply decode_Address_Bytes. rewrite List.Forall_forall in wf_validators0.
  by eapply wf_validators0, list_elem_of_In, list_elem_of_lookup_2.
Qed.

Lemma extra_roundtrip e : extra_wf e -> Extra_UnmarshalRLP (Extra_MarshalRLPTo e) = Some e.
Proof.
  intros He. apply unmarshal_ok; [by apply extra_rlp_wf|apply He|]. intros v. by apply decoded_extra.
Qed.

Lemma vanity_length x : length (vanity x) = IstanbulExtraVanity.
Proof.
  unfold vanity. destruct (Nat.ltb_spec (length x) IstanbulExtraVanity).
  - rewrite length_app, length_replicate. lia.
  - rewrite length_take. lia.
Qed.

Lemma vanity_app x y : vanity (vanity x ++ y) = vanity x.
Proof.
  pose proof (vanity_length x) as Hl. unfold vanity at 1. rewrite length_app, Hl.
  destruct (Nat.ltb_spec (IstanbulExtraVanity + length y) IstanbulExtraVanity); [lia|].
  by rewrite take_app_le, take_ge by lia.
Qed.

Lemma getIbftExtra_Put h e : extra_wf e -> getIbftExtra (PutIbftExtra h e) = Some e.
Proof.
  intros He. pose proof (vanity_length (hExtraData h)) as Hl. unfold getIbftExtra, PutIbftExtra.
  cbn [with_extra hExtraData]. rewrite length_app, Hl.
  destruct (Nat.ltb_spec (IstanbulExtraVanity + length (Extra_MarshalRLPTo e)) IstanbulExtraVanity); [lia|].
  rewrite drop_app_ge, Hl, Nat.sub_diag, drop_0 by lia. by apply extra_roundtrip.
Qed.

(** Sealing a header changes neither what is signed nor its hash. *)
Lemma put_put h e vals : putIbftExtraValidators (PutIbftExtra h e) vals = putIbftExtraValidators h vals.
Proof. unfold putIbftExtraValidators, PutIbftExtra. cbn [with_extra hExtraData]. by rewrite vanity_app. Qed.

Lemma header_hash_seal h e e0 : extra_wf e -> getIbftExtra h = Some e0 -> eValidators e = eValidators e0 ->
  calculateHeaderHash (PutIbftExtra h e) = calculateHeaderHash h.
Proof.
  intros He E0 Ev. unfold calculateHeaderHash. rewrite (getIbftExtra_Put h e He), E0. cbn [mbind option_bind].
  by rewrite put_put, Ev.
Qed.

Lemma istanbul_hash_seal h e e0 : extra_wf e -> getIbftExtra h = Some e0 -> eValidators e = eValidators e0 ->
  istanbulHeaderHash (PutIbftExtra h e) = istanbulHeaderHash h.
Proof.
  intros He E0 Ev. unfold istanbulHeaderHash. rewrite (getIbftExtra_Put h e He), E0.
  by rewrite put_put, Ev.
Qed.

(** The hash does not read the field that caches it. *)
Lemma istanbul_hash_pure x h : istanbulHeaderHash (with_header_hash x h) = istanbulHeaderHash h.
Proof. done. Qed.

(** The hash of a header is the number that its signers sign. *)
Lemma istanbul_calculate h b : calculateHeaderHash h = Some b -> istanbulHeaderHash h = BytesToHash b.
Proof.
  unfold calculateHeaderHash, istanbulHeaderHash. destruct (getIbftExtra h); [|done]. by intros [= <-].
Qed.

End facts.
