(* ===== verification/TxSigner.v ===== *)
(** Transaction signatures: src/state/txsigner.go and the signature part of
    src/common/crypto/crypto.go.  The curve itself (the package btcec) is a
    class. *)


From Stdlib Require Import ZArith Lia.
From stdpp Require Import base list numbers.
From S2P Require Import Prelude Types Chain Rlp RlpFacts RlpTree.

Open Scope Z_scope.

(** ** The curve *)

(** The coordinates of a point of the curve, below 2^256. *)
Record PublicKey := mkPublicKey { pkX : Z; pkY : Z }.

(** [elliptic.Marshal], the uncompressed form. *)
Definition MarshalPublicKey (pub : PublicKey) : list Z :=
  4 :: be_encode 32 (pkX pub) ++ be_encode 32 (pkY pub).

(** [SignCompact] gives a byte 27..30 followed by R and S on 32 bytes each;
    [RecoverCompact] takes such a signature. *)
Class Secp256k1 := {
  PrivateKey : Type;
  public_of : PrivateKey -> PublicKey;
  SignCompact : PrivateKey -> list Z -> option (list Z);
  RecoverCompact : list Z -> list Z -> option PublicKey
}.

Definition secp256k1N : list Z :=
  be_encode 32 0xfffffffffffffffffffffffffffffffebaaedce6af48a03bbfd25e8cd0364141.

Class Secp256k1Ok `{Secp256k1} := {
  sign_shape k h sig : SignCompact k h = Some sig ->
    exists v r s, sig = v :: be_encode 32 r ++ be_encode 32 s /\ 27 <= v <= 30 /\
      1 <= r < be_decode secp256k1N /\ 1 <= s < be_decode secp256k1N;
  recover_sign k h sig : SignCompact k h = Some sig ->
    RecoverCompact sig h = Some (public_of k)
}.

(** ** Signature values *)

(** [bytes.Compare], lexicographic. *)
Fixpoint bytes_Compare (a b : list Z) : comparison :=
  match a, b with
  | [], [] => Eq
  | [], _ :: _ => Lt
  | _ :: _, [] => Gt
  | x :: a', y :: b' =>
    match Z.compare x y with Eq => bytes_Compare a' b' | c => c end
  end.

(** [trimLeftZeros]: the last element of an all-zero slice stays. *)
Fixpoint trimLeftZeros (b : list Z) : list Z :=
  match b with
  | [] => []
  | x :: b' =>
    match b' with
    | [] => b
    | _ => if x =? 0 then trimLeftZeros b' else b
    end
  end.

Definition one : list Z := [1].

(** The check of one of the two values: not below one, below the order. *)
Definition value_in_order (x : Z) : bool :=
  let xx := trimLeftZeros (big_Bytes x) in
  negb (match bytes_Compare xx secp256k1N with Lt => false | _ => true end ||
        match bytes_Compare xx one with Lt => true | _ => false end).

Definition ValidateSignatureValues (v : Z) (r s : option Z) : bool :=
  match r, s with
  | Some r, Some s =>
    if 1 <? v then false
    else if negb (value_in_order r) then false
    else if negb (value_in_order s) then false
    else true
  | _, _ => false
  end.

(** [copy(sig[k-len(b):k], b)]: a negative bound panics. *)
Definition copy_right (k : nat) (b sig : list Z) : outcome (list Z) :=
  if Z.of_nat k - len b <? 0 then Panic
  else Ok (take (k - length b) sig ++ b ++ drop k sig).

(** [encodeSignature]; [None] is the error. *)
Definition encodeSignature (R S : option Z) (V : Z) : outcome (option (list Z)) :=
  if negb (ValidateSignatureValues V R S) then Ok None
  else
    let sig := replicate 65 0 in
    obind (copy_right 32 (big_Bytes (default 0 R)) sig) (fun sig =>
    obind (copy_right 64 (big_Bytes (default 0 S)) sig) (fun sig =>
    Ok (Some (take 64 sig ++ [V])))).

Section signer.
Context `{FastRLP} `{Runtime} `{Secp256k1}.

(** ** Keys *)

(** An empty signature is an index out of range. *)
Definition RecoverPubkey (signature hash : list Z) : outcome (option PublicKey) :=
  let size := length signature in
  obind (of_option (signature !! (size - 1)%nat)) (fun b =>
  let term := if b =? 1 then 28 else 27 in
  Ok (RecoverCompact (term :: take (size - 1) signature) hash)).

Definition Ecrecover (hash sig : list Z) : outcome (option (list Z)) :=
  obind (RecoverPubkey sig hash) (fun pub => Ok (MarshalPublicKey <$> pub)).

(** [append(sig, term)[1:]]. *)
Definition Sign (priv : PrivateKey) (hash : list Z) : option (list Z) :=
  sig ← SignCompact priv hash;
  let term := if default 0 (sig !! 0%nat) =? 28 then 1 else 0 in
  Some (tail (sig ++ [term])).

Definition PubKeyToAddress (pub : PublicKey) : Address :=
  BytesToAddress (drop 12 (Keccak256 (tail (MarshalPublicKey pub)))).

(** ** Signers *)

Definition calcTxHash (tx : Transaction) (chainID : Z) : Hash :=
  let v := NewArray
    ([ NewUint (tNonce tx);
       NewBigInt (Some (tGasPrice tx));
       NewUint (tGas tx);
       match tTo tx with None => NewNull | Some a => NewBytes (Address_Bytes a) end;
       NewBigInt (Some (tValue tx));
       NewBytes (tInput tx) ] ++
     (if chainID =? 0 then [] else [ NewUint chainID; NewUint 0; NewUint 0 ])) in
  BytesToHash (Keccak256Rlp v).

(** The end of both [Sender] methods. *)
Definition recover_sender (R S : option Z) (V : Z) (hash : Hash) : outcome (option Address) :=
  obind (encodeSignature R S V) (fun sig =>
  match sig with
  | None => Ok None
  | Some sig =>
    obind (Ecrecover (Hash_Bytes hash) sig) (fun pub =>
    match pub with
    | None => Ok None
    | Some pub => Ok (Some (BytesToAddress (drop 12 (Keccak256 (tail pub)))))
    end)
  end).

Definition Frontier_Hash (tx : Transaction) : Hash := calcTxHash tx 0.

Definition Frontier_Sender (tx : Transaction) : outcome (option Address) :=
  let refV := Z.abs (default 0 (tV tx)) - 27 in
  recover_sender (tR tx) (tS tx) (byte_of (big.Int64 refV)) (Frontier_Hash tx).

Definition Frontier_CalculateV (parity : Z) : list Z := big_Bytes (parity + 27).

Definition Frontier_SignTx (tx : Transaction) (priv : PrivateKey) : option Transaction :=
  let tx := Transaction_Copy tx in
  sig ← Sign priv (Hash_Bytes (Frontier_Hash tx));
  Some (with_signature (be_decode (Frontier_CalculateV (default 0 (sig !! 64%nat))))
          (be_decode (take 32 sig)) (be_decode (take 32 (drop 32 sig))) tx).

Definition EIP155_Hash (chainID : Z) (tx : Transaction) : Hash := calcTxHash tx chainID.

(** [bits.Len(uint(vv)) <= 8]. *)
Definition EIP155_Sender (chainID : Z) (tx : Transaction) : outcome (option Address) :=
  let bigV := Z.abs (default 0 (tV tx)) in
  let vv := big.Uint64 bigV in
  let protected := if big.BitLen vv <=? 8 then negb (vv =? 27) && negb (vv =? 28) else true in
  if negb protected then Frontier_Sender tx
  else
    let bigV := bigV - int64 chainID * 2 - 35 in
    recover_sender (tR tx) (tS tx) (byte_of (big.Int64 bigV)) (EIP155_Hash chainID tx).

Definition EIP155_CalculateV (chainID parity : Z) : list Z :=
  big_Bytes (parity + 35 + int64 chainID * 2).

Definition EIP155_SignTx (chainID : Z) (tx : Transaction) (priv : PrivateKey) : option Transaction :=
  let tx := Transaction_Copy tx in
  sig ← Sign priv (Hash_Bytes (EIP155_Hash chainID tx));
  Some (with_signature (be_decode (EIP155_CalculateV chainID (default 0 (sig !! 64%nat))))
          (be_decode (take 32 sig)) (be_decode (take 32 (drop 32 sig))) tx).

End signer.

(** Signatures: a signed transaction is attributed to its signer, recovery does
    not panic on values of 256 bits, and panics on longer ones that the
    validation lets through. *)

(** ** Comparing byte strings *)

Lemma bytes_Compare_numeric a b :
  length a = length b -> Forall is_byte a -> Forall is_byte b ->
  bytes_Compare a b = Z.compare (be_decode a) (be_decode b).
Proof.
  revert b; induction a as [|x a IH]; intros [|y b] Hl Ha Hb; try done.
  apply List.Forall_cons_iff in Ha as [Hx Ha]. apply List.Forall_cons_iff in Hb as [Hy Hb].
  injection Hl as Hl. cbn [bytes_Compare]. rewrite (IH b) by done.
  change (x :: a) with ([x] ++ a). change (y :: b) with ([y] ++ b). rewrite !be_decode_app, <- Hl.
  change (be_decode [x]) with (0 * 256 + x). change (be_decode [y]) with (0 * 256 + y).
  pose proof (be_decode_bound a Ha) as Ba. pose proof (be_decode_bound b Hb) as Bb. rewrite <- Hl in Bb.
  set (w := 256 ^ Z.of_nat (length a)) in *.
  destruct (Z.compare_spec x y) as [->|Hlt|Hgt]; symmetry.
  - destruct (Z.compare_spec (be_decode a) (be_decode b));
      [apply Z.compare_eq_iff|apply Z.compare_lt_iff|apply Z.compare_gt_iff]; lia.
  - apply Z.compare_lt_iff. nia.
  - apply Z.compare_gt_iff. nia.
Qed.

Lemma trimLeftZeros_nonzero x b : x <> 0 -> trimLeftZeros (x :: b) = x :: b.
Proof. intros Hx. cbn. destruct b; [done|]. by destruct (Z.eqb_spec x 0). Qed.

(** For a value of 32 bytes the check is the numeric one. *)
Lemma value_in_order_32 x : 2 ^ 248 <= x < 2 ^ 256 ->
  value_in_order x = (x <? be_decode secp256k1N).
Proof.
  intros Hx. assert (length (big_Bytes x) = 32%nat) as Hl by (apply big_Bytes_full; lia).
  unfold value_in_order.
  assert (exists y b, big_Bytes x = y :: b /\ 1 <= y) as (y & b & E & Hy).
  { destruct (big_Bytes x) as [|y b] eqn:E; [done|]. exists y, b. split; [done|].
    pose proof (be_decode_big_Bytes x) as Hd. rewrite E, Z.abs_eq in Hd by lia.
    pose proof (big_Bytes_bytes x) as Hb. rewrite E in Hb.
    apply List.Forall_cons_iff in Hb as [Hy Hb]. unfold is_byte in Hy.
    destruct (decide (y = 0)) as [->|]; [|lia]. exfalso.
    change (0 :: b) with (replicate 1 0 ++ b) in Hd. rewrite be_decode_zeros_l in Hd.
    pose proof (be_decode_bound b Hb) as B. cbn in Hl. injection Hl as Hl. rewrite Hl in B.
    change (256 ^ Z.of_nat 31) with (2 ^ 248) in B. lia. }
  rewrite E, trimLeftZeros_nonzero, <- E by lia.
  rewrite bytes_Compare_numeric; [|by rewrite Hl|apply big_Bytes_bytes|apply be_encode_bytes].
  rewrite be_decode_big_Bytes, Z.abs_eq by lia.
  assert (match bytes_Compare (big_Bytes x) one with Lt => true | _ => false end = false) as ->.
  { rewrite E. cbn. destruct (Z.compare_spec y 1); [by destruct b|lia|done]. }
  rewrite orb_false_r. unfold Z.ltb. by destruct (x ?= be_decode secp256k1N).
Qed.

(** ** Encoding a signature *)

Definition fits (x : option Z) : Prop := Z.abs (default 0 x) < 2 ^ 256.

Lemma big_Bytes_fits x : fits x -> (length (big_Bytes (default 0%Z x)) <= 32)%nat.
Proof.
  intros Hx. unfold fits in Hx. replace (big_Bytes (default 0 x)) with (big_Bytes (Z.abs (default 0 x))).
  - apply big_Bytes_length. lia.
  - unfold big_Bytes, big.BitLen. rewrite Z.abs_idemp. f_equal. f_equal.
    destruct (Z.eqb_spec (Z.abs (default 0 x)) 0), (Z.eqb_spec (default 0 x) 0); try lia; done.
Qed.

Lemma copy_right_ok k b sig : (length b <= k)%nat ->
  copy_right k b sig = Ok (take (k - length b) sig ++ b ++ drop k sig).
Proof.
  intros Hl. unfold copy_right, len.
  by destruct (Z.ltb_spec (Z.of_nat k - Z.of_nat (length b)) 0); [lia|].
Qed.

Lemma encodeSignature_total R S V : fits R -> fits S -> exists o, encodeSignature R S V = Ok o.
Proof.
  intros HR HS. unfold encodeSignature. case_match; [by eexists|].
  pose proof (big_Bytes_fits R HR). pose proof (big_Bytes_fits S HS).
  rewrite copy_right_ok by lia. cbn [obind]. rewrite copy_right_ok by lia. by eexists.
Qed.

Lemma encodeSignature_exact r s V :
  0 <= r < 2 ^ 256 -> 0 <= s < 2 ^ 256 -> V <= 1 ->
  value_in_order r = true -> value_in_order s = true ->
  encodeSignature (Some r) (Some s) V = Ok (Some (be_encode 32 r ++ be_encode 32 s ++ [V])).
Proof.
  intros Hr Hs HV Or Os. unfold encodeSignature. cbn [ValidateSignatureValues from_option id].
  destruct (Z.ltb_spec 1 V); [lia|]. rewrite Or, Os. cbn [negb default from_option id].
  assert (length (big_Bytes r) <= 32)%nat by (apply big_Bytes_length; lia).
  assert (length (big_Bytes s) <= 32)%nat by (apply big_Bytes_length; lia).
  rewrite copy_right_ok by lia. cbn [obind]. rewrite copy_right_ok by lia. cbn [obind].
  do 2 f_equal. rewrite take_replicate, drop_replicate.
  replace ((32 - length (big_Bytes r)) `min` 65)%nat with (32 - length (big_Bytes r))%nat by lia.
  rewrite !(app_assoc (replicate _ 0) (big_Bytes r)), !big_Bytes_pad by lia.
  set (l := be_encode 32 r). assert (length l = 32%nat) as Hl by apply be_encode_length.
  rewrite (take_app_ge l) by lia. rewrite Hl.
  rewrite take_replicate, drop_app_ge, drop_replicate by (rewrite Hl; lia). rewrite Hl.
  replace ((64 - length (big_Bytes s) - 32) `min` (65 - 32))%nat with (32 - length (big_Bytes s))%nat by lia.
  rewrite <- !app_assoc, (app_assoc (replicate _ _)), big_Bytes_pad by lia.
  set (m := be_encode 32 s). assert (length m = 32%nat) as Hm by apply be_encode_length.
  rewrite (app_assoc l m), take_app_ge by (rewrite length_app; lia).
  rewrite length_app, Hl, Hm. change (64 - (32 + 32))%nat with 0%nat.
  rewrite take_0, app_nil_r. by rewrite <- app_assoc.
Qed.

(** ** Senders *)

Section facts.
Context `{FastRLP} `{Runtime} `{Secp256k1} `{!Secp256k1Ok}.

Lemma BytesToAddress_addr b : Forall is_byte b -> is_addr (BytesToAddress b).
Proof.
  intros Hb. unfold BytesToAddress, is_addr. set (l := _ ++ _).
  assert (Forall is_byte l) as Hl.
  { subst l. apply Forall_app. split; [apply Forall_replicate; unfold is_byte; lia|by apply Forall_drop]. }
  assert (length l = 20%nat) as Hn.
  { subst l. rewrite length_app, length_replicate, length_drop. unfold AddressLength. lia. }
  pose proof (be_decode_bound l Hl) as B. rewrite Hn in B. exact B.
Qed.

(** Recovery from a signature of at least one byte. *)
Lemma RecoverPubkey_app sig v h :
  RecoverPubkey (sig ++ [v]) h = Ok (RecoverCompact ((if v =? 1 then 28 else 27) :: sig) h).
Proof.
  unfold RecoverPubkey. rewrite length_app. cbn [length]. rewrite Nat.add_sub.
  rewrite lookup_app_r, Nat.sub_diag by lia. cbn [lookup list_lookup of_option obind].
  by rewrite take_app_le, take_ge by lia.
Qed.

Lemma encodeSignature_ends R S V sig : encodeSignature R S V = Ok (Some sig) ->
  exists sig', sig = sig' ++ [V].
Proof.
  unfold encodeSignature, copy_right. repeat (case_match; cbn [obind]; try done). intros [= <-]. by eexists.
Qed.

Lemma recover_sender_ok R S V h : fits R -> fits S ->
  exists o, recover_sender R S V h = Ok o /\ forall a, o = Some a -> is_addr a.
Proof.
  intros HR HS. unfold recover_sender.
  destruct (encodeSignature_total R S V HR HS) as [[sig|] E]; rewrite E; cbn [obind]; [|by eexists].
  apply encodeSignature_ends in E as [sig' ->]. unfold Ecrecover. rewrite RecoverPubkey_app. cbn [obind].
  destruct (RecoverCompact _ _) as [pub|]; cbn [fmap option_fmap option_map]; [|by eexists].
  eexists; split; [done|]. intros a [= <-]. apply BytesToAddress_addr, Forall_drop, Keccak256_bytes.
Qed.

Lemma Sender_total chainID tx : fits (tR tx) -> fits (tS tx) ->
  exists o, EIP155_Sender chainID tx = Ok o /\ forall a, o = Some a -> is_addr a.
Proof.
  intros HR HS. unfold EIP155_Sender, Frontier_Sender.
  destruct (negb _); by apply recover_sender_ok.
Qed.

(** A value above 256 bits that passes the lexicographic check is a negative
    slice bound. *)
Lemma encodeSignature_panics R S V :
  2 ^ 256 <= R -> value_in_order R = true -> value_in_order S = true -> V <= 1 ->
  encodeSignature (Some R) (Some S) V = Panic.
Proof.
  intros HR OR OS HV. unfold encodeSignature. cbn [ValidateSignatureValues from_option id].
  destruct (Z.ltb_spec 1 V); [lia|]. rewrite OR, OS. cbn [negb default from_option id].
  unfold copy_right at 1. unfold len.
  destruct (Z.ltb_spec (Z.of_nat 32 - Z.of_nat (length (big_Bytes R))) 0) as [|Hge]; [done|exfalso].
  pose proof (be_decode_bound _ (big_Bytes_bytes R)) as B.
  rewrite be_decode_big_Bytes, Z.abs_eq in B by lia.
  assert (256 ^ Z.of_nat (length (big_Bytes R)) <= 256 ^ 32) by (apply Z.pow_le_mono_r; lia). lia.
Qed.

Lemma V_of_chain chainID parity : 0 <= chainID < 2 ^ 62 -> 0 <= parity <= 1 ->
  be_decode (EIP155_CalculateV chainID parity) = parity + 35 + chainID * 2.
Proof.
  intros Hc Hp. unfold EIP155_CalculateV. rewrite be_decode_big_Bytes, int64_small by lia. lia.
Qed.

(** The recovery of a transaction whose V was computed for the chain. *)
Lemma Sender_protected chainID tx parity :
  0 <= chainID < 2 ^ 62 -> 0 <= parity <= 1 -> tV tx = Some (parity + 35 + chainID * 2) ->
  EIP155_Sender chainID tx = recover_sender (tR tx) (tS tx) parity (EIP155_Hash chainID tx).
Proof.
  intros Hc Hp HV. unfold EIP155_Sender. rewrite HV. cbn [default from_option id].
  rewrite Z.abs_eq by lia. rewrite Uint64_small by (unfold is_u64; lia).
  destruct (Z.eqb_spec (parity + 35 + chainID * 2) 27); [lia|].
  destruct (Z.eqb_spec (parity + 35 + chainID * 2) 28); [lia|].
  cbn [negb andb]. replace (negb (if _ : bool then true else true)) with false by (by case_match).
  rewrite int64_small by lia.
  replace (parity + 35 + chainID * 2 - chainID * 2 - 35) with parity by lia.
  unfold big.Int64. destruct (Z.ltb_spec parity 0); [lia|].
  rewrite Z.abs_eq, int64_small by lia. unfold byte_of. by rewrite Z.mod_small by lia.
Qed.

Lemma sender_panics chainID tx R S parity :
  0 <= chainID < 2 ^ 62 -> 0 <= parity <= 1 -> tV tx = Some (parity + 35 + chainID * 2) ->
  tR tx = Some R -> tS tx = Some S ->
  2 ^ 256 <= R -> value_in_order R = true -> value_in_order S = true ->
  EIP155_Sender chainID tx = Panic.
Proof.
  intros Hc Hp HV ER ES HR OR OS. rewrite (Sender_protected _ _ parity) by done.
  unfold recover_sender. by rewrite ER, ES, encodeSignature_panics by (done || lia).
Qed.

(** Signing and recovering.  The first byte of the signature is 27 or 28
    unless R exceeded the order of the curve. *)
Lemma SignTx_exact chainID tx k v r s :
  0 <= chainID < 2 ^ 62 -> 0 <= r < 2 ^ 256 -> 0 <= s < 2 ^ 256 ->
  SignCompact k (Hash_Bytes (EIP155_Hash chainID tx)) = Some (v :: be_encode 32 r ++ be_encode 32 s) ->
  EIP155_SignTx chainID tx k =
  Some (with_signature ((if v =? 28 then 1 else 0) + 35 + chainID * 2) r s (Transaction_Copy tx)).
Proof.
  intros Hc Hr Hs Hk. unfold EIP155_SignTx, Sign.
  change (EIP155_Hash chainID (Transaction_Copy tx)) with (EIP155_Hash chainID tx).
  rewrite Hk. cbn [mbind option_bind app tail]. cbn [lookup list_lookup from_option id].
  set (parity := if v =? 28 then 1 else 0).
  assert (0 <= parity <= 1) as Hp by (subst parity; case_match; lia).
  set (l := be_encode 32 r). assert (length l = 32%nat) as Hl by apply be_encode_length.
  set (m := be_encode 32 s). assert (length m = 32%nat) as Hm by apply be_encode_length.
  rewrite <- app_assoc, (lookup_app_r l) by lia. rewrite Hl. rewrite lookup_app_r by lia. rewrite Hm.
  cbn [lookup list_lookup Nat.sub from_option id].
  rewrite V_of_chain by done. rewrite take_app_le, take_ge by lia.
  rewrite drop_app_ge by lia. rewrite Hl, drop_0, take_app_le, take_ge by lia.
  subst l m. by rewrite !be_decode_encode_small by lia.
Qed.

Lemma sign_sender chainID tx k v r s :
  0 <= chainID < 2 ^ 62 ->
  SignCompact k (Hash_Bytes (EIP155_Hash chainID tx)) = Some (v :: be_encode 32 r ++ be_encode 32 s) ->
  27 <= v <= 28 -> 0 <= r < 2 ^ 256 -> 0 <= s < 2 ^ 256 ->
  value_in_order r = true -> value_in_order s = true ->
  exists tx', EIP155_SignTx chainID tx k = Some tx' /\
    EIP155_Sender chainID tx' = Ok (Some (PubKeyToAddress (public_of k))).
Proof.
  intros Hc Hk Hv Hr Hs Or Os. eexists. split; [by apply (SignTx_exact chainID tx k v r s)|].
  set (parity := if v =? 28 then 1 else 0).
  assert (0 <= parity <= 1) as Hp by (subst parity; case_match; lia).
  rewrite (Sender_protected chainID _ parity) by done. unfold recover_sender.
  cbn [with_signature tR tS]. rewrite encodeSignature_exact by (done || lia). cbn [obind].
  unfold Ecrecover. rewrite app_assoc, RecoverPubkey_app. cbn [obind].
  assert ((if parity =? 1 then 28 else 27) = v) as ->.
  { subst parity. destruct (Z.eqb_spec v 28); cbn; lia. }
  change (EIP155_Hash chainID (with_signature _ _ _ _)) with (EIP155_Hash chainID tx).
  rewrite (recover_sign k _ _ Hk). done.
Qed.

End facts.
