(* ===== verification/Sha256.v ===== *)
(** SHA-256 of the standard library package crypto/sha256, as FIPS 180-4 defines
    it, on 32-bit words. *)

From Stdlib Require Import ZArith Lia.
From stdpp Require Import base list numbers.
From S2P Require Import Prelude.

Open Scope Z_scope.

Module Sha256.

Definition add32 (x y : Z) : Z := (x + y) mod 2 ^ 32.
Definition ROTR (n x : Z) : Z := Z.lor (Z.shiftr x n) (Z.shiftl x (32 - n) mod 2 ^ 32).
Definition not32 (x : Z) : Z := 2 ^ 32 - 1 - x.

Definition Ch (x y z : Z) : Z := Z.lxor (Z.land x y) (Z.land (not32 x) z).
Definition Maj (x y z : Z) : Z := Z.lxor (Z.lxor (Z.land x y) (Z.land x z)) (Z.land y z).
Definition Sigma0 (x : Z) : Z := Z.lxor (Z.lxor (ROTR 2 x) (ROTR 13 x)) (ROTR 22 x).
Definition Sigma1 (x : Z) : Z := Z.lxor (Z.lxor (ROTR 6 x) (ROTR 11 x)) (ROTR 25 x).
Definition sigma0 (x : Z) : Z := Z.lxor (Z.lxor (ROTR 7 x) (ROTR 18 x)) (Z.shiftr x 3).
Definition sigma1 (x : Z) : Z := Z.lxor (Z.lxor (ROTR 17 x) (ROTR 19 x)) (Z.shiftr x 10).

(** The constants are the first 32 bits of the fractional parts of the cube and
    square roots of the first primes. *)
Definition prime (n : Z) : bool :=
  forallb (fun d => negb (n mod Z.of_nat d =? 0)) (seq 2 (Z.to_nat n - 2)).
Definition primes : list Z := List.filter prime (Z.of_nat <$> seq 2 310).

(** The largest number below [2 ^ n + r] whose cube is at most [x], bit by bit. *)
Fixpoint cube_root (n : nat) (x r : Z) : Z :=
  match n with
  | O => r
  | S n' => let r' := r + 2 ^ Z.of_nat n' in cube_root n' x (if r' * r' * r' <=? x then r' else r)
  end.

Definition K : list Z :=
  Eval vm_compute in (fun p => cube_root 36 (p * 2 ^ 96) 0 mod 2 ^ 32) <$> take 64 primes.
Definition H0 : list Z :=
  Eval vm_compute in (fun p => Z.sqrt (p * 2 ^ 64) mod 2 ^ 32) <$> take 8 primes.

(** Padding: a one bit, zeros, and the length in bits on 8 bytes. *)
Definition pad (m : list Z) : list Z :=
  let l := len m in
  let zeros := (55 - l) mod 64 in
  m ++ [128] ++ replicate (Z.to_nat zeros) 0 ++ be_encode 8 (8 * l).

(** Groups of [n] elements; the last may be shorter. *)
Fixpoint chunks (fuel n : nat) (l : list Z) : list (list Z) :=
  match fuel, l with
  | S f, _ :: _ => take n l :: chunks f n (drop n l)
  | _, _ => []
  end.

(** The message schedule, most recent word first. *)
Fixpoint schedule (n : nat) (w : list Z) : list Z :=
  match n with
  | O => w
  | S n' =>
    let at_ i := default 0 (w !! i) in
    schedule n'
      (add32 (add32 (sigma1 (at_ 1%nat)) (at_ 6%nat)) (add32 (sigma0 (at_ 14%nat)) (at_ 15%nat)) :: w)
  end.

Definition round (s : list Z) (kw : Z * Z) : list Z :=
  match s with
  | [a; b; c; d; e; f; g; h] =>
    let T1 := add32 (add32 (add32 (add32 h (Sigma1 e)) (Ch e f g)) (fst kw)) (snd kw) in
    let T2 := add32 (Sigma0 a) (Maj a b c) in
    [add32 T1 T2; a; b; c; add32 d T1; e; f; g]
  | _ => s
  end.

Definition block (h : list Z) (b : list Z) : list Z :=
  let words := be_decode <$> chunks 16 4 b in
  let w := reverse (schedule 48 (reverse words)) in
  zip_with add32 h (foldl round h (zip K w)).

Definition Sum256 (m : list Z) : list Z :=
  let p := pad m in
  flat_map (be_encode 4) (foldl block H0 (chunks (length p) 64 p)).

(** The test vectors of the standard: the empty message and abc. *)
Example Sum256_empty :
  Sum256 [] = be_encode 32 0xe3b0c44298fc1c149afbf4c8996fb92427ae41e4649b934ca495991b7852b855.
Proof. vm_compute. reflexivity. Qed.

Example Sum256_abc :
  Sum256 [97; 98; 99] = be_encode 32 0xba7816bf8f01cfea414140de5dae2223b00361a396177a9cb410ff61f20015ad.
Proof. vm_compute. reflexivity. Qed.

Lemma Sum256_bytes m : Forall is_byte (Sum256 m).
Proof.
  unfold Sum256. generalize (foldl block H0 (chunks (length (pad m)) 64 (pad m))). intros l.
  induction l as [|w l IH]; cbn [flat_map]; [constructor|].
  apply Forall_app. split; [apply be_encode_bytes|exact IH].
Qed.

Lemma blocks_length bs h : (length (foldl block h bs) <= length h)%nat.
Proof.
  revert h; induction bs as [|b bs IH]; intros h; [done|]. cbn [foldl].
  etransitivity; [apply IH|]. unfold block. rewrite length_zip_with. lia.
Qed.

Lemma Sum256_ok m : bytes_ok (Sum256 m).
Proof.
  split; [apply Sum256_bytes|]. unfold Sum256, len.
  pose proof (blocks_length (chunks (length (pad m)) 64 (pad m)) H0) as Hl.
  generalize dependent (foldl block H0 (chunks (length (pad m)) 64 (pad m))). intros l Hl.
  assert (forall k : list Z, length (flat_map (be_encode 4) k) = (4 * length k)%nat) as ->.
  { induction k as [|x k IH]; [done|]. cbn [flat_map length].
    rewrite length_app, be_encode_length, IH. lia. }
  cbn [H0 length] in Hl. lia.
Qed.

End Sha256.
