(* ===== verification/CurveField.v ===== *)
(** Arithmetic modulo the prime of secp256k1, with the reduction that its form
    2^256 - c allows, so that square roots can be evaluated. *)

From Stdlib Require Import ZArith Lia Zpow_facts.
From stdpp Require Import base numbers.
From S2P Require Import Prelude.

Open Scope Z_scope.

Definition curveP : Z := 2 ^ 256 - 2 ^ 32 - 977.
Definition curveC : Z := 2 ^ 32 + 977.

(** The high half counts [curveC] times. *)
Definition fold_high (x : Z) : Z := Z.land x (Z.ones 256) + Z.shiftr x 256 * curveC.

(** [x] modulo the prime: three folds are enough for products. *)
Definition reduce (x : Z) : Z :=
  let r := fold_high (fold_high (fold_high x)) in
  if (0 <=? r) && (r <? curveP) then r else r mod curveP.

Lemma fold_high_mod x : fold_high x mod curveP = x mod curveP.
Proof.
  unfold fold_high. rewrite Z.land_ones, Z.shiftr_div_pow2 by lia.
  rewrite (Z_div_mod_eq_full x (2 ^ 256)) at 3.
  replace (2 ^ 256 * (x / 2 ^ 256) + x mod 2 ^ 256)
    with (x mod 2 ^ 256 + x / 2 ^ 256 * curveC + (x / 2 ^ 256) * curveP)
    by (unfold curveC, curveP; ring).
  by rewrite Z_mod_plus_full.
Qed.

Lemma reduce_spec x : reduce x = x mod curveP.
Proof.
  unfold reduce. set (r := fold_high _).
  assert (r mod curveP = x mod curveP) as E by (unfold r; by rewrite !fold_high_mod).
  destruct (Z.leb_spec 0 r), (Z.ltb_spec r curveP); cbn [andb]; try exact E.
  rewrite <- E. symmetry. apply Z.mod_small. lia.
Qed.

(** Powers, two bits of the exponent at a time; [x2] and [x3] are the square and
    the cube of [x]. *)
Fixpoint pow_pos (x x2 x3 : Z) (e : positive) : Z :=
  match e with
  | xH => x
  | xO xH => x2
  | xI xH => x3
  | xO (xO p) => let y := pow_pos x x2 x3 p in let y := reduce (y * y) in reduce (y * y)
  | xI (xO p) => let y := pow_pos x x2 x3 p in let y := reduce (y * y) in reduce (reduce (y * y) * x)
  | xO (xI p) => let y := pow_pos x x2 x3 p in let y := reduce (y * y) in reduce (reduce (y * y) * x2)
  | xI (xI p) => let y := pow_pos x x2 x3 p in let y := reduce (y * y) in reduce (reduce (y * y) * x3)
  end.

(** [big.Int.Exp] modulo the prime, for exponents that are not negative. *)
Definition powm (x e : Z) : Z :=
  match e with
  | Zpos p =>
    let x := reduce x in
    let x2 := reduce (x * x) in
    pow_pos x x2 (reduce (x2 * x)) p
  | _ => 1
  end.

Lemma mod_square y z : y = z mod curveP -> reduce (y * y) = (z * z) mod curveP.
Proof. intros ->. rewrite reduce_spec. by rewrite <- Z.mul_mod by done. Qed.

Lemma mod_product y z u v : y = z mod curveP -> u = v mod curveP -> reduce (y * u) = (z * v) mod curveP.
Proof. intros -> ->. rewrite reduce_spec. by rewrite <- Z.mul_mod by done. Qed.

Lemma pow_pos_spec x e :
  let x1 := x mod curveP in let x2 := (x * x) mod curveP in let x3 := (x * x * x) mod curveP in
  pow_pos x1 x2 x3 e = (x ^ Zpos e) mod curveP.
Proof.
  cbv zeta. revert e. fix IH 1. intros e.
  destruct e as [[p|p|]|[p|p|]|]; cbn [pow_pos].
  1: pose proof (mod_product _ _ _ _ (mod_square _ _ (mod_square _ _ (IH p))) (eq_refl ((x * x * x) mod curveP))) as E.
  2: pose proof (mod_product _ _ _ _ (mod_square _ _ (mod_square _ _ (IH p))) (eq_refl (x mod curveP))) as E.
  4: pose proof (mod_product _ _ _ _ (mod_square _ _ (mod_square _ _ (IH p))) (eq_refl ((x * x) mod curveP))) as E.
  5: pose proof (mod_square _ _ (mod_square _ _ (IH p))) as E.
  1, 2, 4, 5: rewrite E; f_equal.
  - rewrite (Pos2Z.inj_xI (xI p)), (Pos2Z.inj_xI p).
    replace (2 * (2 * Zpos p + 1) + 1) with (Zpos p + Zpos p + Zpos p + Zpos p + 3) by lia.
    rewrite !Z.pow_add_r by lia. ring.
  - rewrite (Pos2Z.inj_xI (xO p)), (Pos2Z.inj_xO p).
    replace (2 * (2 * Zpos p) + 1) with (Zpos p + Zpos p + Zpos p + Zpos p + 1) by lia.
    rewrite !Z.pow_add_r by lia. ring.
  - rewrite (Pos2Z.inj_xO (xI p)), (Pos2Z.inj_xI p).
    replace (2 * (2 * Zpos p + 1)) with (Zpos p + Zpos p + Zpos p + Zpos p + 2) by lia.
    rewrite !Z.pow_add_r by lia. ring.
  - rewrite (Pos2Z.inj_xO (xO p)), (Pos2Z.inj_xO p).
    replace (2 * (2 * Zpos p)) with (Zpos p + Zpos p + Zpos p + Zpos p) by lia.
    rewrite !Z.pow_add_r by lia. ring.
  - f_equal. ring.
  - f_equal. ring.
  - f_equal. ring.
Qed.

Lemma powm_spec x e : 0 <= e -> powm x e = (x ^ e) mod curveP.
Proof.
  destruct e as [|e|e]; intros He; [reflexivity| |lia]. unfold powm.
  pose proof (reduce_spec x) as E1. pose proof (mod_square _ _ E1) as E2.
  pose proof (mod_product _ _ _ _ E2 E1) as E3. rewrite E3, E2, E1. apply pow_pos_spec.
Qed.
