(* ===== verification/Vrf.v ===== *)
(** The verifiable random function of src/common/crypto/vrf and the point
    decompression of src/common/crypto/decompress.go, on the curve secp256k1,
    the only curve the node's keys are on.  The operations of the curve (the
    package btcec) are a class; the prover's randomness is an argument. *)


From Stdlib Require Import ZArith Lia Zpow_facts.
From stdpp Require Import base list numbers.
From S2P Require Import Prelude Types Chain Rlp TxSigner Sha256 CurveField.

Open Scope Z_scope.

(** ** The curve *)

Definition curveN : Z := 0xfffffffffffffffffffffffffffffffebaaedce6af48a03bbfd25e8cd0364141.
Definition curveB : Z := 7.
Definition curveG : PublicKey :=
  mkPublicKey 0x79be667ef9dcbbac55a06295ce870b07029bfcdb2dce28d959f2815b16f81798
              0x483ada7726a3c4655da4fbfc0e1108a8fd17b448a68554199c47d08ffb10d4b8.
Definition byteLen : nat := 32.

(** The methods of btcec's curve; a scalar is given by its bytes. *)
Class Curve := {
  ScalarMult : PublicKey -> list Z -> PublicKey;
  ScalarBaseMult : list Z -> PublicKey;
  curve_Add : PublicKey -> PublicKey -> PublicKey;
  IsOnCurve : PublicKey -> bool
}.

(** ** Decompression *)

(** [curveSqrt], for a prime that is 3 modulo 4. *)
Definition curveSqrt (ySquare : Z) : option Z :=
  let tmp1 := Z.shiftr curveP 2 + 1 in
  let tmp2 := powm ySquare tmp1 in
  let tmp3 := powm tmp2 2 in
  if tmp3 =? ySquare then Some tmp2 else None.

Definition deCompress (yTilde : Z) (xValue : list Z) : option PublicKey :=
  let xCoord := be_decode xValue in
  let ySqare := powm xCoord 2 in
  let ySqare := (ySqare * xCoord) mod curveP in
  let ySqare := (ySqare + curveB) mod curveP in
  yValue ← curveSqrt ySqare;
  let yCoord :=
    if Z.even yValue && negb (yTilde =? 0) || negb (Z.even yValue) && negb (yTilde =? 1)
    then curveP - yValue else yValue in
  Some (mkPublicKey xCoord yCoord).

Definition DecodePublicKey (data : list Z) : option PublicKey :=
  if (length data <? byteLen + 1)%nat then None
  else
    let x := take byteLen (drop 1 data) in
    match data !! 0%nat with
    | Some b =>
      if b =? 4 then
        if (length data <? byteLen * 2 + 1)%nat then None
        else Some (mkPublicKey (be_decode x) (be_decode (take byteLen (drop (byteLen + 1) data))))
      else if (b =? 2) || (b =? 3) then deCompress (Z.land b 1) x
      else None
    | None => None
    end.

(** [elliptic.Unmarshal]. *)
Definition UnmarshalPoint `{Curve} (data : list Z) : option PublicKey :=
  if negb (length data =? 1 + 2 * byteLen)%nat then None
  else if negb (default 0 (data !! 0%nat) =? 4) then None
  else
    let p := mkPublicKey (be_decode (take byteLen (drop 1 data))) (be_decode (drop (1 + byteLen) data)) in
    if (curveP <=? pkX p) || (curveP <=? pkY p) then None
    else if IsOnCurve p then Some p else None.

(** ** Hashing to the curve and to integers *)

(** The loop of [hashToCurve], from counter [i] on. *)
Fixpoint hashToCurve_loop (n : nat) (i : Z) (m : list Z) : option PublicKey :=
  match n with
  | O => None
  | S n =>
    match DecodePublicKey (take (byteLen + 1) (2 :: Sha256.Sum256 (be_encode 4 i ++ m))) with
    | Some p => Some p
    | None => hashToCurve_loop n (i + 1) m
    end
  end.
Definition hashToCurve (m : list Z) : option PublicKey := hashToCurve_loop 100 0 m.

(** [hashToInt] tries counters until a hash is below N - 1; [fuel] bounds the
    tries. *)
Fixpoint hashToInt_loop (fuel : nat) (i : Z) (m : list Z) : outcome Z :=
  match fuel with
  | O => OutOfFuel
  | S fuel =>
    let k := be_decode (take byteLen (Sha256.Sum256 (be_encode 4 i ++ m))) in
    if k <? curveN - 1 then Ok (k + 1) else hashToInt_loop fuel ((i + 1) mod 2 ^ 32) m
  end.
Definition hashToInt (fuel : nat) (m : list Z) : outcome Z := hashToInt_loop fuel 0 m.

(** The number on [byteLen] bytes; a longer one is a negative length. *)
Definition left_padded (x : Z) : outcome (list Z) :=
  if (byteLen <? length (big_Bytes x))%nat then Panic
  else Ok (replicate (byteLen - length (big_Bytes x)) 0 ++ big_Bytes x).

Section vrf.
Context `{Secp256k1} `{Curve}.
(** The scalar of a private key. *)
Context (key_D : PrivateKey -> Z).
Context (fuel : nat).

Definition Evaluate (pri : PrivateKey) (r : list Z) (m : list Z) : outcome (list Z) :=
  let pub := public_of pri in
  let ri := be_decode r in
  obind (of_option (hashToCurve (MarshalPublicKey pub ++ m))) (fun Hp =>
  let vrf := MarshalPublicKey (ScalarMult Hp (big_Bytes (key_D pri))) in
  let rG := ScalarBaseMult r in
  let rH := ScalarMult Hp r in
  let b := MarshalPublicKey curveG ++ MarshalPublicKey Hp ++ MarshalPublicKey pub ++ vrf ++
           MarshalPublicKey rG ++ MarshalPublicKey rH in
  obind (hashToInt fuel b) (fun s =>
  let t := (ri - s * key_D pri) mod curveN in
  obind (left_padded s) (fun s =>
  obind (left_padded t) (fun t => Ok (s ++ t ++ vrf))))).

(** [Vrf]: the value and its proof. *)
Definition Vrf (prv : PrivateKey) (r : list Z) (msg : list Z) : outcome (list Z * list Z) :=
  obind (Evaluate prv r msg) (fun proof =>
  Ok (take (2 * byteLen + 1) (drop (2 * byteLen) proof), take (2 * byteLen) proof)).

(** [ProofToHash]; [None] is the error. *)
Definition ProofToHash (pk : PublicKey) (m proof : list Z) : outcome (option (list Z)) :=
  if negb (length proof =? 2 * byteLen + (2 * byteLen + 1))%nat then Ok None
  else
    let s := take byteLen proof in
    let t := take byteLen (drop byteLen proof) in
    let vrf := take (2 * byteLen + 1) (drop (2 * byteLen) proof) in
    match UnmarshalPoint vrf with
    | None => Ok None
    | Some uH =>
      let tksG := curve_Add (ScalarBaseMult t) (ScalarMult pk s) in
      obind (of_option (hashToCurve (MarshalPublicKey pk ++ m))) (fun Hp =>
      let tksH := curve_Add (ScalarMult Hp t) (ScalarMult uH s) in
      let b := MarshalPublicKey curveG ++ MarshalPublicKey Hp ++ MarshalPublicKey pk ++ vrf ++
               MarshalPublicKey tksG ++ MarshalPublicKey tksH in
      obind (hashToInt fuel b) (fun h2 =>
      obind (left_padded h2) (fun h2 =>
      if bool_decide (s = h2) then Ok (Some (Sha256.Sum256 vrf)) else Ok None)))
    end.

Definition Verify (pub : PublicKey) (msg vrf nizk : list Z) : outcome bool :=
  if negb (length vrf =? byteLen * 2 + 1)%nat || negb (length nizk =? byteLen * 2)%nat then Ok false
  else
    obind (ProofToHash pub msg (nizk ++ vrf)) (fun o =>
    Ok (match o with Some _ => true | None => false end)).

End vrf.

(** [HashToBigInt]: the order has 256 bits, so nothing is shifted. *)
Definition HashToBigInt (hash : list Z) : Z := be_decode (if (32 <? length hash)%nat then take 32 hash else hash).

(** The verifiable random function is complete: a value that was evaluated with
    a key is accepted for its public key, whatever the randomness of the proof. *)

(** The curve is a group of prime order N: [mul k p] is the k-fold of a point
    of the curve. *)
Class CurveOk `{Secp256k1} `{Curve} (key_D : PrivateKey -> Z) := {
  mul : Z -> PublicKey -> PublicKey;
  key_range k : 0 < key_D k < curveN;
  key_public k : public_of k = mul (key_D k) curveG;
  G_on : IsOnCurve curveG = true;
  on_spec p : 0 <= pkX p < 2 ^ 256 -> 0 <= pkY p < curveP ->
    (pkY p * pkY p) mod curveP = (pkX p * pkX p * pkX p + curveB) mod curveP -> IsOnCurve p = true;
  ScalarMult_mul p b : IsOnCurve p = true -> ScalarMult p b = mul (be_decode b) p;
  ScalarBaseMult_mul b : ScalarBaseMult b = mul (be_decode b) curveG;
  mul_add a b p : IsOnCurve p = true -> curve_Add (mul a p) (mul b p) = mul (a + b) p;
  mul_mul a b p : IsOnCurve p = true -> mul a (mul b p) = mul (a * b) p;
  mul_mod a p : IsOnCurve p = true -> mul (a mod curveN) p = mul a p;
  mul_on k p : IsOnCurve p = true -> k mod curveN <> 0 ->
    IsOnCurve (mul k p) = true /\ 0 <= pkX (mul k p) < curveP /\ 0 <= pkY (mul k p) < curveP
}.

Lemma curveN_bound : 1 < curveN < 2 ^ 256.
Proof. split; vm_compute; reflexivity. Qed.

Lemma curveP_bound : 0 < curveP < 2 ^ 256.
Proof. split; vm_compute; reflexivity. Qed.

(** ** Points *)

Lemma curveSqrt_spec y2 y : curveSqrt y2 = Some y -> 0 <= y < curveP /\ (y * y) mod curveP = y2.
Proof.
  unfold curveSqrt. cbv zeta. rewrite !powm_spec by (vm_compute; discriminate). set (z := (y2 ^ _) mod curveP).
  destruct (Z.eqb_spec ((z ^ 2) mod curveP) y2) as [E|]; [|done]. intros [= <-].
  split; [apply Z.mod_pos_bound; pose proof curveP_bound; lia|]. by rewrite Z.pow_2_r in E.
Qed.

Lemma neg_square y : ((curveP - y) * (curveP - y)) mod curveP = (y * y) mod curveP.
Proof.
  replace ((curveP - y) * (curveP - y)) with (y * y + (curveP - 2 * y) * curveP) by ring.
  by rewrite Z_mod_plus_full.
Qed.

Lemma deCompress_on x p : deCompress 0 x = Some p -> Forall is_byte x -> length x = byteLen ->
  0 <= pkX p < 2 ^ 256 /\ 0 <= pkY p < curveP /\
  (pkY p * pkY p) mod curveP = (pkX p * pkX p * pkX p + curveB) mod curveP.
Proof.
  unfold deCompress. intros Hd Hx Hl.
  destruct (curveSqrt _) as [y|] eqn:Ey; cbn [mbind option_bind] in Hd; [|done].
  apply curveSqrt_spec in Ey as [Hy Ey]. rewrite powm_spec in Ey by done.
  pose proof (be_decode_bound x Hx) as Hb. rewrite Hl in Hb.
  assert ((y * y) mod curveP = (be_decode x * be_decode x * be_decode x + curveB) mod curveP) as Esq.
  { rewrite Ey, Zplus_mod_idemp_l, Zplus_mod, Zmult_mod_idemp_l, <- Zplus_mod. by rewrite Z.pow_2_r. }
  cbn [Z.eqb negb] in Hd. rewrite andb_false_r, orb_false_l, andb_true_r in Hd.
  destruct (Z.even y) eqn:Ev; cbn [negb] in Hd; injection Hd as <-; cbn [pkX pkY]; (split; [exact Hb|]).
  - by split.
  - rewrite neg_square. split; [|exact Esq]. assert (y <> 0); [by intros ->|lia].
Qed.

Lemma hashToCurve_loop_on n i m p : hashToCurve_loop n i m = Some p ->
  0 <= pkX p < 2 ^ 256 /\ 0 <= pkY p < curveP /\
  (pkY p * pkY p) mod curveP = (pkX p * pkX p * pkX p + curveB) mod curveP.
Proof.
  revert i; induction n as [|n IH]; intros i; [done|].
  cbn [hashToCurve_loop]. destruct (DecodePublicKey _) as [q|] eqn:E; [|apply IH].
  intros [= <-]. revert E. set (hash := Sha256.Sum256 _).
  change (take (byteLen + 1) (2 :: hash)) with (2 :: take byteLen hash). unfold DecodePublicKey.
  destruct (Nat.ltb_spec (length (2 :: take byteLen hash)) (byteLen + 1)) as [|Hl]; [done|].
  cbn [lookup list_lookup Z.eqb Pos.eqb orb]. change (Z.land 2 1) with 0. cbn [drop]. rewrite drop_0, take_take.
  rewrite Nat.min_id. cbn [length] in Hl. rewrite length_take in Hl.
  intros E. apply deCompress_on in E; [done| |rewrite length_take; lia].
  apply Forall_take, Sha256.Sum256_bytes.
Qed.

Lemma MarshalPublicKey_length p : length (MarshalPublicKey p) = 65%nat.
Proof. unfold MarshalPublicKey. cbn [length]. rewrite length_app, !be_encode_length. done. Qed.

Lemma hashToInt_range fuel i m s : hashToInt_loop fuel i m = Ok s -> 1 <= s < curveN.
Proof.
  revert i; induction fuel as [|fuel IH]; intros i; [done|].
  cbn [hashToInt_loop]. set (k := be_decode _). destruct (Z.ltb_spec k (curveN - 1)) as [Hk|]; [|apply IH].
  intros [= <-]. assert (0 <= k); [|lia].
  apply be_decode_bound, Forall_take, Sha256.Sum256_bytes.
Qed.

Lemma left_padded_ok x : 0 <= x < curveN -> left_padded x = Ok (be_encode 32 x).
Proof.
  intros Hx. pose proof curveN_bound. unfold left_padded, byteLen.
  assert (length (big_Bytes x) <= 32)%nat as Hl by (apply big_Bytes_length; lia).
  destruct (Nat.ltb_spec 32 (length (big_Bytes x))); [lia|]. by rewrite big_Bytes_pad by lia.
Qed.

Lemma Ok_pair {A B} (a c : A) (b d : B) : Ok (a, b) = Ok (c, d) -> a = c /\ b = d.
Proof. by intros [= -> ->]. Qed.

Section complete.
Context `{Secp256k1} `{Curve} (key_D : PrivateKey -> Z) `{!CurveOk key_D}.

Lemma Unmarshal_Marshal p : IsOnCurve p = true -> 0 <= pkX p < curveP -> 0 <= pkY p < curveP ->
  UnmarshalPoint (MarshalPublicKey p) = Some p.
Proof.
  intros Ho Hx Hy. pose proof curveP_bound. unfold UnmarshalPoint. rewrite MarshalPublicKey_length.
  change (negb (65 =? 1 + 2 * byteLen)%nat) with false. cbn [MarshalPublicKey lookup list_lookup drop].
  change (negb (default 0 (Some 4) =? 4)) with false.
  unfold byteLen. change (drop (1 + 32) (MarshalPublicKey p)) with
    (drop 32 (be_encode 32 (pkX p) ++ be_encode 32 (pkY p))). cbn [drop]. rewrite ?drop_0.
  rewrite take_app_le, take_ge, drop_app_ge by (rewrite be_encode_length; lia).
  rewrite be_encode_length, Nat.sub_diag, drop_0, !be_decode_encode_small by lia. cbn [pkX pkY].
  destruct (Z.leb_spec curveP (pkX p)); [lia|]. destruct (Z.leb_spec curveP (pkY p)); [lia|]. cbn [orb].
  replace (mkPublicKey (pkX p) (pkY p)) with p by (by destruct p). by rewrite Ho.
Qed.

(** [t] is [r - s*d]: adding [s] times the [d]-fold gives the [r]-fold. *)
Lemma combine r s d p : IsOnCurve p = true -> d mod curveN <> 0 ->
  curve_Add (mul ((r - s * d) mod curveN) p) (mul s (mul d p)) = mul r p.
Proof.
  intros Hp Hd. rewrite mul_mul, mul_add by done. rewrite <- mul_mod by done.
  rewrite Zplus_mod_idemp_l. replace (r - s * d + s * d) with r by ring. by apply mul_mod.
Qed.

Lemma vrf_complete fuel k r m vrf nizk : Forall is_byte r ->
  Vrf key_D fuel k r m = Ok (vrf, nizk) -> Verify fuel (public_of k) m vrf nizk = Ok true.
Proof.
  intros Hr. unfold Vrf, Evaluate. pose proof (key_range k) as Hd. pose proof curveN_bound as HN.
  assert (key_D k mod curveN <> 0) as Hd0 by (rewrite Z.mod_small; lia).
  destruct (hashToCurve _) as [Hp|] eqn:EH; cbn [of_option obind]; [|done].
  pose proof (on_spec Hp) as Hon. destruct (hashToCurve_loop_on _ _ _ _ EH) as (B1 & B2 & B3).
  specialize (Hon B1 B2 B3).
  rewrite !ScalarMult_mul, ScalarBaseMult_mul by done.
  rewrite be_decode_big_Bytes, Z.abs_eq by lia.
  destruct (mul_on (key_D k) Hp Hon Hd0) as (Von & Vx & Vy). set (V := mul (key_D k) Hp) in *.
  destruct (hashToInt fuel _) as [s| |] eqn:Es; cbn [obind]; try done.
  pose proof (hashToInt_range _ _ _ _ Es) as Hs.
  rewrite !left_padded_ok by (try apply Z.mod_pos_bound; lia). cbn [obind].
  set (t := (be_decode r - s * key_D k) mod curveN) in *.
  assert (0 <= t < curveN) as Ht by (apply Z.mod_pos_bound; lia).
  set (s32 := be_encode 32 s). set (t32 := be_encode 32 t). set (v := MarshalPublicKey V).
  assert (length s32 = 32%nat /\ length t32 = 32%nat /\ length v = 65%nat) as (L1 & L2 & L3).
  { subst s32 t32 v. by rewrite !be_encode_length, MarshalPublicKey_length. }
  assert (take (2 * byteLen) (s32 ++ t32 ++ v) = s32 ++ t32) as ->.
  { unfold byteLen. rewrite app_assoc, take_app_le, take_ge by (rewrite length_app; lia). done. }
  assert (drop (2 * byteLen) (s32 ++ t32 ++ v) = v) as Ev.
  { unfold byteLen. rewrite app_assoc, drop_app_ge by (rewrite length_app; lia).
    by rewrite length_app, L1, L2, drop_0. }
  rewrite Ev. rewrite take_ge by (unfold byteLen; lia). intros Eq.
  assert (v = vrf /\ s32 ++ t32 = nizk) as [<- <-] by exact (Ok_pair _ _ _ _ Eq).
  unfold Verify. rewrite L3, length_app, L1, L2. cbn [Nat.eqb byteLen Nat.mul Nat.add negb orb].
  unfold ProofToHash. rewrite !length_app, L1, L2, L3. cbn [Nat.eqb byteLen Nat.mul Nat.add negb].
  rewrite <- app_assoc. change 64%nat with (2 * byteLen)%nat. rewrite Ev. rewrite (take_ge v) by (unfold byteLen; lia).
  unfold v at 1. rewrite (Unmarshal_Marshal V Von Vx Vy). rewrite EH. cbn [of_option obind].
  assert (take byteLen (s32 ++ t32 ++ v) = s32) as ->
    by (unfold byteLen; by rewrite take_app_le, take_ge by lia).
  assert (take byteLen (drop byteLen (s32 ++ t32 ++ v)) = t32) as ->.
  { unfold byteLen. rewrite drop_app_ge, L1, Nat.sub_diag, drop_0 by lia. by rewrite take_app_le, take_ge by lia. }
  destruct (mul_on (key_D k) curveG G_on Hd0) as (Pon & _ & _).
  rewrite (key_public k) in *. rewrite !ScalarMult_mul, ScalarBaseMult_mul by done.
  subst s32 t32. rewrite !be_decode_encode_small by lia. subst t V. rewrite !combine by (done || apply G_on).
  fold v in Es |- *. rewrite Es. cbn [obind]. rewrite left_padded_ok by lia. cbn [obind].
  by rewrite bool_decide_true.
Qed.

End complete.
