(* ===== verification/Seals.v ===== *)
(** Seals and signatures of the consensus engine, src/consensus/pvbft/sign.go,
    and the seed of the verifiable random function, vrf.go. *)

From Stdlib Require Import ZArith Lia.
From stdpp Require Import base gmap list numbers.
From S2P Require Import Prelude Types Text Chain Rlp TxSigner Vrf Validators Snapshots Extra.

Open Scope Z_scope.

(** ** Text that is hashed *)

(** A number in decimal; 20 digits are enough for 64 bits. *)
Fixpoint dec_loop (fuel : nat) (n : Z) (acc : list Z) : list Z :=
  match fuel with
  | O => acc
  | S fuel => if n <? 10 then 48 + n :: acc else dec_loop fuel (n / 10) (48 + n mod 10 :: acc)
  end.
Definition decimal (n : Z) : list Z := dec_loop 20 n [].
(** A number of any size. *)
Definition nat_digits (n : Z) : list Z := dec_loop (S (Z.to_nat (Z.log2 n))) n [].

(** [base64.StdEncoding]. *)
Definition base64_char (d : Z) : Z :=
  if d <? 26 then 65 + d else if d <? 52 then 71 + d else if d <? 62 then d - 4
  else if d =? 62 then 43 else 47.
Fixpoint base64 (b : list Z) : list Z :=
  match b with
  | [] => []
  | [x] => [base64_char (x / 4); base64_char (x mod 4 * 16); 61; 61]
  | [x; y] => [base64_char (x / 4); base64_char (x mod 4 * 16 + y / 16); base64_char (y mod 16 * 4); 61]
  | x :: y :: z :: b =>
    [base64_char (x / 4); base64_char (x mod 4 * 16 + y / 16); base64_char (y mod 16 * 4 + z / 64);
     base64_char (z mod 64)] ++ base64 b
  end.

(** The punctuation of [encoding/json]. *)
Definition json_string (s : list Z) : list Z := [34] ++ s ++ [34].
Definition json_field (name : list Z) (value : list Z) : list Z := json_string name ++ [58] ++ value.
Definition json_object (fields : list (list Z)) : list Z :=
  [123] ++ match fields with
           | [] => []
           | f :: fs => f ++ flat_map (fun f => 44 :: f) fs
           end ++ [125].

(** The names BlockNumber, VrfValue, StateRoot, ParentVRF and ParentHash. *)
Definition name_BlockNumber : list Z := [66; 108; 111; 99; 107; 78; 117; 109; 98; 101; 114].
Definition name_VrfValue : list Z := [86; 114; 102; 86; 97; 108; 117; 101].
Definition name_StateRoot : list Z := [83; 116; 97; 116; 101; 82; 111; 111; 116].
Definition name_ParentVRF : list Z := [80; 97; 114; 101; 110; 116; 86; 82; 70].
Definition name_ParentHash : list Z := [80; 97; 114; 101; 110; 116; 72; 97; 115; 104].

(** [json.Marshal] of a [SignVRF] and of a [CalcVRFData]. *)
Definition SignVRF (blockNumber : Z) (vrfValue : list Z) : list Z :=
  json_object [ json_field name_BlockNumber (decimal blockNumber);
                json_field name_VrfValue (json_string (base64 vrfValue)) ].

Definition CalcVRFData (blockNumber : Z) (stateRoot : Hash) (parentVRF : list Z) (parentHash : Hash)
    : list Z :=
  json_object [ json_field name_BlockNumber (decimal blockNumber);
                json_field name_StateRoot (json_string (Hash_MarshalText stateRoot));
                json_field name_ParentVRF (json_string (base64 parentVRF));
                json_field name_ParentHash (json_string (Hash_MarshalText parentHash)) ].

(** ** Messages on the wire *)

(** [proto.Marshal] of the package protobuf; [None] is the error. *)
Class Protobuf := { proto_Marshal : MessageReq -> option (list Z) }.

Definition PayloadNoSig `{Protobuf} (m : MessageReq) : option (list Z) := proto_Marshal (set_signature [] m).

Section sign.
Context `{FastRLP} `{Runtime} `{Secp256k1} `{Curve} `{Protobuf}.
Context (key_D : PrivateKey -> Z) (vrf_fuel : nat).

(** ** Seals *)

Definition commitMsg (b : list Z) : list Z := Keccak256 (b ++ [MessageReq_Commit]).

Definition ecrecoverImpl (sig msg : list Z) : outcome (option PublicKey) :=
  RecoverPubkey sig (Keccak256 msg).

Definition ecrecoverFromHeader (h : Header) : outcome (option PublicKey) :=
  match getIbftExtra h with
  | None => Ok None
  | Some extra =>
    match calculateHeaderHash h with
    | None => Ok None
    | Some msg => ecrecoverImpl (eSeal extra) msg
    end
  end.

Definition signSealImpl (prv : PrivateKey) (h : Header) (committed : bool) : option (list Z) :=
  hash ← calculateHeaderHash h;
  let msg := if committed then commitMsg hash else hash in
  Sign prv (Keccak256 msg).

(** [writeSeal], with the prover's randomness; [None] is the error. *)
Definition writeSeal (prv : PrivateKey) (h : Header) (vrfData r : list Z) : outcome (option Header) :=
  match signSealImpl prv h false with
  | None => Ok None
  | Some seal =>
    match getIbftExtra h with
    | None => Ok None
    | Some extra =>
      obind (Vrf key_D vrf_fuel prv r vrfData) (fun '(vrfValue, vrfProof) =>
      Ok (Some (PutIbftExtra h (SetVrfInfo vrfValue vrfProof (set_eSeal seal extra)))))
    end
  end.

Definition writeCommittedSeal (prv : PrivateKey) (h : Header) : option (list Z) := signSealImpl prv h true.

Definition writeCommittedSeals (h : Header) (seals : list (list Z)) : option Header :=
  if len seals =? 0 then None
  else if existsb (fun seal => negb (len seal =? IstanbulExtraSeal)) seals then None
  else
    extra ← getIbftExtra h;
    Some (PutIbftExtra h (set_eCommittedSeal seals extra)).

(** [verifySigner]; [None] is the error, a nil snapshot a nil dereference. *)
Definition verifySigner (snap : option Snapshot) (header : Header) : outcome (option PublicKey) :=
  obind (ecrecoverFromHeader header) (fun pub =>
  match pub with
  | None => Ok None
  | Some signerPub =>
    obind (of_option snap) (fun snap =>
    if negb (Snap.Includes (PubKeyToAddress signerPub) snap) then Ok None else Ok (Some signerPub))
  end).

(** The loop of [verifyCommitedFields]: the signers, or [None] for an error. *)
Fixpoint seal_signers (snap : Snapshot) (rawMsg : list Z) (seals : list (list Z)) (visited : gset Z)
    : outcome (option (gset Z)) :=
  match seals with
  | [] => Ok (Some visited)
  | seal :: seals =>
    obind (ecrecoverImpl seal rawMsg) (fun pub =>
    match pub with
    | None => Ok None
    | Some pub =>
      let addr := PubKeyToAddress pub in
      if bool_decide (addr ∈ visited) then Ok None
      else if negb (Snap.Includes addr snap) then Ok None
      else seal_signers snap rawMsg seals ({[ addr ]} ∪ visited)
    end)
  end.

(** [verifyCommitedFields]: whether there is no error. *)
Definition verifyCommitedFields (snap : Snapshot) (header : Header) : outcome bool :=
  match getIbftExtra header with
  | None => Ok false
  | Some extra =>
    if len (eCommittedSeal extra) =? 0 then Ok false
    else
      match calculateHeaderHash header with
      | None => Ok false
      | Some hash =>
        obind (seal_signers snap (commitMsg hash) (eCommittedSeal extra) ∅) (fun visited =>
        Ok (match visited with
            | None => false
            | Some visited => negb (Z.of_nat (size visited) <=? 2 * Snap.MaxFaultyNodes snap)
            end))
      end
  end.

(** ** Messages *)

(** [validateMsg] sets the sender; [None] is the error. *)
Definition validateMsg (msg : MessageReq) : outcome (option MessageReq) :=
  match PayloadNoSig msg with
  | None => Ok None
  | Some signMsg =>
    match DecodeHex (mSignature msg) with
    | None => Ok None
    | Some buf =>
      obind (ecrecoverImpl buf signMsg) (fun pub =>
      Ok ((fun pub => set_from (Address_String (PubKeyToAddress pub)) msg) <$> pub))
    end
  end.

Definition signMsg (key : PrivateKey) (msg : MessageReq) : option MessageReq :=
  sign ← PayloadNoSig msg;
  sig ← Sign key (Keccak256 sign);
  Some (set_signature (EncodeToHex sig) msg).

(** ** The seed *)

Definition getVrfValue (h : Header) : option (list Z * list Z) :=
  extra ← getIbftExtra h; Some (eVrfValue extra, eVrfProof extra).

(** A header without extra data or value counts as 64 zero bytes. *)
Definition CalcVrfSeed (h : Header) : list Z :=
  let prvVrfValue := match getVrfValue h with Some (value, _) => value | None => [] end in
  let prvVrfValue := match prvVrfValue with [] => replicate 64 0 | _ => prvVrfValue end in
  let data := CalcVRFData (uint64 (hNumber h + 1)) (hStateRoot h) prvVrfValue (hHash h) in
  Keccak256 (Keccak256 data).

End sign.
