(* ===== verification/Ibft.v ===== *)
(** The consensus engine, src/consensus/pvbft/ibft.go and pos.go, with the
    header processing of snapshot.go.

    The engine's goroutine waits for messages inside its state functions.  A
    node is the engine with the place where it waits; an action lets it run to
    the next place.  The chain, the executor and the pool are behind an
    interface, as in the code. *)

From Stdlib Require Import ZArith Lia.
From stdpp Require Import base gmap list numbers.
From S2P Require Import Prelude Types Text Chain Rlp TxSigner Vrf Heap Validators MsgQueue Snapshots Extra Seals.

Open Scope Z_scope.

(** ** What the engine uses *)

(** [blockchainInterface], with what the engine asks the executor, the staking
    contract and the pool.  [WriteBlock] calls back the engine's
    [VerifyHeader], which may change the snapshots. *)
Class Backend := {
  ChainState : Type;
  bc_Header : ChainState -> Header;
  bc_GetHeaderByNumber : Z -> ChainState -> option Header;
  bc_WriteBlock : (Header -> Header -> snapshotStore -> outcome (bool * snapshotStore)) ->
    Block -> ChainState -> snapshotStore -> outcome (bool * ChainState * snapshotStore);
  (** [buildBlock], with the data for the random function. *)
  bc_buildBlock : Snapshot -> Header -> list Z -> ChainState -> outcome (option Block * ChainState);
  (** [getNextValidators] and [distributeFeeRewards]. *)
  bc_getNextValidators : Header -> ChainState -> option (list Address);
  bc_distributeFeeRewards : Header -> list Address -> ValidatorSet -> ChainState -> ValidatorSet * ChainState;
  (** [txpool.ResetWithHeaders]. *)
  bc_ResetWithHeaders : Header -> ChainState -> ChainState
}.

(** What leaves the engine: gossiped messages, commit seals with the view
    they were given in, and the blocks it inserts or fails to insert. *)
Inductive output :=
| OMsg (m : MessageReq)
| OSeal (view : option View) (h : Header)
| OInserted (b : Block)
| OFailed (b : Block).

Section ibft.
Context `{FastRLP} `{Runtime} `{Secp256k1} `{Curve} `{Protobuf} `{Sorting} `{Backend}.
Context (vrf_fuel : nat).

(** [closeCh], [updateCh], metrics and the gRPC server are left out;
    [forceTimeoutCh] is set by tests only. *)
Record Ibft := mkIbft {
  iSealing : bool;
  iKey : PrivateKey;
  iKeyAddr : Address;
  iEpochSize : Z;
  iState : currentState;
  iStore : snapshotStore;
  iMsgQueue : msgQueue;
  iVrfBlock : Z;
  iVrfData : list Z;
  iChain : ChainState
}.

Definition set_iState (x : currentState) (i : Ibft) : Ibft :=
  mkIbft (iSealing i) (iKey i) (iKeyAddr i) (iEpochSize i) x (iStore i) (iMsgQueue i) (iVrfBlock i)
    (iVrfData i) (iChain i).
Definition set_iStore (x : snapshotStore) (i : Ibft) : Ibft :=
  mkIbft (iSealing i) (iKey i) (iKeyAddr i) (iEpochSize i) (iState i) x (iMsgQueue i) (iVrfBlock i)
    (iVrfData i) (iChain i).
Definition set_iMsgQueue (x : msgQueue) (i : Ibft) : Ibft :=
  mkIbft (iSealing i) (iKey i) (iKeyAddr i) (iEpochSize i) (iState i) (iStore i) x (iVrfBlock i)
    (iVrfData i) (iChain i).
(** [vrfInfo.SetInfo]. *)
Definition SetInfo (block : Z) (data : list Z) (i : Ibft) : Ibft :=
  mkIbft (iSealing i) (iKey i) (iKeyAddr i) (iEpochSize i) (iState i) (iStore i) (iMsgQueue i) block
    data (iChain i).
Definition set_iChain (x : ChainState) (i : Ibft) : Ibft :=
  mkIbft (iSealing i) (iKey i) (iKeyAddr i) (iEpochSize i) (iState i) (iStore i) (iMsgQueue i) (iVrfBlock i)
    (iVrfData i) x.

Definition on_iState (f : currentState -> currentState) (i : Ibft) : Ibft := set_iState (f (iState i)) i.

(** [vrfInfo.GetInfo]. *)
Definition GetInfo (block : Z) (i : Ibft) : list Z := if iVrfBlock i =? block then iVrfData i else [].

(** ** Engine steps *)

(** A piece of the engine: a result, the engine after it, and what left it. *)
Definition E (A : Type) : Type := Ibft -> outcome (A * Ibft * list output).

Definition eret {A} (a : A) : E A := fun i => Ok (a, i, []).
Definition ebind {A B} (m : E A) (k : A -> E B) : E B := fun i =>
  obind (m i) (fun '(a, i, o1) => obind (k a i) (fun '(b, i, o2) => Ok (b, i, o1 ++ o2))).
Definition elift {A} (o : outcome A) : E A := fun i => obind o (fun a => Ok (a, i, [])).
Definition eget : E Ibft := fun i => Ok (i, i, []).
Definition emod (f : Ibft -> Ibft) : E unit := fun i => Ok (tt, f i, []).
Definition eout (o : output) : E unit := fun i => Ok (tt, i, [o]).
Definition estate (f : currentState -> currentState) : E unit := emod (on_iState f).
Definition estateM (f : currentState -> outcome currentState) : E unit := fun i =>
  obind (f (iState i)) (fun c => Ok (tt, set_iState c i, [])).
End ibft.

Arguments E {_ _} A.

Declare Scope engine_scope.
Notation "'let!' p := m 'in' k" := (ebind m (fun x => match x with p => k end))
  (at level 10, p pattern, m at level 100, k at level 200) : engine_scope.
Notation "m ';;' k" := (ebind m (fun _ => k)) (at level 100, right associativity) : engine_scope.
Open Scope engine_scope.

Section engine.
Context `{FastRLP} `{Runtime} `{Secp256k1} `{Curve} `{Protobuf} `{Sorting} `{Backend}.
Context (vrf_fuel : nat).

(** *** Messages *)

Definition pushMessage (msg : MessageReq) : E unit :=
  let! i := eget in
  let task := mkMsgTask (mView msg) (protoTypeToMsg (mType msg)) msg in
  let! q := elift (queue_pushMessage task (iMsgQueue i)) in
  emod (set_iMsgQueue q).

(** The end of [gossip]: a copy for the node itself, and the signed message. *)
Definition gossip_msg (msg : MessageReq) : E unit :=
  let! i := eget in
  (if mType msg =? MessageReq_Preprepare then eret tt
   else pushMessage (set_from (Address_String (iKeyAddr i)) msg)) ;;
  match signMsg (iKey i) msg with
  | None => eret tt
  | Some msg => eout (OMsg msg)
  end.

(** [gossip]; a nil block is a nil dereference. *)
Definition gossip (typ : Z) : E unit :=
  let! i := eget in
  let view := csView (iState i) in
  if typ =? MessageReq_Preprepare then
    let! b := elift (of_option (csBlock (iState i))) in
    gossip_msg (mkMessageReq typ [] [] [] view [] (Some (Block_MarshalRLP b)))
  else if typ =? MessageReq_Commit then
    let! b := elift (of_option (csBlock (iState i))) in
    match writeCommittedSeal (iKey i) (bkHeader b) with
    | None => eret tt
    | Some seal =>
      eout (OSeal view (bkHeader b)) ;;
      gossip_msg (mkMessageReq typ [] (EncodeToHex seal) [] view [] None)
    end
  else gossip_msg (mkMessageReq typ [] [] [] view [] None).

Definition sendRoundChangeMsg : E unit := gossip MessageReq_RoundChange.
Definition sendPreprepareMsg : E unit := gossip MessageReq_Preprepare.
Definition sendPrepareMsg : E unit := gossip MessageReq_Prepare.
Definition sendCommitMsg : E unit := gossip MessageReq_Commit.

(** The handler of the gossip topic. *)
Definition receive (msg : MessageReq) : E unit :=
  let! i := eget in
  if negb (iSealing i) then eret tt
  else
    let! m := elift (validateMsg msg) in
    match m with
    | None => eret tt
    | Some msg =>
      if bool_decide (mFrom msg = Address_String (iKeyAddr i)) then eret tt
      else pushMessage msg
    end.

Definition handleStateErr (err : stateError) : E unit :=
  estate (fun c => setState RoundChangeState (set_csErr (Some err) c)).

(** *** Headers *)

Definition getSnapshot (num : Z) (i : Ibft) : option Snapshot := Store.find num (iStore i).

(** The loop of [processHeaders]: the store and whether there was no error. *)
Fixpoint process_headers (headers : list Header) (snap : Snapshot) (store : snapshotStore)
    : outcome (bool * snapshotStore) :=
  match headers with
  | [] => Ok (true, store)
  | h :: headers =>
    obind (ecrecoverFromHeader h) (fun pub =>
    match pub with
    | None => Ok (false, store)
    | Some proposerPub =>
      if negb (Snap.Includes (PubKeyToAddress proposerPub) snap) then Ok (false, store)
      else
        let snap := mkSnapshot (hNumber h) (Hash_String (hHash h)) (sVotes snap) (sSet snap) in
        process_headers headers (Snap.Copy snap) (Store.add snap store)
    end)
  end.

Definition processHeaders (headers : list Header) (store : snapshotStore) : outcome (bool * snapshotStore) :=
  match headers with
  | [] => Ok (true, store)
  | h0 :: _ =>
    obind (of_option (Store.find (uint64 (hNumber h0 - 1)) store)) (fun parentSnap =>
    obind (process_headers headers (Snap.Copy parentSnap) store) (fun '(ok, store) =>
    if ok then Ok (true, Store.updateLastBlock (hNumber (default h0 (list.last headers))) store)
    else Ok (false, store)))
  end.

(** [verifyHeaderImpl]: whether there is no error. *)
Definition verifyHeaderImpl (chain : ChainState) (snap : option Snapshot) (header : Header) : outcome bool :=
  match getIbftExtra header with
  | None => Ok false
  | Some extra =>
    if negb (hMixHash header =? IstanbulDigest) then Ok false
    else if negb (hSha3Uncles header =? EmptyUncleHash) then Ok false
    else if negb (hDifficulty header =? hNumber header) then Ok false
    else
      obind (verifySigner snap header) (fun pub =>
      match pub with
      | None => Ok false
      | Some pub =>
        let vrfData :=
          match bc_GetHeaderByNumber (uint64 (hNumber header - 1)) chain with
          | Some prvHeader => SignVRF (hNumber header) (CalcVrfSeed prvHeader)
          | None => []
          end in
        Verify vrf_fuel pub vrfData (eVrfValue extra) (eVrfProof extra)
      end)
  end.

Definition VerifyHeader (chain : ChainState) (parent header : Header) (store : snapshotStore)
    : outcome (bool * snapshotStore) :=
  let snap := Store.find (hNumber parent) store in
  obind (verifyHeaderImpl chain snap header) (fun ok =>
  if negb ok then Ok (false, store)
  else
    obind (of_option snap) (fun snap =>
    obind (verifyCommitedFields snap header) (fun ok =>
    if negb ok then Ok (false, store) else processHeaders [header] store))).

Definition GetBlockCreator (header : Header) : outcome (option Address) :=
  obind (ecrecoverFromHeader header) (fun pub => Ok (PubKeyToAddress <$> pub)).

(** *** Epochs *)

(** An epoch size of 0 is a division by zero. *)
Definition IsLastOfEpoch (number : Z) (i : Ibft) : outcome bool :=
  if number <=? 0 then Ok false
  else if iEpochSize i =? 0 then Panic else Ok (number mod iEpochSize i =? 0).

Definition GetEpoch (number : Z) (i : Ibft) : outcome Z :=
  if iEpochSize i =? 0 then Panic
  else if number mod iEpochSize i =? 0 then Ok (number / iEpochSize i)
  else Ok (number / iEpochSize i + 1).

(** [updateValidators]: whether there is no error. *)
Definition updateValidators (block : Z) : E bool :=
  let! i := eget in
  match bc_GetHeaderByNumber block (iChain i) with
  | None => eret false
  | Some header =>
    match bc_getNextValidators header (iChain i) with
    | None => eret false
    | Some validators =>
      match getSnapshot (hNumber header) i with
      | None => eret false
      | Some snap =>
        (if negb (Snap.SetEqual validators snap) then
           let newSnap := mkSnapshot (hNumber header) (Hash_String (hHash header))
                            (sVotes (Snap.Copy snap)) validators in
           emod (fun i => set_iStore (if negb (sNumber snap =? hNumber header)
                                      then Store.add newSnap (iStore i)
                                      else Store.replace newSnap (iStore i)) i)
         else eret tt) ;;
        emod (fun i =>
          let (vset, chain) := bc_distributeFeeRewards header validators (csVset (iState i)) (iChain i) in
          set_iChain chain (on_iState (set_csVset vset) i)) ;;
        eret true
      end
    end
  end.

Definition insertBlockHook (headerNumber : Z) : E bool :=
  let! i := eget in
  let! last := elift (IsLastOfEpoch headerNumber i) in
  if last then updateValidators headerNumber else eret true.

(** The loop of [batchUpdateValidators], over [n] numbers from [from] on. *)
Fixpoint update_range (n : nat) (from : Z) : E bool :=
  match n with
  | O => eret true
  | S n =>
    let! i := eget in
    let! last := elift (IsLastOfEpoch from i) in
    let! ok := if last then updateValidators from else eret true in
    if ok then update_range n (from + 1) else eret false
  end.

(** The loop of the code does not end when [to] is the last 64-bit number. *)
Definition batchUpdateValidators (from to : Z) : E bool := update_range (Z.to_nat (to - from + 1)) from.

Definition syncStateHook (oldLatestNumber : Z) : E unit :=
  let! i := eget in
  let! _ := batchUpdateValidators (uint64 (oldLatestNumber + 1)) (hNumber (bc_Header (iChain i))) in
  eret tt.

(** Whether there is no error. *)
Definition verifyBlockHook (b : Block) (i : Ibft) : outcome bool :=
  obind (IsLastOfEpoch (hNumber (bkHeader b)) i) (fun last =>
  Ok (negb (last && (0 <? len (bkTransactions b))))).

Definition ShouldWriteTransactions (blockNumber : Z) (i : Ibft) : outcome bool :=
  obind (IsLastOfEpoch blockNumber i) (fun last => Ok (negb last)).

Definition calculateProposerHook : E unit :=
  let! i := eget in
  let header := bc_Header (iChain i) in
  let seed := CalcVrfSeed header in
  estateM (cs_CalcProposer (HashToBigInt seed)) ;;
  let number := uint64 (hNumber header + 1) in
  emod (SetInfo number (SignVRF number seed)).

(** *** Start *)

Definition addHeaderSnap (header : Header) (validators : list Address) : E unit :=
  emod (fun i => set_iStore (Store.add (mkSnapshot (hNumber header) (Hash_String (hHash header)) [] validators)
                               (iStore i)) i).

Definition getLatestSnapshot (i : Ibft) : option Snapshot := getSnapshot (Store.getLastBlock (iStore i)) i.

(** The loop of [setupSnapshot] over the headers that were missed: [n] numbers
    from [num] on; whether there is no error. *)
Fixpoint process_missed (n : nat) (num : Z) : E bool :=
  match n with
  | O => eret true
  | S n =>
    if num =? 0 then process_missed n (num + 1)
    else
      let! i := eget in
      match bc_GetHeaderByNumber num (iChain i) with
      | None => eret false
      | Some header =>
        let! (ok, store) := elift (processHeaders [header] (iStore i)) in
        emod (set_iStore store) ;;
        if ok then process_missed n (num + 1) else eret false
      end
  end.

(** The snapshot at the beginning of the epoch, with the validators of the
    latest header: the last block of the store, or [None] for an error. *)
Definition restore_snapshot (beginHeight : Z) (validators : list Address) : E (option Z) :=
  let! i := eget in
  match bc_GetHeaderByNumber beginHeight (iChain i) with
  | None => eret None
  | Some beginHeader =>
    addHeaderSnap beginHeader validators ;;
    emod (fun i => set_iStore (Store.updateLastBlock beginHeight (iStore i)) i) ;;
    eret (Some beginHeight)
  end.

(** [setupSnapshot], with the store that was loaded from disk; an epoch size of
    0 is a division by zero. *)
Definition setupSnapshot (loaded : snapshotStore) : E bool :=
  emod (set_iStore loaded) ;;
  let! i := eget in
  let header := bc_Header (iChain i) in
  let lastBlock := Store.getLastBlock (iStore i) in
  match getIbftExtra header with
  | None => eret false
  | Some extra =>
    (if hNumber header =? 0 then addHeaderSnap header (eValidators extra) else eret tt) ;;
    estate (fun c => set_csVset (SetValidators (eValidators extra) (csVset c)) c) ;;
    if iEpochSize i =? 0 then elift Panic
    else
      let! i := eget in
      let currentEpoch := hNumber header / iEpochSize i in
      let metaEpoch := lastBlock / iEpochSize i in
      let! restored :=
        match getSnapshot (hNumber header) i with
        | Some _ =>
          if negb (metaEpoch <? currentEpoch) then eret (Some lastBlock)
          else restore_snapshot (currentEpoch * iEpochSize i) (eValidators extra)
        | None => restore_snapshot (currentEpoch * iEpochSize i) (eValidators extra)
        end in
      match restored with
      | None => eret false
      | Some lastBlock => process_missed (Z.to_nat (hNumber header - lastBlock)) (uint64 (lastBlock + 1))
      end
  end.

(** *** The states *)

(** [isValidSnapshot] also starts a new view. *)
Definition isValidSnapshot : E bool :=
  let! i := eget in
  if negb (iSealing i) then eret false
  else
    let header := bc_Header (iChain i) in
    let! snap := elift (of_option (getSnapshot (hNumber header) i)) in
    if Snap.Includes (iKeyAddr i) snap then
      estate (set_csView (Some (mkView 0 (uint64 (hNumber header + 1))))) ;; eret true
    else eret false.

(** Where the engine waits: at the start of a cycle, or in a state's loop. *)
Inductive place :=
| PCycle
| PAccept (snap : Snapshot)
| PValidate (hasCommitted : bool)
| PRoundChange.

(** The first part of [runAcceptState]. *)
Definition accept_enter : E place :=
  let! i := eget in
  let! view := elift (of_option (csView (iState i))) in
  let parent := bc_Header (iChain i) in
  let number := uint64 (hNumber parent + 1) in
  if negb (number =? vSequence view) then estate (setState SyncState) ;; eret PCycle
  else
    let! snap := elift (of_option (getSnapshot (hNumber parent) i)) in
    if negb (Snap.Includes (iKeyAddr i) snap) then estate (setState SyncState) ;; eret PCycle
    else
      estate resetRoundMsgs ;;
      (if negb (hNumber parent =? 0)
       then let! pub := elift (ecrecoverFromHeader parent) in
            let! _ := elift (of_option pub) in eret tt
       else eret tt) ;;
      calculateProposerHook ;;
      let! i := eget in
      if csProposer (iState i) =? iKeyAddr i then
        let! built :=
          if csLocked (iState i) then eret true
          else
            let! (b, chain) :=
              elift (bc_buildBlock snap parent (GetInfo number i) (iChain i)) in
            emod (set_iChain chain) ;;
            estate (set_csBlock b) ;;
            eret (match b with Some _ => true | None => false end) in
        if negb built then estate (setState RoundChangeState) ;; eret PCycle
        else
          sendPreprepareMsg ;;
          sendPrepareMsg ;;
          estate (setState ValidateState) ;;
          eret PCycle
      else eret (PAccept snap).

(** The place after a turn of a loop that runs while the state is [s]. *)
Definition while_state (s : IbftState) (p : place) : E place :=
  let! i := eget in
  eret (if decide (csState (iState i) = s) then p else PCycle).

(** One turn of the loop of [runAcceptState]; no message is a timeout. *)
Definition accept_msg (snap : Snapshot) (m : option MessageReq) : E place :=
  let! i := eget in
  match m with
  | None => estate (setState RoundChangeState) ;; eret PCycle
  | Some msg =>
    if negb (bool_decide (mFrom msg = Address_String (csProposer (iState i)))) then eret (PAccept snap)
    else
      let! value := elift (of_option (mProposal msg)) in
      match Block_UnmarshalRLP istanbulHeaderHash (mkBlock zero_header [] []) value with
      | None => estate (setState RoundChangeState) ;; eret PCycle
      | Some block =>
        (if csLocked (iState i) then
           let! locked := elift (of_option (csBlock (iState i))) in
           if hHash (bkHeader block) =? hHash (bkHeader locked) then
             sendCommitMsg ;; estate (setState ValidateState)
           else handleStateErr errIncorrectBlockLocked
         else
           let! ok := elift (verifyHeaderImpl (iChain i) (Some snap) (bkHeader block)) in
           if negb ok then handleStateErr errBlockVerificationFailed
           else
             let! ok := elift (verifyBlockHook block i) in
             if negb ok then handleStateErr errBlockVerificationFailed
             else
               estate (set_csBlock (Some block)) ;;
               sendPrepareMsg ;;
               estate (setState ValidateState)) ;;
        while_state AcceptState (PAccept snap)
      end
  end.

(** [insertBlock]: whether there is no error.  The seals are in the order the
    map is iterated in. *)
Definition insertBlock (block : Block) : E bool :=
  let! i := eget in
  let! committedSeals := elift (foldr (fun e r =>
      obind (MustDecodeHex (mSeal (snd e))) (fun s => obind r (fun r => Ok (s :: r))))
      (Ok []) (map_to_list (csCommitted (iState i)))) in
  match writeCommittedSeals (bkHeader block) committedSeals with
  | None => eret false
  | Some header =>
    let block := WithSeal block (Header_ComputeHash istanbulHeaderHash header) in
    let! (ok, chain, store) :=
      elift (bc_WriteBlock (VerifyHeader (iChain i)) block (iChain i) (iStore i)) in
    emod (fun i => set_iStore store (set_iChain chain i)) ;;
    if negb ok then eret false
    else
      let! ok := insertBlockHook (hNumber header) in
      if negb ok then eret false
      else
        estate (set_csView (Some (mkView 0 (uint64 (hNumber header + 1))))) ;;
        emod (fun i => set_iChain (bc_ResetWithHeaders (bkHeader block) (iChain i)) i) ;;
        eret true
  end.

(** The closure [sendCommit]: the flag after it. *)
Definition sendCommit (hasCommitted : bool) : E bool :=
  estate lock ;;
  (if negb hasCommitted then sendCommitMsg else eret tt) ;;
  eret true.

(** [updateMetrics] reads the header before the block's. *)
Definition updateMetrics (block : Block) (i : Ibft) : outcome unit :=
  obind (of_option (bc_GetHeaderByNumber (uint64 (hNumber (bkHeader block) - 1)) (iChain i)))
    (fun _ => Ok tt).

(** The end of [runValidateState]. *)
Definition commit_block : E place :=
  let! i := eget in
  let! block := elift (of_option (csBlock (iState i))) in
  estate unlock ;;
  let! ok := insertBlock block in
  (if negb ok then eout (OFailed block) ;; handleStateErr errFailedToInsertBlock
   else
     let! i := eget in
     elift (updateMetrics block i) ;;
     eout (OInserted block) ;;
     estate (setState AcceptState)) ;;
  eret PCycle.

(** One turn of the loop of [runValidateState], and its end.  The queue of this
    state has no other messages, so the default case is not reached. *)
Definition validate_msg (hasCommitted : bool) (m : option MessageReq) : E place :=
  match m with
  | None => estate (setState RoundChangeState) ;; eret PCycle
  | Some msg =>
    (if mType msg =? MessageReq_Prepare then estateM (addPrepared msg)
     else if mType msg =? MessageReq_Commit then estateM (addCommitted msg)
     else elift Panic) ;;
    let! i := eget in
    let! hasCommitted :=
      if NumValid (iState i) <? numPrepared (iState i) then sendCommit hasCommitted else eret hasCommitted in
    let! i := eget in
    let! hasCommitted :=
      if NumValid (iState i) <? numCommitted (iState i)
      then (let! hc := sendCommit hasCommitted in estate (setState CommitState) ;; eret hc)
      else eret hasCommitted in
    let! i := eget in
    match csState (iState i) with
    | CommitState => commit_block
    | ValidateState => eret (PValidate hasCommitted)
    | _ => eret PCycle
    end
  end.

(** The closure [sendRoundChange]; a nil view is a nil dereference. *)
Definition sendRoundChange (round : Z) : E unit :=
  let! i := eget in
  let! view := elift (of_option (csView (iState i))) in
  estate (set_csView (Some (mkView round (vSequence view)))) ;;
  estate (cleanRound round) ;;
  sendRoundChangeMsg.

Definition sendNextRoundChange : E unit :=
  let! i := eget in
  let! view := elift (of_option (csView (iState i))) in
  sendRoundChange (uint64 (vRound view + 1)).

(** [checkTimeout], with the number of the best peer, if any. *)
Definition checkTimeout (bestPeer : option Z) : E unit :=
  let! i := eget in
  match bestPeer with
  | Some number =>
    if hNumber (bc_Header (iChain i)) <? number then estate (setState SyncState) else sendNextRoundChange
  | None => sendNextRoundChange
  end.

(** The first part of [runRoundChangeState]. *)
Definition roundchange_enter (bestPeer : option Z) : E place :=
  let! i := eget in
  let (err, c) := getErr (iState i) in
  emod (set_iState c) ;;
  match err with
  | Some _ => sendNextRoundChange
  | None =>
    match maxRound c with
    | Some round => sendRoundChange round
    | None => checkTimeout bestPeer
    end
  end ;;
  let! i := eget in
  let! _ := elift (of_option (csView (iState i))) in
  while_state RoundChangeState PRoundChange.

(** One turn of the loop of [runRoundChangeState]. *)
Definition roundchange_msg (bestPeer : option Z) (m : option MessageReq) : E place :=
  match m with
  | None => checkTimeout bestPeer
  | Some msg =>
    let! i := eget in
    let! (num, c) := elift (AddRoundMessage msg (iState i)) in
    emod (set_iState c) ;;
    let! view := elift (of_option (csView c)) in
    if num =? NumValid c then
      let! mv := elift (of_option (mView msg)) in
      estate (set_csView (Some (mkView (vRound mv) (vSequence view)))) ;;
      estate (setState AcceptState)
    else if num =? MaxFaultyNodes (csVset c) + 1 then
      let! mv := elift (of_option (mView msg)) in
      if vRound view <? vRound mv then sendRoundChange (vRound mv) else eret tt
    else eret tt
  end ;;
  while_state RoundChangeState PRoundChange.

(** A block the syncer writes, and the handler the engine gives it: whether the
    block was written. *)
Definition sync_block (block : Block) : E bool :=
  let! i := eget in
  let oldLatestNumber := hNumber (bc_Header (iChain i)) in
  let! (ok, chain, store) :=
    elift (bc_WriteBlock (VerifyHeader (iChain i)) block (iChain i) (iStore i)) in
  emod (fun i => set_iStore store (set_iChain chain i)) ;;
  if negb ok then eret false
  else
    syncStateHook oldLatestNumber ;;
    emod (fun i => set_iChain (bc_ResetWithHeaders (bkHeader block) (iChain i)) i) ;;
    eret true.

(** [BulkSyncWithPeer], with the blocks the peer gives. *)
Fixpoint bulk_sync (blocks : list Block) : E bool :=
  match blocks with
  | [] => eret true
  | b :: blocks =>
    let! ok := sync_block b in
    if ok then bulk_sync blocks else eret false
  end.

(** [WatchSyncWithPeer]: whether it ended with the node a validator. *)
Fixpoint watch_sync (blocks : list Block) : E bool :=
  match blocks with
  | [] => eret false
  | b :: blocks =>
    let! ok := sync_block b in
    if negb ok then eret false
    else
      let! valid := isValidSnapshot in
      if valid then eret true else watch_sync blocks
  end.

(** What the syncer finds: no better peer; a peer whose bulk of blocks ends with
    or without an error of the peer, and the blocks watched after it. *)
Inductive sync_turn :=
| SyncNoPeer
| SyncPeer (bulk : list Block) (err : bool) (watched : list Block).

(** A turn of the loop of [runSyncState]. *)
Definition run_sync (t : sync_turn) : E place :=
  match t with
  | SyncNoPeer =>
    let! valid := isValidSnapshot in
    if valid then estate (setState AcceptState) else eret tt
  | SyncPeer bulk err watched =>
    let! ok := bulk_sync bulk in
    if negb ok || err then eret tt
    else
      let! valid := isValidSnapshot in
      if valid then estate (setState AcceptState)
      else
        let! isValidator := watch_sync watched in
        if isValidator then estate (setState AcceptState) else eret tt
  end ;;
  eret PCycle.

(** ** Nodes *)

Record node := mkNode { nIbft : Ibft; nPlace : place }.

(** What happens next: the engine runs a cycle, with the best peer it sees and,
    in the sync state, what its syncer does; it reads the next message or
    times out; or a message arrives from the network. *)
Inductive action :=
| ARun (bestPeer : option Z) (t : sync_turn)
| ARead (bestPeer : option Z)
| AReceive (msg : MessageReq).

(** [runCycle]. *)
Definition runCycle (bestPeer : option Z) (t : sync_turn) : E place :=
  let! i := eget in
  match csState (iState i) with
  | AcceptState => accept_enter
  | ValidateState => let! _ := elift (of_option (csView (iState i))) in eret (PValidate false)
  | RoundChangeState => roundchange_enter bestPeer
  | SyncState => run_sync t
  | CommitState => eret PCycle
  end.

(** [getNextMessage]: the next message, or nothing when the timeout expires. *)
Definition getNextMessage : E (option MessageReq) :=
  let! i := eget in
  let! view := elift (of_option (csView (iState i))) in
  let! (t, q) := elift (readMessage (csState (iState i)) view (iMsgQueue i)) in
  emod (set_iMsgQueue q) ;;
  eret (qObj <$> t).

Definition node_run (a : action) (p : place) : E place :=
  match a, p with
  | AReceive msg, _ => receive msg ;; eret p
  | ARun bestPeer t, PCycle => runCycle bestPeer t
  | ARead bestPeer, PAccept snap => let! m := getNextMessage in accept_msg snap m
  | ARead bestPeer, PValidate hasCommitted => let! m := getNextMessage in validate_msg hasCommitted m
  | ARead bestPeer, PRoundChange => let! m := getNextMessage in roundchange_msg bestPeer m
  | _, _ => eret p
  end.

(** A node before its first cycle: the key, the validators' state and an empty
    queue; [start] begins in the sync state. *)
Definition new_node (sealing : bool) (key : PrivateKey) (epochSize : Z) (chain : ChainState) : node :=
  mkNode (mkIbft sealing key (PubKeyToAddress (public_of key)) epochSize (setState SyncState newState)
            newSnapshotStore newMsgQueue 0 [] chain) PCycle.

Definition Initialize (n : node) : outcome (bool * node) :=
  obind (setupSnapshot newSnapshotStore (nIbft n)) (fun '(ok, i, _) => Ok (ok, mkNode i (nPlace n))).

Definition node_step (a : action) (n : node) : outcome (node * list output) :=
  obind (node_run a (nPlace n) (nIbft n)) (fun '(p, i, o) => Ok (mkNode i p, o)).

End engine.
