(* ===== verification/IbftFacts.v ===== *)
(** What the lock of the consensus engine gives: the commit seals of a node
    between two insertions are for one header. *)


From Stdlib Require Import ZArith Lia.
From stdpp Require Import base gmap list numbers.
From S2P Require Import Prelude Types Text Chain Heap Validators MsgQueue Snapshots Rlp Extra TxSigner Vrf Seals Ibft.

Open Scope Z_scope.

(** ** Traces *)

Definition is_attempt (o : output) : bool :=
  match o with OInserted _ | OFailed _ => true | _ => false end.

(** The last header a node sealed since it last tried to insert a block. *)
Definition sealed_after (last : option Header) (o : output) : option Header :=
  match o with
  | OSeal _ h => Some h
  | OInserted _ | OFailed _ => None
  | OMsg _ => last
  end.

(** No seal of the outputs differs from the one sealed before it. *)
Fixpoint seals_agree (last : option Header) (os : list output) : Prop :=
  match os with
  | [] => True
  | o :: os =>
    match o, last with OSeal _ h, Some h' => h = h' | _, _ => True end /\
    seals_agree (sealed_after last o) os
  end.

Lemma seals_agree_app last os1 os2 :
  seals_agree last (os1 ++ os2) <->
  seals_agree last os1 /\ seals_agree (foldl sealed_after last os1) os2.
Proof. revert last; induction os1 as [|o os1 IH]; intros last; cbn; [tauto|]. rewrite IH. tauto. Qed.

(** Two seals without an attempt between them are for the same header. *)
Lemma seals_agree_pair os1 v1 h1 os2 v2 h2 os3 last :
  seals_agree last (os1 ++ OSeal v1 h1 :: os2 ++ OSeal v2 h2 :: os3) ->
  existsb is_attempt os2 = false -> h1 = h2.
Proof.
  rewrite seals_agree_app; cbn [seals_agree sealed_after]. intros (_ & _ & Ha) Hno.
  clear last. revert h1 Ha. induction os2 as [|o os2 IH]; intros h1 Ha.
  - symmetry. exact (proj1 Ha).
  - cbn in Hno. apply orb_false_iff in Hno as [Ho Hno].
    destruct o; try discriminate; cbn in Ha; destruct Ha as [E Ha].
    + exact (IH Hno _ Ha).
    + subst. exact (IH Hno _ Ha).
Qed.

Create HintDb engine.

Section facts.
Context `{FastRLP} `{Runtime} `{Secp256k1} `{Curve} `{Protobuf} `{Sorting} `{Backend}.
Context (vrf_fuel : nat).

Lemma of_option_Ok {A} (o : option A) a : of_option o = Ok a -> o = Some a.
Proof. destruct o; [|discriminate]. by intros [= ->]. Qed.

(** ** The lock *)

Definition lock_ok (last : option Header) (i : Ibft) : Prop :=
  match last with
  | None => True
  | Some h => csLocked (iState i) = true /\ bkHeader <$> csBlock (iState i) = Some h
  end.

(** A piece of the engine respects the lock from an engine state. *)
Definition respects_on {A} (m : E A) (i : Ibft) : Prop :=
  forall a i' os last, m i = Ok (a, i', os) -> lock_ok last i ->
  seals_agree last os /\ lock_ok (foldl sealed_after last os) i'.

Definition respects {A} (m : E A) : Prop := forall i, respects_on m i.

(** A piece that puts nothing out. *)
Definition quiet {A} (m : E A) : Prop := forall i a i' os, m i = Ok (a, i', os) -> os = [].

Definition same_lock (c c' : currentState) : Prop :=
  (csLocked c = true -> csLocked c' = true) /\ csBlock c' = csBlock c.

Lemma lock_ok_same last i i' : same_lock (iState i) (iState i') -> lock_ok last i -> lock_ok last i'.
Proof. intros [E1 E2]. unfold lock_ok. destruct last; [|done]. rewrite E2. tauto. Qed.

(** An engine that is not locked has sealed nothing. *)
Lemma lock_ok_unlocked last i : csLocked (iState i) = false -> lock_ok last i -> last = None.
Proof. destruct last; [|done]. cbn. intros E [E' _]. congruence. Qed.

Lemma ret_respects {A} (a : A) i : respects_on (eret a) i.
Proof. intros x i' os last [= <- <- <-] Hl. done. Qed.

Lemma panic_respects {A} i : respects_on (elift (A:=A) Panic) i.
Proof. intros x i' os last Hm. discriminate. Qed.

Lemma out_msg_respects m i : respects_on (eout (OMsg m)) i.
Proof. intros x i' os last [= <- <- <-] Hl. done. Qed.

Lemma mod_respects f i : same_lock (iState i) (iState (f i)) -> respects_on (emod f) i.
Proof. intros Hf x i' os last [= <- <- <-] Hl. split; [done|]. by apply (lock_ok_same _ i). Qed.

Lemma mod_unlocked f i : csLocked (iState i) = false -> respects_on (emod f) i.
Proof. intros Hf x i' os last [= <- <- <-] Hl. rewrite (lock_ok_unlocked _ _ Hf Hl). done. Qed.

Lemma stateM_respects f i :
  (forall c', f (iState i) = Ok c' -> same_lock (iState i) c') -> respects_on (estateM f) i.
Proof.
  intros Hf x i' os last Hm Hl. unfold estateM in Hm.
  destruct (f (iState i)) as [c'| |] eqn:Ef; try discriminate. injection Hm as <- <- <-.
  split; [done|]. by apply (lock_ok_same _ i); [apply Hf|].
Qed.

Lemma bind_respects {A B} (m : E A) (k : A -> E B) i :
  respects_on m i -> (forall a i' os, m i = Ok (a, i', os) -> respects_on (k a) i') ->
  respects_on (ebind m k) i.
Proof.
  intros Hm Hk b i' os last Hb Hl. unfold ebind in Hb.
  destruct (m i) as [[[a i1] o1]| |] eqn:E1; try discriminate. cbn [obind] in Hb.
  destruct (k a i1) as [[[b' i2] o2]| |] eqn:E2; try discriminate. injection Hb as <- <- <-.
  destruct (Hm _ _ _ _ E1 Hl) as [A1 L1]. destruct (Hk _ _ _ eq_refl _ _ _ _ E2 L1) as [A2 L2].
  rewrite seals_agree_app, foldl_app. tauto.
Qed.

Lemma bind_any {A B} (m : E A) (k : A -> E B) i :
  respects_on m i -> (forall a, respects (k a)) -> respects_on (ebind m k) i.
Proof. intros Hm Hk. apply bind_respects; [done|]. intros a i' os _. apply Hk. Qed.

Lemma bind_get_respects {B} (k : Ibft -> E B) i : respects_on (k i) i -> respects_on (ebind eget k) i.
Proof.
  intros Hk. apply bind_respects; [apply ret_respects|]. intros a i' os [= <- <- _]. exact Hk.
Qed.

Lemma bind_lift_respects {A B} (o : outcome A) (k : A -> E B) i :
  (forall a, o = Ok a -> respects_on (k a) i) -> respects_on (ebind (elift o) k) i.
Proof.
  intros Hk. destruct o as [a| |]; [|intros ? ? ? ? Hm; discriminate..].
  intros b i' os last Hm. unfold ebind in Hm. cbn in Hm.
  destruct (k a i) as [[[b' i2] o2]| |] eqn:E2; [|discriminate..]. injection Hm as <- <- <-.
  exact (Hk a eq_refl _ _ _ _ E2).
Qed.

Lemma bind_mod_respects {B} f (k : unit -> E B) i :
  same_lock (iState i) (iState (f i)) -> respects_on (k tt) (f i) -> respects_on (ebind (emod f) k) i.
Proof.
  intros Hf Hk. apply bind_respects; [by apply mod_respects|]. intros a i' os [= <- <- _]. exact Hk.
Qed.

Lemma bind_mod_unlocked {B} f (k : unit -> E B) i :
  csLocked (iState i) = false -> respects_on (k tt) (f i) -> respects_on (ebind (emod f) k) i.
Proof.
  intros Hf Hk. apply bind_respects; [by apply mod_unlocked|]. intros a i' os [= <- <- _]. exact Hk.
Qed.

(** A piece is followed to its steps, the conditions on the way kept. *)
Lemma bind_bind_respects {A B C} (m : E A) (k : A -> E B) (k' : B -> E C) i :
  respects_on (ebind m (fun a => ebind (k a) k')) i -> respects_on (ebind (ebind m k) k') i.
Proof.
  intros Hm c i' os last Hb. apply (Hm c i' os last). rewrite <- Hb. unfold ebind.
  destruct (m i) as [[[a i1] o1]| |]; cbn [obind]; [|done..].
  destruct (k a i1) as [[[b i2] o2]| |]; cbn [obind]; [|done..].
  destruct (k' b i2) as [[[c' i3] o3]| |]; cbn [obind]; [|done..]. by rewrite app_assoc.
Qed.

Lemma bind_ret_respects {A B} (a : A) (k : A -> E B) i : respects_on (k a) i -> respects_on (ebind (eret a) k) i.
Proof. intros Hk. apply (bind_lift_respects (Ok a)). by intros b [= <-]. Qed.

Ltac solve_same := unfold same_lock; repeat case_match; done.

Ltac respect_step :=
  lazymatch goal with
  | |- respects _ => intros ?
  | |- respects_on (ebind (ebind _ _) _) _ => apply bind_bind_respects
  | |- respects_on (ebind (eret _) _) _ => apply bind_ret_respects
  | |- respects_on (ebind (if ?b then _ else _) _) _ => destruct b eqn:?
  | |- respects_on (ebind (match ?x with _ => _ end) _) _ => destruct x eqn:?
  | |- respects_on (ebind eget _) _ => apply bind_get_respects
  | |- respects_on (ebind (elift _) _) _ => apply bind_lift_respects; intros ? ?
  | |- respects_on (ebind (estate _) _) _ =>
    first [apply bind_mod_respects; [solve_same|] | apply bind_mod_unlocked; [done|]]
  | |- respects_on (ebind (emod _) _) _ => apply bind_mod_respects; [solve_same|]
  | |- respects_on (eret _) _ => apply ret_respects
  | |- respects_on (estate _) _ => apply mod_respects; solve_same
  | |- respects_on (emod _) _ => apply mod_respects; solve_same
  | |- respects_on (eout (OMsg _)) _ => apply out_msg_respects
  | |- respects_on (elift Panic) _ => apply panic_respects
  | |- respects_on (if ?b then _ else _) _ => destruct b eqn:?
  | |- respects_on (match ?x with _ => _ end) _ => destruct x eqn:?
  | |- respects_on (ebind _ _) _ => apply bind_any; [solve [auto with engine]|intros ?]
  | |- respects_on _ _ => solve [auto with engine]
  end.
Ltac respect := repeat respect_step.

(** ** The pieces *)

Lemma pushMessage_respects m i : respects_on (pushMessage m) i.
Proof. unfold pushMessage. respect. Qed.
#[local] Hint Resolve pushMessage_respects : engine.

Lemma gossip_msg_respects m i : respects_on (gossip_msg m) i.
Proof. unfold gossip_msg. respect. Qed.
#[local] Hint Resolve gossip_msg_respects : engine.

(** A seal of the locked block. *)
Lemma out_seal_respects v b i :
  csLocked (iState i) = true -> csBlock (iState i) = Some b -> respects_on (eout (OSeal v (bkHeader b))) i.
Proof.
  intros Hlk Hb a i' os last [= _ <- <-] Hl. cbn. rewrite Hlk, Hb.
  destruct last as [h|]; cbn in Hl; [|done]. destruct Hl as [_ Hl]. rewrite Hb in Hl.
  injection Hl as <-. done.
Qed.

(** A commit message is sent locked. *)
Lemma gossip_respects typ i :
  (typ = MessageReq_Commit -> csLocked (iState i) = true) -> respects_on (gossip typ) i.
Proof.
  intros Hc. unfold gossip. respect_step. respect_step; [respect|].
  respect_step; [|respect]. apply Z.eqb_eq in Heqb0.
  apply bind_lift_respects. intros b Hb. apply of_option_Ok in Hb. respect_step; [|respect].
  apply bind_any; [|intros ?; respect]. by apply out_seal_respects; [apply Hc|].
Qed.

Lemma send_respects typ i : (typ =? MessageReq_Commit) = false -> respects_on (gossip typ) i.
Proof. intros Hne. apply gossip_respects. intros ->. discriminate. Qed.
#[local] Hint Extern 1 (respects_on sendRoundChangeMsg _) => (apply send_respects; reflexivity) : engine.
#[local] Hint Extern 1 (respects_on sendPreprepareMsg _) => (apply send_respects; reflexivity) : engine.
#[local] Hint Extern 1 (respects_on sendPrepareMsg _) => (apply send_respects; reflexivity) : engine.

Lemma handleStateErr_respects e i : respects_on (handleStateErr e) i.
Proof. unfold handleStateErr. respect. Qed.
#[local] Hint Resolve handleStateErr_respects : engine.

Lemma receive_respects m i : respects_on (receive m) i.
Proof. unfold receive. respect. Qed.

Lemma updateValidators_respects n i : respects_on (updateValidators n) i.
Proof. unfold updateValidators. respect. Qed.
#[local] Hint Resolve updateValidators_respects : engine.

Lemma update_range_respects n from i : respects_on (update_range n from) i.
Proof. revert from i; induction n as [|n IH]; intros from i; cbn [update_range]; respect. Qed.
#[local] Hint Resolve update_range_respects : engine.

Lemma syncStateHook_respects n i : respects_on (syncStateHook n) i.
Proof. unfold syncStateHook, batchUpdateValidators. respect. Qed.
#[local] Hint Resolve syncStateHook_respects : engine.

Lemma isValidSnapshot_respects i : respects_on isValidSnapshot i.
Proof. unfold isValidSnapshot. respect. Qed.
#[local] Hint Resolve isValidSnapshot_respects : engine.

Lemma sync_block_respects b i : respects_on (sync_block vrf_fuel b) i.
Proof. unfold sync_block. respect. Qed.
#[local] Hint Resolve sync_block_respects : engine.

Lemma bulk_sync_respects bs i : respects_on (bulk_sync vrf_fuel bs) i.
Proof. revert i; induction bs as [|b bs IH]; intros i; cbn [bulk_sync]; respect. Qed.
#[local] Hint Resolve bulk_sync_respects : engine.

Lemma watch_sync_respects bs i : respects_on (watch_sync vrf_fuel bs) i.
Proof. revert i; induction bs as [|b bs IH]; intros i; cbn [watch_sync]; respect. Qed.
#[local] Hint Resolve watch_sync_respects : engine.

Lemma run_sync_respects t i : respects_on (run_sync vrf_fuel t) i.
Proof. unfold run_sync. respect. Qed.

Lemma calculateProposerHook_respects i : respects_on calculateProposerHook i.
Proof.
  unfold calculateProposerHook. respect_step. apply bind_any; [|intros ?; respect].
  apply stateM_respects. intros c'. unfold cs_CalcProposer.
  destruct (CalcProposer _ _); [|discriminate..]. by intros [= <-].
Qed.
#[local] Hint Resolve calculateProposerHook_respects : engine.

Lemma while_state_respects s p i : respects_on (while_state s p) i.
Proof. unfold while_state. respect. Qed.
#[local] Hint Resolve while_state_respects : engine.

Lemma accept_enter_respects i : respects_on accept_enter i.
Proof. unfold accept_enter. respect. Qed.

Lemma accept_msg_respects snap m i : respects_on (accept_msg vrf_fuel snap m) i.
Proof.
  unfold accept_msg. respect. apply bind_any; [|intros ?; respect].
  by apply gossip_respects.
Qed.

Lemma stateM_addMessage msg c c' : addMessage msg c = Ok c' -> same_lock c c'.
Proof.
  unfold addMessage. repeat case_match; try (intros [= <-]; done).
  destruct (mView msg); [|discriminate]. by intros [= <-].
Qed.

Lemma sendCommit_respects hc i : respects_on (sendCommit hc) i.
Proof.
  unfold sendCommit. respect_step. apply bind_any; [|intros ?; respect].
  respect_step; [|respect]. by apply gossip_respects.
Qed.
#[local] Hint Resolve sendCommit_respects : engine.

(** Inserting a block puts nothing out. *)
Lemma engine_quiet_ret {A} (a : A) : quiet (eret a).
Proof. by intros i x i' os [= _ _ <-]. Qed.

Lemma quiet_mod f : quiet (emod f).
Proof. by intros i x i' os [= _ _ <-]. Qed.

Lemma quiet_get : quiet eget.
Proof. by intros i x i' os [= _ _ <-]. Qed.

Lemma quiet_lift {A} (o : outcome A) : quiet (elift o).
Proof. intros i x i' os. destruct o; [|discriminate..]. by intros [= _ _ <-]. Qed.

Lemma engine_quiet_bind {A B} (m : E A) (k : A -> E B) : quiet m -> (forall a, quiet (k a)) -> quiet (ebind m k).
Proof.
  intros Hm Hk i b i' os. unfold ebind.
  destruct (m i) as [[[a i1] o1]| |] eqn:E1; [|discriminate..]. cbn [obind].
  destruct (k a i1) as [[[b' i2] o2]| |] eqn:E2; [|discriminate..]. intros [= _ _ <-].
  by rewrite (Hm _ _ _ _ E1), (Hk _ _ _ _ _ E2).
Qed.

Ltac quiet_step :=
  lazymatch goal with
  | |- quiet (ebind _ _) => apply engine_quiet_bind; [|intros ?]
  | |- quiet (eret _) => apply engine_quiet_ret
  | |- quiet eget => apply quiet_get
  | |- quiet (emod _) => apply quiet_mod
  | |- quiet (estate _) => apply quiet_mod
  | |- quiet (elift _) => apply quiet_lift
  | |- quiet (match ?x with _ => _ end) => destruct x
  end.

Lemma updateValidators_quiet n : quiet (updateValidators n).
Proof. unfold updateValidators. repeat quiet_step. Qed.

Lemma insertBlock_quiet b : quiet (insertBlock vrf_fuel b).
Proof. unfold insertBlock, insertBlockHook. repeat quiet_step. apply updateValidators_quiet. Qed.

Lemma bind_inv {A B} (m : E A) (k : A -> E B) i b i' os :
  ebind m k i = Ok (b, i', os) ->
  exists a i1 o1 o2, m i = Ok (a, i1, o1) /\ k a i1 = Ok (b, i', o2) /\ os = o1 ++ o2.
Proof.
  unfold ebind. destruct (m i) as [[[a i1] o1]| |]; [|discriminate..]. cbn [obind].
  destruct (k a i1) as [[[b' i2] o2]| |] eqn:E2; [|discriminate..]. intros [= <- <- <-]. eauto 10.
Qed.

(** The lock is released only in an attempt to insert the block. *)
Lemma commit_block_outputs i p i' os :
  commit_block vrf_fuel i = Ok (p, i', os) -> exists b, os = [OFailed b] \/ os = [OInserted b].
Proof.
  unfold commit_block. intros (? & ? & ? & ? & [= <- <- <-] & Hm & ->)%bind_inv.
  apply bind_inv in Hm as (b & i1 & o1 & o2 & Hb & Hm & ->). exists b.
  apply quiet_lift in Hb as ->.
  apply bind_inv in Hm as (? & ? & ? & o3 & [= <- <- <-] & Hm & ->).
  apply bind_inv in Hm as (ok & i2 & o4 & o5 & Hi & Hm & ->). apply insertBlock_quiet in Hi as ->.
  apply bind_inv in Hm as (? & i3 & o6 & o7 & Hm & [= <- <- <-] & ->). cbn.
  destruct ok; cbn [negb] in Hm.
  - apply bind_inv in Hm as (? & ? & ? & ? & [= <- <- <-] & Hm & ->).
    apply bind_inv in Hm as (? & ? & ? & ? & Hu & Hm & ->). apply quiet_lift in Hu as ->.
    apply bind_inv in Hm as (? & ? & ? & ? & [= <- <- <-] & [= <- <- <-] & ->). by right.
  - apply bind_inv in Hm as (? & ? & ? & ? & [= <- <- <-] & [= <- <- <-] & ->). by left.
Qed.

Lemma commit_block_respects i : respects_on (commit_block vrf_fuel) i.
Proof.
  intros p i' os last Hm _. apply commit_block_outputs in Hm as (b & [-> | ->]); by cbn.
Qed.
#[local] Hint Resolve commit_block_respects : engine.

Lemma add_respects f msg i : (f = addPrepared \/ f = addCommitted) -> respects_on (estateM (f msg)) i.
Proof.
  intros Hf. apply stateM_respects. intros c'.
  destruct Hf as [-> | ->]; unfold addPrepared, addCommitted; (case_match; [by intros [= <-]|]);
    apply stateM_addMessage.
Qed.
#[local] Hint Extern 1 (respects_on (estateM (addPrepared _)) _) => (apply add_respects; by left) : engine.
#[local] Hint Extern 1 (respects_on (estateM (addCommitted _)) _) => (apply add_respects; by right) : engine.

Lemma validate_msg_respects hc m i : respects_on (validate_msg vrf_fuel hc m) i.
Proof. unfold validate_msg. respect. Qed.

Lemma sendRoundChange_respects r i : respects_on (sendRoundChange r) i.
Proof. unfold sendRoundChange. respect. Qed.
#[local] Hint Resolve sendRoundChange_respects : engine.

Lemma checkTimeout_respects p i : respects_on (checkTimeout p) i.
Proof. unfold checkTimeout, sendNextRoundChange. respect. Qed.
#[local] Hint Resolve checkTimeout_respects : engine.

Lemma roundchange_enter_respects p i : respects_on (roundchange_enter p) i.
Proof. unfold roundchange_enter, getErr, sendNextRoundChange. respect. Qed.

Lemma AddRoundMessage_same msg c num c' : AddRoundMessage msg c = Ok (num, c') -> same_lock c c'.
Proof.
  unfold AddRoundMessage. case_match; [by intros [= _ <-]|].
  destruct (addMessage msg c) as [c1| |] eqn:Ea; [|discriminate..]. cbn [obind].
  destruct (mView msg); [|discriminate]. intros [= _ <-]. exact (stateM_addMessage _ _ _ Ea).
Qed.

Lemma roundchange_msg_respects p m i : respects_on (roundchange_msg p m) i.
Proof.
  unfold roundchange_msg. do 3 respect_step; [|respect].
  respect_step. apply bind_lift_respects. intros [num c] Ha.
  apply bind_bind_respects, bind_mod_respects; [exact (AddRoundMessage_same _ _ _ _ Ha)|]. respect.
Qed.

Lemma getNextMessage_respects i : respects_on getNextMessage i.
Proof. unfold getNextMessage. respect. Qed.
#[local] Hint Resolve getNextMessage_respects receive_respects accept_enter_respects run_sync_respects
  roundchange_enter_respects accept_msg_respects validate_msg_respects roundchange_msg_respects : engine.

Lemma node_run_respects a p i : respects_on (node_run vrf_fuel a p) i.
Proof. unfold node_run, runCycle. respect. Qed.

(** ** Runs *)

(** A node runs through a list of actions; the outputs in order. *)
Fixpoint node_runs (acts : list action) (n : node) : outcome (node * list output) :=
  match acts with
  | [] => Ok (n, [])
  | a :: acts =>
    obind (node_step vrf_fuel a n) (fun '(n, o1) =>
    obind (node_runs acts n) (fun '(n, o2) => Ok (n, o1 ++ o2)))
  end.

Lemma node_runs_agree acts n n' os last :
  node_runs acts n = Ok (n', os) -> lock_ok last (nIbft n) ->
  seals_agree last os /\ lock_ok (foldl sealed_after last os) (nIbft n').
Proof.
  revert n os last; induction acts as [|a acts IH]; intros n os last; cbn [node_runs].
  { by intros [= <- <-]. }
  unfold node_step. destruct (node_run vrf_fuel a (nPlace n) (nIbft n)) as [[[p i] o1]| |] eqn:E1;
    [|discriminate..]. cbn [obind].
  destruct (node_runs acts (mkNode i p)) as [[n2 o2]| |] eqn:E2; [|discriminate..].
  intros [= <- <-] Hl. destruct (node_run_respects _ _ _ _ _ _ _ E1 Hl) as [A1 L1].
  rewrite seals_agree_app, foldl_app. destruct (IH _ _ _ E2 L1). tauto.
Qed.

(** From any engine state, two commit seals of a run without an attempt to
    insert a block between them are for the same header. *)
Lemma node_seals_once acts n n' os1 v1 h1 os2 v2 h2 os3 :
  node_runs acts n = Ok (n', os1 ++ OSeal v1 h1 :: os2 ++ OSeal v2 h2 :: os3) ->
  existsb is_attempt os2 = false -> h1 = h2.
Proof.
  intros Hr Hno. destruct (node_runs_agree _ _ _ _ None Hr I) as [Ha _].
  exact (seals_agree_pair _ _ _ _ _ _ _ _ Ha Hno).
Qed.

End facts.

(** What a certified header says: the quorums of commit seals of two headers
    share validators, and what the lock of the honest ones gives for both. *)

Lemma size_list_to_set_le (l : list Z) : (size (list_to_set l : gset Z) <= length l)%nat.
Proof.
  induction l as [|a l IH]; [done|]. cbn. rewrite size_union_alt, size_singleton.
  assert (list_to_set l ∖ {[a]} ⊆ (list_to_set l : gset Z)) as Hs by set_solver.
  apply subseteq_size in Hs. lia.
Qed.

Section quorum.
Context `{FastRLP} `{Runtime} `{Secp256k1} `{Curve} `{Protobuf} `{Sorting} `{Backend}.
Context (vrf_fuel : nat).

(** The address a seal of a message recovers to. *)
Definition sealed_by (a : Address) (seal msg : list Z) : Prop :=
  exists pub, ecrecoverImpl seal msg = Ok (Some pub) /\ PubKeyToAddress pub = a.

(** The validators whose seals of the message are among the seals. *)
Definition signers_of (snap : Snapshot) (msg : list Z) (seals : list (list Z)) (V : gset Z) : Prop :=
  forall a, a ∈ V -> a ∈ sSet snap /\ exists seal, seal ∈ seals /\ sealed_by a seal msg.

Lemma seal_signers_spec snap msg seals visited V :
  seal_signers snap msg seals visited = Ok (Some V) ->
  size V = (size visited + length seals)%nat /\
  forall a, a ∈ V -> a ∈ visited \/ (a ∈ sSet snap /\ exists seal, seal ∈ seals /\ sealed_by a seal msg).
Proof.
  revert visited; induction seals as [|seal seals IH]; intros visited; cbn [seal_signers].
  { intros [= ->]. split; [cbn; lia|auto]. }
  destruct (ecrecoverImpl seal msg) as [[pub|]| |] eqn:Er; try discriminate. cbn [obind].
  case_bool_decide as Hnew; [discriminate|].
  destruct (Snap.Includes (PubKeyToAddress pub) snap) eqn:Hi; [|discriminate]. cbn [negb].
  intros Hs. destruct (IH _ Hs) as [Hsize Hin]. split.
  - rewrite Hsize, size_union, size_singleton by set_solver. cbn. lia.
  - intros a Ha. destruct (Hin a Ha) as [Hv|(Ha' & s & Hs' & Hb)].
    + apply elem_of_union in Hv as [Hv%elem_of_singleton|]; [subst a; right|by left].
      split; [by apply includes_spec|]. exists seal. split; [left|by exists pub].
    + right. split; [done|]. exists s. split; [by right|done].
Qed.

(** A header that passes has the hash the seals are of, and more than 2F
    validators of the snapshot sealed it. *)
Lemma verifyCommitedFields_quorum snap header :
  verifyCommitedFields snap header = Ok true ->
  exists hash extra V, calculateHeaderHash header = Some hash /\ getIbftExtra header = Some extra /\
    signers_of snap (commitMsg hash) (eCommittedSeal extra) V /\
    2 * Snap.MaxFaultyNodes snap < Z.of_nat (size V).
Proof.
  unfold verifyCommitedFields. destruct (getIbftExtra header) as [extra|]; [|discriminate].
  case_match; [discriminate|]. destruct (calculateHeaderHash header) as [hash|]; [|discriminate].
  destruct (seal_signers _ _ _ _) as [[V|]| |] eqn:Es; try discriminate. cbn [obind].
  intros [= Hq]. apply negb_true_iff, Z.leb_gt in Hq.
  apply seal_signers_spec in Es as [_ Es].
  exists hash, extra, V. split; [done|split; [done|split; [|done]]].
  intros a Ha. destruct (Es a Ha) as [Hn|]; [by apply not_elem_of_empty in Hn|done].
Qed.

(** Two sets of more than 2F validators share more than 4F + 1 - N of them. *)
Lemma quorums_meet snap (V1 V2 : gset Z) :
  (forall a, a ∈ V1 -> a ∈ sSet snap) -> (forall a, a ∈ V2 -> a ∈ sSet snap) ->
  2 * Snap.MaxFaultyNodes snap < Z.of_nat (size V1) ->
  2 * Snap.MaxFaultyNodes snap < Z.of_nat (size V2) ->
  4 * Snap.MaxFaultyNodes snap + 2 - len (sSet snap) <= Z.of_nat (size (V1 ∩ V2)).
Proof.
  intros H1' H2' Q1 Q2.
  assert (size (V1 ∪ V2) <= length (sSet snap))%nat as Hu.
  { transitivity (size (list_to_set (sSet snap) : gset Z)).
    - apply subseteq_size. intros a Ha. rewrite elem_of_list_to_set.
      apply elem_of_union in Ha as [Ha|Ha]; auto.
    - apply size_list_to_set_le. }
  pose proof (size_union_alt V1 V2) as E1.
  pose proof (size_difference_alt V2 V1) as E2. 
  assert (V2 ∩ V1 = V1 ∩ V2) as E3 by set_solver. rewrite E3 in E2.
  assert (V1 ∩ V2 ⊆ V2) as Hs by set_solver. apply subseteq_size in Hs. unfold len. lia.
Qed.

(** ** Agreement *)

(** With 3F + 1 validators, at most F of them faulty, two certified headers
    were both sealed by an honest validator. *)
Lemma certified_common snap h1 h2 (faulty : gset Z) :
  verifyCommitedFields snap h1 = Ok true -> verifyCommitedFields snap h2 = Ok true ->
  len (sSet snap) = 3 * Snap.MaxFaultyNodes snap + 1 ->
  Z.of_nat (size faulty) <= Snap.MaxFaultyNodes snap ->
  exists a m1 m2 s1 s2, (a ∉ faulty) /\ a ∈ sSet snap /\
    calculateHeaderHash h1 = Some m1 /\ sealed_by a s1 (commitMsg m1) /\
    calculateHeaderHash h2 = Some m2 /\ sealed_by a s2 (commitMsg m2).
Proof.
  intros (m1 & e1 & V1 & E1 & _ & S1 & Q1)%verifyCommitedFields_quorum
    (m2 & e2 & V2 & E2 & _ & S2 & Q2)%verifyCommitedFields_quorum HN HF.
  assert (4 * Snap.MaxFaultyNodes snap + 2 - len (sSet snap) <= Z.of_nat (size (V1 ∩ V2))) as Hm.
  { apply quorums_meet; try done; intros a Ha; [by apply S1|by apply S2]. }
  destruct (decide (V1 ∩ V2 ∖ faulty = ∅)) as [Hnone|(a & Ha)%set_choose_L].
  { assert (V1 ∩ V2 ⊆ faulty) as Hs by set_solver. apply subseteq_size in Hs. lia. }
  apply elem_of_difference in Ha as [[Ha1 Ha2]%elem_of_intersection Hh].
  destruct (S1 a Ha1) as (Hin & s1 & _ & B1). destruct (S2 a Ha2) as (_ & s2 & _ & B2).
  exists a, m1, m2, s1, s2. done.
Qed.

(** The outputs of the honest validators, each of a run of its engine. *)
Context (outputs : Address -> list output) (faulty : gset Z).

Definition honest_runs (validators : list Address) : Prop :=
  forall a, a ∈ validators -> a ∉ faulty ->
  exists acts n n', node_runs vrf_fuel acts n = Ok (n', outputs a).

(** The seals of the headers are not forged: one that recovers to an honest
    validator is a seal its engine made, of a header with the sealed hash. *)
Definition unforged (validators : list Address) (headers : list Header) : Prop :=
  forall h hash a seal, h ∈ headers -> calculateHeaderHash h = Some hash ->
  a ∈ validators -> a ∉ faulty -> sealed_by a seal (commitMsg hash) ->
  exists view g, OSeal view g ∈ outputs a /\ calculateHeaderHash g = Some hash.

(** A validator tried to insert a block between seals of the two hashes. *)
Definition tried_between (m1 m2 : option (list Z)) (os : list output) : Prop :=
  exists os1 v1 g1 os2 v2 g2 os3,
    os = os1 ++ OSeal v1 g1 :: os2 ++ OSeal v2 g2 :: os3 /\ existsb is_attempt os2 = true /\
    ((calculateHeaderHash g1 = m1 /\ calculateHeaderHash g2 = m2) \/
     (calculateHeaderHash g1 = m2 /\ calculateHeaderHash g2 = m1)).

Lemma two_seals (os : list output) v1 h1 v2 h2 :
  OSeal v1 h1 ∈ os -> OSeal v2 h2 ∈ os -> h1 <> h2 ->
  exists os1 os2 os3, os = os1 ++ OSeal v1 h1 :: os2 ++ OSeal v2 h2 :: os3 \/
                      os = os1 ++ OSeal v2 h2 :: os2 ++ OSeal v1 h1 :: os3.
Proof.
  intros Hin1 Hin2 Hne. apply list_elem_of_split in Hin1 as (l1 & l2 & ->).
  apply elem_of_app in Hin2 as [Hin|Hin].
  - apply list_elem_of_split in Hin as (l3 & l4 & ->). exists l3, l4, l2. right.
    by rewrite <- app_assoc.
  - apply elem_of_cons in Hin as [[=]|Hin]; [congruence|].
    apply list_elem_of_split in Hin as (l3 & l4 & ->). exists l1, l3, l4. by left.
Qed.

Lemma certified_agree snap h1 h2 :
  honest_runs (sSet snap) -> unforged (sSet snap) [h1; h2] ->
  verifyCommitedFields snap h1 = Ok true -> verifyCommitedFields snap h2 = Ok true ->
  len (sSet snap) = 3 * Snap.MaxFaultyNodes snap + 1 ->
  Z.of_nat (size faulty) <= Snap.MaxFaultyNodes snap ->
  calculateHeaderHash h1 = calculateHeaderHash h2 \/
  exists a, a ∈ sSet snap /\ (a ∉ faulty) /\
    tried_between (calculateHeaderHash h1) (calculateHeaderHash h2) (outputs a).
Proof.
  intros Hruns Hunf V1 V2 HN HF.
  destruct (certified_common snap h1 h2 faulty V1 V2 HN HF)
    as (a & m1 & m2 & s1 & s2 & Hh & Hin & E1 & B1 & E2 & B2).
  destruct (Hunf h1 m1 a s1 ltac:(left) E1 Hin Hh B1) as (v1 & g1 & O1 & G1).
  destruct (Hunf h2 m2 a s2 ltac:(right; left) E2 Hin Hh B2) as (v2 & g2 & O2 & G2).
  destruct (decide (m1 = m2)) as [->|Hne]; [left; congruence|right].
  exists a. split; [done|split; [done|]]. rewrite E1, E2.
  destruct (Hruns a Hin Hh) as (acts & n & n' & Hr).
  assert (g1 <> g2) as Hg by congruence.
  destruct (two_seals _ _ _ _ _ O1 O2 Hg) as (os1 & os2 & os3 & [Eo|Eo]); rewrite Eo in Hr;
    (destruct (existsb is_attempt os2) eqn:Ha;
      [|apply node_seals_once in Hr; [congruence|done]]).
  - exists os1, v1, g1, os2, v2, g2, os3. auto.
  - exists os1, v2, g2, os2, v1, g1, os3. auto.
Qed.

End quorum.
