(* ===== verification/Storage.v ===== *)
(** The chain's database, src/storage: the layout over a key-value store
    (keyvalue.go, utils.go) and the store in memory (memory/memory.go). *)

From Stdlib Require Import ZArith Lia.
From stdpp Require Import base gmap list numbers.
From S2P Require Import Prelude Types Text Chain Rlp RlpFacts.

Open Scope Z_scope.

(** ** Key-value stores *)

(** The interface [KV].  [Set] gives whether there was no error; [Get] is [None]
    for an error and [Some None] for a missing key. *)
Class KV := {
  DB : Type;
  kv_Set : list Z -> list Z -> DB -> bool * DB;
  kv_Get : list Z -> DB -> option (option (list Z))
}.

(** What the layout relies on. *)
Class KVOk `{KV} := {
  get_set p v db db' : Forall is_byte p -> kv_Set p v db = (true, db') -> kv_Get p db' = Some (Some v);
  get_other p p' v db ok db' : Forall is_byte p -> Forall is_byte p' -> p <> p' ->
    kv_Set p v db = (ok, db') -> kv_Get p' db' = kv_Get p' db;
  get_failed p v db db' : Forall is_byte p -> kv_Set p v db = (false, db') -> kv_Get p db' = kv_Get p db
}.

(** [memoryKV]: a map from the keys in hexadecimal. *)
Definition memory_Set (p v : list Z) (m : gmap (list Z) (list Z)) : bool * gmap (list Z) (list Z) :=
  (true, <[EncodeToHex p := v]> m).
Definition memory_Get (p : list Z) (m : gmap (list Z) (list Z)) : option (option (list Z)) :=
  Some (m !! EncodeToHex p).

#[export] Instance memoryKV : KV := {| kv_Set := memory_Set; kv_Get := memory_Get |}.

#[export] Instance memoryKV_ok : KVOk.
Proof.
  split.
  - intros p v db db' _ [= <-]. cbn. unfold memory_Get. by rewrite lookup_insert_eq.
  - intros p p' v db ok db' Hp Hp' Hne [= _ <-]. cbn. unfold memory_Get.
    rewrite lookup_insert_ne; [done|]. intros E. by apply Hne, EncodeToHex_inj.
  - discriminate.
Defined.

(** ** Prefixes *)

Definition DIFFICULTY : list Z := [100].
Definition HEADER : list Z := [104].
Definition HEAD : list Z := [111].
Definition FORK : list Z := [102].
Definition CANONICAL : list Z := [99].
Definition BODY : list Z := [98].
Definition RECEIPTS : list Z := [114].
Definition SNAPSHOTS : list Z := [115].
Definition TX_LOOKUP_PREFIX : list Z := [108].

Definition HASH : list Z := [104; 97; 115; 104].
Definition NUMBER : list Z := [110; 117; 109; 98; 101; 114].
Definition EMPTY : list Z := [101; 109; 112; 116; 121].

(** The result of [readRLP]: the object, [ErrNotFound] or another error. *)
Inductive read (A : Type) := Found (a : A) | ErrNotFound | ReadErr.
Arguments Found {A} a.
Arguments ErrNotFound {A}.
Arguments ReadErr {A}.

Section storage.
Context `{FastRLP} `{Runtime} `{KV}.
Context (HeaderHash : Header -> Hash).

Definition encodeUint (n : Z) : list Z := be_encode 8 n.
Definition decodeUint (b : list Z) : Z := be_decode (take 8 b).

Definition db_set (p k v : list Z) (db : DB) : bool * DB := kv_Set (p ++ k) v db.

Definition db_get (p k : list Z) (db : DB) : option (list Z) :=
  match kv_Get (p ++ k) db with Some (Some data) => Some data | _ => None end.

(** [writeRLP] of the encoding, and [readRLP] with the object's decoder. *)
Definition writeRLP (p k data : list Z) (db : DB) : bool * DB := db_set p k data db.

Definition readRLP {A} (p k : list Z) (unmarshal : list Z -> option A) (db : DB) : read A :=
  match kv_Get (p ++ k) db with
  | None => ReadErr
  | Some None => ErrNotFound
  | Some (Some data) => match unmarshal data with Some a => Found a | None => ReadErr end
  end.

Definition read2 (p k : list Z) (db : DB) : option Value := data ← db_get p k db; Parse data.
Definition write2 (p k : list Z) (v : Value) (db : DB) : bool * DB := db_set p k (MarshalTo v) db.

(** A write after another, unless that failed. *)
Definition and_then (w1 w2 : DB -> bool * DB) (db : DB) : bool * DB :=
  let (ok, db) := w1 db in if ok then w2 db else (false, db).

(** *** The canonical chain and the head *)

Definition ReadCanonicalHash (n : Z) (db : DB) : option Hash :=
  BytesToHash <$> db_get CANONICAL (encodeUint n) db.
Definition WriteCanonicalHash (n : Z) (hash : Hash) : DB -> bool * DB :=
  db_set CANONICAL (encodeUint n) (Hash_Bytes hash).

Definition ReadHeadHash (db : DB) : option Hash := BytesToHash <$> db_get HEAD HASH db.
Definition ReadHeadNumber (db : DB) : option Z :=
  data ← db_get HEAD NUMBER db;
  if negb (len data =? 8) then None else Some (decodeUint data).
Definition WriteHeadHash (h : Hash) : DB -> bool * DB := db_set HEAD HASH (Hash_Bytes h).
Definition WriteHeadNumber (n : Z) : DB -> bool * DB := db_set HEAD NUMBER (encodeUint n).

(** *** Forks *)

Definition Forks_MarshalRLPWith (f : list Hash) : Value :=
  match f with [] => NewNullArray | _ => NewArray ((fun fork => NewBytes (Hash_Bytes fork)) <$> f) end.

Definition Forks_UnmarshalRLPFrom (v : Value) : option (list Hash) :=
  elems ← GetElems v;
  forks ← mapM GetHash elems;
  Some (be_decode <$> forks).

Definition WriteForks (forks : list Hash) : DB -> bool * DB :=
  writeRLP FORK EMPTY (MarshalTo (Forks_MarshalRLPWith forks)).
Definition ReadForks (db : DB) : read (list Hash) :=
  readRLP FORK EMPTY (UnmarshalRlp Forks_UnmarshalRLPFrom) db.

(** *** Difficulties, headers, bodies, receipts *)

Definition WriteTotalDifficulty (hash : Hash) (diff : Z) : DB -> bool * DB :=
  db_set DIFFICULTY (Hash_Bytes hash) (big_Bytes diff).
Definition ReadTotalDifficulty (hash : Hash) (db : DB) : option Z :=
  be_decode <$> db_get DIFFICULTY (Hash_Bytes hash) db.

Definition WriteHeader (h : Header) : DB -> bool * DB :=
  writeRLP HEADER (Hash_Bytes (hHash h)) (MarshalTo (Header_MarshalRLPWith h)).
Definition ReadHeader (hash : Hash) (db : DB) : read Header :=
  readRLP HEADER (Hash_Bytes hash) (Header_UnmarshalRLP HeaderHash zero_header) db.

Definition WriteCanonicalHeader (h : Header) (diff : Z) : DB -> bool * DB :=
  and_then (WriteHeader h)
    (and_then (WriteHeadHash (hHash h))
      (and_then (WriteHeadNumber (hNumber h))
        (and_then (WriteCanonicalHash (hNumber h) (hHash h))
          (WriteTotalDifficulty (hHash h) diff)))).

Definition WriteBody (hash : Hash) (body : Body) : DB -> bool * DB :=
  writeRLP BODY (Hash_Bytes hash) (MarshalTo (Body_MarshalRLPWith body)).
Definition ReadBody (hash : Hash) (db : DB) : read Body :=
  readRLP BODY (Hash_Bytes hash) (Body_UnmarshalRLP HeaderHash (mkBody [] [])) db.

Definition WriteSnapshot (hash : Hash) (blob : list Z) : DB -> bool * DB :=
  db_set SNAPSHOTS (Hash_Bytes hash) blob.
Definition ReadSnapshot (hash : Hash) (db : DB) : option (list Z) := db_get SNAPSHOTS (Hash_Bytes hash) db.

Definition WriteReceipts (hash : Hash) (receipts : list Receipt) : DB -> bool * DB :=
  writeRLP RECEIPTS (Hash_Bytes hash) (MarshalTo (Receipts_MarshalStoreRLPWith receipts)).
Definition ReadReceipts (hash : Hash) (db : DB) : read (list Receipt) :=
  readRLP RECEIPTS (Hash_Bytes hash) (Receipts_UnmarshalStoreRLP []) db.

(** *** Transaction lookups *)

Definition WriteTxLookup (hash blockHash : Hash) : DB -> bool * DB :=
  write2 TX_LOOKUP_PREFIX (Hash_Bytes hash) (NewBytes (Hash_Bytes blockHash)).

(** An entry that is not 32 bytes is a panic. *)
Definition ReadTxLookup (hash : Hash) (db : DB) : outcome (option Hash) :=
  match read2 TX_LOOKUP_PREFIX (Hash_Bytes hash) db with
  | None => Ok None
  | Some v => obind (of_option (GetBytes v (Some 32%nat))) (fun b => Ok (Some (BytesToHash b)))
  end.

End storage.
