(* ===== verification/StorageFacts.v ===== *)
(** The database implements typed maps: every write changes the entry it is for
    and no other, whatever the key-value store under it. *)

From Stdlib Require Import ZArith Lia.
From stdpp Require Import base gmap list numbers.
From S2P Require Import Prelude Types Text Chain Rlp RlpFacts Storage.

Open Scope Z_scope.

(** ** The specification: a map for each kind of entry *)

Record contents := mkContents {
  cCanonical : gmap Z Hash;
  cHeadHash : option Hash;
  cHeadNumber : option Z;
  cForks : option (list Hash);
  cDifficulty : gmap Hash Z;
  cHeaders : gmap Hash Header;
  cBodies : gmap Hash Body;
  cSnapshots : gmap Hash (list Z);
  cReceipts : gmap Hash (list Receipt);
  cLookups : gmap Hash Hash
}.

(** What is kept of a receipt. *)
Definition stored_receipt (r : Receipt) : Receipt :=
  mkReceipt (rRoot r) (rCumulativeGasUsed r) (rLogsBloom r) (rLogs r) (rStatus r)
    (rGasUsed r) (rContractAddress r) 0.

Inductive write :=
| WCanonicalHash (n : Z) (hash : Hash)
| WHeadHash (hash : Hash)
| WHeadNumber (n : Z)
| WForks (forks : list Hash)
| WTotalDifficulty (hash : Hash) (diff : Z)
| WHeader (h : Header)
| WBody (hash : Hash) (b : Body)
| WSnapshot (hash : Hash) (blob : list Z)
| WReceipts (hash : Hash) (rs : list Receipt)
| WTxLookup (hash blockHash : Hash).

Definition spec_write (w : write) (c : contents) : contents :=
  let 'mkContents can hh hn fo td he bo sn re lo := c in
  match w with
  | WCanonicalHash n hash => mkContents (<[n := hash]> can) hh hn fo td he bo sn re lo
  | WHeadHash hash => mkContents can (Some hash) hn fo td he bo sn re lo
  | WHeadNumber n => mkContents can hh (Some n) fo td he bo sn re lo
  | WForks forks => mkContents can hh hn (Some forks) td he bo sn re lo
  | WTotalDifficulty hash diff => mkContents can hh hn fo (<[hash := diff]> td) he bo sn re lo
  | WHeader h => mkContents can hh hn fo td (<[hHash h := h]> he) bo sn re lo
  | WBody hash b => mkContents can hh hn fo td he (<[hash := b]> bo) sn re lo
  | WSnapshot hash blob => mkContents can hh hn fo td he bo (<[hash := blob]> sn) re lo
  | WReceipts hash rs => mkContents can hh hn fo td he bo sn (<[hash := stored_receipt <$> rs]> re) lo
  | WTxLookup hash blockHash => mkContents can hh hn fo td he bo sn re (<[hash := blockHash]> lo)
  end.

Definition read_of {A} (o : option A) : read A := match o with Some a => Found a | None => ErrNotFound end.

Section facts.
Context `{FastRLP} `{Runtime} `{!FastRLPOk} `{KV} `{!KVOk}.
Context (HeaderHash : Header -> Hash).
Context (hash_pure : forall x h, HeaderHash (with_header_hash x h) = HeaderHash h).

Definition run_write (w : write) : DB -> bool * DB :=
  match w with
  | WCanonicalHash n hash => WriteCanonicalHash n hash
  | WHeadHash hash => WriteHeadHash hash
  | WHeadNumber n => WriteHeadNumber n
  | WForks forks => WriteForks forks
  | WTotalDifficulty hash diff => WriteTotalDifficulty hash diff
  | WHeader h => WriteHeader h
  | WBody hash b => WriteBody hash b
  | WSnapshot hash blob => WriteSnapshot hash blob
  | WReceipts hash rs => WriteReceipts hash rs
  | WTxLookup hash blockHash => WriteTxLookup hash blockHash
  end.

(** What the chain writes: values of their Go types that fit a buffer. *)
Definition write_wf (w : write) : Prop :=
  match w with
  | WCanonicalHash n hash => is_u64 n /\ is_word hash
  | WHeadHash hash => is_word hash
  | WHeadNumber n => is_u64 n
  | WForks forks => Forall is_word forks /\ len (MarshalTo (Forks_MarshalRLPWith forks)) < 2 ^ 63
  | WTotalDifficulty hash diff => is_word hash /\ 0 <= diff
  | WHeader h => is_word (hHash h) /\ header_complete HeaderHash h /\
      len (MarshalTo (Header_MarshalRLPWith h)) < 2 ^ 63
  | WBody hash b => is_word hash /\ Forall (header_complete HeaderHash) (bodyUncles b) /\
      Forall (fun t => tx_complete t /\ is_addr (tFrom t)) (bodyTransactions b) /\
      len (MarshalTo (Body_MarshalRLPWith b)) < 2 ^ 63
  | WSnapshot hash _ => is_word hash
  | WReceipts hash rs => is_word hash /\ Forall receipt_wf rs /\
      len (MarshalTo (Receipts_MarshalStoreRLPWith rs)) < 2 ^ 63
  | WTxLookup hash blockHash => is_word hash /\ is_word blockHash /\
      len (MarshalTo (NewBytes (Hash_Bytes blockHash))) < 2 ^ 63
  end.

(** The reads of the database are those of the maps. *)
Record implements (db : DB) (c : contents) : Prop := {
  im_canonical n : is_u64 n -> ReadCanonicalHash n db = cCanonical c !! n;
  im_headHash : ReadHeadHash db = cHeadHash c;
  im_headNumber : ReadHeadNumber db = cHeadNumber c;
  im_forks : ReadForks db = read_of (cForks c);
  im_difficulty hash : is_word hash -> ReadTotalDifficulty hash db = cDifficulty c !! hash;
  im_headers hash : is_word hash -> ReadHeader HeaderHash hash db = read_of (cHeaders c !! hash);
  im_bodies hash : is_word hash -> ReadBody HeaderHash hash db = read_of (cBodies c !! hash);
  im_snapshots hash : is_word hash -> ReadSnapshot hash db = cSnapshots c !! hash;
  im_receipts hash : is_word hash -> ReadReceipts hash db = read_of (cReceipts c !! hash);
  im_lookups hash : is_word hash -> ReadTxLookup hash db = Ok (cLookups c !! hash)
}.

(** ** Keys *)

Definition is_key (k : list Z) : Prop := Forall is_byte k.

Lemma key_bytes p k : is_key p -> is_key k -> is_key (p ++ k).
Proof. apply Forall_app_2. Qed.

Lemma encodeUint_inj n n' : is_u64 n -> is_u64 n' -> encodeUint n = encodeUint n' -> n = n'.
Proof.
  intros Hn Hn' E. apply (f_equal be_decode) in E. unfold encodeUint in E.
  rewrite !be_decode_encode_small in E by done. done.
Qed.

(** The key and the value of a write. *)
Definition write_key (w : write) : list Z :=
  match w with
  | WCanonicalHash n _ => CANONICAL ++ encodeUint n
  | WHeadHash _ => HEAD ++ HASH
  | WHeadNumber _ => HEAD ++ NUMBER
  | WForks _ => FORK ++ EMPTY
  | WTotalDifficulty hash _ => DIFFICULTY ++ Hash_Bytes hash
  | WHeader h => HEADER ++ Hash_Bytes (hHash h)
  | WBody hash _ => BODY ++ Hash_Bytes hash
  | WSnapshot hash _ => SNAPSHOTS ++ Hash_Bytes hash
  | WReceipts hash _ => RECEIPTS ++ Hash_Bytes hash
  | WTxLookup hash _ => TX_LOOKUP_PREFIX ++ Hash_Bytes hash
  end.

Definition write_value (w : write) : list Z :=
  match w with
  | WCanonicalHash _ hash | WHeadHash hash => Hash_Bytes hash
  | WHeadNumber n => encodeUint n
  | WForks forks => MarshalTo (Forks_MarshalRLPWith forks)
  | WTotalDifficulty _ diff => big_Bytes diff
  | WHeader h => MarshalTo (Header_MarshalRLPWith h)
  | WBody _ b => MarshalTo (Body_MarshalRLPWith b)
  | WSnapshot _ blob => blob
  | WReceipts _ rs => MarshalTo (Receipts_MarshalStoreRLPWith rs)
  | WTxLookup _ blockHash => MarshalTo (NewBytes (Hash_Bytes blockHash))
  end.

Lemma run_write_set w db : run_write w db = kv_Set (write_key w) (write_value w) db.
Proof. by destruct w. Qed.

Lemma encodeUint_key n : is_key (encodeUint n).
Proof. apply be_encode_bytes. Qed.

Lemma Hash_Bytes_key h : is_key (Hash_Bytes h).
Proof. apply Hash_Bytes_wf. Qed.

Lemma literal_key k : forallb (fun x => (0 <=? x) && (x <? 256)) k = true -> is_key k.
Proof.
  intros Hk. apply List.Forall_forall. intros x Hx. rewrite List.forallb_forall in Hk.
  specialize (Hk x Hx). unfold is_byte. lia.
Qed.

Ltac solve_key :=
  apply key_bytes; [apply literal_key; reflexivity|];
  lazymatch goal with
  | |- is_key (encodeUint _) => apply encodeUint_key
  | |- is_key (Hash_Bytes _) => apply Hash_Bytes_key
  | |- _ => apply literal_key; reflexivity
  end.

Lemma write_key_bytes w : is_key (write_key w).
Proof. destruct w; cbn [write_key]; solve_key. Qed.

(** A write is read at its key and seen at no other. *)
Lemma get_write w db ok db' k : is_key k -> run_write w db = (ok, db') ->
  kv_Get k db' =
  (if ok && bool_decide (write_key w = k) then Some (Some (write_value w)) else kv_Get k db).
Proof.
  intros Hk Hs. rewrite run_write_set in Hs. pose proof (write_key_bytes w) as Hw.
  case_bool_decide as He; [subst k|].
  - destruct ok; cbn [andb]; [exact (get_set _ _ _ _ Hw Hs)|exact (get_failed _ _ _ _ Hw Hs)].
  - rewrite andb_false_r. exact (get_other _ _ _ _ _ _ Hw Hk He Hs).
Qed.

(** ** The values read back *)

Lemma forks_roundtrip forks : Forall is_word forks -> len (MarshalTo (Forks_MarshalRLPWith forks)) < 2 ^ 63 ->
  UnmarshalRlp Forks_UnmarshalRLPFrom (MarshalTo (Forks_MarshalRLPWith forks)) = Some forks.
Proof.
  intros Hf Hl. apply unmarshal_ok; [|done|].
  - destruct forks; [apply wf_nullarray|]. apply wf_array, Forall_fmap, List.Forall_forall.
    intros x _. apply wf_bytes, Hash_Bytes_wf.
  - intros v' Hd. unfold Forks_UnmarshalRLPFrom. destruct forks as [|f fs]; [by rewrite (decoded_nullarray _ Hd)|].
    apply decoded_array in Hd as (vs & -> & Hvs). cbn [mbind option_bind].
    rewrite (mapM_decoded _ GetHash Hash_Bytes (f :: fs) vs Hvs).
    + cbn [mbind option_bind]. rewrite <- list_fmap_compose. f_equal.
      rewrite <- (list_fmap_id (f :: fs)) at 2. apply list_fmap_ext. intros i x Hx.
      apply decode_Hash_Bytes. exact (Forall_lookup_1 _ _ _ _ Hf Hx).
    + apply List.Forall_forall. intros x _ w Hw. apply decoded_bytes in Hw as (_ & _ & _ & Hr & _).
      apply Hr, Hash_Bytes_wf.
Qed.

Lemma lookup_roundtrip h : is_word h -> len (MarshalTo (NewBytes (Hash_Bytes h))) < 2 ^ 63 ->
  exists v, Parse (MarshalTo (NewBytes (Hash_Bytes h))) = Some v /\
    GetBytes v (Some 32%nat) = Some (Hash_Bytes h).
Proof.
  intros Hh Hl. destruct (parse_marshal (NewBytes (Hash_Bytes h))) as (v & Hv & Hd); [|done|].
  - apply wf_bytes, Hash_Bytes_wf.
  - exists v. split; [done|]. apply decoded_bytes in Hd as (_ & _ & Hr & _). apply Hr, Hash_Bytes_wf.
Qed.

Lemma header_roundtrip h : header_complete HeaderHash h ->
  len (MarshalTo (Header_MarshalRLPWith h)) < 2 ^ 63 ->
  Header_UnmarshalRLP HeaderHash zero_header (MarshalTo (Header_MarshalRLPWith h)) = Some h.
Proof.
  intros Hh Hl. apply unmarshal_ok; [apply header_rlp_wf, Hh|done|].
  intros v' Hd. rewrite (decoded_header _ hash_pure _ h) by (apply Hh || done). by rewrite header_same.
Qed.

(** The read of an entry after a write: it is the entry written, or as before. *)
Ltac read_after Hrun :=
  unfold ReadCanonicalHash, ReadHeadHash, ReadHeadNumber, ReadForks, ReadTotalDifficulty, ReadHeader,
    ReadBody, ReadSnapshot, ReadReceipts, ReadTxLookup, read2, db_get, readRLP;
  rewrite (fun k Hk => get_write _ _ _ _ k Hk Hrun) by solve_key.

Ltac as_before Him :=
  first
    [ exact (im_headHash _ _ Him) | exact (im_headNumber _ _ Him) | exact (im_forks _ _ Him)
    | match goal with Hn : is_u64 ?n |- _ => exact (im_canonical _ _ Him n Hn) end
    | match goal with
      | Hn : is_word ?n |- _ =>
        first [ exact (im_difficulty _ _ Him n Hn) | exact (im_headers _ _ Him n Hn)
              | exact (im_bodies _ _ Him n Hn) | exact (im_snapshots _ _ Him n Hn)
              | exact (im_receipts _ _ Him n Hn) | exact (im_lookups _ _ Him n Hn) ]
      end ].

(** An entry of a map: the key that was written, or another. *)
Ltac same_key He :=
  apply app_inv_head in He;
  lazymatch type of He with
  | encodeUint _ = _ => apply encodeUint_inj in He; [|tauto..]
  | _ => apply Hash_Bytes_inj in He; [|tauto..]
  end;
  subst; rewrite lookup_insert_eq.
Ltac other_key He Him := rewrite lookup_insert_ne by (intros E; apply He; by rewrite E); as_before Him.

Lemma write_refines w db ok db' c :
  implements db c -> write_wf w -> run_write w db = (ok, db') ->
  implements db' (if ok then spec_write w c else c).
Proof.
  intros Him Hw Hrun. destruct ok.
  2: { split; intros; read_after Hrun; cbn [andb]; as_before Him. }
  destruct c as [can hh hn fo td he bo sn re lo].
  destruct w; split; intros; read_after Hrun; cbn [andb write_key];
    (case_bool_decide as He; [|try (as_before Him)]).
  all: try discriminate He.
  all: cbn [spec_write cCanonical cHeadHash cHeadNumber cForks cDifficulty cHeaders cBodies cSnapshots
    cReceipts cLookups write_value write_wf] in Hw |- *.
  all: try (other_key He Him).
  all: try (by destruct He).
  - same_key He. cbn [fmap option_fmap option_map]. by rewrite BytesToHash_Hash_Bytes by apply Hw.
  - cbn [fmap option_fmap option_map]. by rewrite BytesToHash_Hash_Bytes.
  - cbn [mbind option_bind]. unfold encodeUint, len. rewrite be_encode_length. cbn [negb].
    unfold decodeUint. rewrite take_ge by (by rewrite be_encode_length).
    by rewrite be_decode_encode_small.
  - by rewrite forks_roundtrip by apply Hw.
  - same_key He. cbn [fmap option_fmap option_map]. rewrite be_decode_big_Bytes, Z.abs_eq by apply Hw. done.
  - same_key He. by rewrite header_roundtrip by apply Hw.
  - same_key He. by rewrite body_roundtrip by (apply Hw || done).
  - by same_key He.
  - same_key He. by rewrite receipts_roundtrip by apply Hw.
  - same_key He. destruct Hw as (_ & Hb & Hl). destruct (lookup_roundtrip _ Hb Hl) as (v & Hv & Hg).
    cbn [mbind option_bind]. rewrite Hv, Hg. cbn [of_option obind]. by rewrite BytesToHash_Hash_Bytes.
Qed.

(** Writes in sequence, up to the first that fails. *)
Fixpoint run_writes (ws : list write) (db : DB) : bool * DB :=
  match ws with
  | [] => (true, db)
  | w :: ws => and_then (run_write w) (run_writes ws) db
  end.

(** The contents after the writes that were done. *)
Inductive spec_writes : list write -> contents -> bool -> contents -> Prop :=
| spec_done c : spec_writes [] c true c
| spec_failed w ws c : spec_writes (w :: ws) c false c
| spec_cons w ws c ok c' : spec_writes ws (spec_write w c) ok c' -> spec_writes (w :: ws) c ok c'.

Lemma writes_refine ws db ok db' c :
  implements db c -> Forall write_wf ws -> run_writes ws db = (ok, db') ->
  exists c', spec_writes ws c ok c' /\ implements db' c'.
Proof.
  intros Him Hws. revert db c Him; induction Hws as [|w ws Hw Hws IH]; intros db c Him; cbn [run_writes].
  { intros [= <- <-]. exists c. split; [constructor|done]. }
  unfold and_then. destruct (run_write w db) as [ok1 db1] eqn:E1.
  pose proof (write_refines _ _ _ _ _ Him Hw E1) as Him1. destruct ok1.
  - intros Hr. destruct (IH _ _ Him1 Hr) as (c' & Hs & Hc). exists c'. split; [by constructor|done].
  - intros [= <- <-]. exists c. split; [constructor|done].
Qed.

End facts.
