(* ===== verification/Nibbles.v ===== *)
(** The nibble keys of the state trie, src/state/trie/encoding.go: a key is the
    list of its half bytes with 16 at its end; in a node it is packed into bytes,
    with a flag for its parity and for the 16. *)


From Stdlib Require Import ZArith Lia.
From stdpp Require Import base list numbers.
From S2P Require Import Prelude.

Open Scope Z_scope.

Definition hasTerminator (hex : list Z) : bool :=
  match list.last hex with Some x => x =? 16 | None => false end.

(** The loop that packs pairs of nibbles; the shift is of a byte. *)
Fixpoint pack (hex : list Z) : list Z :=
  match hex with
  | a :: b :: rest => Z.lor (byte_of (Z.shiftl a 4)) b :: pack rest
  | _ => []
  end.

Definition encodeCompact (hex : list Z) : list Z :=
  let (hex, terminator) :=
    if hasTerminator hex then (take (length hex - 1) hex, 1) else (hex, 0) in
  let oddLen := len hex mod 2 in
  let flag := 2 * terminator + oddLen in
  pack (if oddLen =? 1 then flag :: hex else flag :: 0 :: hex).

Definition bytesToHexNibbles (bytes : list Z) : list Z :=
  flat_map (fun b => [b / 16; b mod 16]) bytes ++ [16].

(** Of an empty string, the slice beyond the terminator panics. *)
Definition decodeCompact (compact : list Z) : outcome (list Z) :=
  let base := bytesToHexNibbles compact in
  let first := default 0 (base !! 0%nat) in
  let base := if first <? 2 then take (length base - 1) base else base in
  if Z.land first 1 =? 1 then Ok (drop 1 base)
  else if len base <? 2 then Panic else Ok (drop 2 base).

Fixpoint prefixLen (k1 k2 : list Z) : nat :=
  match k1, k2 with
  | a :: k1, b :: k2 => if a =? b then S (prefixLen k1 k2) else O
  | _, _ => O
  end.

(** ** Keys *)

Definition nibble (x : Z) : Prop := 0 <= x < 16.

(** Half bytes, with 16 at the end if it is a whole key. *)
Definition partial_key (k : list Z) : Prop := Forall nibble k.
Definition full_key (k : list Z) : Prop := exists p, k = p ++ [16] /\ Forall nibble p.

Lemma full_key_cons x k : full_key (x :: k) <-> (x = 16 /\ k = []) \/ (nibble x /\ full_key k).
Proof.
  split.
  - intros (p & E & Hp). destruct p as [|y p]; injection E as -> ->; [by left|right].
    apply List.Forall_cons_iff in Hp as [Hx Hp]. split; [done|by exists p].
  - intros [[-> ->]|[Hx (p & -> & Hp)]]; [by exists []|]. exists (x :: p). by split; [|constructor].
Qed.

Lemma full_key_length k : full_key k -> (1 <= length k)%nat.
Proof. intros (p & -> & _). rewrite length_app. cbn. lia. Qed.

Lemma full_key_nil : ~ full_key [].
Proof. intros ([|] & E & _); discriminate. Qed.

Lemma full_key_app p k : partial_key p -> full_key (p ++ k) <-> full_key k.
Proof.
  intros Hp. induction Hp as [|x p Hx Hp IH]; [done|]. cbn [app]. rewrite full_key_cons, IH.
  split; [|by right]. intros [[-> _]|[_ ?]]; [unfold nibble in Hx; lia|done].
Qed.

Lemma full_key_front p x k : full_key (p ++ x :: k) -> partial_key p /\ full_key (x :: k).
Proof.
  induction p as [|y p IH]; cbn [app]; intros Hk; [by split; [constructor|]|].
  apply full_key_cons in Hk as [[_ E]|[Hy Hk]]; [by destruct p|].
  destruct (IH Hk) as [Hp Hk']. by split; [constructor|].
Qed.

(** A whole key is not a proper prefix of another. *)
Lemma full_key_prefix k x y : full_key k -> full_key (k ++ x :: y) -> False.
Proof.
  intros (p & -> & Hp) Hk. rewrite <- app_assoc in Hk. rewrite full_key_app in Hk by done. cbn [app] in Hk.
  apply full_key_cons in Hk as [[_ E]|[Hn _]]; [discriminate|unfold nibble in Hn; lia].
Qed.

Lemma nibbles_full b : Forall is_byte b -> full_key (bytesToHexNibbles b).
Proof.
  intros Hb. exists (flat_map (fun b => [b / 16; b mod 16]) b). split; [done|].
  induction Hb as [|x b Hx Hb IH]; [constructor|]. unfold is_byte in Hx.
  cbn. repeat constructor; [..|done]; Z.div_mod_to_equations; lia.
Qed.

Lemma nibbles_length b : length (bytesToHexNibbles b) = (2 * length b + 1)%nat.
Proof.
  unfold bytesToHexNibbles. rewrite length_app. cbn [length].
  induction b as [|x b IH]; cbn in *; lia.
Qed.

Lemma nibbles_inj b b' : Forall is_byte b -> Forall is_byte b' ->
  bytesToHexNibbles b = bytesToHexNibbles b' -> b = b'.
Proof.
  unfold bytesToHexNibbles. intros Hb Hb' E. apply app_inj_tail in E as [E _].
  revert b' Hb' E. induction Hb as [|x b Hx Hb IH]; intros [|y b'] Hb' E; try done.
  apply List.Forall_cons_iff in Hb' as [Hy Hb']. injection E as E1 E2 E3. f_equal; [|by apply IH].
  unfold is_byte in *. Z.div_mod_to_equations; lia.
Qed.

(** ** The packed form *)

Lemma hasTerminator_full k : full_key k -> hasTerminator k = true.
Proof. intros (p & -> & _). unfold hasTerminator. by rewrite last_snoc. Qed.

Lemma hasTerminator_partial k : partial_key k -> hasTerminator k = false.
Proof.
  unfold hasTerminator. intros Hk. destruct (list.last k) as [x|] eqn:E; [|done].
  apply last_Some in E as [k' ->]. apply Forall_app in Hk as [_ Hx].
  apply Forall_inv in Hx. unfold nibble in Hx. by destruct (Z.eqb_spec x 16); [lia|].
Qed.

Lemma pack_pair a b : nibble a -> nibble b -> Z.lor (byte_of (Z.shiftl a 4)) b = 16 * a + b.
Proof.
  unfold nibble, byte_of. intros Ha Hb. rewrite Z.shiftl_mul_pow2 by lia.
  rewrite Z.mod_small by lia. change (2 ^ 4) with 16.
  rewrite <- Z.lxor_lor, <- Z.add_nocarry_lxor; try lia.
  all: change 16 with (2 ^ 4); rewrite <- Z.shiftl_mul_pow2 by lia;
    apply Z.bits_inj'; intros n Hn; rewrite Z.land_spec, Z.bits_0;
    destruct (Z.lt_ge_cases n 4) as [Hlt|Hge];
    [rewrite Z.shiftl_spec_low by lia; done|];
    rewrite <- (Z.mod_small b (2 ^ 4)) by lia; rewrite Z.mod_pow2_bits_high by lia; apply andb_false_r.
Qed.

(** An even list of nibbles is read back from its bytes. *)
Lemma unpack_pack n : forall hex, length hex = (2 * n)%nat -> Forall nibble hex ->
  flat_map (fun b => [b / 16; b mod 16]) (pack hex) = hex /\ Forall is_byte (pack hex) /\
  length (pack hex) = n.
Proof.
  induction n as [|n IH]; intros hex Hl Hh.
  { by destruct hex. }
  destruct hex as [|a [|b hex]]; cbn [length] in Hl; try lia.
  apply List.Forall_cons_iff in Hh as [Ha Hh]. apply List.Forall_cons_iff in Hh as [Hb Hh].
  destruct (IH hex) as (E & Hp & Hn); [lia|done|]. cbn [pack flat_map app length].
  rewrite pack_pair by done. unfold nibble in *. rewrite E. split; [|split; [constructor|lia]].
  - f_equal; [|f_equal]; Z.div_mod_to_equations; lia.
  - unfold is_byte. lia.
  - done.
Qed.

(** The nibbles that are packed, with the flag in front. *)
Definition flagged (terminator : Z) (p : list Z) : list Z :=
  if len p mod 2 =? 1 then (2 * terminator + 1) :: p else 2 * terminator :: 0 :: p.

Lemma flagged_even t p : exists n, length (flagged t p) = (2 * n)%nat /\ (1 <= n)%nat.
Proof.
  unfold flagged, len. pose proof (Nat.div_mod_eq (length p) 2) as Hd.
  destruct (Z.eqb_spec (Z.of_nat (length p) mod 2) 1) as [E|E]; cbn [length].
  - exists (S (length p / 2)). change 2 with (Z.of_nat 2) in E. rewrite <- Nat2Z.inj_mod in E. lia.
  - exists (S (length p / 2)). change 2 with (Z.of_nat 2) in E. rewrite <- Nat2Z.inj_mod in E.
    pose proof (Nat.mod_upper_bound (length p) 2). lia.
Qed.

Lemma flagged_nibbles t p : 0 <= t <= 1 -> Forall nibble p -> Forall nibble (flagged t p).
Proof.
  intros Ht Hp. unfold flagged. case_match; repeat constructor; unfold nibble; lia || done.
Qed.

Lemma encodeCompact_full p : Forall nibble p -> encodeCompact (p ++ [16]) = pack (flagged 1 p).
Proof.
  intros Hp. unfold encodeCompact. rewrite hasTerminator_full by (by exists p).
  rewrite length_app, Nat.add_sub, take_app_length. unfold flagged.
  destruct (Z.eqb_spec (len p mod 2) 1) as [->|E]; [done|].
  assert (len p mod 2 = 0) as -> by (Z.div_mod_to_equations; lia). done.
Qed.

Lemma encodeCompact_partial p : Forall nibble p -> encodeCompact p = pack (flagged 0 p).
Proof.
  intros Hp. unfold encodeCompact. rewrite hasTerminator_partial by done. unfold flagged.
  destruct (Z.eqb_spec (len p mod 2) 1) as [->|E]; [done|].
  assert (len p mod 2 = 0) as -> by (Z.div_mod_to_equations; lia). done.
Qed.

Lemma decode_flagged t p : 0 <= t <= 1 -> Forall nibble p ->
  decodeCompact (pack (flagged t p)) = Ok (if t =? 1 then p ++ [16] else p).
Proof.
  intros Ht Hp. destruct (flagged_even t p) as (n & Hn & Hn1).
  destruct (unpack_pack n _ Hn (flagged_nibbles t p Ht Hp)) as (E & _ & _).
  unfold decodeCompact, bytesToHexNibbles. rewrite E.
  assert (t = 0 \/ t = 1) as [->| ->] by lia; unfold flagged; destruct (len p mod 2 =? 1).
  all: cbn; rewrite ?length_app; cbn; rewrite ?Nat.add_1_r, ?Nat.sub_0_r; cbn; rewrite ?take_app_length.
  all: repeat match goal with
    | |- context [Z.land ?a 1 =? 1] => let b := eval vm_compute in (Z.land a 1 =? 1) in change (Z.land a 1 =? 1) with b
    | |- context [?a <? 2] => let b := eval vm_compute in (a <? 2) in
        match b with true => idtac | false => idtac end; change (a <? 2) with b end.
  all: cbn [drop]; try done; unfold len; cbn [length].
  all: rewrite (proj2 (Z.ltb_ge _ _)) by lia; done.
Qed.

(** The packed form of a key is read back. *)
Lemma decode_encodeCompact k : partial_key k \/ full_key k -> decodeCompact (encodeCompact k) = Ok k.
Proof.
  intros [Hk|(p & -> & Hp)].
  - rewrite encodeCompact_partial by done. by rewrite decode_flagged.
  - rewrite encodeCompact_full by done. by rewrite decode_flagged.
Qed.

Lemma encodeCompact_bytes k : partial_key k \/ full_key k -> Forall is_byte (encodeCompact k).
Proof.
  assert (forall t p, 0 <= t <= 1 -> Forall nibble p -> Forall is_byte (pack (flagged t p))) as Hf.
  { intros t p Ht Hp. destruct (flagged_even t p) as (n & Hn & _).
    by destruct (unpack_pack n _ Hn (flagged_nibbles t p Ht Hp)) as (_ & Hb & _). }
  intros [Hk|(p & -> & Hp)].
  - rewrite encodeCompact_partial by done. by apply Hf.
  - rewrite encodeCompact_full by done. by apply Hf.
Qed.

(** ** Common prefixes *)

Lemma prefixLen_spec k1 : forall k2, exists p r1 r2,
  k1 = p ++ r1 /\ k2 = p ++ r2 /\ prefixLen k1 k2 = length p /\
  (forall x y r1' r2', r1 = x :: r1' -> r2 = y :: r2' -> x <> y).
Proof.
  induction k1 as [|a k1 IH]; intros k2.
  { by exists [], [], k2. }
  destruct k2 as [|b k2]; [by exists [], (a :: k1), []|]. cbn [prefixLen].
  destruct (Z.eqb_spec a b) as [->|Hne].
  - destruct (IH k2) as (p & r1 & r2 & -> & -> & -> & Hd). by exists (b :: p), r1, r2.
  - exists [], (a :: k1), (b :: k2). split; [done|]. split; [done|]. split; [done|].
    by intros ? ? ? ? [= -> ->] [= -> ->].
Qed.

(** Tries as trees of keys and values, without hashes and storage: the map a
    tree stands for, the canonical trees, and that a map has only one of them. *)

Inductive mpt :=
| Leaf (v : list Z)
| Short (k : list Z) (t : mpt)
| Full (ts : list (option mpt)).

(** Whether a slot holds a tree. *)
Definition slot (ts : list (option mpt)) (i : nat) (t : mpt) : Prop := ts !! i = Some (Some t).

Fixpoint mpt_ind' (P : mpt -> Prop) (Hl : forall v, P (Leaf v))
    (Hs : forall k t, P t -> P (Short k t))
    (Hf : forall ts, (forall i t, slot ts i t -> P t) -> P (Full ts)) (t : mpt) : P t :=
  match t with
  | Leaf v => Hl v
  | Short k t => Hs k t (mpt_ind' P Hl Hs Hf t)
  | Full ts =>
    Hf ts ((fix go (l : list (option mpt)) : forall i t, slot l i t -> P t :=
      match l with
      | [] => fun i t E => match (eq_ind (@None (option mpt)) (fun o => match o with None => True | Some _ => False end)
                                    I _ (E : @None (option mpt) = _)) with end
      | o :: l => fun i t =>
        match i with
        | O => fun E => match o as o return Some o = Some (Some t) -> P t with
                        | Some t' => fun E => eq_ind t' P (mpt_ind' P Hl Hs Hf t') t
                                       (f_equal (fun o => match o with Some (Some t) => t | _ => t' end) E)
                        | None => fun E => False_ind _ (eq_ind (Some (@None mpt)) (fun o => match o with Some None => True | _ => False end) I _ E)
                        end E
        | S i => fun E => go l i t E
        end
      end) ts)
  end.

(** The value of a key. *)
Fixpoint tget (t : mpt) (key : list Z) : option (list Z) :=
  match t with
  | Leaf v => match key with [] => Some v | _ => None end
  | Short k t => if bool_decide (take (length k) key = k) then tget t (drop (length k) key) else None
  | Full ts =>
    match key with
    | [] => None
    | x :: key =>
      (fix go (ts : list (option mpt)) (i : nat) : option (list Z) :=
         match ts, i with
         | [], _ => None
         | o :: _, O => match o with Some t => tget t key | None => None end
         | _ :: ts, S i => go ts i
         end) ts (Z.to_nat x)
    end
  end.

Definition tget_slot (ts : list (option mpt)) (i : nat) (key : list Z) : option (list Z) :=
  match ts !! i with Some (Some t) => tget t key | _ => None end.

Lemma tget_full ts x key : tget (Full ts) (x :: key) = tget_slot ts (Z.to_nat x) key.
Proof.
  unfold tget_slot. cbn [tget]. generalize (Z.to_nat x). induction ts as [|o ts IH]; intros i; [done|].
  destruct i as [|i]; [by destruct o|]. apply IH.
Qed.

Lemma tget_short k t key : tget (Short k t) (k ++ key) = tget t key.
Proof. cbn. rewrite take_app_length, drop_app_length. by rewrite bool_decide_true. Qed.

Lemma tget_leaf k v : tget (Short k (Leaf v)) k = Some v.
Proof. pose proof (tget_short k (Leaf v) []) as E. by rewrite app_nil_r in E. Qed.

Lemma tget_short_inv k t key v : tget (Short k t) key = Some v ->
  exists key', key = k ++ key' /\ tget t key' = Some v.
Proof.
  cbn. case_bool_decide as E; [|done]. intros Hv. exists (drop (length k) key). split; [|done].
  by rewrite <- E at 1; rewrite take_drop.
Qed.

Lemma tget_short_ne k t key : (forall key', key <> k ++ key') -> tget (Short k t) key = None.
Proof.
  intros Hne. destruct (tget (Short k t) key) eqn:E; [|done].
  apply tget_short_inv in E as (key' & -> & _). by destruct (Hne key').
Qed.

Lemma tget_slot_insert ts x o key i : (x < length ts)%nat ->
  tget_slot (<[x := o]> ts) i key =
  if decide (i = x) then match o with Some t => tget t key | None => None end else tget_slot ts i key.
Proof.
  intros Hx. unfold tget_slot. case_decide as E.
  - subst. by rewrite list_lookup_insert_eq by done.
  - by rewrite list_lookup_insert_ne by done.
Qed.

(** ** Canonical trees *)

(** Values are bytes, and there is one. *)
Definition value_ok (v : list Z) : Prop := Forall is_byte v /\ v <> [].

(** A leaf has the rest of its key in a short node; an extension leads to a full
    node; a full node has at least two slots in use, and a value in the last. *)
Inductive canon : mpt -> Prop :=
| canon_leaf k v : full_key k -> value_ok v -> canon (Short k (Leaf v))
| canon_ext k ts : k <> [] -> partial_key k -> canon (Full ts) -> canon (Short k (Full ts))
| canon_full ts : length ts = 17%nat ->
    (forall i t, slot ts i t -> (i < 16)%nat -> canon t) ->
    (forall t, slot ts 16 t -> exists v, t = Leaf v /\ value_ok v) ->
    (exists i j t u, i <> j /\ slot ts i t /\ slot ts j u) ->
    canon (Full ts).

Fixpoint canon_ind' (P : mpt -> Prop)
    (Hl : forall k v, full_key k -> value_ok v -> P (Short k (Leaf v)))
    (He : forall k ts, k <> [] -> partial_key k -> canon (Full ts) -> P (Full ts) -> P (Short k (Full ts)))
    (Hf : forall ts, length ts = 17%nat ->
      (forall i t, slot ts i t -> (i < 16)%nat -> canon t /\ P t) ->
      (forall t, slot ts 16 t -> exists v, t = Leaf v /\ value_ok v) ->
      (exists i j t u, i <> j /\ slot ts i t /\ slot ts j u) -> P (Full ts))
    (t : mpt) (H : canon t) : P t :=
  match H with
  | canon_leaf k v Hk Hv => Hl k v Hk Hv
  | canon_ext k ts Hn Hk Hc => He k ts Hn Hk Hc (canon_ind' P Hl He Hf _ Hc)
  | canon_full ts Hlen Hc Hv Hu =>
    Hf ts Hlen (fun i t Hs Hi => conj (Hc i t Hs Hi) (canon_ind' P Hl He Hf t (Hc i t Hs Hi))) Hv Hu
  end.

(** The keys a tree is asked for: the empty one in a value, whole ones in the
    others. *)
Definition fits (t : mpt) (key : list Z) : Prop :=
  match t with Leaf _ => key = [] | _ => full_key key end.

(** What follows a slot of a full node. *)
Lemma full_key_step x key : full_key (x :: key) ->
  (x = 16 /\ Z.to_nat x = 16%nat /\ key = []) \/ ((Z.to_nat x < 16)%nat /\ 0 <= x < 16 /\ full_key key).
Proof. intros [[-> ->]|[Hx Hk]]%full_key_cons; [by left|right]. unfold nibble in Hx. repeat split; lia || done. Qed.

(** Every canonical tree has a key. *)
Lemma canon_inhabited t : canon t -> exists key v, full_key key /\ tget t key = Some v.
Proof.
  induction 1 as [k v Hk Hv|k ts Hn Hk _ (key & v & Hkey & E)|ts Hlen Hc Hv (i & j & t & u & Hij & Ht & Hu)] using canon_ind'.
  - exists k, v. split; [done|]. apply tget_leaf.
  - exists (k ++ key), v. rewrite full_key_app by done. split; [done|]. by rewrite tget_short.
  - destruct (decide (i < 16)%nat) as [Hi|Hi].
    + destruct (Hc i t Ht Hi) as (_ & key & v & Hkey & E). exists (Z.of_nat i :: key), v.
      rewrite tget_full, Nat2Z.id. unfold tget_slot, slot in *. rewrite Ht. split; [|done].
      apply full_key_cons. right. unfold nibble. split; [lia|done].
    + assert (i = 16%nat) as -> by (apply lookup_lt_Some in Ht; lia).
      destruct (Hv t Ht) as (v & -> & _). exists [16], v.
      rewrite tget_full. unfold tget_slot, slot in *. change (Z.to_nat 16) with 16%nat. rewrite Ht.
      split; [by exists []|done].
Qed.

Lemma slot_inhabited ts i t : canon (Full ts) -> slot ts i t ->
  exists key v, full_key (Z.of_nat i :: key) /\ tget t key = Some v.
Proof.
  intros Hcan Ht. inversion Hcan as [| |? Hlen Hc Hv _]; subst.
  destruct (decide (i < 16)%nat) as [Hi|Hi].
  - destruct (canon_inhabited t (Hc i t Ht Hi)) as (key & v & Hk & E). exists key, v. split; [|done].
    apply full_key_cons. right. unfold nibble. split; [lia|done].
  - assert (i = 16%nat) as -> by (apply lookup_lt_Some in Ht; lia).
    destruct (Hv t Ht) as (v & -> & _). exists [], v. split; [by exists []|done].
Qed.

Lemma tget_at ts i t key : slot ts i t -> tget (Full ts) (Z.of_nat i :: key) = tget t key.
Proof. intros Ht. rewrite tget_full, Nat2Z.id. unfold tget_slot. unfold slot in Ht. by rewrite Ht. Qed.

Lemma canon_values t : canon t -> forall key v, tget t key = Some v -> value_ok v.
Proof.
  induction 1 as [k v Hk Hv|k ts Hn Hk _ IH|ts Hlen Hc Hv Hu] using canon_ind'; intros key w E.
  - apply tget_short_inv in E as (key' & -> & E). cbn in E. destruct key'; [by injection E as <-|done].
  - apply tget_short_inv in E as (key' & -> & E). by eapply IH.
  - destruct key as [|x key]; [done|]. rewrite tget_full in E. unfold tget_slot in E.
    destruct (ts !! Z.to_nat x) as [[t|]|] eqn:Et; [|done..].
    destruct (decide (Z.to_nat x < 16)%nat) as [Hi|Hi]; [by eapply Hc|].
    assert (Z.to_nat x = 16%nat) as Ex by (apply lookup_lt_Some in Et; lia). rewrite Ex in Et.
    destruct (Hv t Et) as (v' & -> & Hv'). cbn in E. destruct key; [by injection E as <-|done].
Qed.

(** A full node has keys that differ at once. *)
Lemma full_two_keys ts : canon (Full ts) -> exists x y k1 k2 v1 v2, x <> y /\
  full_key (x :: k1) /\ full_key (y :: k2) /\
  tget (Full ts) (x :: k1) = Some v1 /\ tget (Full ts) (y :: k2) = Some v2.
Proof.
  intros Hcan. pose proof Hcan as Hcan'. inversion Hcan' as [| |? _ _ _ (i & j & t & u & Hij & Ht & Hu)]; subst.
  destruct (slot_inhabited ts i t Hcan Ht) as (k1 & v1 & Hk1 & E1), (slot_inhabited ts j u Hcan Hu) as (k2 & v2 & Hk2 & E2).
  exists (Z.of_nat i), (Z.of_nat j), k1, k2, v1, v2. rewrite (tget_at ts i t), (tget_at ts j u) by done. repeat split; done || lia.
Qed.

(** The key of a short node is a prefix of all keys. *)
Lemma short_prefixes k t ts :
  (forall key, full_key key -> tget (Short k t) key = tget (Full ts) key) -> k <> [] -> canon (Full ts) -> False.
Proof.
  intros E Hk Hc. destruct (full_two_keys ts Hc) as (x & y & k1 & k2 & v1 & v2 & Hxy & Hf1 & Hf2 & E1 & E2).
  rewrite <- E in E1, E2 by done. apply tget_short_inv in E1 as (r1 & F1 & _), E2 as (r2 & F2 & _).
  destruct k as [|z k]; [done|]. by injection F1 as -> _; injection F2 as -> _.
Qed.

Lemma canon_key_nonempty k t : canon (Short k t) -> k <> [].
Proof.
  intros Hc. inversion Hc as [? ? Hk| |]; subst; [|done]. intros ->. by apply full_key_nil in Hk.
Qed.

Definition same_map (t1 t2 : mpt) : Prop := forall key, full_key key -> tget t1 key = tget t2 key.

(** Of two short nodes with the same map, neither key is a proper prefix of the
    other's. *)
Lemma short_same_key k1 r t1 t2 : canon (Short k1 t1) -> canon (Short (k1 ++ r) t2) ->
  same_map (Short k1 t1) (Short (k1 ++ r) t2) -> r = [].
Proof.
  intros H1 H2 E. destruct r as [|x r]; [done|exfalso].
  inversion H1 as [? ? Hk1 _|? ts Hn Hk1 Hts|]; subst.
  - destruct (canon_inhabited _ H2) as (key & w & Hkey & F).
    apply tget_short_inv in F as (rest & -> & _). rewrite <- app_assoc in Hkey.
    by apply (full_key_prefix k1 x (r ++ rest)).
  - destruct (full_two_keys ts Hts) as (y & z & k & k' & v & v' & Hyz & Hf & Hf' & F & F').
    rewrite <- (tget_short k1) in F, F'. rewrite E in F, F' by (by rewrite full_key_app).
    apply tget_short_inv in F as (r1 & F1 & _), F' as (r2 & F2 & _).
    rewrite <- app_assoc in F1, F2. apply app_inv_head in F1, F2. by injection F1; injection F2; congruence.
Qed.

Lemma prefixes_comparable {A} (k1 k2 r1 r2 : list A) : k1 ++ r1 = k2 ++ r2 ->
  (exists r, k2 = k1 ++ r) \/ (exists r, k1 = k2 ++ r).
Proof.
  revert k2. induction k1 as [|x k1 IH]; intros k2 E; [left; by exists k2|].
  destruct k2 as [|y k2]; [right; by exists (x :: k1)|].
  injection E as -> E. destruct (IH k2 E) as [[r ->]|[r ->]]; [left|right]; by exists r.
Qed.

Lemma same_map_short k t1 t2 : (forall key, full_key key -> full_key (k ++ key)) ->
  same_map (Short k t1) (Short k t2) -> same_map t1 t2.
Proof.
  intros Hk E key Hkey. rewrite <- (tget_short k t1), <- (tget_short k t2). by apply E, Hk.
Qed.

Lemma leaf_one_key k v ts k2 : same_map (Short k (Leaf v)) (Short k2 (Full ts)) ->
  partial_key k2 -> canon (Full ts) -> False.
Proof.
  intros E Hk Hc. destruct (full_two_keys ts Hc) as (y & z & r & r' & w & w' & Hyz & Hf & Hf' & F & F').
  rewrite <- (tget_short k2) in F, F'. rewrite <- E in F, F' by (by rewrite full_key_app).
  apply tget_short_inv in F as (r1 & F1 & G1), F' as (r2 & F2 & G2).
  destruct r1; [|done]. destruct r2; [|done]. rewrite <- F2 in F1. apply app_inv_head in F1. congruence.
Qed.

(** The slots of full nodes with the same map are used alike. *)
Lemma same_slots ts ts2 i t : canon (Full ts) -> canon (Full ts2) -> same_map (Full ts) (Full ts2) ->
  slot ts i t -> exists t2, slot ts2 i t2 /\
    (forall key, full_key (Z.of_nat i :: key) -> tget t key = tget t2 key).
Proof.
  intros H1 H2 E Ht. destruct (slot_inhabited ts i t H1 Ht) as (key & v & Hk & F).
  rewrite <- (tget_at ts i t) in F by done. rewrite E, tget_full, Nat2Z.id in F by done. unfold tget_slot in F.
  destruct (ts2 !! i) as [[t2|]|] eqn:E2; try done. exists t2. split; [done|].
  intros key' Hk'. by rewrite <- (tget_at ts i t), <- (tget_at ts2 i t2), E by done.
Qed.

Lemma canon_slots ts : canon (Full ts) -> length ts = 17%nat /\
  (forall i t, slot ts i t -> (i < 16)%nat -> canon t) /\
  (forall t, slot ts 16 t -> exists v, t = Leaf v /\ value_ok v).
Proof. intros Hc. inversion Hc; subst. done. Qed.

(** A map has one canonical tree. *)
Lemma canon_unique t1 : canon t1 -> forall t2, canon t2 -> same_map t1 t2 -> t1 = t2.
Proof.
  induction 1 as [k v Hk Hv|k ts Hn Hk Hts IH|ts Hlen Hc Hv Hu] using canon_ind'; intros t2 H2 E;
    inversion H2 as [k2 v2 Hk2 Hv2|k2 ts2 Hn2 Hk2 Hts2|ts2 Hlen2 Hc2 Hv2 Hu2]; subst.
  - pose proof (tget_leaf k v) as F.
    rewrite E in F by done. apply tget_short_inv in F as (r & -> & F).
    destruct r; [|done]. injection F as ->. by rewrite app_nil_r.
  - exfalso. by eapply leaf_one_key.
  - exfalso. by eapply short_prefixes; [|apply (canon_key_nonempty k (Leaf v)); by constructor|].
  - exfalso. apply (leaf_one_key k2 v2 ts k); [|done|done]. intros key Hkey. symmetry. by apply E.
  - assert (canon (Short k (Full ts))) as H1 by (by constructor).
    destruct (canon_inhabited _ H1) as (key & w & Hkey & F). pose proof F as F2. rewrite E in F2 by done.
    apply tget_short_inv in F as (r1 & -> & _), F2 as (r2 & F2 & _).
    assert (k = k2) as ->.
    { destruct (prefixes_comparable _ _ _ _ F2) as [[r ->]|[r ->]].
      - rewrite (short_same_key k r _ _ H1 H2 E). by rewrite app_nil_r.
      - rewrite (short_same_key k2 r _ _ H2 H1); [by rewrite app_nil_r|].
        intros key ?. symmetry. by apply E. }
    f_equal. apply IH; [done|]. apply (same_map_short k2); [|done]. intros. by rewrite full_key_app.
  - exfalso. by eapply short_prefixes.
  - exfalso. eapply (short_prefixes k2 (Leaf v2) ts);
      [|by eapply canon_key_nonempty|by constructor; [done|intros; by eapply Hc|..]].
    intros key Hkey. symmetry. by apply E.
  - exfalso. eapply (short_prefixes k2 (Full ts2) ts);
      [|done|by constructor; [done|intros; by eapply Hc|..]].
    intros key Hkey. symmetry. by apply E.
  - assert (canon (Full ts)) as H1 by (constructor; [done|intros; by eapply Hc|done..]).
    assert (forall i t, slot ts i t -> slot ts2 i t) as Hsub.
    { intros i t Ht. destruct (same_slots ts ts2 i t H1 H2 E Ht) as (t2 & Ht2 & Et).
      enough (t = t2) as -> by done. destruct (decide (i < 16)%nat) as [Hi|Hi].
      - apply (Hc i t Ht Hi); [by eapply Hc2|]. intros key Hkey. apply Et, full_key_cons. right.
        unfold nibble. split; [lia|done].
      - assert (i = 16%nat) as -> by (apply lookup_lt_Some in Ht; lia).
        destruct (Hv t Ht) as (v & -> & _), (Hv2 t2 Ht2) as (v' & -> & _).
        assert (Some v = Some v') as [= ->]; [|done]. apply (Et []). by exists []. }
    f_equal. apply list_eq. intros i. destruct (decide (i < 17)%nat) as [Hi|Hi].
    2:{ rewrite !lookup_ge_None_2 by lia. done. }
    destruct (lookup_lt_is_Some_2 ts i) as [[t|] Ht]; [lia|by rewrite (Hsub i t Ht)|].
    destruct (lookup_lt_is_Some_2 ts2 i) as [[t2|] Ht2]; [lia| |by rewrite Ht, Ht2].
    destruct (same_slots ts2 ts i t2 H2 H1) as (t & Ht' & _); [|done|unfold slot in Ht'; congruence].
    intros key Hkey. symmetry. by apply E.
Qed.

(** ** Keys of one length *)

Inductive uniform : nat -> mpt -> Prop :=
| uniform_leaf v : uniform 0 (Leaf v)
| uniform_short k t d : uniform d t -> uniform (length k + d) (Short k t)
| uniform_full ts d : (forall i t, slot ts i t -> uniform d t) -> uniform (S d) (Full ts).

(** The length of the keys is the depth of the tree. *)
Lemma canon_uniform t : canon t -> forall d,
  (forall key v, full_key key -> tget t key = Some v -> length key = d) -> uniform d t.
Proof.
  induction 1 as [k v Hk Hv|k ts Hn Hk Hts IH|ts Hlen Hc Hv Hu] using canon_ind'; intros d Hd.
  - assert (length k = d) as <- by (apply (Hd k v Hk), tget_leaf).
    replace (length k) with (length k + 0)%nat by lia. by repeat constructor.
  - destruct (canon_inhabited _ Hts) as (key & v & Hkey & E).
    assert (length (k ++ key) = d) as Hl by (eapply (Hd _ v); [by rewrite full_key_app|by rewrite tget_short]).
    rewrite length_app in Hl. replace d with (length k + (d - length k))%nat by lia. constructor.
    apply IH. intros key' v' Hk' E'. rewrite <- (tget_short k) in E'. apply Hd in E'; [|by rewrite full_key_app].
    rewrite length_app in E'. lia.
  - assert (canon (Full ts)) as H1 by (constructor; [done|intros; by eapply Hc|done..]).
    assert (forall i t key v, slot ts i t -> full_key (Z.of_nat i :: key) -> tget t key = Some v -> S (length key) = d) as Hs.
    { intros i t key v Ht Hk E. rewrite <- (tget_at ts i t) in E by done. by apply Hd in E. }
    destruct Hu as (i & _ & t & _ & _ & Ht & _).
    destruct (slot_inhabited ts i t H1 Ht) as (key & v & Hk & E). pose proof (Hs i t key v Ht Hk E).
    destruct d as [|d]; [lia|]. constructor. intros j u Hu. destruct (decide (j < 16)%nat) as [Hj|Hj].
    + apply (Hc j u Hu Hj). intros key' v' Hk' E'.
      assert (S (length key') = S d); [|lia]. eapply (Hs j u); [done| |done].
      apply full_key_cons. right. unfold nibble. split; [lia|done].
    + assert (j = 16%nat) as -> by (apply lookup_lt_Some in Hu; lia). destruct (Hv u Hu) as (w & -> & _).
      assert (1%nat = S d) as [= <-]; [|constructor]. apply (Hs 16%nat (Leaf w) [] w); [done|by exists []|done].
Qed.

(** ** Updates *)

(** [t'] has the map of [t] with [key] set to [o]. *)
Definition updates (t t' : mpt) (key : list Z) (o : option (list Z)) : Prop :=
  forall key', full_key key' -> tget t' key' = if decide (key' = key) then o else tget t key'.

(** What a slot of a full node may hold. *)
Definition slot_ok (i : nat) (t : mpt) : Prop :=
  ((i < 16)%nat /\ canon t) \/ (i = 16%nat /\ exists v, t = Leaf v /\ value_ok v).

Definition slots_ok (ts : list (option mpt)) : Prop :=
  length ts = 17%nat /\ forall i t, slot ts i t -> slot_ok i t.

Lemma canon_full_iff ts : canon (Full ts) <->
  slots_ok ts /\ exists i j t u, i <> j /\ slot ts i t /\ slot ts j u.
Proof.
  split.
  - intros Hc. inversion Hc as [| |? Hl Hcan Hv Hu]; subst. split; [|done]. split; [done|].
    intros i t Ht. destruct (decide (i < 16)%nat) as [Hi|Hi]; [left; by eauto|right].
    assert (i = 16%nat) as -> by (apply lookup_lt_Some in Ht; lia). by auto.
  - intros [[Hl Hs] Hu]. constructor; [done| | |done].
    + intros i t Ht Hi. destruct (Hs i t Ht) as [[_ ?]|[-> _]]; [done|lia].
    + intros t Ht. destruct (Hs _ t Ht) as [[? _]|[_ ?]]; [lia|done].
Qed.

Lemma slots_ok_insert ts i o : slots_ok ts -> (forall t, o = Some t -> slot_ok i t) ->
  slots_ok (<[i := o]> ts).
Proof.
  intros [Hl Hs] Ho. split; [by rewrite length_insert|]. intros j t Ht. unfold slot in Ht.
  destruct (decide (i = j)) as [->|Hne].
  - destruct (decide (j < length ts)%nat) as [Hj|Hj].
    + rewrite list_lookup_insert_eq in Ht by done. injection Ht as Ht. by apply Ho.
    + rewrite list_insert_ge in Ht by lia. by apply Hs.
  - rewrite list_lookup_insert_ne in Ht by done. by apply Hs.
Qed.

Lemma slots_ok_none : slots_ok (replicate 17 None).
Proof. split; [done|]. intros i t Ht. unfold slot in Ht. apply lookup_replicate in Ht as [Ht _]. discriminate. Qed.

Lemma tget_nil t : (forall v, t <> Leaf v) -> (forall k t', t = Short k t' -> k <> []) -> tget t [] = None.
Proof.
  destruct t as [v|k t|ts]; intros Hl Hk; [by destruct (Hl v)| |done].
  apply tget_short_ne. intros key' E. destruct k as [|x k]; [by eapply Hk|discriminate].
Qed.

(** Setting a slot of a full node. *)
Lemma updates_slot ts x key o' v : slots_ok ts -> full_key (x :: key) ->
  (forall key', full_key (x :: key') ->
    match o' with Some t' => tget t' key' | None => None end =
    if decide (key' = key) then v else tget_slot ts (Z.to_nat x) key') ->
  updates (Full ts) (Full (<[Z.to_nat x := o']> ts)) (x :: key) v.
Proof.
  intros [Hl _] Hk Ho [|x' key'] Hk'; [by apply full_key_nil in Hk'|].
  assert (forall x key, full_key (x :: key) -> 0 <= x /\ (Z.to_nat x < 17)%nat) as Hr.
  { intros z k Hz. apply full_key_step in Hz as [(-> & -> & _)|(? & ? & _)]; lia. }
  destruct (Hr x key Hk), (Hr x' key' Hk'). rewrite !tget_full, tget_slot_insert by lia.
  destruct (decide (Z.to_nat x' = Z.to_nat x)) as [E|E].
  - assert (x' = x) as -> by lia. rewrite Ho by done.
    destruct (decide (key' = key)) as [->|Hne]; [by rewrite decide_True|by rewrite decide_False by congruence].
  - by rewrite decide_False by congruence.
Qed.

(** The same below the key of a short node. *)
Lemma updates_short k t t' key v : (forall key', full_key (k ++ key') -> full_key key') ->
  updates t t' key v -> updates (Short k t) (Short k t') (k ++ key) v.
Proof.
  intros Hk Hu key' Hk'. cbn. case_bool_decide as E.
  - assert (key' = k ++ drop (length k) key') as Ek by (rewrite <- (take_drop (length k) key') at 1; by rewrite E).
    rewrite Ek in Hk'. rewrite Hu by auto.
    destruct (decide (drop (length k) key' = key)) as [<-|Hne]; [by rewrite decide_True|].
    rewrite decide_False; [done|]. intros ->. by rewrite drop_app_length in Hne.
  - rewrite decide_False; [done|]. intros ->. by rewrite take_app_length in E.
Qed.

Lemma tget_short_app p q t key : tget (Short (p ++ q) t) key = tget (Short p (Short q t)) key.
Proof.
  cbn. destruct (decide (take (length p) key = p)) as [E|E].
  - rewrite (bool_decide_true (take (length p) key = p)) by done.
    assert (key = p ++ drop (length p) key) as Ek by (rewrite <- (take_drop (length p) key) at 1; by rewrite E).
    set (key' := drop (length p) key) in *. rewrite Ek, length_app. rewrite take_app_add, drop_app_add.
    destruct (decide (take (length q) key' = q)) as [E'|E'].
    + rewrite !bool_decide_true by (by rewrite ?E'). done.
    + rewrite !bool_decide_false; [done|done|]. intros E2. by apply app_inv_head in E2.
  - rewrite (bool_decide_false (take (length p) key = p)) by done.
    rewrite bool_decide_false; [done|]. intros E2. apply E. apply (f_equal (take (length p))) in E2.
    rewrite take_take, take_app_length, length_app in E2. by rewrite Nat.min_l in E2 by lia.
Qed.

Lemma uniform_length t : forall d key v, uniform d t -> tget t key = Some v -> length key = d.
Proof.
  induction t as [w|k t IH|ts IH] using mpt_ind'; intros d key v Hu E; inversion Hu; subst.
  - by destruct key.
  - apply tget_short_inv in E as (key' & -> & E). rewrite length_app. f_equal. by eapply IH.
  - destruct key as [|x key]; [done|]. rewrite tget_full in E. unfold tget_slot in E.
    destruct (ts !! Z.to_nat x) as [[t|]|] eqn:Et; try done. cbn. f_equal. by eapply IH; [|eauto|].
Qed.

(** An empty trie is no tree. *)
Definition oget (ot : option mpt) (key : list Z) : option (list Z) :=
  match ot with Some t => tget t key | None => None end.

(** [ot] has the map of [t] without [key]. *)
Definition removes (t : mpt) (ot : option mpt) (key : list Z) : Prop :=
  forall key', full_key key' -> oget ot key' = if decide (key' = key) then None else tget t key'.

Lemma removes_short k t ot key : (forall key', full_key (k ++ key') -> full_key key') ->
  removes t ot key -> removes (Short k t) (Short k <$> ot) (k ++ key).
Proof.
  intros Hk Hr key' Hk'. destruct ot as [t'|]; cbn [fmap option_fmap option_map oget].
  - by apply (updates_short k t t' key None).
  - case_decide as E; [done|]. symmetry. destruct (tget (Short k t) key') eqn:Et; [|done].
    apply tget_short_inv in Et as (r & -> & Et). specialize (Hr r (Hk r Hk')). cbn in Hr.
    rewrite decide_False in Hr by congruence. congruence.
Qed.

(** A full node with one slot in use has the map of a short node. *)
Lemma one_slot ts i t : slots_ok ts -> slot ts i t -> (forall j u, slot ts j u -> j = i) ->
  same_map (Full ts) (Short [Z.of_nat i] t).
Proof.
  intros [Hl _] Ht Hone [|x key] Hk; [by apply full_key_nil in Hk|].
  rewrite tget_full. unfold tget_slot. destruct (decide (Z.to_nat x = i)) as [<-|Hne].
  - assert (Z.of_nat (Z.to_nat x) = x) as ->.
    { apply full_key_step in Hk as [(-> & _)|(_ & ? & _)]; lia. }
    unfold slot in Ht. rewrite Ht. symmetry. apply (tget_short [x]).
  - rewrite tget_short_ne by (intros r [= -> _]; by rewrite Nat2Z.id in Hne).
    destruct (ts !! Z.to_nat x) as [[u|]|] eqn:Eu; try done. by apply Hone in Eu.
Qed.

(** ** Subtrees *)

Inductive subtree (u : mpt) : mpt -> Prop :=
| sub_refl : subtree u u
| sub_short k t : subtree u t -> subtree u (Short k t)
| sub_full ts i t : slot ts i t -> subtree u t -> subtree u (Full ts).
