(* ===== verification/Blake2.v ===== *)
(** The BLAKE2b compression function of src/tievm/evm/precompiled/blake2f.go, and
    its equality with the definition of RFC 7693. *)

From Stdlib Require Import ZArith Lia.
From stdpp Require Import base list numbers.
From S2P Require Import Prelude.

Open Scope Z_scope.

(** ** The code *)

Module Blake2.

Definition add64 (x y : Z) : Z := uint64 (x + y).

(** [bits.RotateLeft64]; a negative [k] rotates right. *)
Definition RotateLeft64 (x k : Z) : Z :=
  let s := k mod 64 in
  Z.lor (uint64 (Z.shiftl x s)) (Z.shiftr x (64 - s)).

Definition IV : list Z :=
  [ 0x6a09e667f3bcc908; 0xbb67ae8584caa73b; 0x3c6ef372fe94f82b; 0xa54ff53a5f1d36f1;
    0x510e527fade682d1; 0x9b05688c2b3e6c1f; 0x1f83d9abfb41bd6b; 0x5be0cd19137e2179 ].

Definition precomputed : list (list nat) :=
  [ [0; 2; 4; 6; 1; 3; 5; 7; 8; 10; 12; 14; 9; 11; 13; 15];
    [14; 4; 9; 13; 10; 8; 15; 6; 1; 0; 11; 5; 12; 2; 7; 3];
    [11; 12; 5; 15; 8; 0; 2; 13; 10; 3; 7; 9; 14; 6; 1; 4];
    [7; 3; 13; 11; 9; 1; 12; 14; 2; 5; 4; 15; 6; 10; 0; 8];
    [9; 5; 2; 10; 0; 7; 4; 15; 14; 11; 6; 3; 1; 12; 8; 13];
    [2; 6; 0; 8; 12; 10; 11; 3; 4; 7; 15; 1; 13; 5; 14; 9];
    [12; 1; 14; 4; 5; 15; 13; 10; 0; 6; 9; 8; 7; 3; 2; 11];
    [13; 7; 12; 3; 11; 14; 1; 9; 5; 15; 8; 2; 0; 4; 6; 10];
    [6; 14; 11; 0; 15; 9; 3; 8; 12; 13; 1; 10; 2; 7; 4; 5];
    [10; 8; 7; 1; 2; 4; 6; 5; 15; 9; 3; 13; 11; 14; 12; 0] ]%nat.

(** The seven statements that are repeated for each group of four variables. *)
Definition mix (r1 r2 a b c d x : Z) : Z * Z * Z * Z :=
  let a := add64 a x in
  let a := add64 a b in
  let d := Z.lxor d a in
  let d := RotateLeft64 d (- r1) in
  let c := add64 c d in
  let b := Z.lxor b c in
  let b := RotateLeft64 b (- r2) in
  (a, b, c, d).

(** The body of the loop; [m] and [s] have 16 elements. *)
Definition F_round (m : list Z) (s : list nat) (v : list Z) : list Z :=
  let ms i := default 0 (m !! default 0%nat (s !! i)) in
  match v with
  | [v0; v1; v2; v3; v4; v5; v6; v7; v8; v9; v10; v11; v12; v13; v14; v15] =>
    let '(v0, v4, v8, v12) := mix 32 24 v0 v4 v8 v12 (ms 0%nat) in
    let '(v1, v5, v9, v13) := mix 32 24 v1 v5 v9 v13 (ms 1%nat) in
    let '(v2, v6, v10, v14) := mix 32 24 v2 v6 v10 v14 (ms 2%nat) in
    let '(v3, v7, v11, v15) := mix 32 24 v3 v7 v11 v15 (ms 3%nat) in
    let '(v0, v4, v8, v12) := mix 16 63 v0 v4 v8 v12 (ms 4%nat) in
    let '(v1, v5, v9, v13) := mix 16 63 v1 v5 v9 v13 (ms 5%nat) in
    let '(v2, v6, v10, v14) := mix 16 63 v2 v6 v10 v14 (ms 6%nat) in
    let '(v3, v7, v11, v15) := mix 16 63 v3 v7 v11 v15 (ms 7%nat) in
    let '(v0, v5, v10, v15) := mix 32 24 v0 v5 v10 v15 (ms 8%nat) in
    let '(v1, v6, v11, v12) := mix 32 24 v1 v6 v11 v12 (ms 9%nat) in
    let '(v2, v7, v8, v13) := mix 32 24 v2 v7 v8 v13 (ms 10%nat) in
    let '(v3, v4, v9, v14) := mix 32 24 v3 v4 v9 v14 (ms 11%nat) in
    let '(v0, v5, v10, v15) := mix 16 63 v0 v5 v10 v15 (ms 12%nat) in
    let '(v1, v6, v11, v12) := mix 16 63 v1 v6 v11 v12 (ms 13%nat) in
    let '(v2, v7, v8, v13) := mix 16 63 v2 v7 v8 v13 (ms 14%nat) in
    let '(v3, v4, v9, v14) := mix 16 63 v3 v4 v9 v14 (ms 15%nat) in
    [v0; v1; v2; v3; v4; v5; v6; v7; v8; v9; v10; v11; v12; v13; v14; v15]
  | _ => v
  end.

(** The loop over [j], with [n] rounds to go. *)
Fixpoint F_loop (n : nat) (j : Z) (m v : list Z) : list Z :=
  match n with
  | O => v
  | S n' =>
    let s := default [] (precomputed !! Z.to_nat (j mod 10)) in
    F_loop n' (j + 1) m (F_round m s v)
  end.

(** [h] has 8 elements and [c] two. *)
Definition F (h m : list Z) (c0 c1 : Z) (f : bool) (rounds : Z) : list Z :=
  let iv i := default 0 (IV !! i) in
  let v14 := if f then Z.lxor (iv 6%nat) 0xffffffffffffffff else iv 6%nat in
  let v := h ++ [iv 0%nat; iv 1%nat; iv 2%nat; iv 3%nat; Z.lxor (iv 4%nat) c0; Z.lxor (iv 5%nat) c1; v14; iv 7%nat] in
  let v := F_loop (Z.to_nat rounds) 0 m v in
  zip_with Z.lxor h (zip_with Z.lxor (take 8 v) (drop 8 v)).

End Blake2.

(** ** RFC 7693 *)

Module RFC7693.

(** Section 2.7: the message word schedule. *)
Definition SIGMA : list (list nat) :=
  [ [0; 1; 2; 3; 4; 5; 6; 7; 8; 9; 10; 11; 12; 13; 14; 15];
    [14; 10; 4; 8; 9; 15; 13; 6; 1; 12; 0; 2; 11; 7; 5; 3];
    [11; 8; 12; 0; 5; 2; 15; 13; 10; 14; 3; 6; 7; 1; 9; 4];
    [7; 9; 3; 1; 13; 12; 11; 14; 2; 6; 5; 10; 4; 0; 15; 8];
    [9; 0; 5; 7; 2; 4; 10; 15; 14; 1; 11; 12; 6; 8; 3; 13];
    [2; 12; 6; 10; 0; 11; 8; 3; 4; 13; 7; 5; 15; 14; 1; 9];
    [12; 5; 1; 15; 14; 13; 4; 10; 0; 7; 6; 3; 9; 2; 8; 11];
    [13; 11; 7; 14; 12; 1; 3; 9; 5; 0; 15; 4; 8; 6; 2; 10];
    [6; 15; 14; 9; 11; 3; 0; 8; 12; 2; 13; 7; 1; 4; 10; 5];
    [10; 2; 8; 4; 7; 6; 1; 5; 15; 11; 9; 14; 3; 12; 13; 0] ]%nat.

(** Section 2.3: rotation to the right. *)
Definition rotr (x n : Z) : Z := Z.lor (Z.shiftr x n) (Z.shiftl x (64 - n) mod 2 ^ 64).

Definition word (v : list Z) (i : nat) : Z := default 0 (v !! i).

(** Section 3.1: the mixing function G. *)
Definition G (v : list Z) (a b c d : nat) (x y : Z) : list Z :=
  let v := <[a := (word v a + word v b + x) mod 2 ^ 64]> v in
  let v := <[d := rotr (Z.lxor (word v d) (word v a)) 32]> v in
  let v := <[c := (word v c + word v d) mod 2 ^ 64]> v in
  let v := <[b := rotr (Z.lxor (word v b) (word v c)) 24]> v in
  let v := <[a := (word v a + word v b + y) mod 2 ^ 64]> v in
  let v := <[d := rotr (Z.lxor (word v d) (word v a)) 16]> v in
  let v := <[c := (word v c + word v d) mod 2 ^ 64]> v in
  <[b := rotr (Z.lxor (word v b) (word v c)) 63]> v.

(** Section 3.2: the compression function F, with a number of rounds. *)
Definition round (m : list Z) (s : list nat) (v : list Z) : list Z :=
  let w i := word m (default 0%nat (s !! i)) in
  let v := G v 0 4 8 12 (w 0%nat) (w 1%nat) in
  let v := G v 1 5 9 13 (w 2%nat) (w 3%nat) in
  let v := G v 2 6 10 14 (w 4%nat) (w 5%nat) in
  let v := G v 3 7 11 15 (w 6%nat) (w 7%nat) in
  let v := G v 0 5 10 15 (w 8%nat) (w 9%nat) in
  let v := G v 1 6 11 12 (w 10%nat) (w 11%nat) in
  let v := G v 2 7 8 13 (w 12%nat) (w 13%nat) in
  G v 3 4 9 14 (w 14%nat) (w 15%nat).

Definition F (h m : list Z) (t : Z) (f : bool) (rounds : nat) : list Z :=
  let v := h ++ Blake2.IV in
  let v := <[12%nat := Z.lxor (word v 12) (t mod 2 ^ 64)]> v in
  let v := <[13%nat := Z.lxor (word v 13) (t / 2 ^ 64)]> v in
  let v := if f then <[14%nat := Z.lxor (word v 14) 0xffffffffffffffff]> v else v in
  let v := foldl (fun v i => round m (default [] (SIGMA !! (i mod 10)%nat)) v) v (seq 0 rounds) in
  imap (fun i x => Z.lxor (Z.lxor x (word v i)) (word v (i + 8))) h.

End RFC7693.

(** ** Equality *)

Import Blake2.

Lemma rotate_right x r : 0 < r < 64 -> RotateLeft64 x (- r) = RFC7693.rotr x r.
Proof.
  intros Hr. unfold RotateLeft64, RFC7693.rotr, uint64.
  replace (- r mod 64) with (64 - r) by (rewrite <- (Z_mod_plus_full (- r) 1 64); rewrite Z.mod_small; lia).
  replace (64 - (64 - r)) with r by lia. apply Z.lor_comm.
Qed.

(** The first half of [G] on four words. *)
Definition mix_spec (r1 r2 a b c d x : Z) : Z * Z * Z * Z :=
  let a := (a + b + x) mod 2 ^ 64 in
  let d := RFC7693.rotr (Z.lxor d a) r1 in
  let c := (c + d) mod 2 ^ 64 in
  let b := RFC7693.rotr (Z.lxor b c) r2 in
  (a, b, c, d).

Lemma mix_is_spec r1 r2 a b c d x : 0 < r1 < 64 -> 0 < r2 < 64 ->
  mix r1 r2 a b c d x = mix_spec r1 r2 a b c d x.
Proof.
  intros H1 H2. unfold mix, mix_spec.
  replace (add64 (add64 a x) b) with ((a + b + x) mod 2 ^ 64).
  - by rewrite !rotate_right by done.
  - unfold add64, uint64. rewrite Zplus_mod_idemp_l. f_equal. lia.
Qed.

(** The entries of [precomputed] are those of SIGMA, in the order in which the
    loop uses them. *)
Definition schedule_order : list nat := [0; 2; 4; 6; 1; 3; 5; 7; 8; 10; 12; 14; 9; 11; 13; 15]%nat.

Lemma precomputed_sigma k : (k < 10)%nat ->
  precomputed !! k =
  (fun s : list nat => (fun i => default 0%nat (s !! i)) <$> schedule_order) <$> RFC7693.SIGMA !! k.
Proof. intros Hk. do 10 (destruct k as [|k]; [reflexivity|]). lia. Qed.

Lemma word_insert v i x : (i < length v)%nat -> RFC7693.word (<[i:=x]> v) i = x.
Proof. intros Hi. unfold RFC7693.word. by rewrite list_lookup_insert_eq. Qed.

Lemma word_insert_ne v i j x : i <> j -> RFC7693.word (<[i:=x]> v) j = RFC7693.word v j.
Proof. intros Hi. unfold RFC7693.word. by rewrite list_lookup_insert_ne. Qed.

(** [G] is two half steps on four words. *)
Lemma G_words v a b c d x y :
  (a < length v)%nat -> (b < length v)%nat -> (c < length v)%nat -> (d < length v)%nat ->
  a <> b -> a <> c -> a <> d -> b <> c -> b <> d -> c <> d ->
  RFC7693.G v a b c d x y =
  (let '(wa, wb, wc, wd) :=
     mix_spec 32 24 (RFC7693.word v a) (RFC7693.word v b) (RFC7693.word v c) (RFC7693.word v d) x in
   let '(wa, wb, wc, wd) := mix_spec 16 63 wa wb wc wd y in
   <[b:=wb]> (<[c:=wc]> (<[d:=wd]> (<[a:=wa]> v)))).
Proof.
  intros Ha Hb Hc Hd ? ? ? ? ? ?. unfold RFC7693.G, mix_spec.
  repeat first
    [ rewrite word_insert by (rewrite ?length_insert; done)
    | rewrite word_insert_ne by done ].
  apply list_eq. intros i.
  destruct (decide (i = a)) as [->|]; [|destruct (decide (i = b)) as [->|];
    [|destruct (decide (i = c)) as [->|]; [|destruct (decide (i = d)) as [->|]]]];
  repeat first
    [ rewrite list_lookup_insert_eq by (rewrite ?length_insert; done)
    | rewrite list_lookup_insert_ne by done ]; done.
Qed.

(** Runs a [G] of the specification on named words. *)
Ltac spec_step :=
  match goal with |- context [RFC7693.G (?z :: ?l) ?a ?b ?c ?d ?x ?y] =>
    rewrite (G_words (z :: l) a b c d x y) by (cbn [length]; lia)
  end;
  unfold RFC7693.word at 1 2 3 4; cbn [lookup list_lookup from_option id];
  match goal with |- context [mix_spec 32 24 ?a ?b ?c ?d ?x] =>
    let wa := fresh "w" in let wb := fresh "w" in let wc := fresh "w" in let wd := fresh "w" in
    let E := fresh "E" in
    destruct (mix_spec 32 24 a b c d x) as [[[wa wb] wc] wd] eqn:E;
    match goal with |- context [mix_spec 16 63 wa wb wc wd ?y] =>
      let ua := fresh "w" in let ub := fresh "w" in let uc := fresh "w" in let ud := fresh "w" in
      let E' := fresh "E" in
      destruct (mix_spec 16 63 wa wb wc wd y) as [[[ua ub] uc] ud] eqn:E';
      cbn [insert list_insert]
    end
  end.

(** Runs a group of statements of the code, whose result is known. *)
Ltac code_step :=
  rewrite mix_is_spec by lia;
  match goal with E : mix_spec ?r1 ?r2 ?a ?b ?c ?d ?x = _ |- context [mix_spec ?r1 ?r2 ?a ?b ?c ?d ?x] =>
    rewrite E; cbv beta iota
  end.

(** One round: the code interleaves the half steps of independent [G]s. *)
Lemma round_is_spec m s v : length v = 16%nat ->
  F_round m ((fun i => default 0%nat (s !! i)) <$> schedule_order) v = RFC7693.round m s v.
Proof.
  intros Hv. do 16 (destruct v as [|? v]; [done|]). destruct v; [|done].
  unfold F_round, RFC7693.round. cbv zeta.
  cbn [schedule_order fmap list_fmap lookup list_lookup from_option id].
  repeat match goal with |- context [default 0 (m !! ?i)] =>
    change (default 0 (m !! i)) with (RFC7693.word m i) end.
  repeat match goal with |- context [RFC7693.word m ?i] =>
    let x := fresh "x" in set (x := RFC7693.word m i) end.
  do 8 spec_step. do 16 code_step. reflexivity.
Qed.

Lemma F_round_length m s v : length v = 16%nat -> length (F_round m s v) = 16%nat.
Proof.
  intros Hv. do 16 (destruct v as [|? v]; [done|]). destruct v; [|done]. unfold F_round.
  repeat match goal with |- context [mix ?r1 ?r2 ?a ?b ?c ?d ?x] =>
    destruct (mix r1 r2 a b c d x) as [[[? ?] ?] ?] end. done.
Qed.

Lemma F_loop_is_spec n j m v : length v = 16%nat ->
  F_loop n (Z.of_nat j) m v =
  foldl (fun v i => RFC7693.round m (default [] (RFC7693.SIGMA !! (i mod 10)%nat)) v) v (seq j n) /\
  length (F_loop n (Z.of_nat j) m v) = 16%nat.
Proof.
  revert j v; induction n as [|n IH]; intros j v Hv; [done|]. cbn [F_loop seq foldl].
  replace (Z.of_nat j + 1) with (Z.of_nat (S j)) by lia.
  assert (Hk : (j mod 10 < 10)%nat) by (apply Nat.mod_upper_bound; lia).
  replace (Z.to_nat (Z.of_nat j mod 10)) with (j mod 10)%nat.
  2:{ change 10 with (Z.of_nat 10). rewrite <- Nat2Z.inj_mod. by rewrite Nat2Z.id. }
  rewrite precomputed_sigma by done.
  destruct (RFC7693.SIGMA !! (j mod 10)%nat) as [s|] eqn:Es.
  2:{ apply lookup_ge_None in Es. cbn [length RFC7693.SIGMA] in Es. lia. }
  cbn [fmap option_fmap option_map from_option id].
  set (v' := F_round m _ v). assert (length v' = 16%nat) as Hv' by (by apply F_round_length).
  destruct (IH (S j) v' Hv') as [IH1 IH2]. split; [|done]. rewrite IH1. subst v'.
  by rewrite round_is_spec.
Qed.

(** The compression function is that of the RFC, for any number of rounds. *)
Lemma F_is_spec h m c0 c1 f rounds :
  length h = 8%nat -> is_u64 c0 -> is_u64 c1 -> 0 <= rounds ->
  F h m c0 c1 f rounds = RFC7693.F h m (c0 + 2 ^ 64 * c1) f (Z.to_nat rounds).
Proof.
  intros Hh Hc0 Hc1 Hr. unfold F, RFC7693.F. do 8 (destruct h as [|? h]; [done|]).
  destruct h; [|done].
  replace ((c0 + 2 ^ 64 * c1) mod 2 ^ 64) with c0 by (unfold is_u64 in *; Z.div_mod_to_equations; lia).
  replace ((c0 + 2 ^ 64 * c1) / 2 ^ 64) with c1 by (unfold is_u64 in *; Z.div_mod_to_equations; lia).
  match goal with |- context [F_loop _ 0 m ?v] => set (v1 := v) end.
  match goal with |- context [foldl _ ?v _] => assert (v = v1) as -> by (by destruct f) end.
  destruct (F_loop_is_spec (Z.to_nat rounds) 0 m v1) as [E Hl]; [done|].
  change (Z.of_nat 0) with 0 in E, Hl. rewrite <- E. clear E.
  generalize dependent (F_loop (Z.to_nat rounds) 0 m v1). intros w Hw.
  do 16 (destruct w as [|? w]; [done|]). destruct w; [|done].
  cbn. by rewrite !Z.lxor_assoc.
Qed.

(** The test vector of EIP-152: BLAKE2b-512 of abc, with 12 rounds. *)
Example F_abc :
  F [0x6a09e667f2bdc948; 0xbb67ae8584caa73b; 0x3c6ef372fe94f82b; 0xa54ff53a5f1d36f1;
     0x510e527fade682d1; 0x9b05688c2b3e6c1f; 0x1f83d9abfb41bd6b; 0x5be0cd19137e2179]
    (0x636261 :: replicate 15 0) 3 0 true 12 =
  [0x0d4d1c983fa580ba; 0xe9f6129fb697276a; 0xb7c45a68142f214c; 0xd1a2ffdb6fbb124b;
   0x2d79ab2a39c5877d; 0x95cc3345ded552c2; 0x5a92f1dba88ad318; 0x239900d4ed8623b9].
Proof. vm_compute. reflexivity. Qed.
