(* ===== verification/Precompiled.v ===== *)
(** The nine precompiled contracts, src/tievm/evm/precompiled: precompiled.go,
    base.go, modexp.go, bn256.go and blake2f.go.  The elliptic curve bn256 and
    RIPEMD-160 are third-party packages, and classes. *)

From Stdlib Require Import ZArith Lia Zpow_facts.
From stdpp Require Import base list numbers.
From S2P Require Import Prelude Types Chain Rlp TxSigner Sha256 Blake2.

Open Scope Z_scope.

(** The package go-eth-bn256. *)
Class Bn256 := {
  G1 : Type;
  G2 : Type;
  G1_Unmarshal : list Z -> option G1;
  G1_Marshal : G1 -> list Z;
  G1_Add : G1 -> G1 -> G1;
  G1_ScalarMult : G1 -> Z -> G1;
  G2_Unmarshal : list Z -> option G2;
  PairingCheck : list G1 -> list G2 -> bool
}.

Class Bn256Ok `{Bn256} := {
  G1_Marshal_bytes p : Forall is_byte (G1_Marshal p);
  G1_Marshal_length p : length (G1_Marshal p) = 64%nat
}.

(** The package golang.org/x/crypto/ripemd160. *)
Class Ripemd160 := {
  ripemd160_Sum : list Z -> list Z;
  ripemd160_length b : length (ripemd160_Sum b) = 20%nat;
  ripemd160_bytes b : Forall is_byte (ripemd160_Sum b)
}.

(** ** The shared buffer

    The contracts of a runtime share [p.buf], which they extend and overwrite.
    The state is its backing array up to its capacity. *)
Definition P (A : Type) : Type := list Z -> outcome (A * list Z).

Definition pret {A} (a : A) : P A := fun buf => Ok (a, buf).
Definition pbind {A B} (m : P A) (k : A -> P B) : P B :=
  fun buf => match m buf with Ok (a, buf') => k a buf' | Panic => Panic | OutOfFuel => OutOfFuel end.

Declare Scope pre_scope.
Notation "'let*' p := m 'in' k" := (pbind m (fun x => match x with p => k end))
  (at level 10, p pattern, m at level 100, k at level 200) : pre_scope.
Open Scope pre_scope.

(** The result of a contract: bytes, or an error. *)
Abbreviation result := (list Z * option vmerror)%type.
Definition success (b : list Z) : P result := pret (b, None).
Definition failure : P result := pret ([], Some errOther).

Section precompiled.
Context `{Runtime} `{Secp256k1} `{Bn256} `{Ripemd160}.

(** ** Helpers *)

Definition leftPad (buf : list Z) (n : Z) : list Z :=
  let l := len buf in
  if n <? l then buf else replicate (Z.to_nat (n - l)) 0 ++ buf.

(** [b[:cap(b)]], appending zeros up to [needLen]. *)
Definition extendByteSlice (b : list Z) (needLen : nat) : list Z :=
  if (length b <? needLen)%nat
  then b ++ replicate (append_cap (length b) needLen - length b) 0
  else b.

(** [get]: the first [size] bytes of the input, padded with zeros, and the rest
    of it.  A negative size is a slice bound out of range. *)
Definition get (input : list Z) (size : Z) : P (list Z * list Z) := fun buf =>
  if size <? 0 then Panic
  else
    let size := Z.to_nat size in
    let buf := extendByteSlice buf size in
    let n := Nat.min (length input) size in
    let buf := take n input ++ replicate (size - n) 0 ++ drop size buf in
    Ok ((take size buf, drop n input), buf).

(** [binary.BigEndian.Uint64(p.buf[24:32])]. *)
Definition getUint64 (input : list Z) : P (Z * list Z) :=
  let* (buf, input) := get input 32 in
  pret (be_decode (take 8 (drop 24 buf)), input).

Definition baseGasCalc (input : list Z) (base word : Z) : Z :=
  uint64 (base + uint64 ((len input + 31) / 32 * word)).

(** ** ecrecover, identity, SHA-256, RIPEMD-160 *)

Definition ecrecover_gas : Z := 3000.

(** [append(input[64:128], v)] writes behind the 128 bytes when the buffer has
    room. *)
Definition ecrecover_run (input : list Z) : P result :=
  let* (input, _) := get input 128 in
  if negb (forallb (Z.eqb 0) (take 31 (drop 32 input))) then success []
  else
    let v := byte_of (default 0 (input !! 63%nat) - 27) in
    let r := be_decode (take 32 (drop 64 input)) in
    let s := be_decode (take 32 (drop 96 input)) in
    if negb (ValidateSignatureValues v (Some r) (Some s)) then success []
    else
      let* _ := (fun buf => Ok (tt, <[128%nat := v]> buf)) in
      let* pub := (fun buf => obind (Ecrecover (take 32 input) (take 64 (drop 64 input) ++ [v]))
                                (fun pub => Ok (pub, buf))) in
      match pub with
      | None => success []
      | Some pubKey =>
        let dst := Keccak256 (tail pubKey) in
        success (leftPad (drop 12 dst) 32)
      end.

Definition identity_gas (input : list Z) : Z := baseGasCalc input 15 3.
Definition identity_run (input : list Z) : P result := success input.

Definition sha256_gas (input : list Z) : Z := baseGasCalc input 60 12.
Definition sha256_run (input : list Z) : P result := success (Sha256.Sum256 input).

Definition ripemd160_gas (input : list Z) : Z := baseGasCalc input 600 120.
Definition ripemd160_run (input : list Z) : P result := success (leftPad (ripemd160_Sum input) 32).

(** ** Modular exponentiation *)

Definition adjustedExponentLength (expLen head : Z) : Z :=
  let bitlength := if head =? 0 then 0 else uint64 (big.BitLen head - 1) in
  if expLen <=? 32 then bitlength
  else (expLen - 32) * 8 + bitlength.

Definition subMul (x a b c : Z) : Z := x * b - c + big.Div (x * x) a.

Definition multComplexity (x : Z) : Z :=
  if x <=? 64 then x * x
  else if x <=? 1024 then subMul x 4 96 3072
  else subMul x 16 480 199680.

Definition divisor : Z := 20.

Definition modExp_gas (input : list Z) : P Z :=
  let* (val, tl) := get input 32 in
  let baseLen := be_decode val in
  let* (val, tl) := get tl 32 in
  let expLen := be_decode val in
  let* (val, _) := get tl 32 in
  let modLen := be_decode val in
  let input := if 96 <? len input then drop 96 input else [] in
  let expHeadLen := if expLen <? 32 then big.Uint64 expLen else 32 in
  let bLen := big.Uint64 baseLen in
  let* expHead := (if bLen <? len input
              then let* (val, _) := get (drop (Z.to_nat bLen) input) expHeadLen in pret (be_decode val)
              else pret 0) in
  let gasCost := if baseLen <=? modLen then modLen else baseLen in
  let gasCost := multComplexity gasCost in
  let adjExpLen := adjustedExponentLength expLen expHead in
  let gasCost := if 1 <=? adjExpLen then gasCost * adjExpLen else gasCost * 1 in
  let gasCost := big.Div gasCost divisor in
  if negb (big.IsUint64 gasCost) then pret (2 ^ 64 - 1)
  else pret (big.Uint64 gasCost).

(** [base.Exp(base, exponent, modulus)] for a modulus that is not zero. *)
Definition Exp (base exponent modulus : Z) : Z := Zpow_mod base exponent modulus.

Definition modExp_run (input : list Z) : P result :=
  let* (baseLen, input) := getUint64 input in
  let* (exponentLen, input) := getUint64 input in
  let* (modulusLen, input) := getUint64 input in
  if (baseLen =? 0) && (modulusLen =? 0) then success []
  else
    let* (val, input) := get input (int64 baseLen) in
    let base := be_decode val in
    let* (val, input) := get input (int64 exponentLen) in
    let exponent := be_decode val in
    let* (val, _) := get input (int64 modulusLen) in
    let modulus := be_decode val in
    let res := if modulus =? 0 then [] else big_Bytes (Exp base exponent modulus) in
    success (leftPad res (int64 modulusLen)).

(** ** bn256 *)

Definition bn256Add_gas (f : ForksInTime) : Z := if Istanbul f then 150 else 500.

Definition bn256Add_run (input : list Z) : P result :=
  let* (val, input) := get input 64 in
  match G1_Unmarshal val with
  | None => failure
  | Some b1 =>
    let* (val, _) := get input 64 in
    match G1_Unmarshal val with
    | None => failure
    | Some b2 => success (G1_Marshal (G1_Add b1 b2))
    end
  end.

Definition bn256Mul_gas (f : ForksInTime) : Z := if Istanbul f then 6000 else 40000.

Definition bn256Mul_run (input : list Z) : P result :=
  let* (v, input) := get input 64 in
  match G1_Unmarshal v with
  | None => failure
  | Some b0 =>
    let* (v, _) := get input 32 in
    success (G1_Marshal (G1_ScalarMult b0 (be_decode v)))
  end.

Definition falseBytes : list Z := replicate 32 0.
Definition trueBytes : list Z := replicate 31 0 ++ [1].

Definition bn256Pairing_gas (input : list Z) (f : ForksInTime) : Z :=
  let '(baseGas, pointGas) := if Istanbul f then (45000, 34000) else (100000, 80000) in
  uint64 (baseGas + uint64 (pointGas * (len input / 192))).

(** The loop that reads [num] pairs of points. *)
Fixpoint read_points (num : nat) (input : list Z) : P (option (list G1 * list G2)) :=
  match num with
  | O => pret (Some ([], []))
  | S num' =>
    let* (buf, input) := get input 64 in
    match G1_Unmarshal buf with
    | None => pret None
    | Some a0 =>
      let* (buf, input) := get input 128 in
      match G2_Unmarshal buf with
      | None => pret None
      | Some b0 =>
        let* r := read_points num' input in
        match r with
        | None => pret None
        | Some (ar, br) => pret (Some (a0 :: ar, b0 :: br))
        end
      end
    end
  end.

Definition bn256Pairing_run (input : list Z) : P result :=
  if len input =? 0 then success trueBytes
  else if negb (len input mod 192 =? 0) then failure
  else
    let* r := read_points (Z.to_nat (len input / 192)) input in
    match r with
    | None => failure
    | Some (ar, br) => if PairingCheck ar br then success trueBytes else success falseBytes
    end.

(** ** blake2f *)

Definition blake2f_gas (input : list Z) : Z :=
  if negb (len input =? 213) then 0 else be_decode (take 4 input).

(** [binary.LittleEndian.Uint64] of [n] groups of 8 bytes. *)
Fixpoint le_uint64s (n : nat) (b : list Z) : list Z :=
  match n with
  | O => []
  | S n' => be_decode (reverse (take 8 b)) :: le_uint64s n' (drop 8 b)
  end.

Definition blake2f_run (input : list Z) : P result :=
  if negb (len input =? 213) then failure
  else
    let lastByte := default 0 (input !! 212%nat) in
    if negb (lastByte =? 0) && negb (lastByte =? 1) then failure
    else
      let rounds := be_decode (take 4 input) in
      let input := drop 4 input in
      let h := le_uint64s 8 input in
      let input := drop 64 input in
      let m := le_uint64s 16 input in
      let input := drop 128 input in
      let c0 := be_decode (reverse (take 8 input)) in
      let c1 := be_decode (reverse (take 8 (drop 8 input))) in
      let flag := default 0 (input !! 16%nat) in
      let h := Blake2.F h m c0 c1 (flag =? 1) rounds in
      success (flat_map (fun x => reverse (be_encode 8 x)) h).

(** ** The runtime *)

(** The contract registered for an address; the addresses are 1 to 9. *)
Definition contract_gas (addr : Address) (input : list Z) (f : ForksInTime) : P Z :=
  if addr =? 1 then pret ecrecover_gas
  else if addr =? 2 then pret (sha256_gas input)
  else if addr =? 3 then pret (ripemd160_gas input)
  else if addr =? 4 then pret (identity_gas input)
  else if addr =? 5 then modExp_gas input
  else if addr =? 6 then pret (bn256Add_gas f)
  else if addr =? 7 then pret (bn256Mul_gas f)
  else if addr =? 8 then pret (bn256Pairing_gas input f)
  else pret (blake2f_gas input).

Definition contract_run (addr : Address) (input : list Z) : P result :=
  if addr =? 1 then ecrecover_run input
  else if addr =? 2 then sha256_run input
  else if addr =? 3 then ripemd160_run input
  else if addr =? 4 then identity_run input
  else if addr =? 5 then modExp_run input
  else if addr =? 6 then bn256Add_run input
  else if addr =? 7 then bn256Mul_run input
  else if addr =? 8 then bn256Pairing_run input
  else blake2f_run input.

End precompiled.
