(* ===== verification/PrecompiledFacts.v ===== *)
(** The precompiled contracts: the shared buffer is not observable, the results
    are bytes and the prices 64-bit, modular exponentiation and its price are
    those of EIP-198, and blake2f is the RFC's compression function on bytes. *)

From Stdlib Require Import ZArith Lia Zpow_facts.
From stdpp Require Import base list numbers.
From S2P Require Import Prelude Types Chain Rlp TxSigner Sha256 Blake2 Precompiled.

Open Scope Z_scope.

(** ** Independence of the buffer *)

(** [m] returns [v] whatever is left in the buffer. *)
Definition returns {A} (m : P A) (v : A) : Prop := forall buf, exists buf', m buf = Ok (v, buf').

Lemma returns_ret {A} (v : A) : returns (pret v) v.
Proof. intros buf. by eexists. Qed.

Lemma returns_bind {A B} (m : P A) (k : A -> P B) v w :
  returns m v -> returns (k v) w -> returns (pbind m k) w.
Proof.
  intros Hm Hk buf. destruct (Hm buf) as [buf' E]. unfold pbind. rewrite E. apply Hk.
Qed.

(** [m] returns the same value, in [Q], or panics, whatever is in the buffer. *)
Inductive uniform {A} (m : P A) (Q : A -> Prop) : Prop :=
| uniform_returns v : returns m v -> Q v -> uniform m Q
| uniform_panics : (forall buf, m buf = Panic) -> uniform m Q.

Lemma uniform_ret {A} (v : A) Q : Q v -> uniform (pret v) Q.
Proof. intros Hq. eapply uniform_returns; [apply returns_ret|done]. Qed.

Lemma uniform_bind {A B} (m : P A) (k : A -> P B) Q R :
  uniform m Q -> (forall v, Q v -> uniform (k v) R) -> uniform (pbind m k) R.
Proof.
  intros [v Hm Hq|Hp] Hk.
  - destruct (Hk v Hq) as [w Hw Hr|Hp].
    + eapply uniform_returns; [by eapply returns_bind|done].
    + apply uniform_panics. intros buf. unfold pbind. destruct (Hm buf) as [buf' ->]. apply Hp.
  - apply uniform_panics. intros buf. unfold pbind. by rewrite Hp.
Qed.

(** ** Reading the input *)

(** The first [n] bytes of [l], padded with zeros. *)
Definition padded (n : nat) (l : list Z) : list Z := take n l ++ replicate (n - length l) 0.

Lemma input_padded_length n l : length (padded n l) = n.
Proof. unfold padded. rewrite length_app, length_take, length_replicate. lia. Qed.

Lemma input_padded_bytes n l : Forall is_byte l -> Forall is_byte (padded n l).
Proof.
  intros Hl. apply Forall_app. split; [by apply Forall_take|].
  apply Forall_replicate. unfold is_byte. lia.
Qed.

Lemma padded_full n l : length l = n -> padded n l = l.
Proof. intros Hl. unfold padded. rewrite take_ge, Hl, Nat.sub_diag by lia. apply app_nil_r. Qed.

Lemma padded_bound n l : Forall is_byte l -> 0 <= be_decode (padded n l) < 256 ^ Z.of_nat n.
Proof.
  intros Hl. pose proof (be_decode_bound _ (input_padded_bytes n l Hl)) as Hb.
  by rewrite input_padded_length in Hb.
Qed.

Lemma padded_nil n : be_decode (padded n []) = 0.
Proof.
  unfold padded. rewrite take_nil. cbn [app length]. rewrite Nat.sub_0_r.
  rewrite <- (app_nil_r (replicate n 0)). by rewrite be_decode_zeros_l.
Qed.

Create HintDb pre.

Section facts.
Context `{Runtime} `{Secp256k1} `{Bn256} `{!Bn256Ok} `{Ripemd160}.

Lemma get_returns input size : 0 <= size ->
  returns (get input size) (padded (Z.to_nat size) input, drop (Z.to_nat size) input).
Proof.
  intros Hs buf. unfold get. destruct (Z.ltb_spec size 0); [lia|].
  set (n := Z.to_nat size). eexists. f_equal. f_equal. f_equal.
  - unfold padded. rewrite app_assoc, take_app_le.
    + rewrite take_ge by (rewrite length_app, length_take, length_replicate; lia).
      destruct (decide (length input <= n)%nat).
      * rewrite Nat.min_l, !take_ge by lia. done.
      * rewrite Nat.min_r by lia. by replace (n - length input)%nat with (n - n)%nat by lia.
    + rewrite length_app, length_take, length_replicate. lia.
  - destruct (decide (length input <= n)%nat).
    + rewrite Nat.min_l by lia. by rewrite !drop_ge by lia.
    + by rewrite Nat.min_r by lia.
Qed.

Lemma getUint64_returns input : Forall is_byte input ->
  returns (getUint64 input) (be_decode (padded 32 input) mod 2 ^ 64, drop 32 input).
Proof.
  intros Hb. unfold getUint64. eapply returns_bind; [by apply get_returns|]. cbn beta iota.
  change (Z.to_nat 32) with 32%nat. pose proof (input_padded_length 32 input) as Hl.
  pose proof (input_padded_bytes 32 input Hb) as Hw. set (w := padded 32 input) in *.
  rewrite (take_ge (drop 24 w)) by (rewrite length_drop; lia).
  assert (be_decode (drop 24 w) = be_decode w mod 2 ^ 64) as ->; [|apply returns_ret].
  rewrite <- (take_drop 24 w) at 2. rewrite be_decode_app, length_drop, Hl.
  change (256 ^ Z.of_nat (32 - 24)) with (2 ^ 64). rewrite Z.add_comm, Z_mod_plus_full.
  symmetry. apply Z.mod_small. pose proof (be_decode_bound _ (Forall_drop _ 24 _ Hw)) as Hd.
  rewrite length_drop, Hl in Hd. exact Hd.
Qed.

Lemma get_uniform input size : Forall is_byte input ->
  uniform (get input size) (fun r => (Forall is_byte (fst r) /\ len (fst r) = size) /\ Forall is_byte (snd r)).
Proof.
  intros Hb. destruct (decide (0 <= size)) as [Hs|Hs].
  - eapply uniform_returns; [by apply get_returns|].
    cbn [fst snd]. unfold len. rewrite input_padded_length.
    split_and!; [by apply input_padded_bytes|lia|by apply Forall_drop].
  - apply uniform_panics. intros buf. unfold get. by destruct (Z.ltb_spec size 0); [|lia].
Qed.

Lemma getUint64_uniform input : Forall is_byte input ->
  uniform (getUint64 input) (fun r => is_u64 (fst r) /\ Forall is_byte (snd r)).
Proof.
  intros Hb. eapply uniform_returns; [by apply getUint64_returns|].
  split; [apply uint64_range|by apply Forall_drop].
Qed.

(** ** Every contract *)

Lemma leftPad_ok b n : bytes_ok b -> n < 2 ^ 63 -> bytes_ok (leftPad b n).
Proof.
  intros [Hb Hl] Hn. unfold leftPad. destruct (Z.ltb_spec n (len b)); [done|]. unfold len in *. split.
  - apply Forall_app. split; [|done]. apply Forall_replicate. unfold is_byte. lia.
  - unfold len. rewrite length_app, length_replicate. lia.
Qed.

Abbreviation good := (fun r : result => bytes_ok (fst r)).

Lemma short_bytes b : Forall is_byte b -> (length b <= 1024)%nat -> bytes_ok b.
Proof. intros Hb Hl. split; [done|]. unfold len. lia. Qed.

Lemma success_uniform b : bytes_ok b -> uniform (success b) good.
Proof. intros Hb. by apply uniform_ret. Qed.

Lemma empty_ok : bytes_ok [].
Proof. by apply short_bytes; [constructor|cbn; lia]. Qed.

Lemma failure_uniform : uniform failure good.
Proof. apply uniform_ret, empty_ok. Qed.

Lemma trueBytes_ok : bytes_ok trueBytes.
Proof.
  apply short_bytes; [|cbn; lia].
  apply Forall_app. split; [apply Forall_replicate|apply Forall_singleton]; unfold is_byte; lia.
Qed.

Lemma falseBytes_ok : bytes_ok falseBytes.
Proof. apply short_bytes; [|cbn; lia]. apply Forall_replicate. unfold is_byte. lia. Qed.

Lemma G1_Marshal_ok p : bytes_ok (G1_Marshal p).
Proof. apply short_bytes; [apply G1_Marshal_bytes|rewrite G1_Marshal_length; lia]. Qed.

Lemma flat_map_bytes {A} (f : A -> list Z) l :
  (forall x, Forall is_byte (f x)) -> Forall is_byte (flat_map f l).
Proof. intros Hf. induction l; cbn; [constructor|]. by apply Forall_app. Qed.

#[local] Hint Resolve success_uniform failure_uniform trueBytes_ok falseBytes_ok
  G1_Marshal_ok empty_ok : pre.

(** A read, with the facts about what was read. *)
Ltac ubind L :=
  eapply uniform_bind; [by apply L|intros [? ?] [? ?]; cbn [fst snd] in *; destruct_and?].

Lemma ecrecover_uniform input : Forall is_byte input -> uniform (ecrecover_run input) good.
Proof.
  intros Hb. unfold ecrecover_run. ubind get_uniform. case_match; [auto with pre|].
  case_match; [auto with pre|]. eapply (uniform_bind _ _ (fun _ => True)).
  { apply (uniform_returns _ _ tt); [|done]. intros buf. by eexists. }
  intros _ _. unfold Ecrecover. rewrite RecoverPubkey_app. cbn [obind].
  eapply (uniform_bind _ _ (fun _ => True)).
  { eapply uniform_returns; [|done]. intros buf. by eexists. }
  intros pub _. destruct pub; [|auto with pre].
  apply success_uniform, leftPad_ok; [|lia]. apply short_bytes; [apply Forall_drop, Keccak256_bytes|].
  rewrite length_drop, Keccak256_length. lia.
Qed.

Lemma Exp_length b e l : Forall is_byte l -> be_decode l <> 0 ->
  (length (big_Bytes (Exp b e (be_decode l))) <= length l)%nat.
Proof.
  intros Hl Hz. pose proof (be_decode_bound l Hl). unfold Exp. rewrite Zpow_mod_correct by done.
  pose proof (Z.mod_pos_bound (b ^ e) (be_decode l)). apply big_Bytes_length. lia.
Qed.

Lemma modExp_uniform input : Forall is_byte input -> uniform (modExp_run input) good.
Proof.
  intros Hb. unfold modExp_run. do 3 (ubind getUint64_uniform). case_match; [auto with pre|].
  do 3 (ubind get_uniform).
  match goal with Hl : len ?l = int64 ?n |- context [leftPad _ (int64 ?n)] =>
    pose proof (int64_range n); unfold len in Hl end.
  apply success_uniform, leftPad_ok; [|lia]. destruct (Z.eqb_spec (be_decode l6) 0) as [|Hz]; [apply empty_ok|].
  split; [apply big_Bytes_bytes|]. unfold len.
  pose proof (Exp_length (be_decode l2) (be_decode l4) l6 ltac:(done) Hz). lia.
Qed.

Lemma bn256Add_uniform input : Forall is_byte input -> uniform (bn256Add_run input) good.
Proof.
  intros Hb. unfold bn256Add_run. ubind get_uniform. case_match; [|auto with pre].
  ubind get_uniform. case_match; auto with pre.
Qed.

Lemma bn256Mul_uniform input : Forall is_byte input -> uniform (bn256Mul_run input) good.
Proof.
  intros Hb. unfold bn256Mul_run. ubind get_uniform. case_match; [|auto with pre].
  ubind get_uniform. auto with pre.
Qed.

Lemma read_points_uniform num input : Forall is_byte input ->
  uniform (read_points num input) (fun _ => True).
Proof.
  revert input; induction num as [|num IH]; intros input Hb; cbn [read_points]; [by apply uniform_ret|].
  ubind get_uniform. case_match; [|by apply uniform_ret].
  ubind get_uniform. case_match; [|by apply uniform_ret].
  eapply uniform_bind; [by apply IH|]. intros [[? ?]|] _; by apply uniform_ret.
Qed.

Lemma bn256Pairing_uniform input : Forall is_byte input -> uniform (bn256Pairing_run input) good.
Proof.
  intros Hb. unfold bn256Pairing_run. case_match; [auto with pre|]. case_match; [auto with pre|].
  eapply uniform_bind; [by apply read_points_uniform|]. intros [[? ?]|] _; [|auto with pre].
  case_match; auto with pre.
Qed.

(** [binary.LittleEndian.PutUint64]. *)
Definition le64 (x : Z) : list Z := reverse (be_encode 8 x).

Lemma le64_length x : length (le64 x) = 8%nat.
Proof. unfold le64. by rewrite length_reverse, be_encode_length. Qed.

Lemma le64s_length xs : length (flat_map le64 xs) = (8 * length xs)%nat.
Proof. induction xs as [|x xs IH]; [done|]. cbn [flat_map length]. rewrite length_app, le64_length, IH. lia. Qed.

Lemma F_length h m c0 c1 f r : (length (Blake2.F h m c0 c1 f r) <= length h)%nat.
Proof. unfold Blake2.F. rewrite length_zip_with. lia. Qed.

Lemma le_uint64s_length n b : length (le_uint64s n b) = n.
Proof. revert b; induction n as [|n IH]; intros b; cbn; [done|by rewrite IH]. Qed.

Lemma blake2f_uniform input : uniform (blake2f_run input) good.
Proof.
  unfold blake2f_run. case_match; [auto with pre|]. case_match; [auto with pre|].
  apply success_uniform. cbv zeta.
  apply short_bytes; [apply flat_map_bytes; intros x; apply Forall_reverse, be_encode_bytes|].
  change (fun x => reverse (be_encode 8 x)) with le64. rewrite le64s_length.
  match goal with |- context [Blake2.F ?h ?m ?c0 ?c1 ?f ?r] => pose proof (F_length h m c0 c1 f r) as Hl end.
  rewrite le_uint64s_length in Hl. lia.
Qed.

Lemma contract_run_uniform a input : bytes_ok input -> uniform (contract_run a input) good.
Proof.
  intros Hi. assert (Forall is_byte input) as Hb by apply Hi. unfold contract_run. repeat (case_match; [|]);
    auto using ecrecover_uniform, modExp_uniform, bn256Add_uniform, bn256Mul_uniform,
      bn256Pairing_uniform, blake2f_uniform.
  - apply success_uniform, Sha256.Sum256_ok.
  - apply success_uniform, leftPad_ok; [|lia].
    apply short_bytes; [apply ripemd160_bytes|rewrite ripemd160_length; lia].
  - by apply success_uniform.
Qed.

(** ** Modular exponentiation *)

(** The number spelled by the [n] bytes from [i] on, missing bytes being 0. *)
Definition number_at (input : list Z) (i n : Z) : Z :=
  be_decode (padded (Z.to_nat n) (drop (Z.to_nat i) input)).

Lemma leftPad_encode n x : 0 <= n -> 0 <= x < 256 ^ n ->
  leftPad (big_Bytes x) n = be_encode (Z.to_nat n) x.
Proof.
  intros Hn Hx. rewrite <- (Z2Nat.id n) in Hx by done.
  pose proof (big_Bytes_length x _ Hx). unfold leftPad, len.
  destruct (Z.ltb_spec n (Z.of_nat (length (big_Bytes x)))); [lia|].
  rewrite <- big_Bytes_pad by done. do 2 f_equal. lia.
Qed.

Lemma modExp_exact input :
  Forall is_byte input ->
  let baseLen := number_at input 0 32 in
  let expLen := number_at input 32 32 in
  let modLen := number_at input 64 32 in
  baseLen < 2 ^ 63 -> expLen < 2 ^ 63 -> modLen < 2 ^ 63 ->
  let B := number_at input 96 baseLen in
  let E := number_at input (96 + baseLen) expLen in
  let M := number_at input (96 + baseLen + expLen) modLen in
  returns (modExp_run input)
    ((if (baseLen =? 0) && (modLen =? 0) then []
      else be_encode (Z.to_nat modLen) (if M =? 0 then 0 else B ^ E mod M)), None).
Proof.
  intros Hb baseLen expLen modLen HbL HeL HmL B E M. unfold modExp_run.
  assert (forall i n, 0 <= number_at input i n) as Hpos.
  { intros i n. apply padded_bound. by apply Forall_drop. }
  pose proof (Hpos 0 32) as Pb. pose proof (Hpos 32 32) as Pe. pose proof (Hpos 64 32) as Pm.
  fold baseLen in Pb. fold expLen in Pe. fold modLen in Pm.
  eapply returns_bind; [by apply getUint64_returns|]. cbn beta iota.
  eapply returns_bind; [by apply getUint64_returns, Forall_drop|]. cbn beta iota.
  eapply returns_bind; [by apply getUint64_returns, Forall_drop, Forall_drop|]. cbn beta iota.
  rewrite !drop_drop. change (32 + 32 + 32)%nat with 96%nat. change (32 + 32)%nat with 64%nat.
  change (be_decode (padded 32 input)) with baseLen.
  change (be_decode (padded 32 (drop 32 input))) with expLen.
  change (be_decode (padded 32 (drop 64 input))) with modLen.
  rewrite !Z.mod_small by lia.
  destruct ((baseLen =? 0) && (modLen =? 0)); [apply returns_ret|]. rewrite !int64_small by lia.
  eapply returns_bind; [by apply get_returns|]. cbn beta iota.
  eapply returns_bind; [by apply get_returns|]. cbn beta iota.
  eapply returns_bind; [by apply get_returns|]. cbn beta iota.
  rewrite !drop_drop. replace (96 + Z.to_nat baseLen)%nat with (Z.to_nat (96 + baseLen)) by lia.
  replace (96 + (Z.to_nat baseLen + Z.to_nat expLen))%nat with (Z.to_nat (96 + baseLen + expLen)) by lia.
  change (be_decode (padded (Z.to_nat baseLen) (drop 96 input))) with B.
  change (be_decode (padded (Z.to_nat expLen) (drop (Z.to_nat (96 + baseLen)) input))) with E.
  change (be_decode (padded (Z.to_nat modLen) (drop (Z.to_nat (96 + baseLen + expLen)) input))) with M.
  assert (0 <= E) as PE by apply Hpos.
  assert (0 <= M < 256 ^ modLen) as PM.
  { rewrite <- (Z2Nat.id modLen) by lia. apply padded_bound. by apply Forall_drop. }
  replace (leftPad _ modLen)
    with (be_encode (Z.to_nat modLen) (if M =? 0 then 0 else B ^ E mod M)); [apply returns_ret|].
  symmetry. destruct (Z.eqb_spec M 0).
  - apply (leftPad_encode modLen 0); lia.
  - unfold Exp. rewrite Zpow_mod_correct by lia.
    pose proof (Z.mod_pos_bound (B ^ E) M). apply leftPad_encode; lia.
Qed.

(** EIP-198. *)
Definition mult_complexity (x : Z) : Z :=
  if x <=? 64 then x ^ 2
  else if x <=? 1024 then x ^ 2 / 4 + 96 * x - 3072
  else x ^ 2 / 16 + 480 * x - 199680.

Definition highest_bit (x : Z) : Z := if x =? 0 then 0 else Z.log2 x.

Definition eip198_gas (input : list Z) : Z :=
  let length_of_BASE := number_at input 0 32 in
  let length_of_EXPONENT := number_at input 32 32 in
  let length_of_MODULUS := number_at input 64 32 in
  let head := number_at input (96 + length_of_BASE) (Z.min length_of_EXPONENT 32) in
  let ADJUSTED_EXPONENT_LENGTH :=
    if length_of_EXPONENT <=? 32 then highest_bit head
    else 8 * (length_of_EXPONENT - 32) + highest_bit head in
  mult_complexity (Z.max length_of_MODULUS length_of_BASE) * Z.max ADJUSTED_EXPONENT_LENGTH 1 / 20.

Lemma multComplexity_spec x : multComplexity x = mult_complexity x.
Proof.
  unfold multComplexity, mult_complexity, subMul, big.Div. rewrite Z.pow_2_r.
  destruct (x <=? 64); [done|]. destruct (x <=? 1024); change (Z.abs 4) with 4; change (Z.abs 16) with 16; simpl Z.sgn; ring.
Qed.

Lemma mult_complexity_nonneg x : 0 <= x -> 0 <= mult_complexity x.
Proof.
  intros Hx. unfold mult_complexity. rewrite Z.pow_2_r.
  destruct (Z.leb_spec x 64); [nia|]. destruct (Z.leb_spec x 1024); Z.div_mod_to_equations; nia.
Qed.

Lemma mult_complexity_large x : 2 ^ 64 <= x -> 20 * 2 ^ 64 <= mult_complexity x.
Proof.
  intros Hx. unfold mult_complexity. rewrite Z.pow_2_r.
  destruct (Z.leb_spec x 64); [lia|]. destruct (Z.leb_spec x 1024); [lia|].
  assert (0 <= x * x / 16) by (apply Z.div_pos; nia). lia.
Qed.

Lemma head_bits head : 0 <= head < 2 ^ 256 ->
  (if head =? 0 then 0 else uint64 (big.BitLen head - 1)) = highest_bit head.
Proof.
  intros Hh. unfold highest_bit, big.BitLen. destruct (Z.eqb_spec head 0); [done|].
  rewrite Z.abs_eq, Z.add_simpl_r by lia. apply uint64_small. pose proof (Z.log2_nonneg head).
  assert (Z.log2 head < 256) by (apply Z.log2_lt_pow2; lia). unfold is_u64. lia.
Qed.

Lemma adjustedExponentLength_spec expLen head : 0 <= head < 2 ^ 256 ->
  adjustedExponentLength expLen head =
  (if expLen <=? 32 then highest_bit head else 8 * (expLen - 32) + highest_bit head).
Proof.
  intros Hh. unfold adjustedExponentLength. rewrite head_bits by done. case_match; lia.
Qed.

(** The cost once the head of the exponent is known. *)
Definition gas_of (baseLen expLen modLen head : Z) : Z :=
  mult_complexity (Z.max modLen baseLen) *
  Z.max (if expLen <=? 32 then highest_bit head else 8 * (expLen - 32) + highest_bit head) 1 / 20.

Lemma gas_of_nonneg baseLen expLen modLen head : 0 <= baseLen -> 0 <= gas_of baseLen expLen modLen head.
Proof.
  intros Hb. apply Z.div_pos; [|lia]. apply Z.mul_nonneg_nonneg; [|lia].
  apply mult_complexity_nonneg. lia.
Qed.

Lemma gas_of_large baseLen expLen modLen head : 2 ^ 64 <= baseLen ->
  2 ^ 64 <= gas_of baseLen expLen modLen head.
Proof.
  intros Hb. pose proof (mult_complexity_large (Z.max modLen baseLen) ltac:(lia)) as Hm.
  apply Z.div_le_lower_bound; [lia|]. set (a := Z.max _ 1). assert (1 <= a) by (subst a; lia).
  etransitivity; [exact Hm|]. nia.
Qed.

(** The price, once the head is read, saturates at the largest uint64. *)
Lemma modExp_gas_end baseLen expLen modLen head :
  0 <= baseLen -> 0 <= head < 2 ^ 256 ->
  (let gasCost := if baseLen <=? modLen then modLen else baseLen in
   let gasCost := multComplexity gasCost in
   let adjExpLen := adjustedExponentLength expLen head in
   let gasCost := if 1 <=? adjExpLen then gasCost * adjExpLen else gasCost * 1 in
   let gasCost := big.Div gasCost divisor in
   if negb (big.IsUint64 gasCost) then pret (2 ^ 64 - 1) else pret (big.Uint64 gasCost)) =
  pret (Z.min (gas_of baseLen expLen modLen head) (2 ^ 64 - 1)).
Proof.
  intros Hb Hh. cbv zeta. rewrite multComplexity_spec, adjustedExponentLength_spec by done.
  replace (if baseLen <=? modLen then modLen else baseLen) with (Z.max modLen baseLen)
    by (destruct (Z.leb_spec baseLen modLen); lia).
  set (adj := if expLen <=? 32 then _ else _).
  replace (if 1 <=? adj then _ else _) with (mult_complexity (Z.max modLen baseLen) * Z.max adj 1)
    by (destruct (Z.leb_spec 1 adj); f_equal; lia).
  unfold big.Div, divisor. change (Z.sgn 20) with 1. change (Z.abs 20) with 20. rewrite Z.mul_1_l.
  change (_ * Z.max adj 1 / 20) with (gas_of baseLen expLen modLen head).
  pose proof (gas_of_nonneg baseLen expLen modLen head Hb) as Hg.
  destruct (big.IsUint64 (gas_of baseLen expLen modLen head)) eqn:E; cbn [negb].
  - apply IsUint64_spec in E. unfold is_u64 in E. rewrite Uint64_small by done. f_equal. lia.
  - assert (~ is_u64 (gas_of baseLen expLen modLen head)) as Hn by (rewrite <- IsUint64_spec, E; done).
    unfold is_u64 in Hn. f_equal. lia.
Qed.

Lemma number_bound input i n : Forall is_byte input -> 0 <= n -> 0 <= number_at input i n < 256 ^ n.
Proof.
  intros Hb Hn. pose proof (padded_bound (Z.to_nat n) (drop (Z.to_nat i) input) (Forall_drop _ _ _ Hb)).
  rewrite Z2Nat.id in * by lia. done.
Qed.

Lemma modExp_gas_exact input : Forall is_byte input ->
  returns (modExp_gas input) (Z.min (eip198_gas input) (2 ^ 64 - 1)).
Proof.
  intros Hb. unfold modExp_gas.
  eapply returns_bind; [by apply get_returns|]. cbn beta iota.
  eapply returns_bind; [by apply get_returns|]. cbn beta iota.
  eapply returns_bind; [by apply get_returns|]. cbn beta iota.
  rewrite !drop_drop. change (Z.to_nat 32 + Z.to_nat 32)%nat with (Z.to_nat 64).
  change (be_decode (padded (Z.to_nat 32) input)) with (number_at input 0 32).
  fold (number_at input 32 32) (number_at input 64 32).
  pose proof (number_bound input 0 32 Hb ltac:(lia)) as Pb.
  pose proof (number_bound input 32 32 Hb ltac:(lia)) as Pe.
  assert ((if 96 <? len input then drop 96 input else []) = drop 96 input) as ->.
  { unfold len. destruct (Z.ltb_spec 96 (Z.of_nat (length input))); [done|]. by rewrite drop_ge by lia. }
  change (eip198_gas input) with
    (gas_of (number_at input 0 32) (number_at input 32 32) (number_at input 64 32)
       (number_at input (96 + number_at input 0 32) (Z.min (number_at input 32 32) 32))).
  set (baseLen := number_at input 0 32) in *. set (expLen := number_at input 32 32) in *.
  set (modLen := number_at input 64 32).
  assert ((if expLen <? 32 then big.Uint64 expLen else 32) = Z.min expLen 32) as ->.
  { destruct (Z.ltb_spec expLen 32); [rewrite Uint64_small by (unfold is_u64; lia)|]; lia. }
  destruct (decide (baseLen < 2 ^ 64)) as [Hs|Hl].
  - rewrite Uint64_small by (unfold is_u64; lia).
    set (head := number_at input (96 + baseLen) (Z.min expLen 32)).
    assert (0 <= head < 2 ^ 256) as Hh.
    { pose proof (number_bound input (96 + baseLen) (Z.min expLen 32) Hb ltac:(lia)).
      assert (256 ^ Z.min expLen 32 <= 256 ^ 32) by (apply Z.pow_le_mono_r; lia). subst head. lia. }
    eapply (returns_bind _ _ head); [|rewrite modExp_gas_end by (done || lia); apply returns_ret].
    unfold len. rewrite length_drop. destruct (Z.ltb_spec baseLen (Z.of_nat (length input - 96))).
    + eapply returns_bind; [apply get_returns; lia|]. cbn beta iota. rewrite drop_drop.
      replace (96 + Z.to_nat baseLen)%nat with (Z.to_nat (96 + baseLen)) by lia. apply returns_ret.
    + subst head. unfold number_at. rewrite (drop_ge input) by lia. rewrite padded_nil. apply returns_ret.
  - rewrite (Z.min_r (gas_of _ _ _ _)) by (pose proof (gas_of_large baseLen expLen modLen
      (number_at input (96 + baseLen) (Z.min expLen 32)) ltac:(lia)); lia).
    set (bLen := big.Uint64 baseLen). pose proof (Uint64_range baseLen) as Hr. fold bLen in Hr.
    unfold is_u64 in Hr.
    assert (exists head, 0 <= head < 2 ^ 256 /\ returns (if bLen <? len (drop 96 input)
      then let* (val, _) := get (drop (Z.to_nat bLen) (drop 96 input)) (Z.min expLen 32) in
           pret (be_decode val) else pret 0) head) as (head & Hh & Hret).
    { case_match; [|exists 0; split; [lia|apply returns_ret]].
      eexists. split; [|eapply returns_bind; [apply get_returns; lia|apply returns_ret]].
      pose proof (padded_bound (Z.to_nat (Z.min expLen 32)) (drop (Z.to_nat bLen) (drop 96 input))
        (Forall_drop _ _ _ (Forall_drop _ _ _ Hb))) as Hp.
      assert (256 ^ Z.of_nat (Z.to_nat (Z.min expLen 32)) <= 256 ^ 32) by (apply Z.pow_le_mono_r; lia). lia. }
    eapply returns_bind; [exact Hret|]. rewrite modExp_gas_end by (done || lia).
    rewrite (Z.min_r (gas_of _ _ _ _)) by (pose proof (gas_of_large baseLen expLen modLen head ltac:(lia)); lia).
    apply returns_ret.
Qed.

Lemma contract_gas_ok a input f : Forall is_byte input ->
  exists g, is_u64 g /\ returns (contract_gas a input f) g.
Proof.
  intros Hb. unfold contract_gas, bn256Add_gas, bn256Mul_gas, ecrecover_gas.
  assert (forall g, is_u64 g -> exists g', is_u64 g' /\ returns (pret g) g') as Hp.
  { intros g Hg. exists g. split; [done|apply returns_ret]. }
  repeat (case_match; [|]);
    try (apply Hp; first [apply uint64_range|case_match; unfold is_u64; lia|unfold is_u64; lia]).
  - eexists. split; [|by apply modExp_gas_exact].
    assert (0 <= eip198_gas input) by (apply gas_of_nonneg, number_bound; [done|lia]).
    unfold is_u64. lia.
  - apply Hp. unfold bn256Pairing_gas. case_match. apply uint64_range.
  - apply Hp. unfold blake2f_gas. case_match; [unfold is_u64; lia|].
    pose proof (be_decode_bound (take 4 input) (Forall_take _ 4 _ Hb)) as Hd.
    assert (256 ^ Z.of_nat (length (take 4 input)) <= 256 ^ 4).
    { apply Z.pow_le_mono_r; [lia|]. rewrite length_take. lia. }
    unfold is_u64. lia.
Qed.

(** ** blake2f *)

Lemma le64_decode x : is_u64 x -> be_decode (reverse (le64 x)) = x.
Proof. intros Hx. unfold le64. rewrite reverse_involutive. by apply be_decode_encode_small. Qed.

Lemma le_uint64s_ok xs rest : Forall is_u64 xs ->
  le_uint64s (length xs) (flat_map le64 xs ++ rest) = xs.
Proof.
  induction xs as [|x xs IH]; intros Hx; [done|]. apply List.Forall_cons_iff in Hx as [Hx Hxs].
  cbn [length flat_map le_uint64s]. rewrite <- app_assoc. pose proof (le64_length x) as Hl.
  rewrite take_app_le, take_ge, drop_app_ge, Hl, drop_0 by lia. by rewrite le64_decode, IH.
Qed.

Definition flag_byte (f : bool) : Z := if f then 1 else 0.

(** The input of the contract, as EIP-152 lays it out. *)
Definition blake2f_input (rounds : Z) (h m : list Z) (t0 t1 : Z) (f : bool) : list Z :=
  be_encode 4 rounds ++ flat_map le64 h ++ flat_map le64 m ++ le64 t0 ++ le64 t1 ++ [flag_byte f].

Lemma drop_exact {A} n (l r : list A) : length l = n -> drop n (l ++ r) = r.
Proof. intros <-. apply drop_app_length. Qed.

Lemma take_exact {A} n (l r : list A) : length l = n -> take n (l ++ r) = l.
Proof. intros <-. apply take_app_length. Qed.

Lemma blake2f_exact rounds h m t0 t1 f :
  0 <= rounds < 2 ^ 32 -> length h = 8%nat -> length m = 16%nat ->
  Forall is_u64 h -> Forall is_u64 m -> is_u64 t0 -> is_u64 t1 ->
  returns (blake2f_run (blake2f_input rounds h m t0 t1 f))
    (flat_map le64 (RFC7693.F h m (t0 + 2 ^ 64 * t1) f (Z.to_nat rounds)), None).
Proof.
  intros Hr Hh Hm Uh Um U0 U1. unfold blake2f_run, blake2f_input.
  pose proof (le64s_length h) as Lh. rewrite Hh in Lh. pose proof (le64s_length m) as Lm.
  rewrite Hm in Lm. pose proof (be_encode_length 4 rounds) as Lr.
  pose proof (le64_length t0) as L0. pose proof (le64_length t1) as L1.
  set (fl := flag_byte f).
  assert (length (be_encode 4 rounds ++ flat_map le64 h ++ flat_map le64 m ++ le64 t0 ++ le64 t1) = 212%nat)
    as L by (rewrite !length_app; lia).
  assert (forall l : list Z, be_encode 4 rounds ++ flat_map le64 h ++ flat_map le64 m ++ le64 t0 ++ le64 t1 ++ l =
    (be_encode 4 rounds ++ flat_map le64 h ++ flat_map le64 m ++ le64 t0 ++ le64 t1) ++ l) as Ha
    by (intros; by rewrite <- !app_assoc).
  assert (len (be_encode 4 rounds ++ flat_map le64 h ++ flat_map le64 m ++ le64 t0 ++ le64 t1 ++ [fl]) = 213)
    as -> by (unfold len; rewrite !length_app; cbn [length]; lia).
  change (negb (213 =? 213)) with false. cbv iota.
  assert (default 0 ((be_encode 4 rounds ++ flat_map le64 h ++ flat_map le64 m ++ le64 t0 ++ le64 t1 ++ [fl])
    !! 212%nat) = fl) as -> by (rewrite Ha, lookup_app_r, L by lia; done).
  assert (negb (fl =? 0) && negb (fl =? 1) = false) as -> by (by destruct f). cbv zeta.
  rewrite !(drop_exact 4), !(take_exact 4), !(drop_exact 64), !(drop_exact 128) by (done || lia).
  rewrite be_decode_encode_small by lia.
  rewrite <- Hh at 1. rewrite le_uint64s_ok by done. rewrite <- Hm at 1. rewrite le_uint64s_ok by done.
  rewrite !(take_exact 8), !(drop_exact 8), !(take_exact 8), !le64_decode by done.
  assert (default 0 ((le64 t0 ++ le64 t1 ++ [fl]) !! 16%nat) = fl) as ->.
  { rewrite lookup_app_r, L0 by lia. rewrite lookup_app_r, L1 by lia. done. }
  assert ((fl =? 1) = f) as -> by (by destruct f). rewrite F_is_spec by (done || lia). apply returns_ret.
Qed.

End facts.
