(* ===== verification/Slice.v ===== *)
(** Go byte slices with a capacity, and extendByteSlice of
    src/tievm/evm/execute/state.go: what the pooled memory and the pooled
    jump-destination bitmap of the virtual machine are made of. *)


From Stdlib Require Import ZArith Lia.
From stdpp Require Import base list numbers.
From S2P Require Import Prelude Types.

Open Scope Z_scope.

(** [arr] is the part of the backing array from the slice's first element to
    its capacity, [slen] the slice's length. *)
Record slice := mkSlice { arr : list Z; slen : nat }.

Definition cap (s : slice) : nat := length (arr s).
Definition view (s : slice) : list Z := take (slen s) (arr s).
Definition nil_slice : slice := mkSlice [] 0.

(** [s[i]] for reading and writing, [None] for an index out of range. *)
Definition s_get (s : slice) (i : Z) : option Z :=
  if (0 <=? i) && (i <? Z.of_nat (slen s)) then arr s !! Z.to_nat i else None.

Definition s_set (s : slice) (i v : Z) : option slice :=
  if (0 <=? i) && (i <? Z.of_nat (slen s))
  then Some (mkSlice (<[Z.to_nat i := v]> (arr s)) (slen s)) else None.

(** [s[lo:hi]]: the bound on [hi] is the capacity, not the length. *)
Definition s_range (s : slice) (lo hi : Z) : option (list Z) :=
  if (0 <=? lo) && (lo <=? hi) && (hi <=? Z.of_nat (cap s))
  then Some (take (Z.to_nat (hi - lo)) (drop (Z.to_nat lo) (arr s))) else None.

(** [s[lo:]]: up to the length. *)
Definition s_from (s : slice) (lo : Z) : option (list Z) :=
  if (0 <=? lo) && (lo <=? Z.of_nat (slen s))
  then Some (drop (Z.to_nat lo) (view s)) else None.

(** The slice after the bytes from [lo] on were overwritten by [l]. *)
Definition s_write (s : slice) (lo : Z) (l : list Z) : slice :=
  mkSlice (take (Z.to_nat lo) (arr s) ++ l ++ drop (Z.to_nat lo + length l) (arr s)) (slen s).

(** [for i := range b { b[i] = 0 }; b = b[:0]]. *)
Definition s_clear (s : slice) : slice :=
  mkSlice (replicate (slen s) 0 ++ drop (slen s) (arr s)) 0.

Section extend.
Context `{Runtime}.

Definition extendByteSlice (b : slice) (needLen : nat) : slice :=
  if (cap b <? needLen)%nat
  then mkSlice (arr b ++ replicate (append_cap (cap b) needLen - cap b) 0) needLen
  else mkSlice (arr b) needLen.

(** A slice is well formed when its length is within its capacity, it holds
    bytes, and the bytes between length and capacity are zero: the last part is
    what lets [extendByteSlice] hand out zeroed memory without clearing it. *)
Record slice_ok (s : slice) : Prop := {
  slice_len : (slen s <= cap s)%nat;
  slice_bytes : Forall is_byte (arr s);
  slice_zero : forall i, (slen s <= i < cap s)%nat -> arr s !! i = Some 0
}.

Lemma nil_slice_ok : slice_ok nil_slice.
Proof. split; simpl; [lia|constructor|]. unfold cap; simpl. lia. Qed.

Lemma view_length s : slice_ok s -> length (view s) = slen s.
Proof. intros [Hl _ _]. unfold view, cap in *. rewrite length_take. lia. Qed.

Lemma view_bytes s : slice_ok s -> Forall is_byte (view s).
Proof. intros [_ Hb _]. by apply Forall_take. Qed.

Lemma byte_zero : is_byte 0.
Proof. unfold is_byte. lia. Qed.

Lemma zeros_bytes n : Forall is_byte (replicate n 0).
Proof. apply Forall_replicate, byte_zero. Qed.

Lemma lookup_zero_lt (l : list Z) i : l !! i = Some 0 -> (i < length l)%nat.
Proof. intros. by eapply lookup_lt_Some. Qed.

Lemma extend_ok s n :
  slice_ok s -> (slen s <= n)%nat -> slice_ok (extendByteSlice s n).
Proof.
  intros [Hl Hb Hz] Hn. unfold extendByteSlice. pose proof (append_cap_ge (cap s) n).
  destruct (Nat.ltb_spec (cap s) n).
  - split; unfold cap in *; simpl.
    + rewrite length_app, length_replicate. lia.
    + apply Forall_app; split; [done|apply zeros_bytes].
    + intros i Hi. rewrite length_app, length_replicate in Hi.
      destruct (decide (i < length (arr s))%nat).
      * rewrite lookup_app_l by lia. apply Hz. lia.
      * rewrite lookup_app_r by lia. apply lookup_replicate. split; [done|lia].
  - split; unfold cap in *; simpl; [lia|done|]. intros i Hi. apply Hz. lia.
Qed.

Lemma extend_len s n : slen (extendByteSlice s n) = n.
Proof. unfold extendByteSlice. by destruct (cap s <? n)%nat. Qed.

(** Growing keeps the old contents and appends zeros. *)
Lemma extend_view s n :
  slice_ok s -> (slen s <= n)%nat ->
  view (extendByteSlice s n) = view s ++ replicate (n - slen s) 0.
Proof.
  intros Hs Hn. pose proof (extend_ok s n Hs Hn) as He.
  apply (list_eq_same_length _ _ n).
  { rewrite length_app, length_replicate, view_length by done. lia. }
  { by rewrite view_length, extend_len by done. }
  intros i x y Hi. unfold view at 1. rewrite extend_len.
  rewrite lookup_take_lt by done. unfold extendByteSlice.
  destruct Hs as [Hl Hb Hz]. unfold view, cap in *.
  destruct (decide (i < slen s)%nat).
  - rewrite lookup_app_l by (rewrite length_take; lia). rewrite lookup_take_lt by done.
    destruct (Nat.ltb_spec (length (arr s)) n); simpl.
    + rewrite lookup_app_l by lia. congruence.
    + congruence.
  - rewrite lookup_app_r, length_take by (rewrite length_take; lia).
    rewrite (proj2 (lookup_replicate _ _ _ _)) by (split; [done|lia]).
    destruct (Nat.ltb_spec (length (arr s)) n); simpl.
    + destruct (decide (i < length (arr s))%nat).
      * rewrite lookup_app_l by lia. rewrite Hz by lia. congruence.
      * rewrite lookup_app_r by lia. intros H1 H2.
        apply lookup_replicate in H1 as [-> _]. congruence.
    + rewrite Hz by lia. congruence.
Qed.

(** Clearing a well-formed slice leaves an empty one whose whole capacity is zero. *)
Lemma clear_ok s : slice_ok s -> slice_ok (s_clear s).
Proof.
  intros [Hl Hb Hz]. unfold s_clear. split; unfold cap in *; simpl.
  - lia.
  - apply Forall_app; split; [apply zeros_bytes|by apply Forall_drop].
  - intros i Hi. rewrite length_app, length_replicate, length_drop in Hi.
    destruct (decide (i < slen s)%nat).
    + rewrite lookup_app_l by (rewrite length_replicate; lia).
      apply lookup_replicate. split; [done|lia].
    + rewrite lookup_app_r by (rewrite length_replicate; lia).
      rewrite length_replicate, lookup_drop. apply Hz. lia.
Qed.

Lemma write_ok s lo l :
  slice_ok s -> Forall is_byte l -> 0 <= lo -> (Z.to_nat lo + length l <= slen s)%nat ->
  slice_ok (s_write s lo l).
Proof.
  intros [Hl Hb Hz] Hlb Hlo Hle. unfold s_write. split; unfold cap in *; simpl.
  - rewrite !length_app, length_take, length_drop. lia.
  - rewrite !Forall_app. split_and!; [by apply Forall_take|done|by apply Forall_drop].
  - intros i Hi. rewrite !length_app, length_take, length_drop in Hi.
    rewrite lookup_app_r, length_take by (rewrite length_take; lia).
    rewrite lookup_app_r by lia. rewrite lookup_drop.
    rewrite <- (Hz i) by lia. f_equal. lia.
Qed.

Lemma write_view s lo l :
  slice_ok s -> 0 <= lo -> (Z.to_nat lo + length l <= slen s)%nat ->
  view (s_write s lo l) =
  take (Z.to_nat lo) (view s) ++ l ++ drop (Z.to_nat lo + length l) (view s).
Proof.
  intros [Hl Hb Hz] Hlo Hle. unfold s_write, view; simpl. unfold cap in Hl.
  rewrite take_take, Nat.min_l by lia.
  assert (Ht : length (take (Z.to_nat lo) (arr s)) = Z.to_nat lo) by (rewrite length_take; lia).
  replace (slen s) with (length (take (Z.to_nat lo) (arr s)) +
    (length l + (slen s - Z.to_nat lo - length l)))%nat at 1 by lia.
  rewrite !take_app_add. f_equal. f_equal. rewrite take_drop_commute. f_equal. f_equal. lia.
Qed.

Lemma write_len s lo l : slen (s_write s lo l) = slen s.
Proof. done. Qed.

End extend.

(** The jump-destination bitmap of src/tievm/evm/execute/bitmap.go, and the
    proof that it marks exactly the JUMPDEST bytes that are instructions. *)

Module Bitmap.
Section bitmap.
Context `{Runtime}.

Definition bitmapSize : Z := 8.

(** A Go [bitmap] is its [buf]. *)
Definition isSet (b : slice) (i : Z) : option bool :=
  match s_get b (i / bitmapSize) with
  | Some v => Some (negb (Z.land v (Z.shiftl 1 (i mod bitmapSize)) =? 0))
  | None => None
  end.

Definition set (b : slice) (i : Z) : option slice :=
  match s_get b (i / bitmapSize) with
  | Some v => s_set b (i / bitmapSize) (Z.lor v (Z.shiftl 1 (i mod bitmapSize)))
  | None => None
  end.

Definition reset (b : slice) : slice := s_clear b.

Definition isPushOp (i : Z) : bool := Z.shiftr i 5 =? 3.

(** The loop of [setCode] from position [i]; [fuel] bounds its iterations. *)
Fixpoint setCode_loop (fuel : nat) (code : list Z) (i : Z) (b : slice) : outcome slice :=
  if i <? Z.of_nat (length code) then
    match fuel with
    | O => OutOfFuel
    | S fuel' =>
      match code !! Z.to_nat i with
      | None => Panic
      | Some c =>
        if isPushOp c then setCode_loop fuel' code (i + byte_of (c - 96 + 2)) b
        else if c =? 91 then
          match set b i with
          | None => Panic
          | Some b' => setCode_loop fuel' code (i + 1) b'
          end
        else setCode_loop fuel' code (i + 1) b
      end
    end
  else Ok b.

Definition setCode (b : slice) (code : list Z) : outcome slice :=
  let codeSize := Z.of_nat (length code) in
  setCode_loop (length code) code 0
    (extendByteSlice b (Z.to_nat (codeSize / bitmapSize + 1))).

(** ** Specification: the positions at which an instruction starts *)

(** The length of the instruction at a byte: PUSH1..PUSH32 (96..127) carry
    1..32 bytes of immediate data. *)
Definition inst_len (c : Z) : nat :=
  if (96 <=? c) && (c <=? 127) then Z.to_nat (c - 96 + 2) else 1%nat.

Inductive inst_start (code : list Z) : nat -> Prop :=
| start_first : inst_start code 0
| start_next i c :
    inst_start code i -> code !! i = Some c -> inst_start code (i + inst_len c).

Definition jumpdest (code : list Z) (i : nat) : Prop :=
  inst_start code i /\ code !! i = Some 91.

(** ** Lemmas *)

Definition bit (b : slice) (k : nat) : bool :=
  match arr b !! (k / 8)%nat with Some v => Z.testbit v (Z.of_nat (k mod 8)) | None => false end.

Lemma isPushOp_range c : is_byte c -> isPushOp c = (96 <=? c) && (c <=? 127).
Proof.
  unfold is_byte, isPushOp. intros. rewrite Z.shiftr_div_pow2 by lia. change (2 ^ 5) with 32.
  destruct (Z.leb_spec 96 c), (Z.leb_spec c 127); simpl;
    apply Z.eqb_eq || apply Z.eqb_neq; Z.div_mod_to_equations; lia.
Qed.

Lemma land_bit v m : 0 <= m -> negb (Z.land v (Z.shiftl 1 m) =? 0) = Z.testbit v m.
Proof.
  intros Hm. rewrite Z.shiftl_1_l.
  destruct (Z.testbit v m) eqn:E.
  - apply negb_true_iff, Z.eqb_neq. intros H0.
    assert (Z.testbit (Z.land v (2 ^ m)) m = true).
    { rewrite Z.land_spec, E, Z.pow2_bits_true by done. done. }
    rewrite H0, Z.bits_0 in *. done.
  - apply negb_false_iff, Z.eqb_eq. apply Z.bits_inj'. intros n Hn.
    rewrite Z.land_spec, Z.bits_0, Z.pow2_bits_eqb by done.
    destruct (Z.eqb_spec m n) as [->|]; [by rewrite E|by rewrite andb_false_r].
Qed.

Lemma isSet_bit b k :
  (k / 8 < slen b)%nat -> (slen b <= cap b)%nat -> isSet b (Z.of_nat k) = Some (bit b k).
Proof.
  intros Hk Hc. unfold isSet, s_get, bit, bitmapSize.
  replace (Z.of_nat k / 8) with (Z.of_nat (k / 8)) by (rewrite Nat2Z.inj_div; done).
  replace (Z.of_nat k mod 8) with (Z.of_nat (k mod 8)) by (rewrite Nat2Z.inj_mod; done).
  rewrite (proj2 (Z.leb_le _ _)), (proj2 (Z.ltb_lt _ _)) by lia. cbn [andb].
  rewrite Nat2Z.id. destruct (lookup_lt_is_Some_2 (arr b) (k / 8)) as [v Hv].
  { unfold cap in Hc. lia. }
  rewrite Hv, land_bit by lia. done.
Qed.

Lemma set_bit b k :
  slice_ok b -> (k / 8 < slen b)%nat ->
  exists b', set b (Z.of_nat k) = Some b' /\ slice_ok b' /\ slen b' = slen b /\
    forall j, bit b' j = (bit b j || (j =? k)%nat).
Proof.
  intros [Hl Hb Hz] Hk. unfold set, s_get, s_set, bitmapSize.
  replace (Z.of_nat k / 8) with (Z.of_nat (k / 8)) by (rewrite Nat2Z.inj_div; done).
  replace (Z.of_nat k mod 8) with (Z.of_nat (k mod 8)) by (rewrite Nat2Z.inj_mod; done).
  rewrite (proj2 (Z.leb_le _ _)), (proj2 (Z.ltb_lt _ _)) by lia. cbn [andb]. rewrite Nat2Z.id.
  unfold cap in *.
  destruct (lookup_lt_is_Some_2 (arr b) (k / 8)) as [v Hv]; [lia|]. rewrite Hv.
  pose proof (Nat.mod_upper_bound k 8 ltac:(lia)) as Hm.
  assert (Hvb : is_byte v) by (eapply Forall_lookup_1; eauto).
  eexists; split; [done|]. split; [split; unfold cap; cbn [arr slen]|split; [done|]].
  - rewrite length_insert. lia.
  - apply Forall_insert; [done|]. unfold is_byte in *. rewrite Z.shiftl_1_l.
    split; [apply Z.lor_nonneg; split; [lia|apply Z.pow_nonneg; lia]|].
    apply (Z.log2_lt_cancel _ 256).
    rewrite Z.log2_lor, Z.log2_pow2 by (try apply Z.pow_nonneg; lia).
    change (Z.log2 256) with 8. apply Z.max_lub_lt; [|lia].
    destruct (decide (v = 0)) as [->|]; [simpl; lia|]. apply Z.log2_lt_pow2; lia.
  - intros i. rewrite length_insert. intros Hi.
    rewrite list_lookup_insert_ne by lia. apply Hz. lia.
  - intros j. unfold bit; cbn [arr]. destruct (decide (j / 8 = k / 8)%nat) as [Heq|Hne].
    + rewrite Heq, list_lookup_insert_eq, Hv by lia.
      rewrite Z.lor_spec, Z.shiftl_1_l, Z.pow2_bits_eqb by lia. f_equal.
      pose proof (Nat.div_mod_eq j 8). pose proof (Nat.div_mod_eq k 8).
      destruct (Z.eqb_spec (Z.of_nat (k mod 8)) (Z.of_nat (j mod 8))), (Nat.eqb_spec j k);
        try done; subst; lia.
    + rewrite list_lookup_insert_ne by done.
      destruct (Nat.eqb_spec j k); [subst; done|]. by rewrite orb_false_r.
Qed.

(** Instruction starts are separated by whole instructions. *)
Lemma inst_start_gap code i k c :
  inst_start code i -> inst_start code k -> code !! i = Some c -> (i < k)%nat ->
  (i + inst_len c <= k)%nat.
Proof.
  remember (i + k)%nat as N eqn:HN. assert (i + k <= N)%nat as Hle by lia. clear HN.
  revert i k c Hle. induction N as [|N IH]; intros i k c Hle Hi Hk Hc Hlt; [lia|].
  inversion Hk as [|k' c' Hk' Hc']; subst; [lia|].
  assert (1 <= inst_len c')%nat by (unfold inst_len; case_match; lia).
  destruct (lt_eq_lt_dec i k') as [[Hik| ->]|Hki].
  - specialize (IH i k' c ltac:(lia) Hi Hk' Hc Hik). lia.
  - rewrite Hc in Hc'. injection Hc' as ->. lia.
  - specialize (IH k' i c' ltac:(lia) Hk' Hi Hc' Hki). lia.
Qed.

Lemma inst_len_step c : is_byte c -> isPushOp c = true -> byte_of (c - 96 + 2) = Z.of_nat (inst_len c).
Proof.
  intros Hc Hp. rewrite isPushOp_range in Hp by done. unfold inst_len. rewrite Hp.
  apply andb_true_iff in Hp as [?%Z.leb_le ?%Z.leb_le].
  unfold byte_of. rewrite Z.mod_small by lia. lia.
Qed.

Lemma inst_len_one c : is_byte c -> isPushOp c = false -> inst_len c = 1%nat.
Proof. intros Hc Hp. rewrite isPushOp_range in Hp by done. unfold inst_len. by rewrite Hp. Qed.

(** What the loop has established once it stands at position [i]. *)
Definition marked (code : list Z) (i : nat) (b : slice) : Prop :=
  slice_ok b /\ slen b = (length code / 8 + 1)%nat /\ inst_start code i /\
  forall k, bit b k = true <-> (k < i)%nat /\ jumpdest code k.

Lemma marked_step code i c b :
  marked code i b -> code !! i = Some c -> c <> 91 -> marked code (i + inst_len c) b.
Proof.
  intros (Hok & Hlen & Hi & Hm) Hc Hne. split_and!; [done|done|by eapply start_next|].
  intros k. rewrite Hm. split; intros [Hk Hj]; split; try done; [lia|].
  destruct (lt_eq_lt_dec k i) as [[?| ->]|Hik]; [lia| |].
  - destruct Hj as [_ Hj]. congruence.
  - pose proof (inst_start_gap code i k c Hi (proj1 Hj) Hc Hik). lia.
Qed.

Lemma marked_dest code i b :
  marked code i b -> code !! i = Some 91 ->
  exists b', set b (Z.of_nat i) = Some b' /\ marked code (i + 1) b'.
Proof.
  intros (Hok & Hlen & Hi & Hm) Hc. pose proof (lookup_lt_Some _ _ _ Hc).
  destruct (set_bit b i Hok) as (b' & Hs & Hok' & Hlen' & Hbit).
  { rewrite Hlen. pose proof (Nat.Div0.div_le_mono i (length code) 8). lia. }
  exists b'. split; [done|]. split_and!; [done|congruence| |].
  { apply (start_next code i 91); done. }
  intros k. rewrite Hbit, orb_true_iff, Nat.eqb_eq, Hm. split.
  - intros [[? ?]| ->]; split; try done; lia.
  - intros [Hk Hj]. destruct (decide (k = i)) as [->|]; [by right|left; split; [lia|done]].
Qed.

Lemma setCode_loop_marked fuel code i b :
  Forall is_byte code -> (length code <= fuel + i)%nat -> marked code i b ->
  exists b' i', setCode_loop fuel code (Z.of_nat i) b = Ok b' /\
    marked code i' b' /\ (length code <= i')%nat.
Proof.
  intros Hcode. revert i b. induction fuel as [|fuel IH]; intros i b Hf Hm; cbn [setCode_loop].
  - destruct (Z.ltb_spec (Z.of_nat i) (Z.of_nat (length code))); [lia|].
    exists b, i. split; [done|split; [done|lia]].
  - destruct (Z.ltb_spec (Z.of_nat i) (Z.of_nat (length code))).
    2:{ exists b, i. split; [done|split; [done|lia]]. }
    rewrite Nat2Z.id. destruct (lookup_lt_is_Some_2 code i) as [c Hc]; [lia|]. rewrite Hc.
    assert (Hb : is_byte c) by (eapply Forall_lookup_1; eauto).
    destruct (isPushOp c) eqn:Hp.
    + rewrite inst_len_step by done. rewrite <- Nat2Z.inj_add. apply IH.
      * assert (1 <= inst_len c)%nat by (unfold inst_len; case_match; lia). lia.
      * apply marked_step; [done|done|]. rewrite isPushOp_range in Hp by done.
        intros ->. by vm_compute in Hp.
    + pose proof (inst_len_one c Hb Hp) as H1.
      replace (Z.of_nat i + 1) with (Z.of_nat (i + 1)) by lia.
      destruct (Z.eqb_spec c 91) as [->|Hne].
      * destruct (marked_dest code i b Hm Hc) as (b' & -> & Hm'). apply IH; [lia|done].
      * apply IH; [lia|]. rewrite <- H1. by apply marked_step.
Qed.

Lemma setCode_ok b code :
  Forall is_byte code -> slice_ok b -> slen b = 0%nat ->
  exists b', setCode b code = Ok b' /\ slice_ok b' /\ slen b' = (length code / 8 + 1)%nat /\
    forall k, (k < length code)%nat -> bit b' k = true <-> jumpdest code k.
Proof.
  intros Hcode Hb H0. unfold setCode, bitmapSize.
  replace (Z.to_nat (Z.of_nat (length code) / 8 + 1)) with (length code / 8 + 1)%nat.
  2:{ rewrite Z2Nat.inj_add by (try apply Z.div_pos; lia).
      change 8 with (Z.of_nat 8). rewrite <- Nat2Z.inj_div, Nat2Z.id. done. }
  set (e := extendByteSlice b (length code / 8 + 1)).
  assert (He : slice_ok e) by (apply extend_ok; [done|lia]).
  destruct (setCode_loop_marked (length code) code 0 e) as (b' & i' & Hrun & Hm & Hi'); [done|lia| |].
  { split_and!; [done|apply extend_len|constructor|]. intros k. split; [|lia].
    unfold bit. intros Hk. exfalso. destruct (arr e !! (k / 8)%nat) as [v|] eqn:Ev; [|done].
    assert (v = 0) as ->; [|by rewrite Z.bits_0 in Hk].
    pose proof (lookup_lt_Some _ _ _ Ev) as Hlt.
    destruct (decide (k / 8 < slen e)%nat) as [Hin|].
    - pose proof (extend_view b (length code / 8 + 1) Hb ltac:(lia)) as Hv. fold e in Hv.
      assert (view e !! (k / 8)%nat = Some v) as Hve.
      { unfold view. by rewrite lookup_take_lt. }
      rewrite Hv in Hve. unfold view in Hve. rewrite H0 in Hve. simpl in Hve.
      apply lookup_replicate in Hve as [-> _]. done.
    - pose proof (slice_zero _ He (k / 8)) as Hz. unfold cap in Hz.
      rewrite Hz in Ev by lia. congruence. }
  destruct Hm as (Hok' & Hlen' & _ & Hm). exists b'. split_and!; [exact Hrun|done|done|].
  intros k Hk. rewrite Hm. split; [by intros [_ ?]|]. intros Hj; split; [lia|done].
Qed.

End bitmap.
End Bitmap.
