(* ===== verification/VM.v ===== *)
(** The virtual machine's per-call state of src/tievm/evm/execute/state.go: its
    stack, its memory with the gas charged for growing it, its gas counter and
    its jump-destination test.  Code that mutates the state is written in a
    state monad over the machine's state and the host's. *)

From Stdlib Require Import ZArith Lia.
From stdpp Require Import base list numbers.
From S2P Require Import Prelude Types Slice.

Open Scope Z_scope.

Definition stackSize : Z := 1024.

(** The Go [state].  The pointer fields [host] and [evm] are not part of it: the
    host's state is threaded beside it, and [evm] is never read.  [stack] holds
    the [sp] live slots, top first. *)
Record state := mkState {
  ip : Z;
  code : list Z;
  tmp : list Z;
  msg : Contract;
  config : ForksInTime;
  memory : slice;
  lastGasCost : Z;
  stack : list Z;
  err : option vmerror;
  stop : bool;
  gas : Z;
  bmap : slice;
  returnData : list Z;
  retv : list Z
}.

Definition set_ip (v : Z) (c : state) : state :=
  mkState v (code c) (tmp c) (msg c) (config c) (memory c) (lastGasCost c) (stack c) (err c) (stop c) (gas c) (bmap c) (returnData c) (retv c).
Definition set_tmp (v : list Z) (c : state) : state :=
  mkState (ip c) (code c) v (msg c) (config c) (memory c) (lastGasCost c) (stack c) (err c) (stop c) (gas c) (bmap c) (returnData c) (retv c).
Definition set_memory (v : slice) (c : state) : state :=
  mkState (ip c) (code c) (tmp c) (msg c) (config c) v (lastGasCost c) (stack c) (err c) (stop c) (gas c) (bmap c) (returnData c) (retv c).
Definition set_lastGasCost (v : Z) (c : state) : state :=
  mkState (ip c) (code c) (tmp c) (msg c) (config c) (memory c) v (stack c) (err c) (stop c) (gas c) (bmap c) (returnData c) (retv c).
Definition set_stack (v : list Z) (c : state) : state :=
  mkState (ip c) (code c) (tmp c) (msg c) (config c) (memory c) (lastGasCost c) v (err c) (stop c) (gas c) (bmap c) (returnData c) (retv c).
Definition set_err (v : option vmerror) (c : state) : state :=
  mkState (ip c) (code c) (tmp c) (msg c) (config c) (memory c) (lastGasCost c) (stack c) v (stop c) (gas c) (bmap c) (returnData c) (retv c).
Definition set_stop (v : bool) (c : state) : state :=
  mkState (ip c) (code c) (tmp c) (msg c) (config c) (memory c) (lastGasCost c) (stack c) (err c) v (gas c) (bmap c) (returnData c) (retv c).
Definition set_gas (v : Z) (c : state) : state :=
  mkState (ip c) (code c) (tmp c) (msg c) (config c) (memory c) (lastGasCost c) (stack c) (err c) (stop c) v (bmap c) (returnData c) (retv c).
Definition set_bmap (v : slice) (c : state) : state :=
  mkState (ip c) (code c) (tmp c) (msg c) (config c) (memory c) (lastGasCost c) (stack c) (err c) (stop c) (gas c) v (returnData c) (retv c).
Definition set_returnData (v : list Z) (c : state) : state :=
  mkState (ip c) (code c) (tmp c) (msg c) (config c) (memory c) (lastGasCost c) (stack c) (err c) (stop c) (gas c) (bmap c) v (retv c).
Definition set_retv (v : list Z) (c : state) : state :=
  mkState (ip c) (code c) (tmp c) (msg c) (config c) (memory c) (lastGasCost c) (stack c) (err c) (stop c) (gas c) (bmap c) (returnData c) v.

(** ** The monad *)

Section monad.
Context {H : Type}.

Definition M (A : Type) : Type := state -> H -> outcome (A * state * H).

Definition ret {A} (a : A) : M A := fun c h => Ok (a, c, h).
Definition bind {A B} (m : M A) (k : A -> M B) : M B :=
  fun c h => match m c h with
             | Ok (a, c', h') => k a c' h'
             | Panic => Panic
             | OutOfFuel => OutOfFuel
             end.
Definition panic {A} : M A := fun _ _ => Panic.
Definition gets {A} (f : state -> A) : M A := fun c h => Ok (f c, c, h).
Definition modify (f : state -> state) : M unit := fun c h => Ok (tt, f c, h).

(** A pointer that is dereferenced, an index that must be in range. *)
Definition deref {A} (o : option A) : M A :=
  match o with Some a => ret a | None => panic end.

(** Host calls that read, that change the host's state, and that can panic. *)
Definition hread {A} (f : H -> A) : M A := fun c h => Ok (f h, c, h).
Definition hact {A} (f : H -> A * H) : M A :=
  fun c h => let '(a, h') := f h in Ok (a, c, h').
Definition hcall {A} (f : H -> outcome (A * H)) : M A :=
  fun c h => match f h with
             | Ok (a, h') => Ok (a, c, h')
             | Panic => Panic
             | OutOfFuel => OutOfFuel
             end.
End monad.
Arguments M H A : clear implicits.

Declare Scope vm_scope.
Delimit Scope vm_scope with vm.
Notation "'let!' x := m 'in' k" := (bind m (fun x => k))
  (at level 10, x pattern, m at level 100, k at level 200) : vm_scope.
Notation "m ;; k" := (bind m (fun _ => k))
  (at level 100, k at level 200, right associativity) : vm_scope.
Open Scope vm_scope.

(** ** Operations of the state *)

Section ops.
Context {H : Type} `{Runtime}.
Abbreviation M := (M H).

Definition halt : M unit := modify (set_stop true).

(** [exit] panics on a nil error; every call site passes an error value. *)
Definition exit (e : vmerror) : M unit :=
  modify (fun c => set_err (Some e) (set_stop true c)).

(** [push1().Set(v)], which is [push]. *)
Definition push (v : Z) : M unit := modify (fun c => set_stack (v :: stack c) c).

Definition stackAtLeast (n : Z) : M bool := gets (fun c => n <=? len (stack c)).

(** [pop] and [top] return nil on an empty stack. *)
Definition pop : M (option Z) :=
  fun c h => match stack c with
             | [] => Ok (None, c, h)
             | v :: s => Ok (Some v, set_stack s c, h)
             end.

Definition top : M (option Z) := gets (fun c => head (stack c)).

(** A [pop] or [top] whose result is dereferenced, and a write through the
    pointer [top] returned. *)
Definition popv : M Z := let! o := pop in deref o.
Definition topv : M Z := let! o := top in deref o.
Definition set_top (v : Z) : M unit :=
  modify (fun c => set_stack (v :: tail (stack c)) c).

Definition popHash : M Hash := let! b := popv in ret (BytesToHash (big_Bytes b)).

Definition popAddr : M (Address * bool) :=
  let! b := pop in
  match b with
  | None => ret (0, false)
  | Some v => ret (BytesToAddress (big_Bytes v), true)
  end.

(** [stack[sp-n]]. *)
Definition peekAt (n : nat) : M Z :=
  let! s := gets stack in
  match n with O => panic | S m => deref (s !! m) end.

Definition list_swap (n : nat) (s : list Z) : option (list Z) :=
  match s !! 0%nat, s !! n with
  | Some a, Some b => Some (<[n := a]> (<[0%nat := b]> s))
  | _, _ => None
  end.

Definition swap (n : nat) : M unit :=
  let! s := gets stack in
  let! s' := deref (list_swap n s) in
  modify (set_stack s').

Definition consumeGas (g : Z) : M bool :=
  let! cg := gets gas in
  if cg <? g then exit ErrOutOfGas ;; ret false
  else modify (set_gas (uint64 (cg - g))) ;; ret true.

(** [c.gas += g]. *)
Definition addGas (g : Z) : M unit := modify (fun c => set_gas (uint64 (gas c + g)) c).

Definition resetReturnData : M unit := modify (set_returnData []).

Definition validJumpdest (dest : Z) : M bool :=
  let udest := big.Uint64 dest in
  let! c := gets (fun c => c) in
  if (63 <=? big.BitLen dest) || (len (code c) <=? udest) then ret false
  else deref (Bitmap.isSet (bmap c) udest).

Definition inStaticCall : M bool := gets (fun c => cStatic (msg c)).

Definition bigToHash (b : Z) : Hash := BytesToHash (big_Bytes b).

Definition memLen : M Z := gets (fun c => Z.of_nat (slen (memory c))).

(** The total gas price of a memory of [w] words, in uint64 arithmetic. *)
Definition memCost (w : Z) : Z := uint64 (uint64 (3 * w) + uint64 (w * w) / 512).

Definition checkMemory (offset size : Z) : M bool :=
  if Z.sgn size =? 0 then ret true
  else if negb (big.IsUint64 offset) || negb (big.IsUint64 size) then
    exit errGasUintOverflow ;; ret false
  else
    let o := big.Uint64 offset in
    let s := big.Uint64 size in
    if (0xffffffffe0 <? o) || (0xffffffffe0 <? s) then
      exit errGasUintOverflow ;; ret false
    else
      let newSize := uint64 (o + s) in
      let! m := memLen in
      if m <? newSize then
        let w := uint64 (newSize + 31) / 32 in
        let newCost := memCost w in
        let! last := gets lastGasCost in
        let cost := uint64 (newCost - last) in
        modify (set_lastGasCost newCost) ;;
        let! ok := consumeGas cost in
        if negb ok then exit ErrOutOfGas ;; ret false
        else
          modify (fun c => set_memory
            (extendByteSlice (memory c) (Z.to_nat (uint64 (w * 32)))) c) ;;
          ret true
      else ret true.

Definition get2 (dst : list Z) (offset length : Z) : M (list Z * bool) :=
  if Z.sgn length =? 0 then ret ([], true)
  else
    let! ok := checkMemory offset length in
    if negb ok then ret ([], false)
    else
      let o := big.Uint64 offset in
      let l := big.Uint64 length in
      let! m := gets memory in
      let! part := deref (s_range m o (uint64 (o + l))) in
      ret (dst ++ part, true).

(** [reset]: what a released state looks like when it returns to the pool. *)
Definition reset (c : state) : state :=
  mkState 0 [] [] (msg c) (config c) (s_clear (memory c)) 0 [] None false 0
    (Bitmap.reset (bmap c)) (returnData c) [].

End ops.
