(* ===== verification/Instructions.v ===== *)
(** The instructions of src/tievm/evm/execute/instructions.go, one definition
    per Go function, over the state monad of [VM]. *)

From Stdlib Require Import ZArith Lia.
From stdpp Require Import base list numbers.
From S2P Require Import Prelude Types Slice VM Opcodes.

Open Scope Z_scope.
Open Scope vm_scope.

(** ** Arithmetic helpers *)

Definition wordSize : Z := 32.
Definition tt256 : Z := Z.shiftl 1 256.
Definition tt256m1 : Z := tt256 - 1.

Definition toU256 (x : Z) : Z :=
  if (Z.sgn x <? 0) || (256 <? big.BitLen x) then Z.land x tt256m1 else x.

Definition to256 (x : Z) : Z := if 255 <? big.BitLen x then x - tt256 else x.

Definition equalOrOverflowsUint256 (b : Z) : bool := 8 <? big.BitLen b.

Definition bool_word (b : bool) : Z := if b then 1 else 0.

(** The 64 rounds of square-and-multiply on one word of the exponent. *)
Fixpoint exp_rounds (n : nat) (d z x : Z) : Z * Z :=
  match n with
  | O => (z, x)
  | S n' =>
    let z := if Z.land d 1 =? 1 then toU256 (z * x) else z in
    exp_rounds n' (Z.shiftr d 1) z (toU256 (x * x))
  end.

Definition exp_words (ds : list Z) (z x : Z) : Z * Z :=
  foldl (fun '(z, x) d => exp_rounds 64 d z x) (z, x) ds.

(** ** Byte-buffer helpers *)

Definition go_copy (dst src : list Z) : list Z :=
  let n := Nat.min (length dst) (length src) in take n src ++ drop n dst.

(** [for i := 0; i < n; i++ { dst[i] = 0 }]. *)
Fixpoint zero_fill (n : nat) (dst : list Z) : option (list Z) :=
  match n with
  | O => Some dst
  | S n' => match dst with
            | [] => None
            | _ :: t => match zero_fill n' t with Some t' => Some (0 :: t') | None => None end
            end
  end.

Definition l_from (l : list Z) (lo : Z) : option (list Z) :=
  if (0 <=? lo) && (lo <=? len l) then Some (drop (Z.to_nat lo) l) else None.

Definition l_range (l : list Z) (lo hi : Z) : option (list Z) :=
  if (0 <=? lo) && (lo <=? hi) && (hi <=? len l)
  then Some (take (Z.to_nat (hi - lo)) (drop (Z.to_nat lo) l)) else None.

Definition go_min (i j : Z) : Z := if i <? j then i else j.

(** The bytes of [dst] after the call, [None] when an index is out of range. *)
Definition setBytes (dst input : list Z) (size dataOffset : Z) : option (list Z) :=
  if negb (big.IsUint64 dataOffset) then zero_fill (Z.to_nat size) dst
  else
    let inputSize := len input in
    let begin := go_min (big.Uint64 dataOffset) inputSize in
    let copySize := go_min size (inputSize - begin) in
    let dst :=
      if 0 <? copySize
      then match l_range input begin (begin + copySize) with
           | Some part => Some (go_copy dst part)
           | None => None
           end
      else Some dst in
    match dst with
    | None => None
    | Some dst =>
      if 0 <? size - copySize then
        match l_from dst copySize with
        | None => None
        | Some rest =>
          match zero_fill (Z.to_nat (size - copySize)) rest with
          | None => None
          | Some rest' => Some (take (Z.to_nat copySize) dst ++ rest')
          end
        end
      else Some dst
    end.

(** [buf[i] = v]. *)
Definition buf_set (buf : list Z) (i v : Z) : option (list Z) :=
  if (0 <=? i) && (i <? len buf) then Some (<[Z.to_nat i := v]> buf) else None.

(** The loops of opMStore: [n] bytes of the word [d] before position [i], then
    every word of the value, then zeros down to position 0. *)
Fixpoint mstore_word (n : nat) (d i : Z) (buf : list Z) : option (Z * list Z) :=
  match n with
  | O => Some (i, buf)
  | S n' =>
    match buf_set buf (i - 1) (byte_of d) with
    | None => None
    | Some buf' => mstore_word n' (Z.shiftr d 8) (i - 1) buf'
    end
  end.

Fixpoint mstore_words (ds : list Z) (i : Z) (buf : list Z) : option (Z * list Z) :=
  match ds with
  | [] => Some (i, buf)
  | d :: ds' =>
    match mstore_word 8 d i buf with
    | None => None
    | Some (i', buf') => mstore_words ds' i' buf'
    end
  end.

Fixpoint mstore_zeros (n : nat) (buf : list Z) : option (list Z) :=
  match n with
  | O => Some buf
  | S n' =>
    match buf_set buf (Z.of_nat n') 0 with
    | None => None
    | Some buf' => mstore_zeros n' buf'
    end
  end.

Definition mstore_buf (val : Z) (buf : list Z) : option (list Z) :=
  match mstore_words (big_Bits val) 32 buf with
  | None => None
  | Some (i, buf') => mstore_zeros (Z.to_nat i) buf'
  end.

(** ** Changes to a freshly built contract *)

Definition with_type (t : CallType) (k : Contract) : Contract :=
  mkContract (cCode k) t (cCodeAddress k) (cAddress k) (cOrigin k) (cCaller k)
    (cDepth k) (cValue k) (cInput k) (cGas k) (cStatic k).
Definition with_static (b : bool) (k : Contract) : Contract :=
  mkContract (cCode k) (cType k) (cCodeAddress k) (cAddress k) (cOrigin k) (cCaller k)
    (cDepth k) (cValue k) (cInput k) (cGas k) b.
Definition with_address (a : Address) (k : Contract) : Contract :=
  mkContract (cCode k) (cType k) (cCodeAddress k) a (cOrigin k) (cCaller k)
    (cDepth k) (cValue k) (cInput k) (cGas k) (cStatic k).
Definition with_value_caller (v : option Z) (a : Address) (k : Contract) : Contract :=
  mkContract (cCode k) (cType k) (cCodeAddress k) (cAddress k) (cOrigin k) a
    (cDepth k) v (cInput k) (cGas k) (cStatic k).

Section instructions.
Context {H : Type} `{Host H} `{Runtime}.
Abbreviation M := (M H).

(** The active forks, the message being executed. *)
Definition cfg : M ForksInTime := gets config.
Definition this : M Contract := gets msg.

(** ** Arithmetic, comparison and bit operations *)

Definition opAdd : M unit :=
  let! a := popv in let! b := topv in set_top (toU256 (a + b)).

Definition opMul : M unit :=
  let! a := popv in let! b := topv in set_top (toU256 (a * b)).

Definition opSub : M unit :=
  let! a := popv in let! b := topv in set_top (toU256 (a - b)).

Definition opDiv : M unit :=
  let! a := popv in let! b := topv in
  if Z.sgn b =? 0 then set_top 0 else set_top (toU256 (big.Div a b)).

Definition opSDiv : M unit :=
  let! a := popv in let! b := topv in
  let a := to256 a in
  let b := to256 b in
  if Z.sgn b =? 0 then set_top 0
  else
    let neg := negb (Z.sgn a =? Z.sgn b) in
    let q := big.Div (Z.abs a) (Z.abs b) in
    set_top (toU256 (if neg then - q else q)).

Definition opMod : M unit :=
  let! a := popv in let! b := topv in
  if Z.sgn b =? 0 then set_top 0 else set_top (toU256 (big.Mod a b)).

Definition opSMod : M unit :=
  let! a := popv in let! b := topv in
  let a := to256 a in
  let b := to256 b in
  if Z.sgn b =? 0 then set_top 0
  else
    let neg := Z.sgn a <? 0 in
    let r := big.Mod (Z.abs a) (Z.abs b) in
    set_top (toU256 (if neg then - r else r)).

Definition opExp : M unit :=
  let! x := popv in let! y := topv in
  let! f := cfg in
  let gas := if EIP158 f then 50 else 10 in
  let gasCost := uint64 (((big.BitLen y + 7) / 8) * gas) in
  let! ok := consumeGas gasCost in
  if negb ok then ret tt
  else set_top (fst (exp_words (big_Bits y) 1 x)).

Definition opAddMod : M unit :=
  let! a := popv in let! b := popv in let! z := topv in
  if Z.sgn z =? 0 then set_top 0 else set_top (toU256 (big.Mod (a + b) z)).

Definition opMulMod : M unit :=
  let! a := popv in let! b := popv in let! z := topv in
  if Z.sgn z =? 0 then set_top 0 else set_top (toU256 (big.Mod (a * b) z)).

Definition opAnd : M unit := let! a := popv in let! b := topv in set_top (Z.land a b).
Definition opOr : M unit := let! a := popv in let! b := topv in set_top (Z.lor a b).
Definition opXor : M unit := let! a := popv in let! b := topv in set_top (Z.lxor a b).

Definition opByteMask : Z := 255.

Definition opByte : M unit :=
  let! x := popv in let! y := topv in
  let indx := big.Int64 x in
  if 31 <? indx then set_top 0
  else
    let sh := int64 (int64 (31 - indx) * 8) in
    set_top (Z.land (Z.shiftr y (uint64 sh)) opByteMask).

Definition opNot : M unit := let! a := topv in set_top (toU256 (Z.lnot a)).

Definition opIsZero : M unit :=
  let! a := topv in if Z.sgn a =? 0 then set_top 1 else set_top 0.

Definition opEq : M unit :=
  let! a := popv in let! b := topv in set_top (bool_word (a =? b)).
Definition opLt : M unit :=
  let! a := popv in let! b := topv in set_top (bool_word (a <? b)).
Definition opGt : M unit :=
  let! a := popv in let! b := topv in set_top (bool_word (b <? a)).
Definition opSlt : M unit :=
  let! a := popv in let! b := topv in set_top (bool_word (to256 a <? to256 b)).
Definition opSgt : M unit :=
  let! a := popv in let! b := topv in set_top (bool_word (to256 b <? to256 a)).

Definition opSignExtension : M unit :=
  let! ext := popv in
  let! x := top in
  if wordSize <? ext then ret tt
  else
    match x with
    | None => ret tt
    | Some x =>
      let bit := uint64 (uint64 (big.Uint64 ext * 8) + 7) in
      let mask := Z.shiftl 1 bit - 1 in
      if Z.testbit x bit then set_top (toU256 (Z.lor x (Z.lnot mask)))
      else set_top (toU256 (Z.land x mask))
    end.

Definition opShl : M unit :=
  let! f := cfg in
  if negb (Constantinople f) then exit errOpCodeNotFound
  else
    let! shift := popv in let! value := topv in
    if equalOrOverflowsUint256 shift then set_top 0
    else set_top (toU256 (Z.shiftl value (big.Uint64 shift))).

Definition opShr : M unit :=
  let! f := cfg in
  if negb (Constantinople f) then exit errOpCodeNotFound
  else
    let! shift := popv in let! value := topv in
    if equalOrOverflowsUint256 shift then set_top 0
    else set_top (toU256 (Z.shiftr value (big.Uint64 shift))).

Definition opSar : M unit :=
  let! f := cfg in
  if negb (Constantinople f) then exit errOpCodeNotFound
  else
    let! shift := popv in let! v := topv in
    let value := to256 v in
    if equalOrOverflowsUint256 shift then
      if 0 <=? Z.sgn value then set_top 0 else set_top tt256m1
    else set_top (toU256 (Z.shiftr value (big.Uint64 shift))).

(** ** Memory *)

Definition opMload : M unit :=
  let! offset := popv in
  let! (t, ok) := get2 [] offset wordSize in
  modify (set_tmp t) ;;
  if negb ok then ret tt else push (be_decode t).

Definition opMStore : M unit :=
  let! offset := popv in let! val := popv in
  let! ok := checkMemory offset wordSize in
  if negb ok then ret tt
  else
    let o := big.Uint64 offset in
    let! m := gets memory in
    let! buf := deref (s_range m o (o + 32)) in
    let! buf' := deref (mstore_buf val buf) in
    modify (set_memory (s_write m o buf')).

Definition opMStore8 : M unit :=
  let! offset := popv in let! val := popv in
  let! ok := checkMemory offset 1 in
  if negb ok then ret tt
  else
    let! m := gets memory in
    let! m' := deref (s_set m (big.Uint64 offset) (byte_of (Z.land (big.Uint64 val) 255))) in
    modify (set_memory m').

(** ** Storage *)

Definition opSload : M unit :=
  let! loc := topv in
  let! f := cfg in
  let gas := if Istanbul f then 800 else if EIP150 f then 200 else 50 in
  let! ok := consumeGas gas in
  if negb ok then ret tt
  else
    let! k := this in
    let! val := hread (fun h => GetStorage h (cAddress k) (bigToHash loc)) in
    set_top (be_decode (Hash_Bytes val)).

Definition sstoreCost (f : ForksInTime) (status : StorageStatus) : Z :=
  let legacyGasMetering := negb (Istanbul f) && (Petersburg f || negb (Constantinople f)) in
  match status with
  | StorageUnchanged =>
    if Istanbul f then 800 else if legacyGasMetering then 5000 else 200
  | StorageModified => 5000
  | StorageModifiedAgain =>
    if Istanbul f then 800 else if legacyGasMetering then 5000 else 200
  | StorageAdded => 20000
  | StorageDeleted => 5000
  end.

Definition opSStore : M unit :=
  let! static := inStaticCall in
  if static then exit errWriteProtection
  else
    let! f := cfg in
    let! g := gets gas in
    if Istanbul f && (g <=? 2300) then exit ErrOutOfGas
    else
      let! key := popHash in
      let! val := popHash in
      let! k := this in
      let! status := hact (fun h => SetStorage h (cAddress k) key val f) in
      let! ok := consumeGas (sstoreCost f status) in
      ret tt.

Definition sha3WordGas : Z := 6.

Definition opSha3 : M unit :=
  let! offset := popv in let! length := popv in
  let! (t, ok) := get2 [] offset length in
  modify (set_tmp t) ;;
  if negb ok then ret tt
  else
    let size := big.Uint64 length in
    let! ok := consumeGas (uint64 ((uint64 (size + 31) / 32) * sha3WordGas)) in
    if negb ok then ret tt
    else
      let d := Keccak256 t in
      modify (set_tmp d) ;;
      push (be_decode d).

Definition opPop : M unit := let! _ := pop in ret tt.

(** ** Execution context *)

Definition opAddress : M unit :=
  let! k := this in push (be_decode (Address_Bytes (cAddress k))).

Definition opBalance : M unit :=
  let! (addr, _) := popAddr in
  let! f := cfg in
  let gas := if Istanbul f then 700 else if EIP150 f then 400 else 20 in
  let! ok := consumeGas gas in
  if negb ok then ret tt
  else let! b := hread (fun h => GetBalance h addr) in push b.

Definition opSelfBalance : M unit :=
  let! f := cfg in
  if negb (Istanbul f) then exit errOpCodeNotFound
  else
    let! k := this in
    let! b := hread (fun h => GetBalance h (cAddress k)) in push b.

Definition opChainID : M unit :=
  let! f := cfg in
  if negb (Istanbul f) then exit errOpCodeNotFound
  else let! x := hread GetTxContext in push (uint64 (txChainID x)).

Definition opOrigin : M unit :=
  let! x := hread GetTxContext in push (be_decode (Address_Bytes (txOrigin x))).

Definition opCaller : M unit :=
  let! k := this in push (be_decode (Address_Bytes (cCaller k))).

Definition opCallValue : M unit :=
  let! k := this in
  match cValue k with Some v => push v | None => push 0 end.

(** The pooled buffer is overwritten in full: its first 32 bytes stand for any. *)
Definition opCallDataLoad : M unit :=
  let! offset := topv in
  let! k := this in
  let! buf := deref (setBytes (replicate 32 0) (cInput k) 32 offset) in
  set_top (be_decode buf).

Definition opCallDataSize : M unit := let! k := this in push (len (cInput k)).
Definition opCodeSize : M unit := let! b := gets code in push (len b).

Definition opExtCodeSize : M unit :=
  let! (addr, _) := popAddr in
  let! f := cfg in
  let gas := if EIP150 f then 700 else 20 in
  let! ok := consumeGas gas in
  if negb ok then ret tt
  else let! n := hact (fun h => GetCodeSize h addr) in push (uint64 n).

Definition opGasPrice : M unit :=
  let! x := hread GetTxContext in push (be_decode (Hash_Bytes (txGasPrice x))).

Definition opReturnDataSize : M unit :=
  let! f := cfg in
  if negb (Byzantium f) then exit errOpCodeNotFound
  else let! d := gets returnData in push (len d).

Definition opExtCodeHash : M unit :=
  let! f := cfg in
  if negb (Constantinople f) then exit errOpCodeNotFound
  else
    let! (address, _) := popAddr in
    let gas := if Istanbul f then 700 else 400 in
    let! ok := consumeGas gas in
    if negb ok then ret tt
    else
      let! e := hread (fun h => Empty h address) in
      if e then push 0
      else let! d := hread (fun h => GetCodeHash h address) in push (be_decode (Hash_Bytes d)).

Definition opPC : M unit := let! i := gets ip in push (uint64 i).
Definition opMSize : M unit := let! m := memLen in push m.
Definition opGas : M unit := let! g := gets gas in push g.

(** ** Copies into memory *)

Definition copyGas : Z := 3.
Definition wordsGas (size unit : Z) : Z := uint64 ((uint64 (size + 31) / 32) * unit).

(** [c.setBytes(c.memory[memOffset:], data, size, dataOffset)]. *)
Definition mem_setBytes (memOffset : Z) (data : list Z) (size dataOffset : Z) : M unit :=
  let! m := gets memory in
  let! dst := deref (s_from m memOffset) in
  let! dst' := deref (setBytes dst data size dataOffset) in
  modify (set_memory (s_write m memOffset dst')).

Definition opExtCodeCopy : M unit :=
  let! (address, _) := popAddr in
  let! memOffset := popv in let! codeOffset := popv in let! length := popv in
  let! ok := checkMemory memOffset length in
  if negb ok then ret tt
  else
    let size := big.Uint64 length in
    let! ok := consumeGas (wordsGas size copyGas) in
    if negb ok then ret tt
    else
      let! f := cfg in
      let gas := if EIP150 f then 700 else 20 in
      let! ok := consumeGas gas in
      if negb ok then ret tt
      else
        let! ext := hact (fun h => GetCode h address) in
        if negb (size =? 0) then mem_setBytes (big.Uint64 memOffset) ext size codeOffset
        else ret tt.

Definition opCallDataCopy : M unit :=
  let! memOffset := popv in let! dataOffset := popv in let! length := popv in
  let! ok := checkMemory memOffset length in
  if negb ok then ret tt
  else
    let size := big.Uint64 length in
    let! ok := consumeGas (wordsGas size copyGas) in
    if negb ok then ret tt
    else
      let! k := this in
      if negb (size =? 0) then mem_setBytes (big.Uint64 memOffset) (cInput k) size dataOffset
      else ret tt.

(** The end of opReturnDataCopy, from [end := length.Add(dataOffset, length)] on. *)
Definition returnDataCopy (memOffset dataOffset length : Z) : M unit :=
  let fin := dataOffset + length in
  if negb (big.IsUint64 fin) then exit errReturnDataOutOfBounds
  else
    let size := big.Uint64 fin in
    let! rd := gets returnData in
    if len rd <? size then exit errReturnDataOutOfBounds
    else
      let! data := deref (l_range rd (big.Uint64 dataOffset) size) in
      let! m := gets memory in
      let! dst := deref (s_from m (big.Uint64 memOffset)) in
      modify (set_memory (s_write m (big.Uint64 memOffset) (go_copy dst data))).

Definition opReturnDataCopy : M unit :=
  let! f := cfg in
  if negb (Byzantium f) then exit errOpCodeNotFound
  else
    let! memOffset := popv in let! dataOffset := popv in let! length := popv in
    let! ok := checkMemory memOffset length in
    if negb ok then ret tt
    else
      let! ok := consumeGas (wordsGas (big.Uint64 length) copyGas) in
      if negb ok then ret tt
      else
        returnDataCopy memOffset dataOffset length.

Definition opCodeCopy : M unit :=
  let! memOffset := popv in let! dataOffset := popv in let! length := popv in
  let! ok := checkMemory memOffset length in
  if negb ok then ret tt
  else
    let size := big.Uint64 length in
    let! ok := consumeGas (wordsGas size copyGas) in
    if negb ok then ret tt
    else
      let! b := gets code in
      if negb (size =? 0) then mem_setBytes (big.Uint64 memOffset) b size dataOffset
      else ret tt.

(** ** Block information *)

Definition opBlockHash : M unit :=
  let! num := topv in
  if negb (big.IsInt64 num) then set_top 0
  else
    let n := big.Int64 num in
    let! x := hread GetTxContext in
    let lastBlock := txNumber x in
    if (int64 (lastBlock - 257) <? n) && (n <? lastBlock) then
      let! d := hread (fun h => GetBlockHash h n) in set_top (be_decode (Hash_Bytes d))
    else set_top 0.

Definition opCoinbase : M unit :=
  let! x := hread GetTxContext in push (be_decode (Address_Bytes (txCoinbase x))).
Definition opTimestamp : M unit := let! x := hread GetTxContext in push (txTimestamp x).
Definition opNumber : M unit := let! x := hread GetTxContext in push (txNumber x).
Definition opDifficulty : M unit :=
  let! x := hread GetTxContext in push (be_decode (Hash_Bytes (txDifficulty x))).
Definition opGasLimit : M unit := let! x := hread GetTxContext in push (txGasLimit x).

Definition opSelfDestruct : M unit :=
  let! static := inStaticCall in
  if static then exit errWriteProtection
  else
    let! (address, _) := popAddr in
    let! f := cfg in
    let! k := this in
    let! empty := hread (fun h => Empty h address) in
    let! balance := hread (fun h => GetBalance h (cAddress k)) in
    let! exists_ := hread (fun h => AccountExists h address) in
    let gas :=
      if EIP150 f then
        if EIP158 f then
          if empty && negb (Z.sgn balance =? 0) then 5000 + 25000 else 5000
        else if negb exists_ then 5000 + 25000 else 5000
      else 0 in
    let! ok := consumeGas gas in
    if negb ok then ret tt
    else
      hact (fun h => (tt, Selfdestruct h (cAddress k) address)) ;;
      halt.

(** ** Control flow and stack *)

Definition opJump : M unit :=
  let! dest := popv in
  let! ok := validJumpdest dest in
  if ok then modify (set_ip (int64 (big.Uint64 dest - 1)))
  else exit errInvalidJump.

Definition opJumpi : M unit :=
  let! dest := popv in let! cond := popv in
  if negb (Z.sgn cond =? 0) then
    let! ok := validJumpdest dest in
    if ok then modify (set_ip (int64 (big.Uint64 dest - 1)))
    else exit errInvalidJump
  else ret tt.

Definition opJumpDest : M unit := ret tt.

Definition opPush (n : Z) : M unit :=
  let! ins := gets code in
  let! i := gets ip in
  (if len ins <? i + 1 + n then
     let! rest := deref (l_from ins (i + 1)) in
     push (be_decode (rest ++ replicate (Z.to_nat n) 0))
   else
     let! part := deref (l_range ins (i + 1) (i + 1 + n)) in
     push (be_decode part)) ;;
  modify (fun c => set_ip (ip c + n) c).

Definition opDup (n : Z) : M unit :=
  let! ok := stackAtLeast n in
  if negb ok then exit ErrStackUnderflow
  else let! val := peekAt (Z.to_nat n) in push val.

Definition opSwap (n : Z) : M unit :=
  let! ok := stackAtLeast (n + 1) in
  if negb ok then exit ErrStackUnderflow
  else swap (Z.to_nat n).

(** The [size] topics popped by LOG<size>. *)
Fixpoint pop_topics (n : nat) : M (list Hash) :=
  match n with
  | O => ret []
  | S n' => let! v := popv in let! ts := pop_topics n' in ret (bigToHash v :: ts)
  end.

Definition opLog (size : Z) : M unit :=
  let size := size - 1 in
  let! static := inStaticCall in
  if static then exit errWriteProtection
  else
    let! ok := stackAtLeast (2 + size) in
    if negb ok then exit ErrStackUnderflow
    else
      let! mStart := popv in let! mSize := popv in
      let! topics := pop_topics (Z.to_nat size) in
      let! (t, ok) := get2 [] mStart mSize in
      modify (set_tmp t) ;;
      if negb ok then ret tt
      else
        let! k := this in
        hact (fun h => (tt, EmitLog h (cAddress k) topics t)) ;;
        let! ok := consumeGas (uint64 (uint64 size * 375)) in
        if negb ok then ret tt
        else let! _ := consumeGas (uint64 (big.Uint64 mSize * 8)) in ret tt.

Definition opStop : M unit := halt.

(** ** Contract creation *)

(** buildCreateContract after its operands are popped: the contract to run (nil
    when the instruction has already exited) and whether the function returned
    an error. *)
Definition buildCreate (op value offset length salt : Z) : M (option Contract * bool) :=
  let hasTransfer := negb (Z.sgn value =? 0) in
  let! (input, ok) := get2 [] offset length in
  if negb ok then ret (None, false)
  else
    let! ok := consumeGas 0 in
    if negb ok then ret (None, false)
    else
      let! k := this in
      let! balance := hread (fun h => GetBalance h (cAddress k)) in
      if hasTransfer && (balance <? value) then ret (None, true)
      else
        let! ok := (if op =? Op.CREATE2
                    then consumeGas (wordsGas (big.Uint64 length) sha3WordGas)
                    else ret true) in
        if negb ok then ret (None, false)
        else
          let! g := gets gas in
          let! f := cfg in
          let gas := if EIP150 f || (op =? Op.CREATE2) then uint64 (g - g / 64) else g in
          let! ok := consumeGas gas in
          if negb ok then ret (None, false)
          else
            let! nonce := hread (fun h => GetNonce h (cAddress k)) in
            let address :=
              if op =? Op.CREATE then CreateAddress (cAddress k) nonce
              else CreateAddress2 (cAddress k) (bigToHash salt) input in
            ret (Some (NewContractCreation (cDepth k + 1) (cOrigin k) (cAddress k)
                         address (Some value) gas input), false).

Definition buildCreateContract (op : Z) : M (option Contract * bool) :=
  let! value := popv in let! offset := popv in let! length := popv in
  let! salt := (if op =? Op.CREATE2 then popv else ret 0) in
  buildCreate op value offset length salt.

Definition opCreate (op : Z) : M unit :=
  let! static := inStaticCall in
  if static then exit errWriteProtection
  else
    let! f := cfg in
    if (op =? Op.CREATE2) && negb (Constantinople f) then exit errOpCodeNotFound
    else
      resetReturnData ;;
      let! (contract, error) := buildCreateContract op in
      if error then
        push 0 ;;
        match contract with Some k => addGas (cGas k) | None => ret tt end
      else
        match contract with
        | None => ret tt
        | Some k =>
          let k := with_type Create k in
          let! result := hcall (fun h => Callx h k) in
          (if (op =? Op.CREATE) && Homestead f &&
              bool_decide (Err result = Some ErrCodeStoreOutOfGas) then push 0
           else if Failed result && negb (bool_decide (Err result = Some ErrCodeStoreOutOfGas))
           then push 0
           else push (be_decode (Address_Bytes (cAddress k)))) ;;
          addGas (GasLeft result) ;;
          if Reverted result then modify (set_returnData (ReturnValue result)) else ret tt
        end.

(** ** Message calls *)

Definition call_is (op : Z) (a b : Z) : bool := (op =? a) || (op =? b).

(** The price of a call, before the gas it hands over. *)
Definition callCost (f : ForksInTime) (op : Z) (transfersValue empty exists_ : bool) : Z :=
  let gasCost := if EIP150 f then 700 else 40 in
  let gasCost :=
    if op =? Op.CALL then
      if EIP158 f then
        if transfersValue && empty then uint64 (gasCost + 25000) else gasCost
      else if negb exists_ then uint64 (gasCost + 25000) else gasCost
    else gasCost in
  if transfersValue then uint64 (gasCost + 9000) else gasCost.

(** The gas handed over; [None] is the out-of-gas exit before EIP-150. *)
Definition callGas (f : ForksInTime) (g gasCost initialGas : Z) : option Z :=
  let ok := big.IsUint64 initialGas in
  let availableGas := uint64 (g - gasCost) in
  let availableGas := uint64 (availableGas - availableGas / 64) in
  if EIP150 f then
    if negb ok || (availableGas <? big.Uint64 initialGas) then Some availableGas
    else Some (big.Uint64 initialGas)
  else if negb ok then None
  else Some (big.Uint64 initialGas).

(** The callee's contract. *)
Definition callContract (op : Z) (parent : Contract) (addr : Address) (value : option Z)
    (gas : Z) (ext args : list Z) : Contract :=
  let contract :=
    NewContractCall (cDepth parent + 1) (cOrigin parent) (cAddress parent)
      addr value gas ext args in
  let contract :=
    if (op =? Op.STATICCALL) || cStatic parent then with_static true contract
    else contract in
  if call_is op Op.CALLCODE Op.DELEGATECALL then
    let contract := with_address (cAddress parent) contract in
    if op =? Op.DELEGATECALL
    then with_value_caller (cValue parent) (cCaller parent) contract
    else contract
  else contract.

(** buildCallContract after its operands are popped. *)
Definition buildCall (op initialGas : Z) (addr : Address) (value : option Z)
    (inOffset inSize retOffset retSize : Z) : M (option Contract * Z * Z * bool) :=
  let! (args, ok) := get2 [] inOffset inSize in
  if negb ok then ret (None, 0, 0, false)
  else
    let! ok := checkMemory retOffset retSize in
    if negb ok then ret (None, 0, 0, false)
    else
      let! f := cfg in
      let transfersValue :=
        call_is op Op.CALL Op.CALLCODE &&
        match value with Some v => negb (Z.sgn v =? 0) | None => false end in
      let! empty := hread (fun h => Empty h addr) in
      let! exists_ := hread (fun h => AccountExists h addr) in
      let gasCost := callCost f op transfersValue empty exists_ in
      let! g := gets gas in
      match callGas f g gasCost initialGas with
      | None => exit ErrOutOfGas ;; ret (None, 0, 0, false)
      | Some gas =>
        let! ok := consumeGas (uint64 (gasCost + gas)) in
        if negb ok then ret (None, 0, 0, false)
        else
          let gas := if transfersValue then uint64 (gas + 2300) else gas in
          let! parent := this in
          let! ext := hact (fun h => GetCode h addr) in
          let contract := callContract op parent addr value gas ext args in
          let! balance := hread (fun h => GetBalance h (cAddress parent)) in
          if transfersValue &&
             match value with Some v => balance <? v | None => false end
          then ret (Some contract, 0, 0, true)
          else ret (Some contract, big.Uint64 retOffset, big.Uint64 retSize, false)
      end.

Definition buildCallContract (op : Z) : M (option Contract * Z * Z * bool) :=
  let! initialGas := popv in
  let! (addr, _) := popAddr in
  let! value := (if call_is op Op.CALL Op.CALLCODE
                 then let! v := popv in ret (Some v) else ret None) in
  let! inOffset := popv in let! inSize := popv in
  let! retOffset := popv in let! retSize := popv in
  buildCall op initialGas addr value inOffset inSize retOffset retSize.

Definition call_type (op : Z) : option CallType :=
  if op =? Op.CALL then Some Call
  else if op =? Op.CALLCODE then Some CallCode
  else if op =? Op.DELEGATECALL then Some DelegateCall
  else if op =? Op.STATICCALL then Some StaticCall
  else None.

Definition opCall (op : Z) : M unit :=
  resetReturnData ;;
  let! static := inStaticCall in
  let! protected :=
    (if (op =? Op.CALL) && static
     then let! val := peekAt 3 in ret (0 <? big.BitLen val) else ret false) in
  if protected then exit errWriteProtection
  else
    let! f := cfg in
    if (op =? Op.DELEGATECALL) && negb (Homestead f) then exit errOpCodeNotFound
    else if (op =? Op.STATICCALL) && negb (Byzantium f) then exit errOpCodeNotFound
    else
      let! callType := deref (call_type op) in
      let! (contract, offset, size, error) := buildCallContract op in
      if error then
        push 0 ;;
        match contract with Some k => addGas (cGas k) | None => ret tt end
      else
        match contract with
        | None => ret tt
        | Some k =>
          let k := with_type callType k in
          let! result := hcall (fun h => Callx h k) in
          push (bool_word (Succeeded result)) ;;
          (if (Succeeded result || Reverted result) && negb (len (ReturnValue result) =? 0) then
             let! m := gets memory in
             let! dst := deref (s_range m offset (uint64 (offset + size))) in
             modify (set_memory (s_write m offset (go_copy dst (ReturnValue result))))
           else ret tt) ;;
          addGas (GasLeft result) ;;
          modify (set_returnData (ReturnValue result))
        end.

Definition opHalt (op : Z) : M unit :=
  let! f := cfg in
  if (op =? Op.REVERT) && negb (Byzantium f) then exit errOpCodeNotFound
  else
    let! offset := popv in let! size := popv in
    let! (r, ok) := get2 [] offset size in
    modify (set_retv r) ;;
    if negb ok then ret tt
    else if op =? Op.REVERT then exit ErrExecutionReverted
    else halt.

End instructions.
