(* ===== verification/Interp.v ===== *)
(** The dispatch table of src/tievm/evm/execute/dispatch_table.go, the main
    loop [state.Run] of state.go and the runtime's entry point [EVM.Run] of
    evm.go. *)

From Stdlib Require Import ZArith Lia.
From stdpp Require Import base list numbers.
From S2P Require Import Prelude Types Slice VM Opcodes Instructions.

Open Scope Z_scope.
Open Scope vm_scope.

Section interp.
Context {H : Type} `{Host H} `{Runtime}.
Abbreviation M := (M H).

Record handler := mkHandler { inst : M unit; hstack : Z; hgas : Z }.

(** ** The dispatch table *)

(** The table as the list of its registered entries, in order. *)
Definition table := list (Z * handler).

Fixpoint lookup_op (op : Z) (t : table) : option handler :=
  match t with
  | [] => None
  | (o, h) :: t' => if o =? op then Some h else lookup_op op t'
  end.

(** [None] is the panic on an opcode registered twice. *)
Definition register (t : option table) (e : Z * handler) : option table :=
  match t with
  | None => None
  | Some t => match lookup_op (fst e) t with Some _ => None | None => Some (t ++ [e]) end
  end.

(** The entries [registerRange] registers. *)
Definition registerRange (from to : Z) (factory : Z -> M unit) (g : Z) : table :=
  map (fun i => (from + Z.of_nat i, mkHandler (factory (Z.of_nat i + 1)) 0 g))
    (seq 0 (Z.to_nat (to - from + 1))).

(** The registrations of [init], in the order of the source. *)
Definition registrations : table :=
  [ (Op.STOP, mkHandler opStop 0 0);
    (Op.ADD, mkHandler opAdd 2 3);
    (Op.SUB, mkHandler opSub 2 3);
    (Op.MUL, mkHandler opMul 2 5);
    (Op.DIV, mkHandler opDiv 2 5);
    (Op.SDIV, mkHandler opSDiv 2 5);
    (Op.MOD, mkHandler opMod 2 5);
    (Op.SMOD, mkHandler opSMod 2 5);
    (Op.EXP, mkHandler opExp 2 10) ] ++
  registerRange Op.PUSH1 Op.PUSH32 opPush 3 ++
  registerRange Op.DUP1 Op.DUP16 opDup 3 ++
  registerRange Op.SWAP1 Op.SWAP16 opSwap 3 ++
  registerRange Op.LOG0 Op.LOG4 opLog 375 ++
  [ (Op.ADDMOD, mkHandler opAddMod 3 8);
    (Op.MULMOD, mkHandler opMulMod 3 8);
    (Op.AND, mkHandler opAnd 2 3);
    (Op.OR, mkHandler opOr 2 3);
    (Op.XOR, mkHandler opXor 2 3);
    (Op.BYTE, mkHandler opByte 2 3);
    (Op.NOT, mkHandler opNot 1 3);
    (Op.ISZERO, mkHandler opIsZero 1 3);
    (Op.EQ, mkHandler opEq 2 3);
    (Op.LT, mkHandler opLt 2 3);
    (Op.GT, mkHandler opGt 2 3);
    (Op.SLT, mkHandler opSlt 2 3);
    (Op.SGT, mkHandler opSgt 2 3);
    (Op.SIGNEXTEND, mkHandler opSignExtension 1 5);
    (Op.SHL, mkHandler opShl 2 3);
    (Op.SHR, mkHandler opShr 2 3);
    (Op.SAR, mkHandler opSar 2 3);
    (Op.CREATE, mkHandler (opCreate Op.CREATE) 3 32000);
    (Op.CREATE2, mkHandler (opCreate Op.CREATE2) 4 32000);
    (Op.CALL, mkHandler (opCall Op.CALL) 7 0);
    (Op.CALLCODE, mkHandler (opCall Op.CALLCODE) 7 0);
    (Op.DELEGATECALL, mkHandler (opCall Op.DELEGATECALL) 6 0);
    (Op.STATICCALL, mkHandler (opCall Op.STATICCALL) 6 0);
    (Op.REVERT, mkHandler (opHalt Op.REVERT) 2 0);
    (Op.RETURN, mkHandler (opHalt Op.RETURN) 2 0);
    (Op.MLOAD, mkHandler opMload 1 3);
    (Op.MSTORE, mkHandler opMStore 2 3);
    (Op.MSTORE8, mkHandler opMStore8 2 3);
    (Op.SLOAD, mkHandler opSload 1 0);
    (Op.SSTORE, mkHandler opSStore 2 0);
    (Op.SHA3, mkHandler opSha3 2 30);
    (Op.POP, mkHandler opPop 1 2);
    (Op.EXTCODEHASH, mkHandler opExtCodeHash 1 0);
    (Op.ADDRESS, mkHandler opAddress 0 2);
    (Op.BALANCE, mkHandler opBalance 1 0);
    (Op.SELFBALANCE, mkHandler opSelfBalance 0 5);
    (Op.ORIGIN, mkHandler opOrigin 0 2);
    (Op.CALLER, mkHandler opCaller 0 2);
    (Op.CALLVALUE, mkHandler opCallValue 0 2);
    (Op.CALLDATALOAD, mkHandler opCallDataLoad 1 3);
    (Op.CALLDATASIZE, mkHandler opCallDataSize 0 2);
    (Op.CODESIZE, mkHandler opCodeSize 0 2);
    (Op.EXTCODESIZE, mkHandler opExtCodeSize 1 0);
    (Op.GASPRICE, mkHandler opGasPrice 0 2);
    (Op.RETURNDATASIZE, mkHandler opReturnDataSize 0 2);
    (Op.CHAINID, mkHandler opChainID 0 2);
    (Op.PC, mkHandler opPC 0 2);
    (Op.MSIZE, mkHandler opMSize 0 2);
    (Op.GAS, mkHandler opGas 0 2);
    (Op.EXTCODECOPY, mkHandler opExtCodeCopy 4 0);
    (Op.CALLDATACOPY, mkHandler opCallDataCopy 3 3);
    (Op.RETURNDATACOPY, mkHandler opReturnDataCopy 3 3);
    (Op.CODECOPY, mkHandler opCodeCopy 3 3);
    (Op.BLOCKHASH, mkHandler opBlockHash 1 20);
    (Op.COINBASE, mkHandler opCoinbase 0 2);
    (Op.TIMESTAMP, mkHandler opTimestamp 0 2);
    (Op.NUMBER, mkHandler opNumber 0 2);
    (Op.DIFFICULTY, mkHandler opDifficulty 0 2);
    (Op.GASLIMIT, mkHandler opGasLimit 0 2);
    (Op.SELFDESTRUCT, mkHandler opSelfDestruct 1 0);
    (Op.JUMP, mkHandler opJump 1 8);
    (Op.JUMPI, mkHandler opJumpi 2 10);
    (Op.JUMPDEST, mkHandler opJumpDest 0 1) ].

(** [init]: the table after every registration. *)
Definition init_table : option table := foldl register (Some []) registrations.

Definition dispatchTable (op : Z) : option handler := lookup_op op registrations.

(** ** The main loop *)

(** The body of the loop; [false] is a [break]. *)
Definition step : M bool :=
  let! c := gets (fun c => c) in
  if len (code c) <=? ip c then halt ;; ret false
  else
    let! op := deref (if ip c <? 0 then None else code c !! Z.to_nat (ip c)) in
    match dispatchTable op with
    | None => exit errOpCodeNotFound ;; ret false
    | Some i =>
      if len (stack c) <? hstack i then exit ErrStackUnderflow ;; ret false
      else
        let! ok := consumeGas (hgas i) in
        if negb ok then exit ErrOutOfGas ;; ret false
        else
          inst i ;;
          let! sp := gets (fun c => len (stack c)) in
          if stackSize <? sp then exit ErrStackOverflow ;; ret false
          else modify (fun c => set_ip (ip c + 1) c) ;; ret true
    end.

Fixpoint run_loop (fuel : nat) : M unit :=
  let! s := gets stop in
  if s then ret tt
  else
    match fuel with
    | O => fun _ _ => OutOfFuel
    | S fuel' => let! go := step in if go then run_loop fuel' else ret tt
    end.

Definition Run (fuel : nat) : M (list Z * option vmerror) :=
  run_loop fuel ;;
  let! c := gets (fun c => c) in
  ret (retv c, err c).

(** ** The runtime's entry point *)

(** [EVM.Run] on the state [c] taken from the pool, with the state that goes
    back to it.  Every iteration of the loop burns gas or stops, so [gas + 1]
    iterations are enough (shown below). *)
Definition EVM_Run (pooled : state) (k : Contract) (f : ForksInTime) (h : H)
    : outcome (ExecutionResult * state * H) :=
  match Bitmap.setCode (bmap pooled) (cCode k) with
  | Panic => Panic
  | OutOfFuel => OutOfFuel
  | Ok b =>
    let c := mkState (ip pooled) (cCode k) (tmp pooled) k f (memory pooled)
               (lastGasCost pooled) (stack pooled) (err pooled) (stop pooled)
               (cGas k) b [] (retv pooled) in
    match Run (S (Z.to_nat (cGas k))) c h with
    | Panic => Panic
    | OutOfFuel => OutOfFuel
    | Ok ((r, e), c', h') =>
      let gasLeft :=
        match e with
        | Some x => if bool_decide (x = ErrExecutionReverted) then gas c' else 0
        | None => gas c'
        end in
      Ok (mkResult r gasLeft 0 e, reset c', h')
    end
  end.

End interp.
