(* ===== verification/Logic.v ===== *)
(** A weakest-precondition calculus for the machine monad, the well-formedness
    invariant of the machine's state, and what the machine assumes of its host. *)

From Stdlib Require Import ZArith Lia.
From stdpp Require Import base list numbers.
From S2P Require Import Prelude Types Slice VM Instructions.

Open Scope Z_scope.
Open Scope vm_scope.

Create HintDb evm.

(** ** Weakest preconditions *)

(** What has to hold when the code panics or runs out of fuel. *)
Record exits := mkExits { on_panic : Prop; on_fuel : Prop }.

Section wp.
Context {H : Type}.
Implicit Types (c : state) (h : H) (X : exits).

Definition wp {A} X (m : M H A) (Q : A -> state -> H -> Prop) c h : Prop :=
  match m c h with
  | Ok (a, c', h') => Q a c' h'
  | Panic => on_panic X
  | OutOfFuel => on_fuel X
  end.

Lemma wp_bind {A B} X (m : M H A) (k : A -> M H B) Q c h :
  wp X m (fun a c' h' => wp X (k a) Q c' h') c h -> wp X (bind m k) Q c h.
Proof. unfold wp, bind. by destruct (m c h) as [[[a c'] h']| |]. Qed.

Lemma wp_mono {A} X (m : M H A) (Q Q' : A -> state -> H -> Prop) c h :
  wp X m Q c h -> (forall a c' h', Q a c' h' -> Q' a c' h') -> wp X m Q' c h.
Proof. unfold wp. destruct (m c h) as [[[a c'] h']| |]; auto. Qed.

Lemma wp_run {A} X (m : M H A) (Q : A -> state -> H -> Prop) c h a c' h' :
  wp X m Q c h -> m c h = Ok (a, c', h') -> Q a c' h'.
Proof. unfold wp. intros Hw E. by rewrite E in Hw. Qed.

Lemma wp_ret {A} X (a : A) (Q : A -> state -> H -> Prop) c h : Q a c h -> wp X (ret a) Q c h.
Proof. done. Qed.
Lemma wp_gets {A} X (f : state -> A) (Q : A -> state -> H -> Prop) c h :
  Q (f c) c h -> wp X (gets f) Q c h.
Proof. done. Qed.
Lemma wp_modify X f (Q : unit -> state -> H -> Prop) c h :
  Q tt (f c) h -> wp X (modify f) Q c h.
Proof. done. Qed.
Lemma wp_deref_Some {A} X (a : A) (Q : A -> state -> H -> Prop) c h :
  Q a c h -> wp X (deref (Some a)) Q c h.
Proof. done. Qed.
Lemma wp_deref {A} X (o : option A) a (Q : A -> state -> H -> Prop) c h :
  o = Some a -> Q a c h -> wp X (deref o) Q c h.
Proof. intros ->. done. Qed.
Lemma wp_hread {A} X (f : H -> A) (Q : A -> state -> H -> Prop) c h :
  Q (f h) c h -> wp X (hread f) Q c h.
Proof. done. Qed.
Lemma wp_hact {A} X (f : H -> A * H) (Q : A -> state -> H -> Prop) c h :
  Q (fst (f h)) c (snd (f h)) -> wp X (hact f) Q c h.
Proof. unfold wp, hact. by destruct (f h). Qed.

Lemma wp_popv X v s (Q : Z -> state -> H -> Prop) c h :
  stack c = v :: s -> Q v (set_stack s c) h -> wp X popv Q c h.
Proof. intros E HQ. unfold wp, popv, bind, pop. by rewrite E. Qed.
Lemma wp_pop X v s (Q : option Z -> state -> H -> Prop) c h :
  stack c = v :: s -> Q (Some v) (set_stack s c) h -> wp X pop Q c h.
Proof. intros E HQ. unfold wp, pop. by rewrite E. Qed.
Lemma wp_topv X v s (Q : Z -> state -> H -> Prop) c h :
  stack c = v :: s -> Q v c h -> wp X topv Q c h.
Proof. intros E HQ. unfold wp, topv, bind, top, gets. simpl. by rewrite E. Qed.
Lemma wp_top X (Q : option Z -> state -> H -> Prop) c h :
  Q (head (stack c)) c h -> wp X top Q c h.
Proof. done. Qed.
Lemma wp_popAddr X v s (Q : Address * bool -> state -> H -> Prop) c h :
  stack c = v :: s -> Q (BytesToAddress (big_Bytes v), true) (set_stack s c) h ->
  wp X popAddr Q c h.
Proof. intros E HQ. unfold wp, popAddr, bind, pop. by rewrite E. Qed.
Lemma wp_popHash X v s (Q : Hash -> state -> H -> Prop) c h :
  stack c = v :: s -> Q (bigToHash v) (set_stack s c) h -> wp X popHash Q c h.
Proof. intros E HQ. unfold wp, popHash, popv, bind, pop. by rewrite E. Qed.
Lemma wp_set_top X v w s (Q : unit -> state -> H -> Prop) c h :
  stack c = w :: s -> Q tt (set_stack (v :: s) c) h -> wp X (set_top v) Q c h.
Proof. intros E HQ. unfold wp, set_top, modify. by rewrite E. Qed.
Lemma wp_push X v (Q : unit -> state -> H -> Prop) c h :
  Q tt (set_stack (v :: stack c) c) h -> wp X (push v) Q c h.
Proof. done. Qed.
Lemma wp_halt X (Q : unit -> state -> H -> Prop) c h :
  Q tt (set_stop true c) h -> wp X halt Q c h.
Proof. done. Qed.
Lemma wp_exit X e (Q : unit -> state -> H -> Prop) c h :
  Q tt (set_err (Some e) (set_stop true c)) h -> wp X (exit e) Q c h.
Proof. done. Qed.

Lemma wp_consumeGas X g (Q : bool -> state -> H -> Prop) c h :
  is_u64 (gas c) -> 0 <= g ->
  (gas c < g -> Q false (set_err (Some ErrOutOfGas) (set_stop true c)) h) ->
  (0 <= g <= gas c -> Q true (set_gas (gas c - g) c) h) ->
  wp X (consumeGas g) Q c h.
Proof.
  intros Hu Hg Hf Ht. unfold wp, consumeGas, bind, gets.
  destruct (Z.ltb_spec (gas c) g); simpl; [by apply Hf|].
  rewrite uint64_small by (unfold is_u64 in *; lia). apply Ht. lia.
Qed.
End wp.

(** One step of symbolic execution. *)
Ltac wp_prim :=
  lazymatch goal with
  | |- wp _ (bind _ _) _ _ _ => apply wp_bind
  | |- wp _ (ret _) _ _ _ => apply wp_ret
  | |- wp _ (gets _) _ _ _ => apply wp_gets
  | |- wp _ cfg _ _ _ => apply wp_gets
  | |- wp _ this _ _ _ => apply wp_gets
  | |- wp _ memLen _ _ _ => apply wp_gets
  | |- wp _ inStaticCall _ _ _ => apply wp_gets
  | |- wp _ (stackAtLeast _) _ _ _ => apply wp_gets
  | |- wp _ (modify _) _ _ _ => apply wp_modify
  | |- wp _ (addGas _) _ _ _ => apply wp_modify
  | |- wp _ resetReturnData _ _ _ => apply wp_modify
  | |- wp _ (hread _) _ _ _ => apply wp_hread
  | |- wp _ (hact _) _ _ _ => apply wp_hact
  | |- wp _ (deref (Some _)) _ _ _ => apply wp_deref_Some
  | |- wp _ popv _ _ _ => eapply wp_popv; [cbn; (reflexivity || eassumption)|]
  | |- wp _ pop _ _ _ => eapply wp_pop; [cbn; (reflexivity || eassumption)|]
  | |- wp _ topv _ _ _ => eapply wp_topv; [cbn; (reflexivity || eassumption)|]
  | |- wp _ top _ _ _ => apply wp_top
  | |- wp _ popAddr _ _ _ => eapply wp_popAddr; [cbn; (reflexivity || eassumption)|]
  | |- wp _ popHash _ _ _ => eapply wp_popHash; [cbn; (reflexivity || eassumption)|]
  | |- wp _ (set_top _) _ _ _ => eapply wp_set_top; [cbn; (reflexivity || eassumption)|]
  | |- wp _ (push _) _ _ _ => apply wp_push
  | |- wp _ halt _ _ _ => apply wp_halt
  | |- wp _ (exit _) _ _ _ => apply wp_exit
  end; cbv beta.

(** A case on the condition of the code's next [if]. *)
Ltac wp_if :=
  lazymatch goal with
  | |- wp _ (if ?b then _ else _) _ _ _ => destruct b eqn:?
  end.

Ltac wp_go := repeat (wp_prim || wp_if).

(** [wp_bind] when the code is syntactically a sequence. *)
Ltac wp_unbind :=
  lazymatch goal with
  | |- wp _ (bind _ _) _ _ _ => apply wp_bind
  | _ => idtac
  end.

(** Projections of updated states. *)
Ltac st_cbn :=
  cbn [ip code tmp msg config memory lastGasCost stack err stop gas bmap returnData retv
       set_ip set_tmp set_memory set_lastGasCost set_stack set_err set_stop set_gas set_bmap
       set_returnData set_retv].
Ltac st_cbn_all :=
  cbn [ip code tmp msg config memory lastGasCost stack err stop gas bmap returnData retv
       set_ip set_tmp set_memory set_lastGasCost set_stack set_err set_stop set_gas set_bmap
       set_returnData set_retv] in *.

(** ** Well-formed data *)

Definition words (s : list Z) : Prop := Forall is_word s.

(** A byte string no longer than Go's int allows. *)

Record contract_ok (k : Contract) : Prop := {
  k_code : bytes_ok (cCode k);
  k_input : bytes_ok (cInput k);
  k_gas : is_u64 (cGas k);
  k_addr : is_addr (cAddress k);
  k_caller : is_addr (cCaller k);
  k_origin : is_addr (cOrigin k);
  k_value : forall v, cValue k = Some v -> is_word v
}.

(** What a call may return for a contract given [cGas k] gas. *)
Record result_ok (k : Contract) (r : ExecutionResult) : Prop := {
  r_value : bytes_ok (ReturnValue r);
  r_gas : 0 <= GasLeft r <= cGas k
}.

Record context_ok (x : TxContext) : Prop := {
  x_price : is_word (txGasPrice x);
  x_origin : is_addr (txOrigin x);
  x_coinbase : is_addr (txCoinbase x);
  x_number : 0 <= txNumber x < 2 ^ 63;
  x_time : 0 <= txTimestamp x < 2 ^ 63;
  x_limit : 0 <= txGasLimit x < 2 ^ 63;
  x_difficulty : is_word (txDifficulty x)
}.

(** What the machine relies on of its host: [host_inv] is kept by every
    operation, reads return values of their Go type (and balances below
    2^256), and a call returns at most the gas it was given. *)
Class HostOk (H : Type) `{Host H} := {
  host_inv : H -> Prop;
  ho_storage h a k : host_inv h -> is_word (GetStorage h a k);
  ho_set_storage h a k v f : host_inv h -> host_inv (snd (SetStorage h a k v f));
  ho_balance h a : host_inv h -> is_word (GetBalance h a);
  ho_code_size h a : host_inv h -> host_inv (snd (GetCodeSize h a));
  ho_code_hash h a : host_inv h -> is_word (GetCodeHash h a);
  ho_code h a : host_inv h -> bytes_ok (fst (GetCode h a)) /\ host_inv (snd (GetCode h a));
  ho_selfdestruct h a b : host_inv h -> host_inv (Selfdestruct h a b);
  ho_context h : host_inv h -> context_ok (GetTxContext h);
  ho_block_hash h n : host_inv h -> is_word (GetBlockHash h n);
  ho_emit h a ts d : host_inv h -> host_inv (EmitLog h a ts d);
  ho_callx h k : host_inv h -> contract_ok k ->
    match Callx h k with Ok (r, h') => result_ok k r /\ host_inv h' | _ => True end
}.

(** ** The invariant of the machine's state *)

(** A memory: 2^42 bytes is above what two offsets below 2^40 can reach. *)
Definition mem_ok (m : slice) : Prop := slice_ok m /\ Z.of_nat (slen m) < 2 ^ 42.

(** Everything but the stack and the program counter. *)
Record wf (c : state) : Prop := {
  wf_gas : is_u64 (gas c);
  wf_last : is_u64 (lastGasCost c);
  wf_mem : mem_ok (memory c);
  wf_bmap : slice_ok (bmap c) /\ slen (bmap c) = (length (code c) / 8 + 1)%nat;
  wf_code : bytes_ok (code c);
  wf_data : bytes_ok (returnData c);
  wf_ret : bytes_ok (retv c);
  wf_msg : contract_ok (msg c)
}.

(** ** Values an instruction may push *)

Lemma tt256_eq : tt256 = 2 ^ 256.
Proof. done. Qed.

Lemma toU256_mod x : toU256 x = x mod 2 ^ 256.
Proof.
  unfold toU256. replace tt256m1 with (Z.ones 256) by done. rewrite Z.land_ones by lia.
  destruct (Z.ltb_spec (Z.sgn x) 0); [done|].
  destruct (Z.ltb_spec 256 (big.BitLen x)) as [|Hb]; [done|]. simpl.
  apply BitLen_le in Hb; [|lia]. symmetry. apply Z.mod_small.
  assert (0 <= x) by (destruct x; simpl in *; lia). lia.
Qed.

Lemma word_mod x : is_word (x mod 2 ^ 256).
Proof. apply Z.mod_pos_bound. lia. Qed.

Lemma word_toU256 x : is_word (toU256 x).
Proof. rewrite toU256_mod. apply word_mod. Qed.

Lemma word_small x : 0 <= x < 2 ^ 64 -> is_word x.
Proof. unfold is_word. lia. Qed.

Lemma word_uint64 x : is_word (uint64 x).
Proof. apply word_small, uint64_range. Qed.

Lemma word_bool b : is_word (bool_word b).
Proof. destruct b; unfold is_word; simpl; lia. Qed.

Lemma word_addr a : is_addr a -> is_word a.
Proof. unfold is_addr, is_word. lia. Qed.

Lemma word_decode l : Forall is_byte l -> (length l <= 32)%nat -> is_word (be_decode l).
Proof.
  intros Hl Hn. pose proof (be_decode_bound l Hl) as [? Hlt]. split; [done|].
  eapply Z.lt_le_trans; [exact Hlt|]. change (2 ^ 256) with (256 ^ 32).
  apply Z.pow_le_mono_r; lia.
Qed.

Lemma word_decode_hash d : is_word (be_decode (Hash_Bytes d)).
Proof. apply word_decode; [apply be_encode_bytes|]. unfold Hash_Bytes. by rewrite be_encode_length. Qed.

Lemma word_decode_addr d : is_word (be_decode (Address_Bytes d)).
Proof.
  apply word_decode; [apply be_encode_bytes|]. unfold Address_Bytes.
  rewrite be_encode_length. unfold AddressLength. lia.
Qed.

Lemma word_len l : bytes_ok l -> is_word (len l).
Proof. intros [_ Hl]. unfold is_word, len in *. lia. Qed.

Lemma bits_word x : 0 <= x -> (forall i, 256 <= i -> Z.testbit x i = false) -> is_word x.
Proof.
  intros Hx Hb. split; [done|].
  destruct (Z.lt_ge_cases x (2 ^ 256)) as [|Hge]; [done|].
  assert (256 <= Z.log2 x) by (apply Z.log2_le_pow2; lia).
  pose proof (Z.bit_log2 x ltac:(lia)) as Hlog. rewrite Hb in Hlog by lia. done.
Qed.

Lemma word_bits x i : is_word x -> 256 <= i -> Z.testbit x i = false.
Proof.
  intros [H0 H1] Hi. destruct (decide (x = 0)) as [->|]; [apply Z.bits_0|].
  apply Z.bits_above_log2; [done|]. apply Z.log2_lt_pow2; [lia|].
  eapply Z.lt_le_trans; [exact H1|]. apply Z.pow_le_mono_r; lia.
Qed.

Lemma word_land a b : is_word a -> 0 <= b -> is_word (Z.land a b).
Proof.
  intros Ha Hb. apply bits_word; [apply Z.land_nonneg; left; apply Ha|].
  intros i Hi. by rewrite Z.land_spec, word_bits.
Qed.

Lemma word_lor a b : is_word a -> is_word b -> is_word (Z.lor a b).
Proof.
  intros Ha Hb. apply bits_word; [apply Z.lor_nonneg; split; [apply Ha|apply Hb]|].
  intros i Hi. by rewrite Z.lor_spec, !word_bits.
Qed.

Lemma word_lxor a b : is_word a -> is_word b -> is_word (Z.lxor a b).
Proof.
  intros Ha Hb. apply bits_word.
  - apply Z.lxor_nonneg. split; intros; [apply Hb|apply Ha].
  - intros i Hi. by rewrite Z.lxor_spec, !word_bits.
Qed.

Lemma word_0 : is_word 0. Proof. unfold is_word; lia. Qed.
Lemma word_1 : is_word 1. Proof. unfold is_word; lia. Qed.
Lemma word_m1 : is_word tt256m1. Proof. split; by vm_compute. Qed.

Lemma word_shiftr_byte y n : is_word y -> is_word (Z.land (Z.shiftr y n) opByteMask).
Proof.
  intros. unfold opByteMask. change 255 with (Z.ones 8). rewrite Z.land_ones by lia.
  pose proof (Z.mod_pos_bound (Z.shiftr y n) (2 ^ 8)). unfold is_word. lia.
Qed.

#[export] Hint Resolve word_toU256 word_uint64 word_bool word_decode_hash word_decode_addr
  word_land word_lor word_lxor word_0 word_1 word_m1 word_len word_shiftr_byte word_mod
  word_addr : evm.
#[export] Hint Extern 5 (_ <= _ <= _) => lia : evm.
