(* ===== verification/Safety.v ===== *)
(** Every instruction preserves the machine's invariant, never raises its gas,
    burns gas or stops, and does not panic (or panics in a known case). *)

From Stdlib Require Import ZArith Lia.
From stdpp Require Import base list numbers.
From S2P Require Import Prelude Types Slice VM Opcodes Instructions Interp Logic.

Open Scope Z_scope.
Open Scope vm_scope.

(** ** What a piece of an instruction leaves intact *)

Record pres (c0 c : state) : Prop := {
  p_code : code c = code c0;
  p_msg : msg c = msg c0;
  p_config : config c = config c0;
  p_bmap : bmap c = bmap c0;
  p_gas : 0 <= gas c <= gas c0;
  p_last : is_u64 (lastGasCost c);
  p_mem : mem_ok (memory c);
  p_data : bytes_ok (returnData c);
  p_ret : bytes_ok (retv c)
}.

Lemma pres_refl c : wf c -> pres c c.
Proof. intros []. unfold is_u64 in *. split; try done; lia. Qed.

Lemma pres_wf c0 c : wf c0 -> pres c0 c -> wf c.
Proof.
  intros [] []. split; try done; try congruence. unfold is_u64 in *. lia.
Qed.

Lemma pres_trans c0 c1 c2 : pres c0 c1 -> pres c1 c2 -> pres c0 c2.
Proof. intros [] []. split; try congruence; try done. lia. Qed.

Lemma bytes_ok_nil : bytes_ok [].
Proof. split; [constructor|]. unfold len; simpl; lia. Qed.

(** Updates that keep [pres]. *)
Section updates.
Context (c0 c : state) (Hp : pres c0 c).
Lemma pres_stack s : pres c0 (set_stack s c). Proof. destruct Hp; by split. Qed.
Lemma pres_ip i : pres c0 (set_ip i c). Proof. destruct Hp; by split. Qed.
Lemma pres_tmp t : pres c0 (set_tmp t c). Proof. destruct Hp; by split. Qed.
Lemma pres_err e : pres c0 (set_err e c). Proof. destruct Hp; by split. Qed.
Lemma pres_stop b : pres c0 (set_stop b c). Proof. destruct Hp; by split. Qed.
Lemma pres_gas g : 0 <= g <= gas c0 -> pres c0 (set_gas g c). Proof. destruct Hp; by split. Qed.
Lemma pres_last l : is_u64 l -> pres c0 (set_lastGasCost l c). Proof. destruct Hp; by split. Qed.
Lemma pres_memory m : mem_ok m -> pres c0 (set_memory m c). Proof. destruct Hp; by split. Qed.
Lemma pres_data d : bytes_ok d -> pres c0 (set_returnData d c). Proof. destruct Hp; by split. Qed.
Lemma pres_ret d : bytes_ok d -> pres c0 (set_retv d c). Proof. destruct Hp; by split. Qed.
End updates.

#[export] Hint Resolve pres_refl pres_stack pres_ip pres_tmp pres_err pres_stop pres_gas
  pres_last pres_memory pres_data pres_ret bytes_ok_nil : evm.

Section safety.
Context {H : Type} `{Host H} `{Runtime} `{!HostOk H}.
Implicit Types (c : state) (h : H) (X : exits).

(** ** Memory *)

Lemma memCost_u64 w : is_u64 (memCost w).
Proof. apply uint64_range. Qed.

Lemma wp_checkMemory X o s (Q : bool -> state -> H -> Prop) c h :
  is_u64 (gas c) -> is_u64 (lastGasCost c) -> mem_ok (memory c) -> 0 <= o -> 0 <= s ->
  (forall e l, is_u64 l ->
    Q false (set_err e (set_stop true (set_lastGasCost l c))) h) ->
  (forall g l m, 0 <= g <= gas c -> is_u64 l -> mem_ok m -> (slen (memory c) <= slen m)%nat ->
    (s = 0 -> m = memory c) ->
    (s <> 0 -> o + s <= Z.of_nat (slen m) /\ o <= 0xffffffffe0 /\ s <= 0xffffffffe0) ->
    Q true (set_memory m (set_gas g (set_lastGasCost l c))) h) ->
  wp X (checkMemory o s) Q c h.
Proof.
  intros Hg Hl Hm Ho Hs Hf Ht.
  assert (Heta : c = set_memory (memory c) (set_gas (gas c) (set_lastGasCost (lastGasCost c) c)))
    by (by destruct c).
  assert (Heta' : forall e, set_err e (set_stop true c) =
    set_err e (set_stop true (set_lastGasCost (lastGasCost c) c))) by (by destruct c).
  unfold checkMemory. unfold is_u64 in Hg.
  destruct (Z.eqb_spec (Z.sgn s) 0) as [Hz|Hz].
  { apply wp_ret. rewrite Heta. apply Ht; [lia|done|done|lia|done|lia]. }
  assert (0 < s) by lia.
  destruct (big.IsUint64 o) eqn:Eo; simpl.
  2:{ wp_prim; wp_prim; wp_prim. rewrite Heta'. by apply Hf. }
  destruct (big.IsUint64 s) eqn:Es; simpl.
  2:{ wp_prim; wp_prim; wp_prim. rewrite Heta'. by apply Hf. }
  apply IsUint64_spec in Eo, Es. rewrite !Uint64_small by done. unfold is_u64 in Eo, Es.
  destruct (Z.ltb_spec 0xffffffffe0 o); simpl.
  { wp_prim; wp_prim; wp_prim. rewrite Heta'. by apply Hf. }
  destruct (Z.ltb_spec 0xffffffffe0 s); simpl.
  { wp_prim; wp_prim; wp_prim. rewrite Heta'. by apply Hf. }
  rewrite (uint64_small (o + s)) by (unfold is_u64; lia).
  wp_prim; wp_prim. destruct (Z.ltb_spec (Z.of_nat (slen (memory c))) (o + s)) as [Hlt|Hge].
  2:{ wp_prim. rewrite Heta. apply Ht; [lia|done|done|lia|done|lia]. }
  rewrite (uint64_small (o + s + 31)) by (unfold is_u64; lia).
  set (w := (o + s + 31) / 32).
  assert (Hw : o + s <= w * 32 < o + s + 32) by (subst w; Z.div_mod_to_equations; lia).
  do 4 wp_prim. apply wp_bind. apply wp_consumeGas; [done|apply uint64_range|..]; intros Hc.
  - simpl. wp_prim; wp_prim; wp_prim. apply (Hf _ (memCost w)). apply memCost_u64.
  - simpl. wp_prim; wp_prim; wp_prim.
    rewrite (uint64_small (w * 32)) by (unfold is_u64; lia).
    pose proof (uint64_range (memCost w - lastGasCost c)) as Hr. unfold is_u64 in Hr. simpl in Hc.
    apply (Ht (gas c - uint64 (memCost w - lastGasCost c)) (memCost w)
             (extendByteSlice (memory c) (Z.to_nat (w * 32)))).
    + lia.
    + apply memCost_u64.
    + split; [apply extend_ok; [apply Hm|lia]|]. rewrite extend_len. lia.
    + rewrite extend_len. lia.
    + lia.
    + intros _. rewrite extend_len. lia.
Qed.

Lemma s_range_ok m lo hi :
  slice_ok m -> 0 <= lo <= hi -> hi <= Z.of_nat (slen m) ->
  exists l, s_range m lo hi = Some l /\ Forall is_byte l /\ len l = hi - lo /\
    l = take (Z.to_nat (hi - lo)) (drop (Z.to_nat lo) (arr m)).
Proof.
  intros [Hl Hb Hz] [Hlo0 Hlo] Hhi. unfold s_range. unfold cap in *.
  rewrite !(proj2 (Z.leb_le _ _)) by lia. simpl. eexists; split; [done|]. split_and!; [| |done].
  - by apply Forall_take, Forall_drop.
  - unfold len. rewrite length_take, length_drop. lia.
Qed.

Lemma wp_get2 X o s (Q : list Z * bool -> state -> H -> Prop) c h :
  is_u64 (gas c) -> is_u64 (lastGasCost c) -> mem_ok (memory c) -> 0 <= o -> 0 <= s ->
  (forall e l, is_u64 l ->
    Q ([], false) (set_err e (set_stop true (set_lastGasCost l c))) h) ->
  (forall t g l m, 0 <= g <= gas c -> is_u64 l -> mem_ok m -> (slen (memory c) <= slen m)%nat ->
    bytes_ok t -> len t = s -> s <= 0xffffffffe0 ->
    Q (t, true) (set_memory m (set_gas g (set_lastGasCost l c))) h) ->
  wp X (get2 [] o s) Q c h.
Proof.
  intros Hg Hl Hm Ho Hs Hf Ht. unfold get2.
  destruct (Z.eqb_spec (Z.sgn s) 0) as [Hz|Hz].
  { assert (s = 0) as -> by lia. apply wp_ret.
    assert (Heta : c = set_memory (memory c) (set_gas (gas c) (set_lastGasCost (lastGasCost c) c)))
      by (by destruct c).
    rewrite Heta. unfold is_u64 in Hg. apply Ht; try done; try lia. }
  apply wp_bind. apply wp_checkMemory; [done..| |].
  { intros e l Hl'. simpl. apply wp_ret. by apply Hf. }
  intros g l m Hg' Hl' Hm' Hle _ Hb. simpl. wp_prim; wp_prim.
  destruct Hb as (Hb & Hob & Hsb); [lia|].
  rewrite !Uint64_small, uint64_small by (unfold is_u64; lia).
  destruct (s_range_ok m o (o + s)) as (t & Hr & Htb & Htl & _); [apply Hm'|lia|done|].
  apply wp_bind. eapply wp_deref; [exact Hr|]. apply wp_ret. simpl.
  apply Ht; try done; try lia. split; [done|]. rewrite Htl. lia.
Qed.

(** ** The contract of an instruction *)

(** The program counter after a jump: one before a marked destination. *)
Definition jumped (c0 c : state) : Prop :=
  0 <= ip c + 1 < len (code c0) /\ Bitmap.bit (bmap c0) (Z.to_nat (ip c + 1)) = true.

(** After an instruction with [k] bytes of immediate data whose static price is
    [g]: it stopped or gas was burnt, the program counter is at its last byte or
    before a jump destination, and if the next program counter is inside the
    code the stack holds 256-bit words. *)
Record inst_post_at (k : Z) (c0 : state) (g : Z) (c : state) (h : H) : Prop := {
  post_pres : pres c0 c;
  post_host : host_inv h;
  post_burn : stop c = true \/ 0 < g + (gas c0 - gas c);
  post_ip : ip c = ip c0 + k \/ jumped c0 c;
  post_words : ip c + 1 < len (code c0) -> words (stack c)
}.
Abbreviation inst_post := (inst_post_at 0).

(** The panics and fuel exhaustions a nested call of the message [m] can bring in. *)
Definition call_ends (o : outcome (ExecutionResult * H)) (m : Contract) : Prop :=
  exists h k, host_inv h /\ contract_ok k /\ cDepth k = cDepth m + 1 /\ Callx h k = o.
Definition call_panics : Contract -> Prop := call_ends Panic.
Definition call_no_fuel : Contract -> Prop := call_ends OutOfFuel.

(** [inst_ok_at k n g pan m]: run with [n] stack items, [m] keeps the invariant,
    and it panics only if [pan] holds of the state it starts in or a nested call
    panics.  EIP-150 is assumed active: without it the gas of a call is not
    bounded by the gas of the caller. *)
Definition inst_ok_at (k n g : Z) (pan : state -> Prop) (m : M H unit) : Prop :=
  forall c h, wf c -> EIP150 (config c) = true -> words (stack c) ->
    0 <= ip c < len (code c) -> n <= len (stack c) -> host_inv h ->
    wp (mkExits (pan c \/ call_panics (msg c)) (call_no_fuel (msg c))) m (fun _ => inst_post_at k c g) c h.
Abbreviation inst_ok := (inst_ok_at 0).

Definition no_panic : state -> Prop := fun _ => False.

Lemma gas_bounds c : wf c -> 0 <= gas c < 2 ^ 64.
Proof. intros []. done. Qed.

(** *** Automation *)

Ltac pop_one :=
  lazymatch goal with
  | Hn : _ <= len (stack ?c), Hw : words (stack ?c) |- _ =>
    let x := fresh "x" in let s := fresh "s" in let E := fresh "E" in
    destruct (stack c) as [|x s] eqn:E; [unfold len in Hn; simpl in Hn; lia|];
    apply Forall_cons_1 in Hw; destruct Hw as [? Hw]
  | Hn : _ <= len (_ :: ?s), Hw : Forall is_word ?s |- _ =>
    let x := fresh "x" in let s' := fresh "s" in
    destruct s as [|x s']; [unfold len in Hn; simpl in Hn; lia|];
    apply Forall_cons_1 in Hw; destruct Hw as [? Hw]
  | Hn : _ <= len (_ :: _ :: ?s), Hw : Forall is_word ?s |- _ =>
    let x := fresh "x" in let s' := fresh "s" in
    destruct s as [|x s']; [unfold len in Hn; simpl in Hn; lia|];
    apply Forall_cons_1 in Hw; destruct Hw as [? Hw]
  | Hn : _ <= len (_ :: _ :: _ :: ?s), Hw : Forall is_word ?s |- _ =>
    let x := fresh "x" in let s' := fresh "s" in
    destruct s as [|x s']; [unfold len in Hn; simpl in Hn; lia|];
    apply Forall_cons_1 in Hw; destruct Hw as [? Hw]
  end.

Ltac inst_intro :=
  let c := fresh "c" in let h := fresh "h" in
  intros c h Hwf H150 Hw Hip Hn Hh.

(** Closes [inst_post] goals about a chain of updates of the initial state. *)
Ltac post :=
  lazymatch goal with
  | |- inst_post_at _ ?c _ _ _ =>
    pose proof (gas_bounds c ltac:(assumption));
    split;
    [ try (unfold words in *; eauto 20 with evm; fail)
    | try assumption
    | st_cbn; try (left; reflexivity); try (right; lia)
    | st_cbn; try (left; lia)
    | st_cbn; intros ?; unfold words;
      try match goal with E : stack ?c = _ |- context [stack ?c] => rewrite E end;
      try (repeat (first [assumption | apply Forall_cons_2]); eauto with evm; fail) ]
  end.

(** A gas charge: the failing branch has stopped the machine. *)
Ltac solve_gas :=
  st_cbn;
  lazymatch goal with
  | Hwf : wf ?c |- is_u64 _ => pose proof (gas_bounds c Hwf); unfold is_u64; lia
  end.
Ltac solve_price :=
  first [ apply uint64_range
        | lia
        | repeat (match goal with |- context [if ?b then _ else _] => destruct b end); lia
        | destruct (_ : StorageStatus); repeat case_match; lia ].
Ltac wp_gas :=
  wp_unbind; apply wp_consumeGas;
  [ solve_gas
  | solve_price
  | intros ?; cbn [negb]
  | intros ?; cbn [negb] ];
  st_cbn_all.

(** *** Arithmetic, comparison and bit operations *)

Lemma opAdd_ok : inst_ok 2 3 no_panic opAdd.
Proof. inst_intro. do 2 pop_one. unfold opAdd. wp_go; post. Qed.
Lemma opMul_ok : inst_ok 2 5 no_panic opMul.
Proof. inst_intro. do 2 pop_one. unfold opMul. wp_go; post. Qed.
Lemma opSub_ok : inst_ok 2 3 no_panic opSub.
Proof. inst_intro. do 2 pop_one. unfold opSub. wp_go; post. Qed.
Lemma opDiv_ok : inst_ok 2 5 no_panic opDiv.
Proof. inst_intro. do 2 pop_one. unfold opDiv. wp_go; post. Qed.
Lemma opSDiv_ok : inst_ok 2 5 no_panic opSDiv.
Proof. inst_intro. do 2 pop_one. unfold opSDiv. wp_go; post. Qed.
Lemma opMod_ok : inst_ok 2 5 no_panic opMod.
Proof. inst_intro. do 2 pop_one. unfold opMod. wp_go; post. Qed.
Lemma opSMod_ok : inst_ok 2 5 no_panic opSMod.
Proof. inst_intro. do 2 pop_one. unfold opSMod. wp_go; post. Qed.
Lemma opAddMod_ok : inst_ok 3 8 no_panic opAddMod.
Proof. inst_intro. do 3 pop_one. unfold opAddMod. wp_go; post. Qed.
Lemma opMulMod_ok : inst_ok 3 8 no_panic opMulMod.
Proof. inst_intro. do 3 pop_one. unfold opMulMod. wp_go; post. Qed.
Lemma word_nonneg a : is_word a -> 0 <= a.
Proof. intros []. done. Qed.
#[local] Hint Resolve word_nonneg : evm.
Lemma opAnd_ok : inst_ok 2 3 no_panic opAnd.
Proof. inst_intro. do 2 pop_one. unfold opAnd. wp_go; post. Qed.
Lemma opOr_ok : inst_ok 2 3 no_panic opOr.
Proof. inst_intro. do 2 pop_one. unfold opOr. wp_go; post. Qed.
Lemma opXor_ok : inst_ok 2 3 no_panic opXor.
Proof. inst_intro. do 2 pop_one. unfold opXor. wp_go; post. Qed.
Lemma opByte_ok : inst_ok 2 3 no_panic opByte.
Proof. inst_intro. do 2 pop_one. unfold opByte. wp_go; post. Qed.
Lemma opNot_ok : inst_ok 1 3 no_panic opNot.
Proof. inst_intro. do 1 pop_one. unfold opNot. wp_go; post. Qed.
Lemma opIsZero_ok : inst_ok 1 3 no_panic opIsZero.
Proof. inst_intro. do 1 pop_one. unfold opIsZero. wp_go; post. Qed.
Lemma opEq_ok : inst_ok 2 3 no_panic opEq.
Proof. inst_intro. do 2 pop_one. unfold opEq. wp_go; post. Qed.
Lemma opLt_ok : inst_ok 2 3 no_panic opLt.
Proof. inst_intro. do 2 pop_one. unfold opLt. wp_go; post. Qed.
Lemma opGt_ok : inst_ok 2 3 no_panic opGt.
Proof. inst_intro. do 2 pop_one. unfold opGt. wp_go; post. Qed.
Lemma opSlt_ok : inst_ok 2 3 no_panic opSlt.
Proof. inst_intro. do 2 pop_one. unfold opSlt. wp_go; post. Qed.
Lemma opSgt_ok : inst_ok 2 3 no_panic opSgt.
Proof. inst_intro. do 2 pop_one. unfold opSgt. wp_go; post. Qed.
Lemma opShl_ok : inst_ok 2 3 no_panic opShl.
Proof. inst_intro. do 2 pop_one. unfold opShl. wp_go; post. Qed.
Lemma opShr_ok : inst_ok 2 3 no_panic opShr.
Proof. inst_intro. do 2 pop_one. unfold opShr. wp_go; post. Qed.
Lemma opSar_ok : inst_ok 2 3 no_panic opSar.
Proof. inst_intro. do 2 pop_one. unfold opSar. wp_go; post. Qed.

Lemma opSignExtension_ok : inst_ok 1 5 no_panic opSignExtension.
Proof.
  inst_intro. pop_one. unfold opSignExtension. wp_go; [post|].
  cbn [stack set_stack head]. destruct s as [|y s]; cbn [head].
  - wp_go. post.
  - apply Forall_cons_1 in Hw as [? Hw]. wp_go; post.
Qed.

Lemma exp_rounds_word n d z x : is_word z -> is_word (fst (exp_rounds n d z x)).
Proof.
  revert d z x. induction n as [|n IH]; intros d z x Hz; simpl; [done|].
  apply IH. case_match; [apply word_toU256|done].
Qed.

Lemma exp_words_word ds z x : is_word z -> is_word (fst (exp_words ds z x)).
Proof.
  unfold exp_words. revert z x. induction ds as [|d ds IH]; intros z x Hz; [done|].
  cbn [foldl]. pose proof (exp_rounds_word 64 d z x Hz) as Hr.
  destruct (exp_rounds 64 d z x) as [z' x']. by apply IH.
Qed.
#[local] Hint Resolve exp_words_word : evm.

Lemma opExp_ok : inst_ok 2 10 no_panic opExp.
Proof. inst_intro. do 2 pop_one. unfold opExp. wp_go; wp_gas; wp_go; post. Qed.

(** *** Memory *)

Ltac solve_mem :=
  st_cbn;
  lazymatch goal with
  | |- mem_ok _ => first [assumption | eapply wf_mem; eassumption]
  | |- is_u64 _ => first [assumption | eapply wf_last; eassumption | solve_gas]
  | |- 0 <= _ => first [by apply word_nonneg | unfold wordSize; lia]
  end.
Ltac wp_get :=
  wp_unbind; apply wp_get2;
  [ solve_mem | solve_mem | solve_mem | solve_mem | solve_mem
  | intros ? ? ?; cbn [negb]
  | intros ? ? ? ? ? ? ? ? ? ? ?; cbn [negb] ];
  st_cbn_all.
Ltac wp_check :=
  wp_unbind; apply wp_checkMemory;
  [ solve_mem | solve_mem | solve_mem | solve_mem | solve_mem
  | intros ? ? ?; cbn [negb]
  | intros ? ? ? ? ? ? ? ? ?; cbn [negb] ];
  st_cbn_all.

Lemma write_mem_ok m lo l :
  mem_ok m -> Forall is_byte l -> 0 <= lo -> (Z.to_nat lo + length l <= slen m)%nat ->
  mem_ok (s_write m lo l).
Proof. intros [] ? ? ?. split; [by apply write_ok|done]. Qed.

Lemma word_decode_len l : bytes_ok l -> len l <= 32 -> is_word (be_decode l).
Proof. intros [Hb _] Hl. apply word_decode; [done|]. unfold len in Hl. lia. Qed.

Lemma opMload_ok : inst_ok 1 3 no_panic opMload.
Proof.
  inst_intro. pop_one. unfold opMload. wp_go. wp_get; wp_go; cbn [negb]; wp_go; post.
  constructor; [|done]. apply word_decode_len; [done|]. unfold wordSize in *. lia.
Qed.

Lemma le_words_length n z : length (le_words n z) = n.
Proof. revert z; induction n as [|n IH]; intros z; simpl; [done|]. by rewrite IH. Qed.

Lemma buf_set_ok buf i v :
  Forall is_byte buf -> is_byte v -> 0 <= i < len buf ->
  exists buf', buf_set buf i v = Some buf' /\ Forall is_byte buf' /\ length buf' = length buf.
Proof.
  intros Hb Hv [Hi Hl]. unfold buf_set.
  rewrite (proj2 (Z.leb_le _ _)), (proj2 (Z.ltb_lt _ _)) by done. eexists; split; [done|].
  split; [by apply Forall_insert|by rewrite length_insert].
Qed.

Lemma byte_of_byte z : is_byte (byte_of z).
Proof. unfold is_byte, byte_of. apply Z.mod_pos_bound. lia. Qed.

Lemma mstore_word_ok n d i buf :
  Forall is_byte buf -> Z.of_nat n <= i <= len buf ->
  exists buf', mstore_word n d i buf = Some (i - Z.of_nat n, buf') /\
    Forall is_byte buf' /\ length buf' = length buf.
Proof.
  revert d i buf. induction n as [|n IH]; intros d i buf Hb Hi; cbn [mstore_word].
  { exists buf. rewrite Z.sub_0_r. done. }
  destruct (buf_set_ok buf (i - 1) (byte_of d)) as (b' & -> & Hb' & Hl'); [done|apply byte_of_byte|lia|].
  destruct (IH (Z.shiftr d 8) (i - 1) b') as (b'' & -> & Hb'' & Hl''); [done|unfold len in *; lia|].
  exists b''. split; [do 2 f_equal; lia|]. split; [done|congruence].
Qed.

Lemma mstore_words_ok ds i buf :
  Forall is_byte buf -> 8 * Z.of_nat (length ds) <= i <= len buf ->
  exists buf', mstore_words ds i buf = Some (i - 8 * Z.of_nat (length ds), buf') /\
    Forall is_byte buf' /\ length buf' = length buf.
Proof.
  revert i buf. induction ds as [|d ds IH]; intros i buf Hb Hi; cbn [mstore_words].
  { exists buf. simpl. rewrite Z.sub_0_r. done. }
  cbn [length] in *.
  destruct (mstore_word_ok 8 d i buf) as (b' & -> & Hb' & Hl'); [done|lia|].
  destruct (IH (i - Z.of_nat 8) b') as (b'' & -> & Hb'' & Hl''); [done|unfold len in *; lia|].
  exists b''. split; [do 2 f_equal; lia|]. split; [done|congruence].
Qed.

Lemma mstore_zeros_ok n buf :
  Forall is_byte buf -> Z.of_nat n <= len buf ->
  exists buf', mstore_zeros n buf = Some buf' /\ Forall is_byte buf' /\ length buf' = length buf.
Proof.
  revert buf. induction n as [|n IH]; intros buf Hb Hn; cbn [mstore_zeros]; [by exists buf|].
  destruct (buf_set_ok buf (Z.of_nat n) 0) as (b' & -> & Hb' & Hl'); [done|apply byte_zero|lia|].
  destruct (IH b') as (b'' & -> & Hb'' & Hl''); [done|unfold len in *; lia|].
  exists b''. split; [done|]. split; [done|congruence].
Qed.

Lemma big_Bits_word_length v : is_word v -> 8 * Z.of_nat (length (big_Bits v)) <= 32.
Proof.
  intros [H0' H1']. unfold big_Bits. rewrite le_words_length.
  pose proof (BitLen_nonneg v). assert (big.BitLen v <= 256) by (apply BitLen_le; lia).
  rewrite Z2Nat.id by (apply Z.div_pos; lia). Z.div_mod_to_equations; lia.
Qed.

Lemma mstore_buf_ok v buf :
  is_word v -> Forall is_byte buf -> len buf = 32 ->
  exists buf', mstore_buf v buf = Some buf' /\ Forall is_byte buf' /\ length buf' = length buf.
Proof.
  intros Hv Hb Hl. unfold mstore_buf. pose proof (big_Bits_word_length v Hv).
  destruct (mstore_words_ok (big_Bits v) 32 buf) as (b' & -> & Hb' & Hl'); [done|lia|].
  destruct (mstore_zeros_ok (Z.to_nat (32 - 8 * Z.of_nat (length (big_Bits v)))) b')
    as (b'' & -> & Hb'' & Hl''); [done|unfold len in *; lia|].
  exists b''. split; [done|]. split; [done|congruence].
Qed.

Lemma opMStore_ok : inst_ok 2 3 no_panic opMStore.
Proof.
  inst_intro. do 2 pop_one. unfold opMStore. wp_go. wp_check; wp_go; [post|].
  assert (Hin : x + 32 <= Z.of_nat (slen m) /\ x <= 0xffffffffe0 /\ wordSize <= 0xffffffffe0) by eauto.
  destruct Hin as (Hin & Hx & _). assert (0 <= x) by (by apply word_nonneg).
  rewrite Uint64_small by (unfold is_u64; lia).
  destruct (s_range_ok m x (x + 32)) as (buf & Hr & Hb & Hl & _); [by eapply proj1|lia|done|].
  cbn [memory set_memory]. eapply wp_deref; [exact Hr|]. cbv beta.
  destruct (mstore_buf_ok x0 buf) as (buf' & Hm & Hb' & Hl'); [done|done|lia|].
  wp_go. eapply wp_deref; [exact Hm|]. cbv beta. wp_go. post.
  repeat apply pres_stack || apply pres_memory; eauto 10 with evm.
  apply write_mem_ok; [done|done|done|]. unfold len in *. lia.
Qed.

Lemma opMStore8_ok : inst_ok 2 3 no_panic opMStore8.
Proof.
  inst_intro. do 2 pop_one. unfold opMStore8. wp_go. wp_check; wp_go; [post|].
  assert (Hin : x + 1 <= Z.of_nat (slen m) /\ x <= 0xffffffffe0 /\ 1 <= 0xffffffffe0) by eauto.
  destruct Hin as (Hin & Hx & _). assert (0 <= x) by (by apply word_nonneg).
  rewrite (Uint64_small x) by (unfold is_u64; lia). cbn [memory set_memory].
  set (v := byte_of _). assert (Hv : is_byte v) by apply byte_of_byte.
  assert (Hs : s_set m x v = Some (s_write m x [v])).
  { unfold s_set. rewrite (proj2 (Z.leb_le _ _)), (proj2 (Z.ltb_lt _ _)) by lia. cbn [andb].
    unfold s_write. f_equal. f_equal. rewrite insert_take_drop; [simpl; by rewrite Nat.add_1_r|].
    assert (Hm : mem_ok m) by done. destruct Hm as [[] _]. unfold cap in *. lia. }
  eapply wp_deref; [exact Hs|]. cbv beta. wp_go. post.
  apply pres_memory; eauto 10 with evm. apply write_mem_ok; [done|by constructor|done|]. simpl. lia.
Qed.

(** *** Padded reads: what [setBytes] copies *)

Lemma zero_fill_spec n dst :
  (n <= length dst)%nat -> zero_fill n dst = Some (replicate n 0 ++ drop n dst).
Proof.
  revert dst. induction n as [|n IH]; intros dst Hn; [done|].
  destruct dst as [|b dst]; simpl in Hn; [lia|]. simpl. by rewrite IH by lia.
Qed.

(** [n] bytes of [input] from [off] on, zeros past its end. *)
Definition padded (input : list Z) (off : Z) (n : nat) : list Z :=
  let d := drop (Z.to_nat off) input in take n d ++ replicate (n - length d) 0.

Lemma padded_length input off n : length (padded input off n) = n.
Proof. unfold padded. rewrite length_app, length_take, length_replicate. lia. Qed.

Lemma padded_bytes input off n : Forall is_byte input -> Forall is_byte (padded input off n).
Proof.
  intros. unfold padded. apply Forall_app; split; [by apply Forall_take, Forall_drop|].
  apply zeros_bytes.
Qed.

Lemma go_copy_full dst src :
  (length src <= length dst)%nat -> go_copy dst src = src ++ drop (length src) dst.
Proof. intros. unfold go_copy. rewrite Nat.min_r by done. by rewrite firstn_all. Qed.

Lemma setBytes_spec dst input size off :
  len input < 2 ^ 63 -> 0 <= off -> 0 <= size <= len dst ->
  setBytes dst input size off =
  Some (padded input off (Z.to_nat size) ++ drop (Z.to_nat size) dst).
Proof.
  intros Hi Ho Hs. unfold setBytes, len in *. destruct (big.IsUint64 off) eqn:Eo; cbn [negb].
  2:{ assert (2 ^ 64 <= off).
      { destruct (Z.lt_ge_cases off (2 ^ 64)); [|done].
        rewrite (proj2 (IsUint64_spec off)) in Eo by (unfold is_u64; lia). done. }
      rewrite zero_fill_spec by lia. unfold padded. rewrite (drop_ge input) by lia.
      rewrite take_nil. simpl. by rewrite Nat.sub_0_r. }
  apply IsUint64_spec in Eo. rewrite Uint64_small by done. unfold is_u64 in Eo.
  set (n := Z.of_nat (length input)) in *.
  assert (Hbegin : exists b, go_min off n = Z.of_nat b /\ (b = Nat.min (Z.to_nat off) (length input))%nat).
  { exists (Nat.min (Z.to_nat off) (length input)). split; [|done].
    unfold go_min. destruct (Z.ltb_spec off n); lia. }
  destruct Hbegin as (b & -> & Hb).
  assert (Hd : drop b input = drop (Z.to_nat off) input).
  { subst b. destruct (decide (Z.to_nat off <= length input)%nat).
    - by rewrite Nat.min_l. 
    - rewrite !drop_ge by lia. done. }
  assert (Hcopy : exists k, go_min size (n - Z.of_nat b) = Z.of_nat k /\
    (k = Nat.min (Z.to_nat size) (length (drop b input)))%nat).
  { exists (Nat.min (Z.to_nat size) (length (drop b input))). split; [|done].
    rewrite length_drop. unfold go_min.
    destruct (Z.ltb_spec size (n - Z.of_nat b)); lia. }
  destruct Hcopy as (k & -> & Hk).
  assert (Hpart : l_range input (Z.of_nat b) (Z.of_nat b + Z.of_nat k) = Some (take k (drop b input))).
  { unfold l_range, len. rewrite length_drop in Hk. fold n.
    rewrite !(proj2 (Z.leb_le _ _)) by lia. cbn [andb]. do 2 f_equal; [lia|]. f_equal. lia. }
  assert (Hlen : length (take k (drop b input)) = k) by (rewrite length_take; lia).
  assert (Hpad : padded input off (Z.to_nat size) =
    take k (drop b input) ++ replicate (Z.to_nat size - k) 0).
  { unfold padded. rewrite <- Hd. f_equal.
    - destruct (decide (length (drop b input) <= Z.to_nat size)%nat).
      + rewrite !take_ge by lia. done.
      + f_equal. lia.
    - f_equal. lia. }
  rewrite Hpad, Hpart.
  assert (Hcp : go_copy dst (take k (drop b input)) = take k (drop b input) ++ drop k dst).
  { rewrite go_copy_full by lia. by rewrite Hlen. }
  set (dst' := if 0 <? Z.of_nat k then _ else _).
  assert (dst' = Some (take k (drop b input) ++ drop k dst)) as ->.
  { subst dst'. destruct (Z.ltb_spec 0 (Z.of_nat k)); [by rewrite Hcp|].
    assert (k = 0)%nat as -> by lia. done. }
  destruct (Z.ltb_spec 0 (size - Z.of_nat k)).
  - unfold l_from. unfold len. rewrite length_app, Hlen, length_drop.
    rewrite !(proj2 (Z.leb_le _ _)) by lia. cbn [andb]. rewrite Nat2Z.id.
    rewrite drop_app_length', take_app_length' by done.
    rewrite zero_fill_spec by (rewrite length_drop; lia). f_equal.
    rewrite <- app_assoc. f_equal. rewrite drop_drop. f_equal; [f_equal; lia|f_equal; lia].
  - assert (Z.to_nat size = k) as -> by lia. rewrite Nat.sub_diag. by rewrite app_nil_r.
Qed.

Lemma wp_mem_setBytes X o data size off (Q : unit -> state -> H -> Prop) c h :
  mem_ok (memory c) -> bytes_ok data -> 0 <= o -> 0 <= off -> 0 <= size ->
  o + size <= Z.of_nat (slen (memory c)) ->
  (forall m, mem_ok m -> slen m = slen (memory c) ->
    view m = take (Z.to_nat o) (view (memory c)) ++ padded data off (Z.to_nat size) ++
             drop (Z.to_nat (o + size)) (view (memory c)) ->
    Q tt (set_memory m c) h) ->
  wp X (mem_setBytes o data size off) Q c h.
Proof.
  intros Hm [Hd Hdl] Ho Hoff Hs Hb HQ. unfold mem_setBytes.
  pose proof (view_length _ (proj1 Hm)) as Hv.
  assert (Hf : s_from (memory c) o = Some (drop (Z.to_nat o) (view (memory c)))).
  { unfold s_from. rewrite !(proj2 (Z.leb_le _ _)) by lia. done. }
  wp_prim; wp_prim; wp_prim. eapply wp_deref; [exact Hf|]. cbv beta. wp_prim. eapply wp_deref.
  { apply setBytes_spec; [done|done|]. unfold len. rewrite length_drop. lia. }
  cbv beta. wp_prim. rewrite drop_drop.
  assert (Hl : length (padded data off (Z.to_nat size) ++
    drop (Z.to_nat o + Z.to_nat size) (view (memory c))) = (slen (memory c) - Z.to_nat o)%nat).
  { rewrite length_app, padded_length, length_drop. lia. }
  apply HQ.
  - apply write_mem_ok; [done| |done|lia]. apply Forall_app; split; [by apply padded_bytes|].
    apply Forall_drop. apply view_bytes, Hm.
  - done.
  - rewrite write_view by (apply Hm || done || lia). rewrite Hl.
    replace (Z.to_nat o + (slen (memory c) - Z.to_nat o))%nat
      with (length (view (memory c))) by lia.
    rewrite drop_all, app_nil_r. do 2 f_equal. f_equal. lia.
Qed.

(** *** Storage and context *)

Lemma opSload_ok : inst_ok 1 0 no_panic opSload.
Proof.
  inst_intro. pop_one. unfold opSload. wp_go. wp_gas; wp_go; post.
  right. destruct (Istanbul (config c)), (EIP150 (config c)); lia.
Qed.

Lemma sstoreCost_pos f st : 0 < sstoreCost f st.
Proof. unfold sstoreCost. destruct st; repeat case_match; lia. Qed.

Lemma opSStore_ok : inst_ok 2 0 no_panic opSStore.
Proof.
  inst_intro. do 2 pop_one. unfold opSStore. wp_go; [post|post|].
  pose proof (ho_set_storage h (cAddress (msg c)) (bigToHash x) (bigToHash x0) (config c) Hh) as Hh'.
  cbn [config msg set_stack] in *.
  match goal with |- context [sstoreCost _ ?st] => pose proof (sstoreCost_pos (config c) st) end.
  wp_unbind. apply wp_consumeGas; [solve_gas|lia|..]; intros ?; cbn [negb gas set_stack] in *; wp_go; post.
Qed.

Lemma opSha3_ok : inst_ok 2 30 no_panic opSha3.
Proof.
  inst_intro. do 2 pop_one. unfold opSha3. wp_go. wp_get; wp_go; [post|].
  cbn [negb]. wp_go. wp_gas; wp_go; post.
  constructor; [|done]. apply word_decode; [apply Keccak256_bytes|]. by rewrite Keccak256_length.
Qed.

Lemma opPop_ok : inst_ok 1 2 no_panic opPop.
Proof. inst_intro. pop_one. unfold opPop. wp_go. post. Qed.

Lemma opAddress_ok : inst_ok 0 2 no_panic opAddress.
Proof. inst_intro. unfold opAddress. wp_go. post. Qed.

Lemma opBalance_ok : inst_ok 1 0 no_panic opBalance.
Proof.
  inst_intro. pop_one. unfold opBalance. wp_go. wp_gas; wp_go; post.
  - right. destruct (Istanbul (config c)), (EIP150 (config c)); lia.
  - constructor; [|done]. by apply ho_balance.
Qed.

Lemma opSelfBalance_ok : inst_ok 0 5 no_panic opSelfBalance.
Proof.
  inst_intro. unfold opSelfBalance. wp_go; post.
  constructor; [|done]. by apply ho_balance.
Qed.

Lemma opChainID_ok : inst_ok 0 2 no_panic opChainID.
Proof. inst_intro. unfold opChainID. wp_go; post. Qed.
Lemma opOrigin_ok : inst_ok 0 2 no_panic opOrigin.
Proof. inst_intro. unfold opOrigin. wp_go; post. Qed.
Lemma opCaller_ok : inst_ok 0 2 no_panic opCaller.
Proof. inst_intro. unfold opCaller. wp_go; post. Qed.

Lemma opCallValue_ok : inst_ok 0 2 no_panic opCallValue.
Proof.
  inst_intro. unfold opCallValue. wp_go. destruct (cValue (msg c)) eqn:Ev; wp_go; post.
  constructor; [|done]. by apply (k_value _ (wf_msg _ Hwf)).
Qed.

Lemma opCallDataLoad_ok : inst_ok 1 3 no_panic opCallDataLoad.
Proof.
  inst_intro. pop_one. unfold opCallDataLoad. wp_go.
  destruct (k_input _ (wf_msg _ Hwf)) as [Hb Hl].
  eapply wp_deref; [apply setBytes_spec; [done|by apply word_nonneg|by vm_compute]|].
  cbv beta. wp_go. post. constructor; [|done]. apply word_decode.
  - apply Forall_app; split; [by apply padded_bytes|]. apply Forall_drop, zeros_bytes.
  - rewrite length_app, padded_length. by vm_compute.
Qed.

Lemma opCallDataSize_ok : inst_ok 0 2 no_panic opCallDataSize.
Proof.
  inst_intro. unfold opCallDataSize. wp_go; post.
  constructor; [|done]. apply word_len, k_input, wf_msg; done.
Qed.

Lemma opCodeSize_ok : inst_ok 0 2 no_panic opCodeSize.
Proof.
  inst_intro. unfold opCodeSize. wp_go; post.
  constructor; [|done]. apply word_len, wf_code; done.
Qed.

Lemma opExtCodeSize_ok : inst_ok 1 0 no_panic opExtCodeSize.
Proof.
  inst_intro. pop_one. unfold opExtCodeSize. wp_go. wp_gas; wp_go; post.
  - by apply ho_code_size.
  - right. destruct (EIP150 (config c)); lia.
Qed.

Lemma opGasPrice_ok : inst_ok 0 2 no_panic opGasPrice.
Proof. inst_intro. unfold opGasPrice. wp_go; post. Qed.

Lemma opReturnDataSize_ok : inst_ok 0 2 no_panic opReturnDataSize.
Proof.
  inst_intro. unfold opReturnDataSize. wp_go; post.
  constructor; [|done]. apply word_len, wf_data; done.
Qed.

Lemma opExtCodeHash_ok : inst_ok 1 0 no_panic opExtCodeHash.
Proof.
  inst_intro. pop_one. unfold opExtCodeHash. wp_go; [post|]. wp_gas; wp_go; post.
  all: right; destruct (Istanbul (config c)); lia.
Qed.

Lemma opPC_ok : inst_ok 0 2 no_panic opPC.
Proof. inst_intro. unfold opPC. wp_go; post. Qed.

Lemma opGas_ok : inst_ok 0 2 no_panic opGas.
Proof.
  inst_intro. unfold opGas. wp_go; post. constructor; [|done]. by apply word_small.
Qed.


Lemma opMSize_ok : inst_ok 0 2 no_panic opMSize.
Proof.
  inst_intro. unfold opMSize. wp_go; post. constructor; [|done].
  destruct (wf_mem _ Hwf). unfold is_word. lia.
Qed.

(** *** Copies into memory *)

Lemma Uint64_0 : big.Uint64 0 = 0. Proof. done. Qed.

Lemma wp_copy X o data n off (Q : unit -> state -> H -> Prop) c h :
  mem_ok (memory c) -> bytes_ok data -> 0 <= o -> 0 <= off -> 0 <= n ->
  (n <> 0 -> o + n <= Z.of_nat (slen (memory c)) /\ o <= 0xffffffffe0 /\ n <= 0xffffffffe0) ->
  (forall m, mem_ok m -> Q tt (set_memory m c) h) ->
  wp X (if negb (big.Uint64 n =? 0)
        then mem_setBytes (big.Uint64 o) data (big.Uint64 n) off else ret tt) Q c h.
Proof.
  intros Hm Hd Ho Hoff Hn Hb HQ. destruct (decide (n = 0)) as [->|Hnz].
  { rewrite Uint64_0. cbn [Z.eqb negb]. apply wp_ret.
    replace c with (set_memory (memory c) c) by (by destruct c). by apply HQ. }
  destruct (Hb Hnz) as (Hin & Hob & Hnb). rewrite !Uint64_small by (unfold is_u64; lia).
  rewrite (proj2 (Z.eqb_neq _ _)) by done. cbn [negb].
  apply wp_mem_setBytes; try done. intros m Hm' _ _. by apply HQ.
Qed.

Lemma wordsGas_nonneg n u : 0 <= wordsGas n u.
Proof. apply uint64_range. Qed.
#[local] Hint Resolve wordsGas_nonneg : evm.

Lemma opExtCodeCopy_ok : inst_ok 4 0 no_panic opExtCodeCopy.
Proof.
  inst_intro. do 4 pop_one. unfold opExtCodeCopy. wp_go. wp_check; wp_go; [post|].
  wp_gas; repeat wp_prim; [post|]. wp_gas; repeat wp_prim; [post|]. st_cbn_all.
  destruct (ho_code h (BytesToAddress (big_Bytes x)) Hh) as [Hc Hh'].
  apply wp_copy; st_cbn; try done; try by apply word_nonneg.
  intros m' Hm'. post. right. destruct (EIP150 (config c)); lia.
Qed.

Lemma opCallDataCopy_ok : inst_ok 3 3 no_panic opCallDataCopy.
Proof.
  inst_intro. do 3 pop_one. unfold opCallDataCopy. wp_go. wp_check; wp_go; [post|].
  wp_gas; repeat wp_prim; [post|].
  apply wp_copy; st_cbn; try done; try by apply word_nonneg.
  - apply k_input, wf_msg; done.
  - intros m' Hm'. post.
Qed.

Lemma opCodeCopy_ok : inst_ok 3 3 no_panic opCodeCopy.
Proof.
  inst_intro. do 3 pop_one. unfold opCodeCopy. wp_go. wp_check; wp_go; [post|].
  wp_gas; repeat wp_prim; [post|].
  apply wp_copy; st_cbn; try done; try by apply word_nonneg.
  - apply wf_code; done.
  - intros m' Hm'. post.
Qed.

Lemma go_copy_length dst src : length (go_copy dst src) = length dst.
Proof. unfold go_copy. rewrite length_app, length_take, length_drop. lia. Qed.

Lemma go_copy_bytes dst src :
  Forall is_byte dst -> Forall is_byte src -> Forall is_byte (go_copy dst src).
Proof. intros. apply Forall_app; split; [by apply Forall_take|by apply Forall_drop]. Qed.

Lemma l_range_ok l lo hi :
  bytes_ok l -> 0 <= lo <= hi -> hi <= len l ->
  exists t, l_range l lo hi = Some t /\ bytes_ok t /\ len t = hi - lo /\
    t = take (Z.to_nat (hi - lo)) (drop (Z.to_nat lo) l).
Proof.
  intros [Hb Hl] [Hlo Hle] Hhi. unfold l_range.
  rewrite !(proj2 (Z.leb_le _ _)) by lia. eexists; split; [done|].
  assert (Ht : len (take (Z.to_nat (hi - lo)) (drop (Z.to_nat lo) l)) = hi - lo).
  { unfold len in *. rewrite length_take, length_drop. lia. }
  split_and!; [|done|done]. split; [by apply Forall_take, Forall_drop|]. lia.
Qed.

(** The known panic: a copy of no bytes skips the memory check, and slices the
    memory at an offset past its end. *)
Definition returnDataCopy_panics (c : state) : Prop :=
  exists o d s, stack c = o :: d :: 0 :: s /\ Z.of_nat (slen (memory c)) < big.Uint64 o /\
    d <= len (returnData c).

Lemma wp_deref_case {A} X (o : option A) (Q : A -> state -> H -> Prop) c h :
  (o = None -> on_panic X) -> (forall a, o = Some a -> Q a c h) -> wp X (deref o) Q c h.
Proof. destruct o; unfold wp, deref, ret, panic; auto. Qed.

Lemma s_from_Some m lo t :
  s_from m lo = Some t -> slice_ok m ->
  0 <= lo <= Z.of_nat (slen m) /\ Forall is_byte t /\ length t = (slen m - Z.to_nat lo)%nat.
Proof.
  unfold s_from. intros Hs Hm. case_match eqn:Hb; [|done]. simplify_eq.
  apply andb_prop in Hb as [?%Z.leb_le ?%Z.leb_le]. split; [lia|]. split.
  - apply Forall_drop. by apply view_bytes.
  - rewrite length_drop, view_length by done. done.
Qed.

Lemma s_from_None m lo : s_from m lo = None -> 0 <= lo -> Z.of_nat (slen m) < lo.
Proof.
  unfold s_from. intros Hs Hm. case_match eqn:Hb; [done|]. 
  apply andb_false_iff in Hb as [?%Z.leb_gt|?%Z.leb_gt]; lia.
Qed.

Lemma wp_returnDataCopy c0 x d n s c h :
  wf c0 -> host_inv h -> stack c0 = x :: d :: n :: s -> pres c0 c -> words s -> stack c = s ->
  is_word x -> is_word d -> is_word n -> returnData c = returnData c0 -> ip c = ip c0 ->
  (n = 0 -> memory c = memory c0) ->
  (n <> 0 -> x + n <= Z.of_nat (slen (memory c)) /\ x <= 0xffffffffe0 /\ n <= 0xffffffffe0) ->
  wp (mkExits (returnDataCopy_panics c0 \/ call_panics (msg c0)) (call_no_fuel (msg c0)))
    (returnDataCopy x d n) (fun _ => inst_post c0 3) c h.
Proof.
  intros Hwf Hh E Hp Hw Ec Hx%word_nonneg Hd%word_nonneg Hn%word_nonneg Erd Hip Hz Hnz.
  unfold returnDataCopy. pose proof (p_gas _ _ Hp). wp_go; [post|post|].
  destruct (big.IsUint64 (d + n)) eqn:Eu; [|done]. apply IsUint64_spec in Eu.
  unfold is_u64 in Eu. rewrite !Uint64_small in * by (unfold is_u64; lia). rewrite Z.ltb_ge in *.
  destruct (l_range_ok (returnData c) d (d + n)) as (t & Hr & Ht & _); [apply Hp|lia|lia|].
  eapply wp_deref; [exact Hr|]. cbv beta. repeat wp_prim.
  assert (Hxu : 0 <= big.Uint64 x) by apply Uint64_range.
  apply wp_deref_case.
  - intros Hn'. apply s_from_None in Hn'; [|done]. left. destruct (decide (n = 0)) as [->|Hn0].
    + exists x, d, s. rewrite <- Hz, <- Erd by done. split_and!; [done|done|lia].
    + destruct (Hnz Hn0) as (? & ? & ?). rewrite Uint64_small in Hn' by (unfold is_u64; lia). lia.
  - intros dst Hdst. apply s_from_Some in Hdst as (Hb & Hdb & Hdl'); [|apply Hp].
    wp_go. post.
    apply pres_memory; [done|]. apply write_mem_ok; [apply Hp| |lia|].
    + apply go_copy_bytes; [done|apply Ht].
    + rewrite go_copy_length. lia.
Qed.

Lemma opReturnDataCopy_ok : inst_ok 3 3 returnDataCopy_panics opReturnDataCopy.
Proof.
  inst_intro. do 3 pop_one. unfold opReturnDataCopy. wp_go; [post|]. wp_check; wp_go; [post|].
  wp_gas; wp_go; [post|]. eapply wp_returnDataCopy; eauto 10 with evm.
Qed.

(** *** Block information *)

Lemma opBlockHash_ok : inst_ok 1 20 no_panic opBlockHash.
Proof. inst_intro. pop_one. unfold opBlockHash. wp_go; post. Qed.
Lemma opCoinbase_ok : inst_ok 0 2 no_panic opCoinbase.
Proof. inst_intro. unfold opCoinbase. wp_go; post. Qed.

Lemma word_63 v : 0 <= v < 2 ^ 63 -> is_word v.
Proof. unfold is_word. lia. Qed.

Lemma opTimestamp_ok : inst_ok 0 2 no_panic opTimestamp.
Proof.
  inst_intro. unfold opTimestamp. wp_go; post. constructor; [|done].
  apply word_63, x_time, ho_context; done.
Qed.
Lemma opNumber_ok : inst_ok 0 2 no_panic opNumber.
Proof.
  inst_intro. unfold opNumber. wp_go; post. constructor; [|done].
  apply word_63, x_number, ho_context; done.
Qed.
Lemma opDifficulty_ok : inst_ok 0 2 no_panic opDifficulty.
Proof. inst_intro. unfold opDifficulty. wp_go; post. Qed.
Lemma opGasLimit_ok : inst_ok 0 2 no_panic opGasLimit.
Proof.
  inst_intro. unfold opGasLimit. wp_go; post. constructor; [|done].
  apply word_63, x_limit, ho_context; done.
Qed.

Lemma opSelfDestruct_ok : inst_ok 1 0 no_panic opSelfDestruct.
Proof.
  inst_intro. pop_one. unfold opSelfDestruct. wp_go; [post|]. wp_gas; wp_go; post.
  by apply ho_selfdestruct.
Qed.

(** *** Control flow and stack *)

Lemma opStop_ok : inst_ok 0 0 no_panic opStop.
Proof. inst_intro. unfold opStop. wp_go; post. Qed.
Lemma opJumpDest_ok : inst_ok 0 1 no_panic opJumpDest.
Proof. inst_intro. unfold opJumpDest. wp_go; post. Qed.

Lemma opDup_ok n : 1 <= n -> inst_ok 0 3 no_panic (opDup n).
Proof.
  intros Hn1. inst_intro. unfold opDup. wp_go; [post|]. unfold peekAt.
  destruct (Z.to_nat n) as [|m] eqn:Em; [lia|].
  destruct (stack c !! m) as [v|] eqn:Ev.
  2:{ apply lookup_ge_None in Ev. unfold len in *.
      destruct (Z.leb_spec n (Z.of_nat (length (stack c)))); [lia|done]. }
  wp_go. eapply wp_deref; [exact Ev|]. cbv beta. wp_go. post.
  apply Forall_cons_2; [|done]. by eapply Forall_lookup_1 in Ev.
Qed.

Lemma opSwap_ok n : 1 <= n -> inst_ok 0 3 no_panic (opSwap n).
Proof.
  intros Hn1. inst_intro. unfold opSwap. wp_go; [post|]. unfold swap.
  destruct (Z.leb_spec (n + 1) (len (stack c))) as [Hle|]; [|done].
  assert (exists a, stack c !! 0%nat = Some a) as [a Ea]
    by (apply lookup_lt_is_Some; unfold len in *; lia).
  assert (exists b, stack c !! Z.to_nat n = Some b) as [b Eb]
    by (apply lookup_lt_is_Some; unfold len in *; lia).
  wp_go. eapply wp_deref; [unfold list_swap; by rewrite Ea, Eb|]. cbv beta. wp_go. post.
  apply Forall_insert; [apply Forall_insert; [done|]|].
  - by eapply Forall_lookup_1 in Eb.
  - by eapply Forall_lookup_1 in Ea.
Qed.

Lemma wp_validJumpdest X dest (Q : bool -> state -> H -> Prop) c h :
  wf c -> 0 <= dest ->
  (forall b, (b = true -> dest < len (code c) /\ dest < 2 ^ 62 /\
                          Bitmap.bit (bmap c) (Z.to_nat dest) = true) -> Q b c h) ->
  wp X (validJumpdest dest) Q c h.
Proof.
  intros Hwf Hd HQ. unfold validJumpdest. wp_prim; wp_prim.
  destruct (Z.leb_spec 63 (big.BitLen dest)) as [|Hb]; cbn [orb].
  { apply wp_ret. by apply HQ. }
  assert (dest < 2 ^ 62) by (assert (Hb' : big.BitLen dest <= 62) by lia;
    apply BitLen_le in Hb'; lia).
  rewrite Uint64_small by (unfold is_u64; lia).
  destruct (Z.leb_spec (len (code c)) dest).
  { apply wp_ret. by apply HQ. }
  destruct (wf_bmap _ Hwf) as [[Hs _ _] Hsl].
  assert (Hi : Bitmap.isSet (bmap c) dest = Some (Bitmap.bit (bmap c) (Z.to_nat dest))).
  { rewrite <- (Z2Nat.id dest) at 1 by done. apply Bitmap.isSet_bit; [|done].
    rewrite Hsl. unfold len in *.
    pose proof (Nat.Div0.div_le_mono (Z.to_nat dest) (length (code c)) 8). lia. }
  eapply wp_deref; [exact Hi|]. by apply HQ.
Qed.

Lemma jump_ip dest : 0 <= dest < 2 ^ 62 -> int64 (big.Uint64 dest - 1) = dest - 1.
Proof. intros. rewrite Uint64_small by (unfold is_u64; lia). apply int64_small. lia. Qed.

Lemma opJump_ok : inst_ok 1 8 no_panic opJump.
Proof.
  inst_intro. pop_one. unfold opJump. wp_go.
  assert (0 <= x) by (by apply word_nonneg).
  apply wp_validJumpdest; [eapply pres_wf; eauto with evm|done|].
  intros [|] Hb; wp_go; post. destruct (Hb eq_refl) as (? & ? & ?). right. unfold jumped. st_cbn. rewrite jump_ip by lia.
  rewrite Z.sub_add. auto with lia.
Qed.

Lemma opJumpi_ok : inst_ok 2 10 no_panic opJumpi.
Proof.
  inst_intro. do 2 pop_one. unfold opJumpi. wp_go; [|post].
  assert (0 <= x) by (by apply word_nonneg).
  apply wp_validJumpdest; [eapply pres_wf; eauto with evm|done|].
  intros [|] Hb; wp_go; post. destruct (Hb eq_refl) as (? & ? & ?). right. unfold jumped. st_cbn. rewrite jump_ip by lia.
  rewrite Z.sub_add. auto with lia.
Qed.

Lemma opPush_ok n : 1 <= n <= 32 -> inst_ok_at n 0 3 no_panic (opPush n).
Proof.
  intros Hn1. inst_intro. unfold opPush. wp_go.
  - destruct (Z.ltb_spec (len (code c)) (ip c + 1 + n)); [|done].
    assert (Hl : l_from (code c) (ip c + 1) = Some (drop (Z.to_nat (ip c + 1)) (code c))).
    { unfold l_from. by rewrite !(proj2 (Z.leb_le _ _)) by lia. }
    eapply wp_deref; [exact Hl|]. cbv beta. wp_go. post.
    exfalso. lia.
  - destruct (Z.ltb_spec (len (code c)) (ip c + 1 + n)); [done|].
    destruct (l_range_ok (code c) (ip c + 1) (ip c + 1 + n)) as (t & Hr & Ht & Htl & _);
      [apply wf_code; done|lia|lia|].
    eapply wp_deref; [exact Hr|]. cbv beta. wp_go. post.
    apply Forall_cons_2; [|done]. apply word_decode_len; [done|lia].
Qed.

Lemma wp_pop_topics X n (Q : list Hash -> state -> H -> Prop) c h :
  (n <= length (stack c))%nat ->
  Q (map bigToHash (take n (stack c))) (set_stack (drop n (stack c)) c) h ->
  wp X (pop_topics n) Q c h.
Proof.
  revert Q c. induction n as [|n IH]; intros Q c Hn HQ; cbn [pop_topics].
  { apply wp_ret. by replace c with (set_stack (drop 0 (stack c)) c) by (by destruct c). }
  destruct (stack c) as [|v s] eqn:E; simpl in Hn; [lia|].
  wp_prim. eapply wp_popv; [exact E|]. wp_prim. apply IH; cbn [stack set_stack]; [lia|].
  apply wp_ret. done.
Qed.

Lemma opLog_ok n : 1 <= n <= 5 -> inst_ok 0 375 no_panic (opLog n).
Proof.
  intros Hn1. inst_intro. unfold opLog. wp_go; [post|post|].
  match goal with E : negb (?a <=? ?b) = false |- _ => destruct (Z.leb_spec a b); [|done] end.
  assert (Hs : 2 <= len (stack c)) by lia.
  destruct (stack c) as [|x [|y s]] eqn:E; [unfold len in Hs; simpl in Hs; lia..|].
  apply Forall_cons_1 in Hw as [Hx Hw]. apply Forall_cons_1 in Hw as [Hy Hw].
  wp_go. apply wp_pop_topics; [unfold len in *; simpl in *; lia|]. st_cbn. wp_go.
  assert (Hdrop : Forall is_word (drop (Z.to_nat (n - 1)) s)) by (by apply Forall_drop).
  wp_get; wp_go; [post|]. cbn [negb fst snd]. wp_go. 
  pose proof (ho_emit h (cAddress (msg c)) (map bigToHash (take (Z.to_nat (n - 1)) s)) t Hh).
  wp_gas; wp_go; [post|]. wp_gas; wp_go; post.
Qed.

Lemma opHalt_ok op : inst_ok 2 0 no_panic (opHalt op).
Proof.
  inst_intro. do 2 pop_one. unfold opHalt. wp_go; [post|]. wp_get; repeat wp_prim; cbn [negb]; wp_go; post.
Qed.

(** *** Contract creation *)

Lemma wp_callx P m k (Q : ExecutionResult -> state -> H -> Prop) c h :
  host_inv h -> contract_ok k -> cDepth k = cDepth m + 1 ->
  (forall r h', result_ok k r -> host_inv h' -> Q r c h') ->
  wp (mkExits (P \/ call_panics m) (call_no_fuel m)) (hcall (fun h => Callx h k)) Q c h.
Proof.
  intros Hh Hk Hd HQ. pose proof (ho_callx h k Hh Hk) as Hc. unfold wp, hcall.
  destruct (Callx h k) as [[r h']| |] eqn:E; simpl.
  - destruct Hc. by apply HQ.
  - right. by exists h, k.
  - by exists h, k.
Qed.

(** What the two functions that build the callee's contract leave behind: a
    contract, whose gas was taken from the machine's, or a stopped machine. *)
Record build_post (c0 : state) (burn : Z) (o : option Contract) (error : bool) (c : state) (h : H) : Prop := {
  bp_pres : pres c0 c;
  bp_host : host_inv h;
  bp_words : words (stack c);
  bp_ip : ip c = ip c0;
  bp_none : o = None -> error = false -> stop c = true;
  bp_some : forall k, o = Some k ->
    contract_ok k /\ gas c + cGas k + burn <= gas c0 /\ cDepth k = cDepth (msg c0) + 1
}.

Ltac build :=
  split; st_cbn; try done;
  first [ solve [unfold words in *; eauto 20 with evm] | idtac ].

Lemma create_address_ok a n : is_addr (CreateAddress a n).
Proof. apply BytesToAddress_range. apply Forall_drop, Keccak256_bytes. Qed.
Lemma create_address2_ok a s i : is_addr (CreateAddress2 a s i).
Proof. apply BytesToAddress_range. apply Forall_drop, Keccak256_bytes. Qed.

Lemma bytes_ok_decode_len l n : bytes_ok l -> len l = n -> 0 <= n.
Proof. intros _ <-. unfold len. lia. Qed.

Lemma all_but_64th g : is_u64 g -> uint64 (g - g / 64) = g - g / 64 /\ 0 <= g - g / 64 <= g.
Proof.
  intros [? ?]. assert (0 <= g - g / 64 <= g) by (Z.div_mod_to_equations; lia).
  rewrite uint64_small by (unfold is_u64; lia). done.
Qed.

Lemma create_gas b g : is_u64 g -> 0 <= (if b : bool then uint64 (g - g / 64) else g) <= g.
Proof. intros Hg. destruct (all_but_64th g Hg) as [-> ?]. unfold is_u64 in Hg. destruct b; lia. Qed.

Lemma pres_u64 c0 c : wf c0 -> pres c0 c -> is_u64 (gas c).
Proof. intros Hwf Hp. pose proof (gas_bounds _ Hwf). destruct Hp. unfold is_u64. lia. Qed.

Lemma wp_buildCreate X op v o n salt c h :
  wf c -> words (stack c) -> host_inv h -> is_word v -> is_word o -> is_word n ->
  wp X (buildCreate op v o n salt) (fun '(o, e) => build_post c 0 o e) c h.
Proof.
  intros Hwf Hw Hh Hv Ho Hn. unfold buildCreate.
  wp_get; wp_go; [build|]. wp_gas; repeat wp_prim; [build|]. wp_if; repeat wp_prim; [build|].
  st_cbn. set (c1 := set_gas (g - 0) _). assert (Hp : pres c c1) by (subst c1; eauto 10 with evm).
  apply (wp_mono _ _ (fun b c' h' => h' = h /\ pres c c' /\ stack c' = stack c /\ ip c' = ip c /\
    msg c' = msg c /\ (b = false -> stop c' = true))).
  { wp_if.
    - apply wp_consumeGas; [by eapply pres_u64|apply wordsGas_nonneg|..]; intros Hg.
      + split_and!; eauto with evm.
      + assert (gas c1 <= gas c) by apply Hp.
        split_and!; try done. apply pres_gas; [done|lia].
    - apply wp_ret. by split_and!. }
  clear dependent c1. intros b c1 h' (-> & Hp & Es & Ei & Em & Hb).
  destruct b; cbn [negb]; repeat wp_prim.
  2:{ split; try done. by rewrite Es. }
  assert (Hu : is_u64 (gas c1)) by (by eapply pres_u64).
  match goal with |- context [if ?b then uint64 _ else _] => pose proof (create_gas b _ Hu) as Hgas end.
  assert (gas c1 <= gas c) by apply Hp. destruct Hu.
  wp_unbind. apply wp_consumeGas; [done|lia|..]; intros Hg; cbn [negb]; repeat wp_prim.
  - split; try done; st_cbn; [eauto with evm|by rewrite Es].
  - split; try done; st_cbn; [apply pres_gas; [done|lia]|by rewrite Es|].
    intros k Hk. simplify_eq. split; [|by cbn [cGas NewContractCreation NewContract cDepth]; split; [lia|]].
    destruct (wf_msg _ Hwf).
    split; cbn; try done.
    + unfold is_u64. lia.
    + destruct (op =? Op.CREATE); [apply create_address_ok|apply create_address2_ok].
    + intros ? [= <-]. done.
Qed.

Lemma pres_addGas c0 c v : is_u64 (gas c0) -> pres c0 c -> 0 <= v -> gas c + v <= gas c0 ->
  pres c0 (set_gas (uint64 (gas c + v)) c) /\ uint64 (gas c + v) = gas c + v.
Proof.
  intros [? ?] Hp Hv Hle. pose proof (p_gas _ _ Hp).
  rewrite uint64_small by (unfold is_u64; lia). split; [|done]. apply pres_gas; [done|lia].
Qed.

Lemma with_type_ok t k : contract_ok k -> contract_ok (with_type t k).
Proof. intros []. by split. Qed.

(** The end of opCreate, from the call of [buildCreateContract] on. *)
Lemma wp_create_result P c0 c k e r h :
  wf c0 -> build_post c0 0 (Some k) e c h -> result_ok k r -> host_inv h ->
  0 <= ip c0 -> forall v, is_word v ->
  wp (H := H) P
    (push v ;; addGas (GasLeft r) ;;
     if Reverted r then modify (set_returnData (ReturnValue r)) else ret tt)
    (fun _ => inst_post c0 32000) c h.
Proof.
  intros Hwf [Hp Hh Hw Hi _ Hk] [Hv Hg] Hh' Hip v Hvw. destruct (Hk k eq_refl) as (_ & Hle & _).
  pose proof (gas_bounds _ Hwf).
  destruct (pres_addGas c0 (set_stack (v :: stack c) c) (GasLeft r)) as [Hp' Hu];
    [apply wf_gas; done|by apply pres_stack|lia|st_cbn; lia|]. st_cbn_all.
  repeat wp_prim. st_cbn. rewrite Hu in *. wp_if; repeat wp_prim.
  all: split; st_cbn; try done; try (left; lia); try (right; lia); try by (intros; apply Forall_cons_2).
  by apply pres_data.
Qed.

Lemma build_post_trans c0 c1 b o e c h :
  pres c0 c1 -> ip c1 = ip c0 -> build_post c1 b o e c h -> build_post c0 b o e c h.
Proof.
  intros Hp Hi [Hp' ? ? ? ? Hk]. pose proof (p_gas _ _ Hp).
  split; try done; [by eapply pres_trans|congruence|].
  intros k Ek. destruct (Hk k Ek) as (? & ? & ?). rewrite <- (p_msg _ _ Hp). split; [done|lia].
Qed.

Lemma wp_buildCreateContract X op c h :
  wf c -> words (stack c) -> host_inv h -> (if op =? Op.CREATE2 then 4 else 3) <= len (stack c) ->
  wp X (buildCreateContract op) (fun '(o, e) => build_post c 0 o e) c h.
Proof.
  intros Hwf Hw Hh Hn. assert (Hn3 : 3 <= len (stack c)) by (destruct (op =? Op.CREATE2); lia).
  destruct (stack c) as [|x [|y [|z s]]] eqn:E; [unfold len in Hn3; simpl in Hn3; lia..|].
  do 3 (apply Forall_cons_1 in Hw as [? Hw]). unfold buildCreateContract.
  repeat wp_prim. wp_if.
  - destruct s as [|salt s]; [unfold len in Hn; simpl in Hn; lia|].
    apply Forall_cons_1 in Hw as [? Hw]. repeat wp_prim.
    eapply wp_mono; [apply wp_buildCreate; try done; eapply pres_wf; eauto 10 with evm|].
    intros [o e] c' h' Hb. eapply build_post_trans, Hb; eauto 10 with evm.
  - repeat wp_prim.
    eapply wp_mono; [apply wp_buildCreate; try done; eapply pres_wf; eauto 10 with evm|].
    intros [o e] c' h' Hb. eapply build_post_trans, Hb; eauto 10 with evm.
Qed.

(** The error path of both: the contract's gas goes back, 0 is pushed. *)
Lemma wp_refund X c0 b g o e c h :
  wf c0 -> build_post c0 b o e c h -> 0 <= ip c0 -> 0 <= b -> 0 < g + b -> 0 < g \/ o <> None ->
  wp X (match o with Some k => addGas (cGas k) | None => ret tt end)
    (fun _ => inst_post c0 g) (set_stack (0 :: stack c) c) h.
Proof.
  intros Hwf [Hp Hh Hw Hi _ Hk] Hip Hb Hg Ho. pose proof (gas_bounds _ Hwf). pose proof (p_gas _ _ Hp).
  destruct o as [k|]; repeat wp_prim.
  - destruct (Hk k eq_refl) as (Hok & Hle & _). destruct (k_gas _ Hok).
    destruct (pres_addGas c0 (set_stack (0 :: stack c) c) (cGas k)) as [Hp' Hu];
      [apply wf_gas; done|by apply pres_stack|lia|st_cbn; lia|]. st_cbn_all.
    rewrite Hu in *. split; st_cbn; [done|done|right; lia|left; lia|].
    intros _. apply Forall_cons_2; [apply word_0|done].
  - destruct Ho; [|done]. split; st_cbn; [eauto with evm|done|right; lia|left; lia|].
    intros _. apply Forall_cons_2; [apply word_0|done].
Qed.

Lemma opCreate_ok op : inst_ok (if op =? Op.CREATE2 then 4 else 3) 32000 no_panic (opCreate op).
Proof.
  inst_intro. unfold opCreate. wp_go; [post..|].
  eapply wp_mono; [apply wp_buildCreateContract; try done; eapply pres_wf; eauto with evm|].
  intros [o e] c' h' Hb. eapply (build_post_trans c) in Hb; [|eauto with evm..].
  wp_if; repeat wp_prim; [eapply wp_refund; try done; lia|].
  destruct o as [k|].
  2:{ destruct Hb. repeat wp_prim. split; try done; auto. left; lia. }
  wp_unbind. destruct (bp_some _ _ _ _ _ _ Hb k eq_refl) as (Hk & Hle & Hd).
  apply wp_callx; [apply Hb|by apply with_type_ok|done|].
  intros r h'' Hr Hh''.
  assert (Hb' : build_post c 0 (Some k) e c' h'') by (destruct Hb; by split).
  assert (Hr' : result_ok k r) by (destruct Hr; by split).
  destruct (_ && bool_decide _); [|destruct (Failed r && _)];
    eapply wp_create_result; eauto with evm; lia.
Qed.

(** *** Message calls *)

(** Under EIP-150 the gas a call hands over never wraps with its price, although
    the gas left may not even cover the price. *)
Lemma callGas_nowrap f g cost ig :
  EIP150 f = true -> is_u64 g -> 0 <= cost <= 34700 ->
  exists v, callGas f g cost ig = Some v /\ 0 <= v /\ uint64 (cost + v) = cost + v.
Proof.
  intros Hf Hg Hc. unfold callGas. rewrite Hf. pose proof (uint64_range (g - cost)) as Ha.
  set (a := uint64 (g - cost)) in *. destruct (all_but_64th a Ha) as [-> Hle].
  pose proof (Uint64_range ig) as Hi. unfold is_u64 in *.
  assert (a - a / 64 + 34700 < 2 ^ 64) by (Z.div_mod_to_equations; lia).
  destruct (Z.ltb_spec (a - a / 64) (big.Uint64 ig)); rewrite ?orb_true_r, ?orb_false_r;
    [|destruct (negb _)]; eexists; (split; [done|]);
    rewrite uint64_small by (unfold is_u64; lia); lia.
Qed.

Lemma callCost_range f op tv em ex :
  EIP150 f = true ->
  700 <= callCost f op tv em ex <= 34700 /\ (tv = true -> 9700 <= callCost f op tv em ex).
Proof.
  intros Hf. unfold callCost. rewrite Hf.
  by destruct (op =? Op.CALL), (EIP158 f), tv, em, ex; vm_compute.
Qed.

Lemma callContract_ok op parent addr value g ext args :
  contract_ok parent -> is_addr addr -> (forall v, value = Some v -> is_word v) -> is_u64 g ->
  bytes_ok ext -> bytes_ok args -> contract_ok (callContract op parent addr value g ext args).
Proof.
  intros [] ? ? ? ? ?. unfold callContract, call_is.
  destruct (op =? Op.STATICCALL), (cStatic parent), (op =? Op.CALLCODE), (op =? Op.DELEGATECALL);
    by split.
Qed.

Lemma callContract_depth op parent addr value g ext args :
  cDepth (callContract op parent addr value g ext args) = cDepth parent + 1.
Proof.
  unfold callContract, call_is.
  by destruct (op =? Op.STATICCALL), (cStatic parent), (op =? Op.CALLCODE), (op =? Op.DELEGATECALL).
Qed.

Lemma callContract_gas op parent addr value g ext args :
  cGas (callContract op parent addr value g ext args) = g.
Proof.
  unfold callContract, call_is.
  by destruct (op =? Op.STATICCALL), (cStatic parent), (op =? Op.CALLCODE), (op =? Op.DELEGATECALL).
Qed.

(** What buildCallContract returns besides the contract. *)
Definition call_post (c0 : state) (retOffset retSize : Z)
    '(((o, off), sz, e) : option Contract * Z * Z * bool) (c : state) (h : H) : Prop :=
  build_post c0 700 o e c h /\ (e = true -> o <> None) /\
  (o <> None -> e = false ->
    off = big.Uint64 retOffset /\ sz = big.Uint64 retSize /\
    (slen (memory c0) <= slen (memory c))%nat /\
    (retSize <> 0 -> retOffset + retSize <= Z.of_nat (slen (memory c)) /\
       retOffset <= 0xffffffffe0 /\ retSize <= 0xffffffffe0)).

Lemma wp_buildCall X op ig addr value io isz ro rs c h :
  wf c -> EIP150 (config c) = true -> words (stack c) -> host_inv h -> is_addr addr ->
  (forall v, value = Some v -> is_word v) -> is_word io -> is_word isz -> is_word ro -> is_word rs ->
  wp X (buildCall op ig addr value io isz ro rs) (call_post c ro rs) c h.
Proof.
  intros Hwf H150 Hw Hh Ha Hv Hio His Hro Hrs. unfold buildCall.
  wp_get; wp_go; [split_and!; [build|done|done]|].
  wp_check; repeat wp_prim; [split_and!; [build|done|done]|]. st_cbn.
  pose proof (gas_bounds _ Hwf).
  set (tv := call_is op Op.CALL Op.CALLCODE && _).
  destruct (callCost_range (config c) op tv (Empty h addr) (AccountExists h addr) H150) as [Hc Htv].
  set (cost := callCost _ _ _ _ _) in *.
  destruct (callGas_nowrap (config c) g0 cost ig) as (v & -> & Hv0 & Hnw);
    [done|unfold is_u64; lia|lia|].
  rewrite Hnw. wp_unbind. apply wp_consumeGas; [solve_gas|lia|..]; intros Hg; cbn [negb];
    repeat wp_prim; [split_and!; [build|done|done]|]. st_cbn_all.
  destruct (ho_code h addr Hh) as [Hext Hh'].
  set (v' := if tv then uint64 (v + 2300) else v).
  assert (Hv' : is_u64 v' /\ v' + 700 <= cost + v).
  { subst v'. unfold is_u64. destruct tv; [|lia]. specialize (Htv eq_refl).
    rewrite uint64_small by (unfold is_u64; lia). lia. }
  assert (Hb : forall e, build_post c 700 (Some (callContract op (msg c) addr value v'
    (fst (GetCode h addr)) t)) e (set_gas (g0 - (cost + v)) (set_memory m0 (set_gas g0
      (set_lastGasCost l0 (set_memory m (set_gas g (set_lastGasCost l c)))))))
    (snd (GetCode h addr))).
  { intros e. build. intros k [= <-]. rewrite callContract_gas, callContract_depth. split; [|lia].
    apply callContract_ok; try done; [by apply wf_msg|apply Hv']. }
  wp_if; repeat wp_prim; split_and!; try done. st_cbn. intros _ _. split_and!; try done. lia.
Qed.

Lemma call_post_trans c0 c1 ro rs p c h :
  pres c0 c1 -> ip c1 = ip c0 -> memory c1 = memory c0 -> call_post c1 ro rs p c h ->
  call_post c0 ro rs p c h.
Proof.
  destruct p as [[[o off] sz] e]. intros Hp Hi Hm (Hb & He & Ho).
  split_and!; [by eapply build_post_trans|done|]. by rewrite <- Hm.
Qed.

(** The position of the return area's offset on the stack, its size below it. *)
Definition retOffset_pos (op : Z) : nat := if call_is op Op.CALL Op.CALLCODE then 5 else 4.
Definition call_operands (op : Z) : Z := if call_is op Op.CALL Op.CALLCODE then 7 else 6.

Lemma addr_popped x : is_addr (BytesToAddress (big_Bytes x)).
Proof. apply BytesToAddress_range, big_Bytes_bytes. Qed.
#[local] Hint Resolve addr_popped : evm.

Lemma wp_buildCallContract X op c h :
  wf c -> EIP150 (config c) = true -> words (stack c) -> host_inv h ->
  call_operands op <= len (stack c) ->
  wp X (buildCallContract op) (fun p c' h' => exists ro rs,
    stack c !! retOffset_pos op = Some ro /\ stack c !! S (retOffset_pos op) = Some rs /\
    0 <= ro /\ 0 <= rs /\ call_post c ro rs p c' h') c h.
Proof.
  unfold call_operands, retOffset_pos. intros Hwf H150 Hw Hh Hn. unfold buildCallContract.
  destruct (call_is op Op.CALL Op.CALLCODE).
  - destruct (stack c) as [|x0 [|x1 [|x2 [|x3 [|x4 [|x5 [|x6 s]]]]]]] eqn:E;
      [unfold len in Hn; simpl in Hn; lia..|].
    do 7 (apply Forall_cons_1 in Hw as [? Hw]). repeat wp_prim.
    eapply wp_mono; [apply wp_buildCall; try done; eauto with evm;
      [eapply pres_wf; eauto 10 with evm|by intros ? [= <-]]|].
    intros p c' h' Hp. exists x5, x6. split_and!; try done; try by apply word_nonneg.
    eapply call_post_trans, Hp; eauto 10 with evm.
  - destruct (stack c) as [|x0 [|x1 [|x2 [|x3 [|x4 [|x5 s]]]]]] eqn:E;
      [unfold len in Hn; simpl in Hn; lia..|].
    do 6 (apply Forall_cons_1 in Hw as [? Hw]). repeat wp_prim.
    eapply wp_mono; [apply wp_buildCall; try done; eauto with evm;
      eapply pres_wf; eauto 10 with evm|].
    intros p c' h' Hp. exists x4, x5. split_and!; try done; try by apply word_nonneg.
    eapply call_post_trans, Hp; eauto 10 with evm.
Qed.

(** The known panic: a call whose return area is empty skips the memory check
    for it, and slices the memory at its offset when the callee returns data. *)
Definition call_ret_panics (op : Z) (c : state) : Prop :=
  exists o, stack c !! retOffset_pos op = Some o /\ stack c !! S (retOffset_pos op) = Some 0 /\
    Z.of_nat (slen (memory c)) < big.Uint64 o.

Lemma s_write_nil m lo : s_write m lo [] = m.
Proof. destruct m as [a n]. unfold s_write. simpl. by rewrite Nat.add_0_r, take_drop. Qed.

Lemma s_range_empty m lo :
  0 <= lo -> s_range m lo lo = if lo <=? Z.of_nat (cap m) then Some [] else None.
Proof.
  intros. unfold s_range. rewrite !(proj2 (Z.leb_le _ _)) by lia. rewrite Z.sub_diag. done.
Qed.

(** Copying the returned data into the return area. *)
Lemma wp_return_area X ro rs data c h :
  mem_ok (memory c) -> bytes_ok data -> 0 <= ro -> 0 <= rs ->
  (rs <> 0 -> ro + rs <= Z.of_nat (slen (memory c)) /\ ro <= 0xffffffffe0 /\ rs <= 0xffffffffe0) ->
  (rs = 0 -> Z.of_nat (slen (memory c)) < big.Uint64 ro -> on_panic X) ->
  wp X (let! dst := deref (s_range (memory c) (big.Uint64 ro)
                             (uint64 (big.Uint64 ro + big.Uint64 rs))) in
        modify (set_memory (s_write (memory c) (big.Uint64 ro) (go_copy dst data))))
    (fun _ c' (h' : H) => h' = h /\ exists m, mem_ok m /\ c' = set_memory m c) c h.
Proof.
  intros [Hm Hml] [Hd _] Hro Hrs Hb Hpan. wp_unbind. destruct (decide (rs = 0)) as [->|Hn].
  - pose proof (Uint64_range ro) as Hu. rewrite Uint64_0, Z.add_0_r, (uint64_small _ Hu).
    apply wp_deref_case; rewrite s_range_empty by apply Hu.
    + intros Hc. apply Hpan; [done|]. destruct Hm. destruct (Z.leb_spec (big.Uint64 ro) (Z.of_nat (cap (memory c)))); [done|lia].
    + intros dst Hdst. wp_prim. split; [done|]. exists (memory c). split; [done|].
      destruct (_ <=? _); simplify_eq. change (go_copy [] data) with (@nil Z). by rewrite s_write_nil.
  - destruct (Hb Hn) as (? & ? & ?).
    rewrite !Uint64_small, uint64_small by (unfold is_u64; lia).
    destruct (s_range_ok (memory c) ro (ro + rs)) as (dst & Hr & Hdb & Hdl & _); [done|lia|done|].
    eapply wp_deref; [exact Hr|]. wp_prim. split; [done|]. eexists. split; [|done].
    apply write_mem_ok; [done|by apply go_copy_bytes|done|].
    rewrite go_copy_length. unfold len in *. lia.
Qed.

Lemma wp_call_return op c0 c ro rs k r h :
  wf c0 -> 0 <= ip c0 -> stack c0 !! retOffset_pos op = Some ro ->
  stack c0 !! S (retOffset_pos op) = Some rs -> 0 <= ro -> 0 <= rs ->
  call_post c0 ro rs (Some k, big.Uint64 ro, big.Uint64 rs, false) c h -> result_ok k r ->
  wp (mkExits (call_ret_panics op c0 \/ call_panics (msg c0)) (call_no_fuel (msg c0)))
    (push (bool_word (Succeeded r)) ;;
     (if (Succeeded r || Reverted r) && negb (len (ReturnValue r) =? 0) then
        let! m := gets memory in
        let! dst := deref (s_range m (big.Uint64 ro) (uint64 (big.Uint64 ro + big.Uint64 rs))) in
        modify (set_memory (s_write m (big.Uint64 ro) (go_copy dst (ReturnValue r))))
      else ret tt) ;;
     addGas (GasLeft r) ;;
     modify (set_returnData (ReturnValue r)))
    (fun _ => inst_post c0 0) c h.
Proof.
  intros Hwf Hip Ero Ers Hro Hrs (Hb & _ & Hmem) [Hv Hg].
  destruct Hmem as (_ & _ & Hle & Hmem); [done..|].
  destruct Hb as [Hp Hh Hw Hi _ Hk]. destruct (Hk k eq_refl) as (_ & Hgas & _).
  repeat wp_prim.
  apply (wp_mono _ _ (fun _ c' h' => h' = h /\ exists m, mem_ok m /\
    c' = set_memory m (set_stack (bool_word (Succeeded r) :: stack c) c))).
  - wp_if.
    2:{ wp_prim. split; [done|]. exists (memory c). split; [apply Hp|by destruct c]. }
    wp_prim; wp_prim. apply wp_return_area; [apply Hp|done|done|done|done|].
    st_cbn. intros Hrs0 Hpan. left. exists ro. subst rs. split_and!; [done|done|lia].
  - intros _ c' h' (-> & m & Hm & ->). repeat wp_prim. st_cbn.
    pose proof (gas_bounds _ Hwf). pose proof (p_gas _ _ Hp).
    destruct (pres_addGas c0 c (GasLeft r)) as [_ ->]; [apply wf_gas; done|done|lia|lia|].
    split; st_cbn; [|done|right; lia|left; lia|intros _; apply Forall_cons_2; eauto with evm].
    apply pres_data, Hv. apply pres_gas; [|lia]. eauto with evm.
Qed.

Lemma opCall_ok op :
  is_Some (call_type op) -> inst_ok (call_operands op) 0 (call_ret_panics op) (opCall op).
Proof.
  intros [ct Hct]. inst_intro. unfold opCall. repeat wp_prim.
  apply (wp_mono _ _ (fun _ c' h' => c' = set_returnData [] c /\ h' = h)).
  { wp_if; [|by wp_prim]. unfold peekAt. repeat wp_prim. st_cbn.
    assert (Hn3 : 2 < len (stack c)) by (unfold call_operands in Hn; destruct (call_is _ _ _); lia).
    destruct (lookup_lt_is_Some_2 (stack c) 2) as [v Hv]; [unfold len in *; lia|].
    eapply wp_deref; [exact Hv|]. by wp_prim. }
  intros prot c' h' [-> ->]. wp_go; [post..|].
  eapply wp_deref; [exact Hct|]. cbv beta. wp_unbind.
  assert (Hp : pres c (set_returnData [] c)) by eauto with evm.
  eapply wp_mono; [apply wp_buildCallContract; try done; by eapply pres_wf|].
  intros [[[o off] sz] e] c' h' (ro & rs & Ero & Ers & Hro & Hrs & Hpost).
  eapply (call_post_trans c) in Hpost; [|done..].
  destruct Hpost as (Hb & He & Hoff) eqn:E0. clear E0. wp_if; repeat wp_prim.
  { eapply wp_refund; try done; [lia..|right; auto]. }
  destruct o as [k|].
  2:{ destruct Hb. repeat wp_prim. split; try done; auto. left; lia. }
  destruct (bp_some _ _ _ _ _ _ Hb k eq_refl) as (Hk & Hle & Hd).
  wp_unbind. apply wp_callx; [apply Hb|by apply with_type_ok|done|]. intros r h'' Hr Hh''.
  destruct Hoff as (-> & -> & Hoff); [done..|].
  eapply (wp_call_return op c c' ro rs k); try done; [lia| |by destruct Hr].
  split_and!; [destruct Hb; by split|done|done].
Qed.

(** ** The dispatch table *)

(** The states in which the opcode [op] may panic. *)
Definition known_panic (op : Z) (c : state) : Prop :=
  (op = Op.RETURNDATACOPY /\ returnDataCopy_panics c) \/
  (is_Some (call_type op) /\ call_ret_panics op c).

Lemma inst_ok_mono k n g (P P' : state -> Prop) m :
  inst_ok_at k n g P m -> (forall c, P c -> P' c) -> inst_ok_at k n g P' m.
Proof.
  intros Hm HP c h ? ? ? ? ? ?. specialize (Hm c h). unfold wp in *.
  destruct (m c h) as [[[a c'] h']| |]; simpl in *; [by apply Hm| |by apply Hm].
  destruct Hm as [?|?]; auto.
Qed.

(** The bytes of immediate data of an opcode. *)
Definition immediate (op : Z) : Z := if (96 <=? op) && (op <=? 127) then op - 95 else 0.

Definition entry_ok (e : Z * handler) : Prop :=
  inst_ok_at (immediate (fst e)) (hstack (snd e)) (hgas (snd e)) (known_panic (fst e))
    (inst (snd e)).

Lemma entry_no_panic op n g m :
  inst_ok_at (immediate op) n g no_panic m -> entry_ok (op, mkHandler m n g).
Proof. intros Hm. eapply inst_ok_mono; [exact Hm|done]. Qed.

Lemma entry_call op n g :
  is_Some (call_type op) -> immediate op = 0 -> call_operands op = n -> g = 0 -> entry_ok (op, mkHandler (opCall op) n g).
Proof.
  intros Hc Hi <- ->. eapply inst_ok_mono; [simpl; rewrite Hi; by apply opCall_ok|].
  intros. by right.
Qed.

Lemma range_ok from to f g :
  (forall n, 1 <= n <= to - from + 1 ->
    inst_ok_at (immediate (from + n - 1)) 0 g no_panic (f n)) ->
  Forall entry_ok (registerRange from to f g).
Proof.
  intros Hf. unfold registerRange. apply Forall_map, Forall_forall.
  intros i Hi. apply in_seq in Hi. apply entry_no_panic.
  replace (from + Z.of_nat i) with (from + (Z.of_nat i + 1) - 1) by lia. apply Hf. lia.
Qed.

Lemma immediate_above op : 127 < op -> immediate op = 0.
Proof.
  intros. unfold immediate. rewrite (proj2 (Z.leb_gt op 127)) by done. by rewrite andb_false_r.
Qed.

Lemma registrations_ok : Forall entry_ok registrations.
Proof.
  unfold registrations. repeat (apply Forall_app; split).
  - repeat apply Forall_cons_2; try apply Forall_nil_2; apply entry_no_panic;
      eauto using opStop_ok, opAdd_ok, opSub_ok, opMul_ok, opDiv_ok, opSDiv_ok, opMod_ok,
        opSMod_ok, opExp_ok.
  - apply range_ok. unfold Op.PUSH1, Op.PUSH32. intros n Hn. unfold immediate.
    rewrite !(proj2 (Z.leb_le _ _)) by lia. cbn [andb].
    replace (96 + n - 1 - 95) with n by lia. apply opPush_ok. lia.
  - apply range_ok. unfold Op.DUP1, Op.DUP16. intros n Hn. rewrite immediate_above by lia. apply opDup_ok. lia.
  - apply range_ok. unfold Op.SWAP1, Op.SWAP16. intros n Hn. rewrite immediate_above by lia. apply opSwap_ok. lia.
  - apply range_ok. unfold Op.LOG0, Op.LOG4. intros n Hn. rewrite immediate_above by lia. apply opLog_ok. lia.
  - repeat apply Forall_cons_2; try apply Forall_nil_2;
    lazymatch goal with
    | |- entry_ok (_, mkHandler (opCall _) _ _) => apply entry_call; [by eexists|done..]
    | |- entry_ok (_, mkHandler opReturnDataCopy _ _) =>
      eapply inst_ok_mono; [apply opReturnDataCopy_ok|by left]
    | |- entry_ok (_, mkHandler (opCreate ?op) _ _) => apply entry_no_panic, (opCreate_ok op)
    | |- entry_ok (_, mkHandler (opHalt ?op) _ _) => apply entry_no_panic, (opHalt_ok op)
    | |- _ => apply entry_no_panic
    end;
    eauto using opAddMod_ok, opMulMod_ok, opAnd_ok, opOr_ok, opXor_ok, opByte_ok, opNot_ok,
      opIsZero_ok, opEq_ok, opLt_ok, opGt_ok, opSlt_ok, opSgt_ok, opSignExtension_ok, opShl_ok,
      opShr_ok, opSar_ok, opMload_ok, opMStore_ok, opMStore8_ok, opSload_ok, opSStore_ok,
      opSha3_ok, opPop_ok, opExtCodeHash_ok, opAddress_ok, opBalance_ok, opSelfBalance_ok,
      opOrigin_ok, opCaller_ok, opCallValue_ok, opCallDataLoad_ok, opCallDataSize_ok,
      opCodeSize_ok, opExtCodeSize_ok, opGasPrice_ok, opReturnDataSize_ok, opChainID_ok,
      opPC_ok, opMSize_ok, opGas_ok, opExtCodeCopy_ok, opCallDataCopy_ok, opCodeCopy_ok,
      opBlockHash_ok, opCoinbase_ok, opTimestamp_ok, opNumber_ok, opDifficulty_ok,
      opGasLimit_ok, opSelfDestruct_ok, opJump_ok, opJumpi_ok, opJumpDest_ok.
Qed.

Lemma lookup_op_In op (t : table (H := H)) i : lookup_op op t = Some i -> In (op, i) t.
Proof.
  induction t as [|[o j] t IH]; simpl; [done|]. destruct (Z.eqb_spec o op) as [->|]; [|auto].
  intros [= ->]. auto.
Qed.

(** What every opcode of the table does. *)
Lemma dispatch_ok op (i : handler (H := H)) :
  dispatchTable op = Some i ->
  inst_ok_at (immediate op) (hstack i) (hgas i) (known_panic op) (inst i).
Proof.
  intros Hi%lookup_op_In. pose proof registrations_ok as Hr.
  rewrite List.Forall_forall in Hr. exact (Hr (op, i) Hi).
Qed.

Lemma dispatch_gas_nonneg op (i : handler (H := H)) : dispatchTable op = Some i -> 0 <= hgas i.
Proof.
  intros Hi%lookup_op_In. revert Hi. apply (List.Forall_forall (fun e => 0 <= hgas (snd e)) registrations).
  repeat (constructor; [by vm_compute|]). constructor.
Qed.

End safety.
