(* ===== verification/Run.v ===== *)
(** The interpreter loop: its invariant, the safety and the termination of
    [state.Run], and the contract of [EVM.Run], which is what the executor
    relies on when it calls the runtime. *)

From Stdlib Require Import ZArith Lia.
From stdpp Require Import base list numbers relations.
From S2P Require Import Prelude Types Slice VM Opcodes Instructions Interp Logic Safety.

Open Scope Z_scope.
Open Scope vm_scope.

Section run.
Context {H : Type} `{Host H} `{Runtime} `{!HostOk H}.
Implicit Types (c : state) (h : H) (X : exits).

(** ** The invariant of the loop *)

(** At the head of the loop the program counter is at the start of an
    instruction or past the code, the stack holds at most 1024 256-bit words,
    and the bitmap marks the code's jump destinations. *)
Record inv (c : state) (h : H) : Prop := {
  inv_wf : wf c;
  inv_fork : EIP150 (config c) = true;
  inv_host : host_inv h;
  inv_ip : 0 <= ip c;
  inv_start : ip c < len (code c) -> Bitmap.inst_start (code c) (Z.to_nat (ip c));
  inv_words : ip c < len (code c) -> words (stack c);
  inv_stack : len (stack c) <= stackSize;
  inv_dest : forall k, (k < length (code c))%nat ->
    Bitmap.bit (bmap c) k = true <-> Bitmap.jumpdest (code c) k
}.

(** The instruction at the program counter is in a state in which it may panic. *)
Definition panics_at (c : state) : Prop :=
  exists op, code c !! Z.to_nat (ip c) = Some op /\ known_panic op c.

Lemma inst_len_immediate op : 0 <= op -> Z.of_nat (Bitmap.inst_len op) = 1 + immediate op.
Proof.
  intros. unfold Bitmap.inst_len, immediate.
  destruct (Z.leb_spec 96 op), (Z.leb_spec op 127); simpl; lia.
Qed.

Lemma next_start c op i :
  0 <= ip c -> is_byte op -> Bitmap.inst_start (code c) (Z.to_nat (ip c)) ->
  code c !! Z.to_nat (ip c) = Some op -> i = ip c + immediate op + 1 ->
  Bitmap.inst_start (code c) (Z.to_nat i).
Proof.
  intros Hip [Hop _] Hs Hc ->. pose proof (inst_len_immediate op Hop).
  replace (Z.to_nat (ip c + immediate op + 1)) with (Z.to_nat (ip c) + Bitmap.inst_len op)%nat by lia.
  by eapply Bitmap.start_next.
Qed.

Lemma immediate_nonneg op : 0 <= immediate op.
Proof.
  unfold immediate. destruct (Z.leb_spec 96 op), (Z.leb_spec op 127); simpl; lia.
Qed.

(** The state after an instruction, with the counter advanced. *)
Lemma inv_next c c1 h c' h' op :
  inv c h -> ip c < len (code c) -> code c !! Z.to_nat (ip c) = Some op ->
  c1 = c \/ (exists g, c1 = set_gas g c /\ 0 <= g <= gas c) ->
  inst_post_at (immediate op) c1 (gas c - gas c1) c' h' -> len (stack c') <= stackSize ->
  inv (set_ip (ip c' + 1) c') h'.
Proof.
  intros Hi Hlt Hop Hc1 Hpost Hst.
  assert (Hc1' : code c1 = code c /\ ip c1 = ip c /\ bmap c1 = bmap c /\ config c1 = config c /\
    pres c c1).
  { destruct Hi. destruct Hc1 as [->|(g & -> & Hg)]; split_and!; eauto with evm. }
  destruct Hc1' as (Ec & Ei & Eb & Ef & Hp1). destruct Hpost as [Hp Hh Hburn Hip Hw].
  assert (Hpc : pres c c') by (by eapply pres_trans).
  assert (Hbyte : is_byte op).
  { eapply Forall_lookup_1; [apply (wf_code _ (inv_wf _ _ Hi))|exact Hop]. }
  pose proof (immediate_nonneg op). pose proof (p_code _ _ Hpc) as Ec'.
  pose proof (inv_ip _ _ Hi).
  split; st_cbn; rewrite ?Ec'.
  - eapply pres_wf; [apply Hi|]. eauto with evm.
  - rewrite (p_config _ _ Hpc). apply Hi.
  - done.
  - unfold jumped in Hip. rewrite Ei in Hip. lia.
  - intros Hin. destruct Hip as [Hip|[Hj Hb]].
    + eapply next_start; try done; [by apply Hi|lia].
    + rewrite Ec in Hj. unfold len in Hj.
      apply (inv_dest _ _ Hi (Z.to_nat (ip c' + 1))); [lia|]. by rewrite <- Eb.
  - intros Hin. apply Hw. by rewrite Ec.
  - done.
  - intros k Hk. rewrite (p_bmap _ _ Hpc). by apply Hi.
Qed.

(** One iteration of the loop keeps the invariant and burns gas or stops. *)
Lemma step_ok c h :
  inv c h ->
  wp (mkExits (panics_at c \/ call_panics (msg c)) (call_no_fuel (msg c))) step
    (fun go c' h' => pres c c' /\ host_inv h' /\
       (go = true -> inv c' h' /\ (stop c' = true \/ gas c' < gas c))) c h.
Proof.
  intros Hi. pose proof (pres_refl c (inv_wf _ _ Hi)) as Hr.
  unfold step. wp_prim; wp_prim.
  destruct (Z.leb_spec (len (code c)) (ip c)) as [Hend|Hlt].
  { repeat wp_prim. split_and!; [eauto with evm|apply Hi|done]. }
  pose proof (inv_ip _ _ Hi). rewrite (proj2 (Z.ltb_ge _ _)) by done.
  destruct (lookup_lt_is_Some_2 (code c) (Z.to_nat (ip c))) as [op Hop]; [unfold len in Hlt; lia|].
  wp_prim. eapply wp_deref; [exact Hop|]. cbv beta.
  destruct (dispatchTable op) as [i|] eqn:Ei.
  2:{ repeat wp_prim. split_and!; [eauto with evm|apply Hi|done]. }
  destruct (Z.ltb_spec (len (stack c)) (hstack i)) as [|Hst].
  { repeat wp_prim. split_and!; [eauto with evm|apply Hi|done]. }
  wp_unbind. apply wp_consumeGas; [apply Hi|by eapply dispatch_gas_nonneg|..];
    intros Hg; cbn [negb].
  { repeat wp_prim. split_and!; [eauto with evm|apply Hi|done]. }
  set (c1 := set_gas (gas c - hgas i) c).
  assert (Hp1 : pres c c1) by (subst c1; eauto with evm).
  wp_unbind. pose proof (dispatch_ok op i Ei c1 h) as Hd.
  assert (Hd' : wp (mkExits (panics_at c \/ call_panics (msg c)) (call_no_fuel (msg c))) (inst i)
    (fun _ => inst_post_at (immediate op) c1 (hgas i)) c1 h).
  { unfold wp in *. assert (Hk : known_panic op c1 -> panics_at c) by (intros; by exists op).
    destruct (inst i c1 h) as [[[a c'] h']| |]; simpl in *.
    1,3: apply Hd; [by eapply pres_wf, Hp1; apply Hi|apply Hi|by apply Hi|lia|done|apply Hi].
    destruct Hd; [by eapply pres_wf, Hp1; apply Hi|apply Hi|by apply Hi|lia|done|apply Hi|..]; auto. }
  eapply wp_mono; [exact Hd'|]. intros a c' h' Hpost. cbv beta in Hpost. repeat wp_prim.
  assert (Hpc : pres c c') by (eapply pres_trans; [exact Hp1|apply Hpost]).
  destruct (Z.ltb_spec stackSize (len (stack c'))); repeat wp_prim.
  { split_and!; [eauto with evm|apply Hpost|done]. }
  split_and!; [eauto with evm|apply Hpost|]. intros _. split.
  - eapply (inv_next c c1); try done; [right; by exists (gas c - hgas i); split; [|lia]|].
    subst c1. st_cbn. by replace (gas c - (gas c - hgas i)) with (hgas i) by lia.
  - pose proof (post_burn _ _ _ _ _ Hpost) as Hb. subst c1. st_cbn_all. destruct Hb; [by left|right; lia].
Qed.

(** ** Reachability *)

(** One iteration that goes on to the next. *)
Definition goes (x y : state * H) : Prop :=
  stop (fst x) = false /\ step (fst x) (snd x) = Ok (true, fst y, snd y).

Lemma goes_inv x y : goes x y -> inv (fst x) (snd x) -> inv (fst y) (snd y) /\ pres (fst x) (fst y).
Proof.
  intros [_ Hs] Hi. pose proof (step_ok _ _ Hi) as Hok. unfold wp in Hok. rewrite Hs in Hok.
  destruct Hok as (? & _ & Hok). split; [by apply Hok|done].
Qed.

Lemma reaches_inv x y : rtc goes x y -> inv (fst x) (snd x) -> inv (fst y) (snd y) /\ pres (fst x) (fst y).
Proof.
  induction 1 as [x|x y z Hxy Hyz IH]; intros Hi.
  - split; [done|]. apply pres_refl, Hi.
  - destruct (goes_inv x y Hxy Hi) as [Hi' Hp]. destruct (IH Hi') as [? Hp'].
    split; [done|]. by eapply pres_trans.
Qed.

(** The loop reaches an instruction that may panic, or a nested call panics. *)
Definition run_panics (c : state) (h : H) : Prop :=
  (exists c1 h1, rtc goes (c, h) (c1, h1) /\ stop c1 = false /\ panics_at c1) \/ call_panics (msg c).

(** ** The loop *)

Lemma run_loop_ok fuel c h :
  inv c h -> gas c < Z.of_nat fuel ->
  wp (mkExits (run_panics c h) (call_no_fuel (msg c))) (run_loop fuel)
    (fun _ c' h' => pres c c' /\ host_inv h') c h.
Proof.
  revert c h. induction fuel as [|fuel IH]; intros c h Hi Hf.
  { destruct (wf_gas _ (inv_wf _ _ Hi)). lia. }
  cbn [run_loop]. wp_prim; wp_prim. destruct (stop c) eqn:Es.
  { apply wp_ret. split; [apply pres_refl, Hi|apply Hi]. }
  pose proof (step_ok c h Hi) as Hs. unfold wp, bind in *.
  destruct (step c h) as [[[go c'] h']| |] eqn:Est; simpl in *; [|..].
  - destruct Hs as (Hp & Hh & Hgo). destruct go; [|by simpl].
    destruct (Hgo eq_refl) as [Hi' Hdec]. 
    assert (Hreach : run_panics c' h' -> run_panics c h).
    { intros [(c1 & h1 & Hr & ?)|?]; [left|right; by rewrite <- (p_msg _ _ Hp)]. exists c1, h1. split; [|done].
      eapply rtc_l; [|exact Hr]. by split. }
    destruct Hdec as [Hst|Hlt].
    + destruct fuel; simpl; unfold bind, gets; rewrite Hst; simpl; (split; [done|apply Hi']).
    + specialize (IH c' h' Hi' ltac:(lia)). unfold wp in IH.
      rewrite (p_msg _ _ Hp) in IH.
      destruct (run_loop fuel c' h') as [[[a c''] h'']| |]; simpl in *; [|auto..].
      destruct IH. split; [by eapply pres_trans|done].
  - destruct Hs as [Hs|Hs]; [|by right]. left. exists c, h. split; [apply rtc_refl|done].
  - done.
Qed.

(** ** The runtime *)

(** A state as it sits in the pool. *)
Record pooled_ok (c : state) : Prop := {
  pool_ip : ip c = 0;
  pool_last : lastGasCost c = 0;
  pool_stack : stack c = [];
  pool_err : err c = None;
  pool_stop : stop c = false;
  pool_ret : retv c = [];
  pool_mem : slice_ok (memory c) /\ slen (memory c) = 0%nat;
  pool_bmap : slice_ok (bmap c) /\ slen (bmap c) = 0%nat
}.

Lemma reset_pooled c : wf c -> pooled_ok (reset c).
Proof.
  intros [_ _ [Hm _] [Hb _] _ _ _ _].
  split; try done; (split; [by apply clear_ok|done]).
Qed.

(** The state [EVM.Run] starts the loop with. *)
Definition start_state (pooled : state) (k : Contract) (f : ForksInTime) (b : slice) : state :=
  mkState (ip pooled) (cCode k) (tmp pooled) k f (memory pooled) (lastGasCost pooled)
    (stack pooled) (err pooled) (stop pooled) (cGas k) b [] (retv pooled).

Lemma start_inv p k f h :
  pooled_ok p -> contract_ok k -> EIP150 f = true -> host_inv h ->
  exists b, Bitmap.setCode (bmap p) (cCode k) = Ok b /\ inv (start_state p k f b) h.
Proof.
  intros [Hip Hlast Hst He Hs Hr [Hm Hml] [Hb Hbl]] Hk Hf Hh.
  destruct (Bitmap.setCode_ok (bmap p) (cCode k)) as (b & Hset & Hbok & Hblen & Hdest);
    [apply Hk|done|done|].
  exists b. split; [done|].
  split; cbn [start_state ip code config stack bmap]; try done; rewrite ?Hip, ?Hst.
  - split; cbn [start_state gas lastGasCost memory bmap code returnData retv msg]; try done.
    + apply Hk.
    + rewrite Hlast. unfold is_u64. lia.
    + split; [done|]. rewrite Hml. lia.
    + apply Hk.
    + rewrite Hr. apply bytes_ok_nil.
  - done.
  - intros _. constructor.
  - intros _. constructor.
  - done.
Qed.

Lemma EVM_Run_ok p k f h :
  pooled_ok p -> contract_ok k -> EIP150 f = true -> host_inv h ->
  exists b, Bitmap.setCode (bmap p) (cCode k) = Ok b /\
  match EVM_Run p k f h with
  | Ok (r, p', h') => result_ok k r /\ pooled_ok p' /\ host_inv h'
  | Panic => run_panics (start_state p k f b) h
  | OutOfFuel => call_no_fuel k
  end.
Proof.
  intros Hp Hk Hf Hh. destruct (start_inv p k f h Hp Hk Hf Hh) as (b & Hb & Hi).
  exists b. split; [done|]. unfold EVM_Run. rewrite Hb. fold (start_state p k f b).
  pose proof (run_loop_ok (S (Z.to_nat (cGas k))) (start_state p k f b) h Hi) as Hrun.
  unfold Run, wp in *. unfold bind, gets, ret in *.
  destruct (run_loop _ _ _) as [[[a c'] h']| |].
  - destruct Hrun as [Hpr Hh']; [simpl; destruct (k_gas _ Hk); lia|].
    split_and!; [|apply reset_pooled; eapply pres_wf; [exact (inv_wf _ _ Hi)|done]|done].
    destruct Hpr. simpl in p_gas. split; simpl; [done|].
    destruct (err c') as [e|]; [|done]. case_bool_decide; [done|]. lia.
  - apply Hrun. simpl. destruct (k_gas _ Hk). lia.
  - apply Hrun. simpl. destruct (k_gas _ Hk). lia.
Qed.

End run.
