(* ===== verification/Frame.v ===== *)
(** What running a contract can do to its host.  A relation that holds between
    the host before and after every host operation holds between the host before
    and after the whole run; and in a contract whose [Static] flag is set no
    instruction writes to the host and every call it makes is static, so for
    such a contract the operations that write need not keep the relation. *)

From Stdlib Require Import ZArith Lia.
From stdpp Require Import base list numbers relations.
From S2P Require Import Prelude Types Slice VM Opcodes Instructions Interp.

Open Scope Z_scope.
Open Scope vm_scope.

Section frame.
Context {H : Type} `{Host H} `{Runtime}.
Implicit Types (c : state) (h : H).

(** [strict] selects static contracts.  [R h h'] reads: [h'] is [h] up to what
    the run may change. *)
Context (strict : bool) (R : relation H) `{!PreOrder R}.

(** The contract [k] may run: it is static where that is asked for. *)
Definition allowed_contract (k : Contract) : Prop := strict = true -> cStatic k = true.

Context (R_code : forall h a, R h (snd (GetCode h a))).
Context (R_size : forall h a, R h (snd (GetCodeSize h a))).
Context (R_callx : forall h k r h', allowed_contract k -> Callx h k = Ok (r, h') -> R h h').
Context (R_storage : strict = false -> forall h a k v f, R h (snd (SetStorage h a k v f))).
Context (R_suicide : strict = false -> forall h a b, R h (Selfdestruct h a b)).
Context (R_log : strict = false -> forall h a ts d, R h (EmitLog h a ts d)).

(** Run in such a contract, [m] keeps the host and its result is in [P]. *)
Definition quiet {A} (m : M H A) (P : A -> Prop) : Prop :=
  forall c h a c' h', allowed_contract (msg c) -> m c h = Ok (a, c', h') ->
    R h h' /\ msg c' = msg c /\ P a.

Definition any {A} : A -> Prop := fun _ => True.

Lemma quiet_bind {A B} (m : M H A) (k : A -> M H B) P Q :
  quiet m P -> (forall a, P a -> quiet (k a) Q) -> quiet (bind m k) Q.
Proof.
  intros Hm Hk c h b c' h' Hs Hr. unfold bind in Hr.
  destruct (m c h) as [[[a c1] h1]| |] eqn:E; try done.
  destruct (Hm _ _ _ _ _ Hs E) as (? & Em & Ha).
  destruct (Hk a Ha c1 h1 b c' h') as (? & ? & ?); [by rewrite Em|done|].
  split_and!; [by etrans|congruence|done].
Qed.

Lemma quiet_ret {A} (a : A) (P : A -> Prop) : P a -> quiet (ret a) P.
Proof. intros ? c h ? ? ? _ [= <- <- <-]. done. Qed.
Lemma quiet_ret_any {A} (a : A) : quiet (ret a) any.
Proof. by apply quiet_ret. Qed.
Lemma quiet_gets {A} (f : state -> A) : quiet (gets f) any.
Proof. intros c h ? ? ? _ [= <- <- <-]. done. Qed.
Lemma quiet_this : quiet this allowed_contract.
Proof. intros c h ? ? ? ? [= <- <- <-]. done. Qed.
Lemma quiet_inStatic : quiet inStaticCall (fun b => strict = true -> b = true).
Proof. intros c h ? ? ? ? [= <- <- <-]. done. Qed.
Lemma quiet_modify f : (forall c, msg (f c) = msg c) -> quiet (modify f) any.
Proof. intros Hf c h ? ? ? _ [= <- <- <-]. done. Qed.
Lemma quiet_deref {A} (o : option A) : quiet (deref o) any.
Proof. destruct o; [apply quiet_ret_any|]. by intros c h ? ? ? _ ?. Qed.
Lemma quiet_hread {A} (f : H -> A) : quiet (hread f) any.
Proof. intros c h ? ? ? _ [= <- <- <-]. done. Qed.
Lemma quiet_hact {A} (f : H -> A * H) : (forall h, R h (snd (f h))) -> quiet (hact f) any.
Proof.
  intros Hf c h ? ? ? _ Hr. unfold hact in Hr. specialize (Hf h).
  destruct (f h) as [b h2]. by simplify_eq.
Qed.
Lemma quiet_callx k : allowed_contract k -> quiet (hcall (fun h => Callx h k)) any.
Proof.
  intros Hk c h ? ? ? _ Hr. unfold hcall in Hr. destruct (Callx h k) as [[r h2]| |] eqn:E; try done.
  simplify_eq. split_and!; [by eapply R_callx|done|done].
Qed.

Lemma quiet_weaken {A} (m : M H A) P : quiet m P -> quiet m any.
Proof. intros Hm c h a c' h' Hs Hr. destruct (Hm c h a c' h' Hs Hr) as (? & ? & _). done. Qed.

(** A write is reached only past a test of the static flag. *)
Ltac writable :=
  match goal with E : strict = true -> false = true |- strict = false =>
    destruct strict; [by specialize (E eq_refl)|done] end.

(** One step of the syntactic check. *)
Ltac quiet_step :=
  lazymatch goal with
  | |- forall _, _ => let E := fresh "E" in intros ? E; cbv beta in E
  | |- quiet (bind _ _) _ => eapply quiet_bind
  | |- quiet (let _ := _ in _) _ => cbv zeta
  | |- quiet (match ?x with _ => _ end) _ => destruct x eqn:?
  | |- quiet (ret _) any => apply quiet_ret_any
  | |- quiet (ret _) _ => first [apply quiet_ret; solve [eauto] | apply quiet_ret_any]
  | |- quiet this _ => apply quiet_this
  | |- quiet inStaticCall _ => apply quiet_inStatic
  | |- quiet cfg _ => apply quiet_gets
  | |- quiet memLen _ => apply quiet_gets
  | |- quiet top _ => apply quiet_gets
  | |- quiet (stackAtLeast _) _ => apply quiet_gets
  | |- quiet (gets _) _ => apply quiet_gets
  | |- quiet (modify _) _ => apply quiet_modify; done
  | |- quiet (deref _) _ => apply quiet_deref
  | |- quiet (hread _) _ => apply quiet_hread
  | |- quiet (hact _) _ => apply quiet_hact; intros ?; cbv beta; cbn [snd];
    first [ apply R_code | apply R_size | apply R_storage; writable | apply R_suicide; writable
          | apply R_log; writable ]
  | |- quiet halt _ => apply quiet_modify; done
  | |- quiet (exit _) _ => apply quiet_modify; done
  | |- quiet (push _) _ => apply quiet_modify; done
  | |- quiet (set_top _) _ => apply quiet_modify; done
  | |- quiet (addGas _) _ => apply quiet_modify; done
  | |- quiet resetReturnData _ => apply quiet_modify; done
  end.
Ltac quiet_go := repeat quiet_step.

Lemma quiet_pop : quiet pop any.
Proof. intros c h ? ? ? _ Hr. unfold pop in Hr. destruct (stack c); by simplify_eq. Qed.
Lemma quiet_popv : quiet popv any.
Proof. unfold popv. eapply quiet_bind; [apply quiet_pop|]. quiet_go. Qed.
Lemma quiet_topv : quiet topv any.
Proof. unfold topv. quiet_go. Qed.
Lemma quiet_popAddr : quiet popAddr any.
Proof. unfold popAddr. eapply quiet_bind; [apply quiet_pop|]. quiet_go. Qed.
Lemma quiet_popHash : quiet popHash any.
Proof. unfold popHash. eapply quiet_bind; [apply quiet_popv|]. quiet_go. Qed.
Lemma quiet_consumeGas g : quiet (consumeGas g) any.
Proof. unfold consumeGas. quiet_go. Qed.
Lemma quiet_peekAt n : quiet (peekAt n) any.
Proof.
  unfold peekAt. eapply quiet_bind; [apply quiet_gets|]. intros s _. destruct n; [|quiet_go].
  by intros c h ? ? ? _ ?.
Qed.
Lemma quiet_swap n : quiet (swap n) any.
Proof. unfold swap. quiet_go. Qed.
Lemma quiet_validJumpdest d : quiet (validJumpdest d) any.
Proof. unfold validJumpdest. quiet_go. Qed.
Lemma quiet_checkMemory o s : quiet (checkMemory o s) any.
Proof.
  unfold checkMemory. repeat (quiet_step || (lazymatch goal with
    |- quiet (consumeGas _) _ => apply quiet_consumeGas end)).
Qed.
Lemma quiet_get2 d o l : quiet (get2 d o l) any.
Proof.
  unfold get2. repeat (quiet_step || (lazymatch goal with
    |- quiet (checkMemory _ _) _ => apply quiet_checkMemory end)).
Qed.
Lemma quiet_mem_setBytes o d s f : quiet (mem_setBytes o d s f) any.
Proof. unfold mem_setBytes. quiet_go. Qed.

(** The check with the machine's own operations. *)
Ltac quiet_op :=
  repeat (quiet_step || lazymatch goal with
  | |- quiet pop _ => apply quiet_pop
  | |- quiet popv _ => apply quiet_popv
  | |- quiet topv _ => apply quiet_topv
  | |- quiet popAddr _ => apply quiet_popAddr
  | |- quiet popHash _ => apply quiet_popHash
  | |- quiet (consumeGas _) _ => apply quiet_consumeGas
  | |- quiet (peekAt _) _ => apply quiet_peekAt
  | |- quiet (swap _) _ => apply quiet_swap
  | |- quiet (validJumpdest _) _ => apply quiet_validJumpdest
  | |- quiet (checkMemory _ _) _ => apply quiet_checkMemory
  | |- quiet (get2 _ _ _) _ => apply quiet_get2
  | |- quiet (mem_setBytes _ _ _ _) _ => apply quiet_mem_setBytes
  end).

(** ** Calls *)

Lemma callContract_static op parent addr v g ext args :
  allowed_contract parent -> allowed_contract (callContract op parent addr v g ext args).
Proof.
  intros Hp Hs. unfold callContract, call_is. rewrite (Hp Hs), orb_true_r.
  by destruct (op =? Op.CALLCODE), (op =? Op.DELEGATECALL).
Qed.

(** Every contract that the two build functions return may run. *)
Definition allowed_call '(((o, _), _, _) : option Contract * Z * Z * bool) : Prop :=
  forall k, o = Some k -> allowed_contract k.

Lemma quiet_buildCallContract op : quiet (buildCallContract op) allowed_call.
Proof.
  unfold buildCallContract, buildCall. quiet_op; apply quiet_ret; intros k Hk;
    simplify_eq; by apply callContract_static.
Qed.

Lemma quiet_pop_topics n : quiet (pop_topics n) any.
Proof.
  induction n as [|n IH]; cbn [pop_topics]; [quiet_op|].
  eapply quiet_bind; [apply quiet_popv|]. intros v _.
  eapply quiet_bind; [exact IH|]. intros ts _. quiet_op.
Qed.

(** A created contract is not static, but it is reached only outside static
    calls. *)
Definition allowed_create '((o, _) : option Contract * bool) : Prop :=
  strict = false -> forall k, o = Some k -> allowed_contract k.

Lemma quiet_buildCreateContract op : quiet (buildCreateContract op) allowed_create.
Proof.
  unfold buildCreateContract, buildCreate. quiet_op; apply quiet_ret; intros Hs k Hk Hs'; congruence.
Qed.

Lemma quiet_opCreate op : quiet (opCreate op) any.
Proof.
  unfold opCreate. eapply quiet_bind; [apply quiet_inStatic|]. intros [|] Hst; [quiet_op|].
  assert (Hs : strict = false) by (destruct strict; [by specialize (Hst eq_refl)|done]).
  eapply quiet_bind; [apply quiet_gets|]. intros f _.
  destruct (_ && _); [quiet_op|]. eapply quiet_bind; [quiet_op|]. intros _ _.
  eapply quiet_bind; [apply quiet_buildCreateContract|]. intros [o e] Ho.
  destruct e; [quiet_op|]. destruct o as [k|]; [|quiet_op].
  eapply quiet_bind; [apply quiet_callx; exact (Ho Hs k eq_refl)|]. intros r _. quiet_op.
Qed.

Lemma quiet_opCall op : quiet (opCall op) any.
Proof.
  unfold opCall. eapply quiet_bind; [quiet_op|]. intros _ _.
  eapply quiet_bind; [apply quiet_inStatic|]. intros b _.
  eapply quiet_bind. { eapply quiet_weaken. destruct (_ && _); quiet_op. }
  intros prot _. destruct prot; [quiet_op|].
  eapply quiet_bind; [apply quiet_gets|]. intros f _.
  destruct (_ && _); [quiet_op|]. destruct (_ && _); [quiet_op|].
  eapply quiet_bind; [apply quiet_deref|]. intros ct _.
  eapply quiet_bind; [apply quiet_buildCallContract|]. intros [[[o off] sz] e] Hst.
  destruct e; [quiet_op|]. destruct o as [k|]; [|quiet_op].
  eapply quiet_bind; [apply quiet_callx; exact (Hst k eq_refl)|]. intros r _. quiet_op.
Qed.

(** ** The table *)

Ltac head t := lazymatch t with ?f _ => head f | _ => t end.

Lemma quiet_range from to f g :
  (forall n, quiet (f n) any) ->
  Forall (fun e : Z * handler => quiet (inst (snd e)) any) (registerRange from to f g).
Proof. intros Hf. unfold registerRange. apply Forall_map, Forall_true. intros i. apply Hf. Qed.

Lemma registrations_quiet : Forall (fun e : Z * handler => quiet (inst (snd e)) any) registrations.
Proof.
  unfold registrations. repeat (apply Forall_app; split); try apply quiet_range.
  - repeat apply Forall_cons_2; try apply Forall_nil_2; cbn [snd inst].
    all: lazymatch goal with |- quiet ?m _ => let f := head m in unfold f end; quiet_op.
  - intros n. unfold opPush. quiet_op.
  - intros n. unfold opDup. quiet_op.
  - intros n. unfold opSwap. quiet_op.
  - intros n. unfold opLog. quiet_op; apply quiet_pop_topics.
  - repeat apply Forall_cons_2; try apply Forall_nil_2; cbn [snd inst].
    all: first [ apply quiet_opCall | apply quiet_opCreate
      | lazymatch goal with |- quiet ?m _ => let f := head m in unfold f end; quiet_op].
  unfold returnDataCopy. quiet_op.
Qed.

Lemma lookup_op_Forall (P : Z * handler -> Prop) op (t : table (H := H)) i :
  Forall P t -> lookup_op op t = Some i -> P (op, i).
Proof.
  induction 1 as [|[o j] t Hj Ht IH]; simpl; [done|].
  destruct (Z.eqb_spec o op) as [->|]; [by intros [= ->]|done].
Qed.

Lemma quiet_dispatch op (i : handler (H := H)) : dispatchTable op = Some i -> quiet (inst i) any.
Proof. intros Hi. exact (lookup_op_Forall _ _ _ _ registrations_quiet Hi). Qed.

Lemma quiet_step_loop : quiet step any.
Proof.
  unfold step. quiet_op; try apply quiet_consumeGas. by eapply quiet_dispatch.
Qed.

Lemma quiet_run_loop fuel : quiet (run_loop fuel) any.
Proof.
  induction fuel as [|fuel IH]; cbn [run_loop].
  - eapply quiet_bind; [apply quiet_gets|]. intros s _. destruct s; [quiet_op|].
    by intros c h ? ? ? _ ?.
  - eapply quiet_bind; [apply quiet_gets|]. intros s _. destruct s; [quiet_op|].
    eapply quiet_bind; [apply quiet_step_loop|]. intros go _. destruct go; [done|quiet_op].
Qed.

Lemma EVM_Run_quiet p k f h r p' h' :
  allowed_contract k -> EVM_Run p k f h = Ok (r, p', h') -> R h h'.
Proof.
  intros Hk Hr. unfold EVM_Run in Hr.
  destruct (Bitmap.setCode _ _) as [b| |]; try done.
  unfold Run in Hr. unfold bind, gets, ret in Hr.
  match type of Hr with context [run_loop ?n ?c ?h] =>
    destruct (run_loop n c h) as [[[u c'] h1]| |] eqn:E; try done;
    destruct (quiet_run_loop n c h u c' h1) as (? & _); [done|done|]
  end.
  by simplify_eq.
Qed.

End frame.
