(* ===== verification/Alu.v ===== *)
(** The arithmetic, comparison and bit instructions against their mathematical
    definitions on 256-bit words. *)

From Stdlib Require Import ZArith Lia Zquot.
From stdpp Require Import base list numbers.
From S2P Require Import Prelude Types Slice VM Opcodes Instructions Interp Logic Safety.

Open Scope Z_scope.
Open Scope vm_scope.

(** ** Specifications *)

Definition wrap (x : Z) : Z := x mod 2 ^ 256.

(** The two's complement reading of a word. *)
Definition signed (x : Z) : Z := if x <? 2 ^ 255 then x else x - 2 ^ 256.

(** [k] low bytes of [x], sign-extended. *)
Definition sign_extend (k x : Z) : Z :=
  let n := 8 * (k + 1) in
  let v := x mod 2 ^ n in
  if k <? 31 then wrap (if v <? 2 ^ (n - 1) then v else v - 2 ^ n) else x.

Definition binary_specs {H : Type} : list (M H unit * (Z -> Z -> Z)) :=
  [ (opAdd, fun a b => wrap (a + b));
    (opMul, fun a b => wrap (a * b));
    (opSub, fun a b => wrap (a - b));
    (opDiv, fun a b => if b =? 0 then 0 else a / b);
    (opSDiv, fun a b => if b =? 0 then 0 else wrap (Z.quot (signed a) (signed b)));
    (opMod, fun a b => if b =? 0 then 0 else a mod b);
    (opSMod, fun a b => if b =? 0 then 0 else wrap (Z.rem (signed a) (signed b)));
    (opAnd, Z.land);
    (opOr, Z.lor);
    (opXor, Z.lxor);
    (opEq, fun a b => if a =? b then 1 else 0);
    (opLt, fun a b => if a <? b then 1 else 0);
    (opGt, fun a b => if b <? a then 1 else 0);
    (opSlt, fun a b => if signed a <? signed b then 1 else 0);
    (opSgt, fun a b => if signed b <? signed a then 1 else 0);
    (opSignExtension, sign_extend) ].

Definition shift_specs {H : Type} : list (M H unit * (Z -> Z -> Z)) :=
  [ (opShl, fun s v => wrap (v * 2 ^ s));
    (opShr, fun s v => v / 2 ^ s);
    (opSar, fun s v => wrap (signed v / 2 ^ s)) ].

(** ** Lemmas *)

Lemma to256_signed x : is_word x -> to256 x = signed x.
Proof.
  intros [H0 H1]. unfold to256, signed. rewrite tt256_eq.
  destruct (Z.ltb_spec 255 (big.BitLen x)) as [Hb|Hb], (Z.ltb_spec x (2 ^ 255)) as [Hx|Hx]; try done.
  - exfalso. assert (big.BitLen x <= 255) by (apply BitLen_le; lia). lia.
  - exfalso. apply BitLen_le in Hb; lia.
Qed.

Lemma signed_zero x : is_word x -> signed x = 0 <-> x = 0.
Proof.
  intros [? ?]. unfold signed. destruct (Z.ltb_spec x (2 ^ 255)); lia.
Qed.

Lemma sgn_eqb x : (Z.sgn x =? 0) = (x =? 0).
Proof. by destruct x. Qed.

Lemma quot_signs a b : b <> 0 ->
  (if negb (Z.sgn a =? Z.sgn b) then - (Z.abs a / Z.abs b) else Z.abs a / Z.abs b) = Z.quot a b.
Proof.
  intros Hb. rewrite Z.quot_div by done.
  destruct a as [|a|a], b as [|b|b]; try done; cbn [Z.sgn Z.eqb Z.abs negb Z.mul].
  all: change (Pos.eqb 1 1) with true; cbn [negb]; rewrite ?Z.div_0_l by done; lia.
Qed.

Lemma rem_signs a b : b <> 0 ->
  (if Z.sgn a <? 0 then - (Z.abs a mod Z.abs b) else Z.abs a mod Z.abs b) = Z.rem a b.
Proof.
  intros Hb. rewrite Z.rem_mod by done.
  destruct a as [|a|a]; cbn [Z.sgn Z.ltb Z.compare Z.abs].
  - by rewrite Z.mod_0_l by lia.
  - lia.
  - lia.
Qed.

Lemma wrap_small x : is_word x -> wrap x = x.
Proof. intros. by apply Z.mod_small. Qed.

Lemma div_small_word a b : is_word a -> 0 < b -> is_word (a / b).
Proof.
  intros [? ?] ?. split; [by apply Z.div_pos|].
  eapply Z.le_lt_trans; [apply Z.div_le_upper_bound; [done|]|eassumption]. nia.
Qed.

Lemma mod_small_word a b : is_word b -> 0 < b -> is_word (a mod b).
Proof. intros [? ?] ?. pose proof (Z.mod_pos_bound a b). unfold is_word. lia. Qed.

Lemma land_mask x n : 0 <= n -> Z.land x (Z.shiftl 1 n - 1) = x mod 2 ^ n.
Proof.
  intros. rewrite Z.shiftl_1_l. replace (2 ^ n - 1) with (Z.ones n) by (rewrite Z.ones_equiv; lia).
  by rewrite Z.land_ones.
Qed.

Lemma lor_lnot_mask x n : 0 <= n -> Z.lor x (Z.lnot (Z.shiftl 1 n - 1)) = x mod 2 ^ n - 2 ^ n.
Proof.
  intros Hn. replace (x mod 2 ^ n - 2 ^ n) with (x mod 2 ^ n + - 2 ^ n) by lia.
  rewrite Z.shiftl_1_l. replace (2 ^ n - 1) with (Z.ones n) by (rewrite Z.ones_equiv; lia).
  replace (- 2 ^ n) with (Z.lnot (Z.ones n)) by (rewrite Z.ones_equiv; unfold Z.lnot; lia).
  rewrite <- Z.land_ones, Z.add_nocarry_lxor, Z.lxor_lor by
    (apply Z.bits_inj'; intros i Hi; rewrite ?Z.land_spec, ?Z.lnot_spec, Z.bits_0 by done;
     by destruct (Z.testbit x i), (Z.testbit (Z.ones n) i)) || done.
  apply Z.bits_inj'. intros i Hi. rewrite !Z.lor_spec, Z.land_spec, !Z.lnot_spec by done.
  by destruct (Z.testbit x i), (Z.testbit (Z.ones n) i).
Qed.

Lemma testbit_split x n : 0 <= n ->
  x mod 2 ^ (n + 1) = x mod 2 ^ n + (if Z.testbit x n then 2 ^ n else 0).
Proof.
  intros Hn. rewrite Z.pow_add_r, Z.pow_1_r by lia.
  rewrite Z.rem_mul_r by (try apply Z.pow_nonzero; lia). f_equal.
  rewrite Z.testbit_odd, Z.shiftr_div_pow2 by done. rewrite Zmod_odd.
  destruct (Z.odd _); lia.
Qed.

Lemma signExtension_spec ext x :
  is_word ext -> is_word x -> ext <= 32 ->
  (if Z.testbit x (ext * 8 + 7)
   then toU256 (Z.lor x (Z.lnot (Z.shiftl 1 (ext * 8 + 7) - 1)))
   else toU256 (Z.land x (Z.shiftl 1 (ext * 8 + 7) - 1))) = sign_extend ext x.
Proof.
  intros [He0 _] Hx He. rewrite lor_lnot_mask, land_mask, !toU256_mod by lia. unfold sign_extend.
  destruct (Z.ltb_spec ext 31) as [Hlt|Hge].
  - replace (8 * (ext + 1) - 1) with (ext * 8 + 7) by lia.
    replace (8 * (ext + 1)) with (ext * 8 + 7 + 1) by lia. set (n := ext * 8 + 7).
    rewrite testbit_split by lia. pose proof (Z.mod_pos_bound x (2 ^ n) ltac:(lia)).
    replace (2 ^ (n + 1)) with (2 * 2 ^ n) by (rewrite Z.pow_add_r by lia; lia).
    destruct (Z.testbit x n); case_match eqn:Hc; unfold wrap; f_equal; lia.
  - assert (Hc : ext = 31 \/ ext = 32) by lia. destruct Hx as [Hx0 Hx1].
    destruct Hc as [-> | ->]; [change (31 * 8 + 7) with 255|change (32 * 8 + 7) with 263].
    + assert (Hs : x = x mod 2 ^ 256) by (symmetry; by apply Z.mod_small).
      change 256 with (255 + 1) in Hs. rewrite testbit_split in Hs by lia.
      pose proof (Z.mod_pos_bound x (2 ^ 255)).
      destruct (Z.testbit x 255).
      * replace (x mod 2 ^ 255 - 2 ^ 255) with (x + (-1) * 2 ^ 256) by lia.
        rewrite Z.mod_add by done. by apply Z.mod_small.
      * rewrite Z.mod_small; lia.
    + assert (Z.testbit x 263 = false) as ->.
      { apply word_bits; [by split|lia]. }
      assert (x mod 2 ^ 263 = x) as -> by (apply Z.mod_small; lia). by apply Z.mod_small.
Qed.

Section alu.
Context {H : Type}.
Implicit Types (c : state) (h : H).

(** [m] replaces the two topmost words by [f] of them and does nothing else. *)
Definition computes (m : M H unit) (f : Z -> Z -> Z) : Prop :=
  forall c h a b s, stack c = a :: b :: s -> is_word a -> is_word b ->
    m c h = Ok (tt, set_stack (f a b :: s) c, h).

Lemma wp_exact (m : M H unit) c h c1 :
  wp (mkExits False False) m (fun _ c' h' => c' = c1 /\ h' = h) c h -> m c h = Ok (tt, c1, h).
Proof. unfold wp. destruct (m c h) as [[[[] c'] h']| |]; [|done..]. by intros [-> ->]. Qed.

(** Runs [m] on a stack of known words. *)
Ltac run := apply wp_exact; repeat wp_prim; cbn [head stack set_stack].

Lemma binary_computes : Forall (fun p => computes (fst p) (snd p)) (binary_specs (H := H)).
Proof.
  unfold binary_specs.
  repeat apply Forall_cons_2; try apply Forall_nil_2; cbn [fst snd];
    intros c h a b s E Ha Hb.
  - unfold opAdd. run. by rewrite toU256_mod.
  - unfold opMul. run. by rewrite toU256_mod.
  - unfold opSub. run. by rewrite toU256_mod.
  - unfold opDiv. run. rewrite sgn_eqb. destruct (Z.eqb_spec b 0); repeat wp_prim; [done|].
    destruct Hb as [Hb0 Hb1]. unfold big.Div. rewrite Z.sgn_pos, Z.mul_1_l, Z.abs_eq by lia.
    rewrite toU256_mod, Z.mod_small; [done|]. apply div_small_word; [done|lia].
  - unfold opSDiv. run. rewrite sgn_eqb, !to256_signed by done.
    pose proof (signed_zero b Hb) as Hz.
    destruct (Z.eqb_spec (signed b) 0), (Z.eqb_spec b 0); try tauto; repeat wp_prim; [done|].
    assert (Z.sgn (Z.abs (signed b)) = 1) as Habs by (apply Z.sgn_pos; lia).
    unfold big.Div. rewrite Habs, Z.mul_1_l, Z.abs_idemp, quot_signs, toU256_mod by done. done.
  - unfold opMod. run. rewrite sgn_eqb. destruct (Z.eqb_spec b 0); repeat wp_prim; [done|].
    destruct Hb as [Hb0 Hb1]. unfold big.Mod. rewrite Z.abs_eq by lia.
    rewrite toU256_mod, Z.mod_small; [done|]. apply mod_small_word; [done|lia].
  - unfold opSMod. run. rewrite sgn_eqb, !to256_signed by done.
    pose proof (signed_zero b Hb) as Hz.
    destruct (Z.eqb_spec (signed b) 0), (Z.eqb_spec b 0); try tauto; repeat wp_prim; [done|].
    unfold big.Mod. rewrite Z.abs_idemp, rem_signs, toU256_mod by done. done.
  - unfold opAnd. run. done.
  - unfold opOr. run. done.
  - unfold opXor. run. done.
  - unfold opEq. run. done.
  - unfold opLt. run. done.
  - unfold opGt. run. done.
  - unfold opSlt. run. by rewrite !to256_signed.
  - unfold opSgt. run. by rewrite !to256_signed.
  - unfold opSignExtension. run. destruct (Z.ltb_spec wordSize a) as [Hlt|Hle].
    + wp_prim. unfold sign_extend. unfold wordSize in Hlt.
      rewrite (proj2 (Z.ltb_ge a 31)) by lia. by destruct c; simpl in *; subst.
    + unfold wordSize in Hle. destruct Ha as [Ha0 Ha1].
      rewrite Uint64_small, !(uint64_small (_ * _)), uint64_small by (unfold is_u64; lia).
      rewrite <- signExtension_spec by done. by destruct (Z.testbit b (a * 8 + 7)); wp_prim.
Qed.

(** *** Shifts *)

Lemma shift_small s : is_word s -> equalOrOverflowsUint256 s = false -> 0 <= s < 256 /\ big.Uint64 s = s.
Proof.
  intros [? ?] He. unfold equalOrOverflowsUint256 in He. rewrite Z.ltb_ge in He.
  apply BitLen_le in He; [|lia]. assert (s < 256) by lia.
  split; [lia|]. apply Uint64_small. unfold is_u64. lia.
Qed.

Lemma shift_large s : is_word s -> equalOrOverflowsUint256 s = true -> 256 <= s.
Proof.
  intros [? ?] He. unfold equalOrOverflowsUint256 in He. rewrite Z.ltb_lt in He.
  destruct (Z.lt_ge_cases s 256); [|done].
  assert (big.BitLen s <= 8) by (apply BitLen_le; lia). lia.
Qed.

Lemma pow_split s : 256 <= s -> exists k, 0 < k /\ 2 ^ s = k * 2 ^ 256.
Proof.
  intros. exists (2 ^ (s - 256)). rewrite <- Z.pow_add_r by lia.
  split; [apply Z.pow_pos_nonneg; lia|f_equal; lia].
Qed.

Lemma shift_computes c h s v st f p :
  In (f, p) (shift_specs (H := H)) -> Constantinople (config c) = true ->
  stack c = s :: v :: st -> is_word s -> is_word v ->
  f c h = Ok (tt, set_stack (p s v :: st) c, h).
Proof.
  intros Hin Hf E Hs Hv.
  assert (Hcases : equalOrOverflowsUint256 s = true /\ (exists k, 0 < k /\ 2 ^ s = k * 2 ^ 256) \/
    equalOrOverflowsUint256 s = false /\ 0 <= s < 256 /\ big.Uint64 s = s).
  { destruct (equalOrOverflowsUint256 s) eqn:Es; [left|right].
    - split; [done|]. by apply pow_split, shift_large.
    - split; [done|]. by apply shift_small. }
  destruct Hv as [Hv0 Hv1].
  destruct Hin as [[= <- <-]|[[= <- <-]|[[= <- <-]|[]]]].
  - unfold opShl. run. rewrite Hf. cbn [negb]. repeat wp_prim.
    destruct Hcases as [[-> (k & Hk & Hp)]|(-> & Hs' & ->)]; repeat wp_prim.
    + unfold wrap. rewrite Hp, Z.mul_assoc, Z.mod_mul by done. done.
    + by rewrite toU256_mod, Z.shiftl_mul_pow2 by lia.
  - unfold opShr. run. rewrite Hf. cbn [negb]. repeat wp_prim.
    destruct Hcases as [[-> (k & Hk & Hp)]|(-> & Hs' & ->)]; repeat wp_prim.
    + rewrite Hp, Z.div_small by nia. done.
    + rewrite toU256_mod, Z.shiftr_div_pow2, Z.mod_small by
        (lia || (apply div_small_word; [done|lia])). done.
  - unfold opSar. run. rewrite Hf. cbn [negb]. repeat wp_prim.
    rewrite to256_signed by done. assert (Hsv : - 2 ^ 255 <= signed v < 2 ^ 255).
    { unfold signed. destruct (Z.ltb_spec v (2 ^ 255)); lia. }
    destruct Hcases as [[-> (k & Hk & Hp)]|(-> & Hs' & ->)]; repeat wp_prim.
    + rewrite Hp. destruct (Z.leb_spec 0 (Z.sgn (signed v))); repeat wp_prim.
      * rewrite Z.div_small by nia. done.
      * replace (signed v / (k * 2 ^ 256)) with (-1); [done|].
        apply Z.div_unique with (signed v + k * 2 ^ 256); [left; nia|lia].
    + by rewrite toU256_mod, Z.shiftr_div_pow2 by lia.
Qed.

(** *** Exponentiation *)

Lemma wrap_mul_r a b : wrap (a * wrap b) = wrap (a * b).
Proof. unfold wrap. apply Z.mul_mod_idemp_r. lia. Qed.
Lemma wrap_mul_l a b : wrap (wrap a * b) = wrap (a * b).
Proof. unfold wrap. apply Z.mul_mod_idemp_l. lia. Qed.
Lemma wrap_idem a : wrap (wrap a) = wrap a.
Proof. unfold wrap. apply Z.mod_mod. lia. Qed.
Lemma wrap_pow a n : 0 <= n -> wrap (wrap a ^ n) = wrap (a ^ n).
Proof.
  intros Hn. pattern n. apply natlike_ind; [done| |done]. clear n Hn. intros n Hn IH.
  rewrite !Z.pow_succ_r by done. rewrite wrap_mul_l, <- wrap_mul_r, IH, wrap_mul_r. done.
Qed.

Lemma exp_rounds_spec n d z x :
  0 <= d ->
  let '(z', x') := exp_rounds n d z x in
  wrap z' = wrap (z * x ^ (d mod 2 ^ Z.of_nat n)) /\ wrap x' = wrap (x ^ (2 ^ Z.of_nat n)).
Proof.
  revert d z x. induction n as [|n IH]; intros d z x Hd.
  { cbn [exp_rounds]. change (2 ^ Z.of_nat 0) with 1. by rewrite Z.mod_1_r, Z.pow_0_r, Z.mul_1_r, Z.pow_1_r. }
  cbn [exp_rounds].
  set (z1 := if Z.land d 1 =? 1 then toU256 (z * x) else z).
  specialize (IH (Z.shiftr d 1) z1 (toU256 (x * x)) ltac:(by apply Z.shiftr_nonneg)).
  destruct (exp_rounds n (Z.shiftr d 1) z1 (toU256 (x * x))) as [z' x'].
  destruct IH as [IHz IHx]. rewrite toU256_mod in IHz, IHx. fold (wrap (x * x)) in IHz, IHx.
  rewrite Nat2Z.inj_succ, Z.pow_succ_r by lia. split.
  - rewrite IHz. set (e := Z.shiftr d 1 mod 2 ^ Z.of_nat n).
    assert (He : 0 <= e) by (apply Z.mod_pos_bound; apply Z.pow_pos_nonneg; lia).
    rewrite <- wrap_mul_r, wrap_pow, wrap_mul_r by done.
    assert (Hd2 : d mod (2 * 2 ^ Z.of_nat n) = d mod 2 + 2 * e).
    { rewrite Z.rem_mul_r by (try apply Z.pow_nonzero; lia). subst e.
      by rewrite Z.shiftr_div_pow2 by lia. }
    rewrite Hd2, Z.pow_add_r, Z.pow_mul_r, Z.pow_2_r by (try apply Z.mod_pos_bound; lia).
    assert (Hl : Z.land d 1 = d mod 2) by (apply (Z.land_ones d 1); lia).
    subst z1. rewrite Hl. destruct (Z.eqb_spec (d mod 2) 1) as [->|Hne].
    + rewrite toU256_mod. fold (wrap (z * x)). rewrite wrap_mul_l, Z.pow_1_r. f_equal. lia.
    + assert (d mod 2 = 0) as -> by (pose proof (Z.mod_pos_bound d 2); lia).
      rewrite Z.pow_0_r, Z.mul_1_l. done.
  - rewrite IHx, wrap_pow by lia. rewrite Z.pow_mul_r, Z.pow_2_r by lia. done.
Qed.

Lemma exp_words_spec n y z x :
  0 <= y ->
  let '(z', x') := exp_words (le_words n y) z x in
  wrap z' = wrap (z * x ^ (y mod 2 ^ (64 * Z.of_nat n))) /\
  wrap x' = wrap (x ^ (2 ^ (64 * Z.of_nat n))).
Proof.
  unfold exp_words. revert y z x. induction n as [|n IH]; intros y z x Hy.
  { cbn [le_words foldl Nat2Z.inj]. change (2 ^ (64 * Z.of_nat 0)) with 1.
    by rewrite Z.mod_1_r, Z.pow_0_r, Z.mul_1_r, Z.pow_1_r. }
  cbn [le_words foldl].
  pose proof (exp_rounds_spec 64 (y mod 2 ^ 64) z x) as Hr.
  destruct (exp_rounds 64 (y mod 2 ^ 64) z x) as [z1 x1].
  destruct Hr as [Hz Hx]; [by apply Z.mod_pos_bound|].
  specialize (IH (y / 2 ^ 64) z1 x1 (Z.div_pos y (2 ^ 64) Hy eq_refl)).
  destruct (foldl _ (z1, x1) _) as [z' x']. destruct IH as [IHz IHx].
  assert (Hpw : 2 ^ (64 * Z.of_nat (S n)) = 2 ^ 64 * 2 ^ (64 * Z.of_nat n)).
  { clear. rewrite <- Z.pow_add_r by lia. f_equal. lia. }
  assert (HPn : 0 < 2 ^ (64 * Z.of_nat n)) by (clear; apply Z.pow_pos_nonneg; lia).
  rewrite Hpw. change (2 ^ Z.of_nat 64) with (2 ^ 64) in Hz, Hx.
  assert (HB : 0 < 2 ^ 64) by done.
  set (P := 2 ^ (64 * Z.of_nat n)) in *. set (B := 2 ^ 64) in *. clearbody P B. clear Hpw.
  rewrite Z.mod_mod in Hz by lia. set (e := (y / B) mod P) in *.
  assert (He : 0 <= e) by (apply Z.mod_pos_bound; lia).
  split.
  - rewrite IHz, Z.rem_mul_r by lia. fold e.
    rewrite Z.pow_add_r, Z.pow_mul_r by (try apply Z.mod_pos_bound; lia).
    rewrite <- wrap_mul_l, Hz, wrap_mul_l, <- wrap_mul_r, <- wrap_pow, Hx, wrap_pow, wrap_mul_r by done.
    f_equal. lia.
  - rewrite IHx, Z.pow_mul_r by lia. by rewrite <- wrap_pow, Hx, wrap_pow by lia.
Qed.

Lemma exp_value x y : is_word y -> fst (exp_words (big_Bits y) 1 x) = wrap (x ^ y).
Proof.
  intros [Hy0 Hy1]. unfold big_Bits. rewrite Z.abs_eq by done.
  set (n := Z.to_nat ((big.BitLen y + 63) / 64)).
  pose proof (exp_words_spec n y 1 x Hy0) as Hs.
  pose proof (exp_words_word (le_words n y) 1 x word_1) as Hw.
  destruct (exp_words (le_words n y) 1 x) as [z' x']. destruct Hs as [Hz _]. simpl in *.
  rewrite wrap_small in Hz by done. rewrite Hz, Z.mul_1_l. do 2 f_equal.
  apply Z.mod_small. split; [done|]. pose proof (BitLen_nonneg y).
  assert (Hb : big.BitLen y <= 64 * Z.of_nat n).
  { subst n. rewrite Z2Nat.id by (apply Z.div_pos; lia). Z.div_mod_to_equations; lia. }
  apply BitLen_le in Hb; lia.
Qed.

(** The price of an exponent: 50 (10 before EIP-158) for each of its bytes. *)
Definition exp_price (f : ForksInTime) (y : Z) : Z :=
  (big.BitLen y + 7) / 8 * (if EIP158 f then 50 else 10).

Lemma exp_price_range f y : is_word y -> 0 <= exp_price f y <= 1600.
Proof.
  intros [? ?]. unfold exp_price. pose proof (BitLen_nonneg y).
  assert (big.BitLen y <= 256) by (apply BitLen_le; lia).
  assert (0 <= (big.BitLen y + 7) / 8 <= 32) by (Z.div_mod_to_equations; lia).
  destruct (EIP158 f); lia.
Qed.

Lemma opExp_computes c h x y s :
  stack c = x :: y :: s -> is_word x -> is_word y -> is_u64 (gas c) ->
  opExp c h =
  if gas c <? exp_price (config c) y
  then Ok (tt, set_err (Some ErrOutOfGas) (set_stop true (set_stack (y :: s) c)), h)
  else Ok (tt, set_stack (wrap (x ^ y) :: s) (set_gas (gas c - exp_price (config c) y) c), h).
Proof.
  intros E Hx Hy Hg. pose proof (exp_price_range (config c) y Hy) as Hp. unfold exp_price in *.
  destruct (Z.ltb_spec (gas c) ((big.BitLen y + 7) / 8 * (if EIP158 (config c) then 50 else 10)));
    apply wp_exact; unfold opExp; repeat wp_prim; st_cbn;
    rewrite uint64_small by (unfold is_u64; lia);
    wp_unbind; (apply wp_consumeGas; [done|lia|..]; st_cbn; intros ?; cbn [negb]); try lia;
    repeat wp_prim; [done|]. by rewrite exp_value.
Qed.
End alu.

(** ** In the loop *)

Section loop.
Context {H : Type} `{Host H} `{Runtime}.
Implicit Types (c : state) (h : H).

(** One iteration of the loop on an instruction that completes. *)
Lemma step_exec c h op (i : handler (H := H)) c' h' :
  0 <= ip c -> code c !! Z.to_nat (ip c) = Some op -> dispatchTable op = Some i ->
  hstack i <= len (stack c) -> 0 <= hgas i <= gas c -> is_u64 (gas c) ->
  inst i (set_gas (gas c - hgas i) c) h = Ok (tt, c', h') -> len (stack c') <= stackSize ->
  step c h = Ok (true, set_ip (ip c' + 1) c', h').
Proof.
  intros Hip Hop Hi Hst Hg [Hu0 Hu1] Hrun Hst'. unfold step. unfold bind at 1, gets at 1.
  pose proof (lookup_lt_Some _ _ _ Hop).
  rewrite (proj2 (Z.leb_gt _ _)) by (unfold len; lia). rewrite (proj2 (Z.ltb_ge _ _)) by done.
  unfold bind at 1. rewrite Hop. cbn [deref]. unfold ret at 1. rewrite Hi.
  rewrite (proj2 (Z.ltb_ge _ _)) by done. unfold bind at 1, consumeGas, bind at 1, gets at 1.
  rewrite (proj2 (Z.ltb_ge _ _)) by lia. unfold bind, modify, ret, gets. cbn [negb].
  rewrite uint64_small by (unfold is_u64; lia). rewrite Hrun.
  by rewrite (proj2 (Z.ltb_ge _ _)) by done.
Qed.

(** The instructions on two words, with their opcodes, prices and meanings. *)
Definition arithmetic : list (Z * Z * (Z -> Z -> Z)) :=
  [ (Op.ADD, 3, fun a b => wrap (a + b));
    (Op.MUL, 5, fun a b => wrap (a * b));
    (Op.SUB, 3, fun a b => wrap (a - b));
    (Op.DIV, 5, fun a b => if b =? 0 then 0 else a / b);
    (Op.SDIV, 5, fun a b => if b =? 0 then 0 else wrap (Z.quot (signed a) (signed b)));
    (Op.MOD, 5, fun a b => if b =? 0 then 0 else a mod b);
    (Op.SMOD, 5, fun a b => if b =? 0 then 0 else wrap (Z.rem (signed a) (signed b)));
    (Op.AND, 3, Z.land);
    (Op.OR, 3, Z.lor);
    (Op.XOR, 3, Z.lxor);
    (Op.EQ, 3, fun a b => if a =? b then 1 else 0);
    (Op.LT, 3, fun a b => if a <? b then 1 else 0);
    (Op.GT, 3, fun a b => if b <? a then 1 else 0);
    (Op.SLT, 3, fun a b => if signed a <? signed b then 1 else 0);
    (Op.SGT, 3, fun a b => if signed b <? signed a then 1 else 0);
    (Op.SIGNEXTEND, 5, sign_extend) ].

Definition shifts : list (Z * (Z -> Z -> Z)) :=
  [ (Op.SHL, fun s v => wrap (v * 2 ^ s));
    (Op.SHR, fun s v => v / 2 ^ s);
    (Op.SAR, fun s v => wrap (signed v / 2 ^ s)) ].

(** An entry of the table that pops at most two words and computes [f]. *)
Definition registered (op price : Z) (P : M H unit -> Prop) : Prop :=
  exists i, dispatchTable op = Some i /\ hstack i <= 2 /\ hgas i = price /\ P (inst i).

Lemma arithmetic_registered :
  Forall (fun e => registered (fst (fst e)) (snd (fst e)) (fun m => computes m (snd e))) arithmetic.
Proof.
  pose proof (binary_computes (H := H)) as Hb. unfold binary_specs in Hb.
  rewrite !List.Forall_cons_iff in Hb. unfold arithmetic. destruct_and!.
  repeat apply Forall_cons_2; [..|apply Forall_nil_2]; cbn [fst snd] in *;
    (eexists; split; [reflexivity|split; [by vm_compute|split; [reflexivity|assumption]]]).
Qed.

Lemma shifts_registered :
  Forall (fun e => registered (fst e) 3 (fun m => In (m, snd e) shift_specs)) shifts.
Proof.
  repeat apply Forall_cons_2; [..|apply Forall_nil_2]; cbn [fst snd] in *;
    (eexists; split; [reflexivity|split; [by vm_compute|split; [reflexivity|cbn; tauto]]]).
Qed.

(** The state after an instruction that replaced two words by [v]. *)
Definition after_binary (price v : Z) (s : list Z) c : state :=
  set_ip (ip c + 1) (set_stack (v :: s) (set_gas (gas c - price) c)).

Lemma registered_step op price c h a b s v :
  registered op price (fun m => forall g,
    m (set_gas g c) h = Ok (tt, set_stack (v :: s) (set_gas g c), h)) ->
  0 <= ip c -> code c !! Z.to_nat (ip c) = Some op -> stack c = a :: b :: s ->
  0 <= price <= gas c -> is_u64 (gas c) -> len (stack c) <= stackSize ->
  step c h = Ok (true, after_binary price v s c, h).
Proof.
  intros (i & Hi & Hst & <- & Hm) Hip Hop E Hp Hg Hl. rewrite E in Hl.
  pose proof (step_exec c h op i (set_stack (v :: s) (set_gas (gas c - hgas i) c)) h) as Hs.
  rewrite Hs; [done|done|done|done| |done|done|apply Hm|].
  - rewrite E. unfold len in *. cbn [length] in *. lia.
  - st_cbn. unfold len in *. cbn [length] in *. lia.
Qed.
End loop.
