(* ===== verification/Memory.v ===== *)
(** The functional behaviour of the memory instructions: what MSTORE writes,
    what MLOAD reads back, and that growing the memory only appends zeros. *)

From Stdlib Require Import ZArith Lia.
From stdpp Require Import base list numbers.
From S2P Require Import Prelude Types Slice VM Opcodes Instructions Logic Safety.

Open Scope Z_scope.
Open Scope vm_scope.

(** ** The bytes MSTORE writes *)

Lemma be_encode_split a b z :
  be_encode (a + b) z = be_encode a (z / 256 ^ Z.of_nat b) ++ be_encode b z.
Proof.
  revert z. induction b as [|b IH]; intros z.
  - rewrite Nat.add_0_r, Z.pow_0_r, Z.div_1_r. simpl. by rewrite app_nil_r.
  - rewrite Nat.add_succ_r. cbn [be_encode]. rewrite IH.
    rewrite Nat2Z.inj_succ, Z.pow_succ_r, Z.div_div by lia. by rewrite <- app_assoc.
Qed.

Lemma be_encode_mod n m z : (n <= m)%nat -> be_encode n (z mod 256 ^ Z.of_nat m) = be_encode n z.
Proof.
  revert m z. induction n as [|n IH]; intros m z Hm; [done|]. destruct m as [|m]; [lia|].
  cbn [be_encode]. rewrite Nat2Z.inj_succ, Z.pow_succ_r by lia. f_equal.
  - rewrite Z.rem_mul_r by lia. rewrite (Z.mul_comm 256), Z.div_add by lia.
    rewrite (Z.div_small (z mod 256)), Z.add_0_l by (apply Z.mod_pos_bound; lia).
    apply IH. lia.
  - f_equal. rewrite Z.rem_mul_r by lia.
    rewrite (Z.mul_comm 256), Z.mod_add by lia. apply Z.mod_mod. lia.
Qed.

Lemma be_encode_0 n : be_encode n 0 = replicate n 0.
Proof.
  induction n as [|n IH]; [done|]. cbn [be_encode]. change (0 / 256) with 0. rewrite IH.
  change (0 mod 256) with 0. by rewrite replicate_S_end.
Qed.

(** Replacing the [length l] bytes before position [i]. *)
Definition patch (buf : list Z) (i : nat) (l : list Z) : list Z :=
  take (i - length l) buf ++ l ++ drop i buf.

Lemma buf_set_patch buf i v :
  (0 < i <= length buf)%nat -> buf_set buf (Z.of_nat i - 1) v = Some (patch buf i [v]).
Proof.
  intros [Hi Hl]. unfold buf_set, len.
  rewrite (proj2 (Z.leb_le _ _)), (proj2 (Z.ltb_lt _ _)) by lia. cbn [andb]. f_equal.
  replace (Z.to_nat (Z.of_nat i - 1)) with (i - 1)%nat by lia.
  rewrite insert_take_drop by lia. unfold patch. simpl. by replace (S (i - 1)) with i by lia.
Qed.

Lemma patch_length buf i l : (length l <= i <= length buf)%nat -> length (patch buf i l) = length buf.
Proof. intros. unfold patch. rewrite !length_app, length_take, length_drop. lia. Qed.

Lemma patch_patch buf i l1 l2 :
  (length l1 + length l2 <= i <= length buf)%nat ->
  patch (patch buf i l2) (i - length l2) l1 = patch buf i (l1 ++ l2).
Proof.
  intros Hi. unfold patch. rewrite length_app.
  rewrite take_app_le, take_take by (rewrite length_take; lia).
  rewrite drop_app_ge, length_take by (rewrite length_take; lia).
  replace (i - length l2 - Nat.min (i - length l2) (length buf))%nat with 0%nat by lia.
  rewrite drop_0, <- app_assoc. f_equal. f_equal. lia.
Qed.

Lemma mstore_word_spec n d i buf :
  (n <= i <= length buf)%nat ->
  mstore_word n d (Z.of_nat i) buf = Some (Z.of_nat (i - n), patch buf i (be_encode n d)).
Proof.
  revert d i buf. induction n as [|n IH]; intros d i buf Hi; cbn [mstore_word].
  { unfold patch. simpl. rewrite Nat.sub_0_r, take_drop. done. }
  rewrite buf_set_patch by lia. replace (Z.of_nat i - 1) with (Z.of_nat (i - 1)) by lia.
  rewrite IH by (rewrite patch_length; simpl; lia). f_equal. f_equal; [f_equal; lia|].
  cbn [be_encode]. rewrite Z.shiftr_div_pow2 by lia. change (2 ^ 8) with 256.
  rewrite <- (patch_patch buf i (be_encode n (d / 256)) [d mod 256]); [done|].
  rewrite be_encode_length. simpl. lia.
Qed.

Lemma mstore_words_spec k z i buf :
  (8 * k <= i <= length buf)%nat ->
  mstore_words (le_words k z) (Z.of_nat i) buf =
  Some (Z.of_nat (i - 8 * k), patch buf i (be_encode (8 * k) z)).
Proof.
  revert z i buf. induction k as [|k IH]; intros z i buf Hi; cbn [le_words mstore_words].
  { unfold patch. simpl. rewrite Nat.sub_0_r, take_drop. done. }
  rewrite mstore_word_spec by lia.
  rewrite IH by (rewrite patch_length; rewrite ?be_encode_length; lia).
  f_equal. f_equal; [f_equal; lia|].
  replace (8 * S k)%nat with (8 * k + 8)%nat by lia. rewrite be_encode_split.
  change (256 ^ Z.of_nat 8) with (2 ^ 64).
  rewrite <- patch_patch by (rewrite !be_encode_length; lia). rewrite be_encode_length.
  f_equal. f_equal. change (2 ^ 64) with (256 ^ Z.of_nat 8). by apply be_encode_mod.
Qed.

Lemma mstore_zeros_spec n buf :
  (n <= length buf)%nat -> mstore_zeros n buf = Some (replicate n 0 ++ drop n buf).
Proof.
  revert buf. induction n as [|n IH]; intros buf Hn; [done|]. cbn [mstore_zeros].
  replace (Z.of_nat n) with (Z.of_nat (S n) - 1) by lia.
  rewrite buf_set_patch by lia. rewrite IH by (rewrite patch_length; cbn [length]; lia). f_equal.
  unfold patch. cbn [length]. rewrite Nat.sub_succ, Nat.sub_0_r.
  rewrite drop_app_ge, length_take by (rewrite length_take; lia).
  replace (n - Nat.min n (length buf))%nat with 0%nat by lia. rewrite drop_0.
  rewrite replicate_S_end, <- app_assoc. done.
Qed.

Lemma mstore_buf_spec v buf :
  is_word v -> len buf = 32 -> mstore_buf v buf = Some (be_encode 32 v).
Proof.
  intros Hv Hl. unfold mstore_buf. pose proof (big_Bits_word_length v Hv) as Hk.
  unfold big_Bits in *. rewrite le_words_length in Hk. destruct Hv as [Hv0 Hv1].
  rewrite Z.abs_eq by done. set (k := Z.to_nat ((big.BitLen v + 63) / 64)) in *.
  unfold len in Hl. change 32 with (Z.of_nat 32). rewrite mstore_words_spec by lia.
  rewrite Nat2Z.id, mstore_zeros_spec by
    (rewrite patch_length; rewrite ?be_encode_length; lia).
  unfold patch. rewrite be_encode_length, drop_app_ge, length_take, (drop_ge buf) by
    (rewrite ?length_take; lia).
  replace (32 - 8 * k - Nat.min (32 - 8 * k) (length buf))%nat with 0%nat by lia.
  rewrite drop_0, app_nil_r. replace 32%nat with ((32 - 8 * k) + 8 * k)%nat at 2 by lia.
  rewrite be_encode_split. rewrite Z.div_small, be_encode_0; [done|]. split; [done|].
  assert (Hb : big.BitLen v <= 64 * Z.of_nat k).
  { subst k. pose proof (BitLen_nonneg v). rewrite Z2Nat.id by (apply Z.div_pos; lia).
    Z.div_mod_to_equations; lia. }
  apply BitLen_le in Hb; [|lia]. rewrite Z.abs_eq in Hb by done.
  eapply Z.lt_le_trans; [exact Hb|]. change 256 with (2 ^ 8). rewrite <- Z.pow_mul_r by lia.
  apply Z.pow_le_mono_r; lia.
Qed.

(** ** The instructions *)

Section memory.
Context {H : Type} `{Runtime}.
Implicit Types (c : state) (h : H).

Lemma wp_and {A} X (m : M H A) (Q Q' : A -> state -> H -> Prop) c h :
  wp X m Q c h -> wp X m Q' c h -> wp X m (fun a c' h' => Q a c' h' /\ Q' a c' h') c h.
Proof. unfold wp. by destruct (m c h) as [[[a c'] h']| |]. Qed.

(** The memory [m'] is [m] grown with zeros. *)
Definition grown (m m' : slice) : Prop :=
  exists n, view m' = view m ++ replicate n 0.

Lemma wp_checkMemory_grown X o s c h :
  mem_ok (memory c) -> 0 <= o -> 0 <= s ->
  wp X (checkMemory o s) (fun ok c' h' => h' = h /\ stack c' = stack c /\ grown (memory c) (memory c') /\
    (ok = true -> stop c' = stop c) /\ (ok = false -> stop c' = true)) c h.
Proof.
  intros Hm Ho Hs.
  assert (Hrefl : grown (memory c) (memory c)) by (exists 0%nat; by rewrite app_nil_r).
  unfold checkMemory. wp_go; try (split_and!; done).
  unfold consumeGas. wp_go; cbn [negb]; wp_go; split_and!; try done.
  apply orb_false_iff in Heqb0 as [Hou Hsu]. apply negb_false_iff, IsUint64_spec in Hou, Hsu.
  rewrite !Uint64_small in * by done.
  apply orb_false_iff in Heqb1 as [?%Z.ltb_ge ?%Z.ltb_ge]. st_cbn_all. rewrite Z.ltb_lt in *.
  rewrite (uint64_small (o + s)) in * by (unfold is_u64; lia).
  rewrite (uint64_small (o + s + 31)) by (unfold is_u64; lia).
  assert (Hw : o + s <= (o + s + 31) / 32 * 32 < o + s + 32) by (Z.div_mod_to_equations; lia).
  rewrite uint64_small by (unfold is_u64; lia).
  eexists. apply extend_view; [apply Hm|lia].
Qed.

Lemma checkMemory_noop o s c h :
  0 <= o <= 0xffffffffe0 -> 0 < s <= 0xffffffffe0 -> o + s <= Z.of_nat (slen (memory c)) ->
  checkMemory o s c h = Ok (true, c, h).
Proof.
  intros Ho Hs Hle. unfold checkMemory.
  rewrite (proj2 (Z.eqb_neq _ _)) by lia.
  rewrite !(proj2 (IsUint64_spec _)) by (unfold is_u64; lia). cbn [negb orb].
  rewrite !Uint64_small by (unfold is_u64; lia). rewrite !(proj2 (Z.ltb_ge _ _)) by lia.
  cbn [orb]. rewrite uint64_small by (unfold is_u64; lia).
  unfold bind, memLen, gets. by rewrite (proj2 (Z.ltb_ge _ _)) by lia.
Qed.

(** A successful MSTORE: the memory is grown with zeros and the 32 bytes at the
    offset are replaced by the big-endian bytes of the value. *)
Lemma opMStore_effect X c h o v s :
  wf c -> stack c = o :: v :: s -> is_word o -> is_word v -> stop c = false ->
  wp X opMStore (fun _ c' h' => h' = h /\ (stop c' = false ->
    stack c' = s /\ mem_ok (memory c') /\ o <= 0xffffffffe0 /\ o + 32 <= Z.of_nat (slen (memory c')) /\
    exists n, o + 32 <= Z.of_nat (length (view (memory c)) + n) /\ view (memory c') =
      patch (view (memory c) ++ replicate n 0) (Z.to_nat o + 32) (be_encode 32 v))) c h.
Proof.
  intros Hwf E Ho Hv Hst. unfold opMStore. repeat wp_prim. wp_unbind.
  pose proof (word_nonneg o Ho) as Ho0.
  set (c1 := set_stack s _).
  eapply wp_mono.
  { apply wp_and.
    - apply (wp_checkMemory X o wordSize (fun ok c' _ => ok = true ->
        mem_ok (memory c') /\ o + 32 <= Z.of_nat (slen (memory c')) /\ o <= 0xffffffffe0));
        [apply Hwf|apply Hwf|apply Hwf|done|unfold wordSize; lia|done|].
      intros g l m _ _ Hm _ _ Hb _. destruct Hb as (? & ? & _); [done|]. done.
    - apply wp_checkMemory_grown; [apply Hwf|done|unfold wordSize; lia]. }
  intros ok c2 h2 (Hok & -> & Es & [n Hgr] & Ht & Hf). cbv beta in *. subst c1. st_cbn_all.
  destruct ok; cbn [negb].
  2:{ wp_prim. split; [done|]. rewrite Hf by done. done. }
  destruct (Hok eq_refl) as (Hm & Hin & Hlim). repeat wp_prim.
  rewrite Uint64_small by (unfold is_u64; lia).
  destruct (s_range_ok (memory c2) o (o + 32)) as (buf & Hr & Hb & Hl & _); [apply Hm|lia|done|].
  eapply wp_deref; [exact Hr|]. repeat wp_prim.
  eapply wp_deref; [apply mstore_buf_spec; [done|lia]|]. repeat wp_prim. st_cbn.
  split; [done|]. intros _. split_and!; [done| |done|done|].
  - apply write_mem_ok; [done|apply be_encode_bytes|done|]. rewrite be_encode_length. lia.
  - exists n. split.
    { pose proof (view_length _ (proj1 Hm)) as Hlen. rewrite Hgr, length_app, length_replicate in Hlen.
      lia. }
    rewrite write_view by (try apply be_encode_bytes; try apply Hm;
      rewrite ?be_encode_length; lia). rewrite Hgr. unfold patch.
    rewrite be_encode_length. do 2 f_equal. lia.
Qed.

Lemma view_patch_read l i k : (length k <= i <= length l)%nat ->
  take (length k) (drop (i - length k) (patch l i k)) = k.
Proof.
  intros. unfold patch. rewrite drop_app_ge, length_take by (rewrite length_take; lia).
  replace (i - length k - Nat.min (i - length k) (length l))%nat with 0%nat by lia.
  rewrite drop_0. by rewrite take_app_length.
Qed.

(** MLOAD of an area inside the memory pushes the big-endian value of its bytes. *)
Lemma opMload_effect c h o s :
  mem_ok (memory c) -> stack c = o :: s -> 0 <= o <= 0xffffffffe0 ->
  o + 32 <= Z.of_nat (slen (memory c)) ->
  let t := take 32 (drop (Z.to_nat o) (view (memory c))) in
  opMload c h = Ok (tt, set_stack (be_decode t :: s) (set_tmp t c), h).
Proof.
  intros Hm E Ho Hin t. unfold opMload, popv, pop, bind. rewrite E. cbn [deref ret].
  unfold get2. cbn [Z.sgn wordSize Z.eqb]. unfold bind.
  rewrite checkMemory_noop by (unfold wordSize; st_cbn; lia). cbn [negb]. unfold gets. st_cbn.
  unfold wordSize. change (big.Uint64 32) with 32.
  rewrite Uint64_small, uint64_small by (unfold is_u64; lia).
  destruct (s_range_ok (memory c) o (o + 32)) as (u & -> & _ & _ & Hu); [apply Hm|lia|done|].
  cbn [deref ret]. unfold modify, push, modify. st_cbn.
  assert (u = t) as ->; [|done].
  subst u t. replace (Z.to_nat (o + 32 - o)) with 32%nat by lia. unfold view.
  destruct Hm as [[Hc _ _] _]. unfold cap in Hc.
  rewrite skipn_firstn_comm, take_take. f_equal. lia.
Qed.

(** The round trip: an MLOAD at the offset of a successful MSTORE reads the
    value, charges nothing and leaves the memory as it is. *)
Lemma mstore_mload c h o v s c1 h1 :
  wf c -> stack c = o :: v :: s -> is_word o -> is_word v -> stop c = false ->
  opMStore c h = Ok (tt, c1, h1) -> stop c1 = false ->
  opMload (set_stack (o :: s) c1) h1 =
  Ok (tt, set_stack (v :: s) (set_tmp (be_encode 32 v) c1), h1).
Proof.
  intros Hwf E Ho Hv Hst Hrun Hst1.
  pose proof (opMStore_effect (mkExits False False) c h o v s Hwf E Ho Hv Hst) as Hw.
  unfold wp in Hw. rewrite Hrun in Hw.
  destruct Hw as (-> & (Es & Hm & Hlim & Hin & n & Hn & Hview)); [done|].
  pose proof (word_nonneg o Ho).
  erewrite opMload_effect; [|done|done|lia|done].
  assert (Ht : take 32 (drop (Z.to_nat o) (view (memory (set_stack (o :: s) c1)))) = be_encode 32 v).
  { st_cbn. rewrite Hview.
    pose proof (view_patch_read (view (memory c) ++ replicate n 0) (Z.to_nat o + 32) (be_encode 32 v)) as Hp.
    rewrite be_encode_length, Nat.add_sub in Hp. apply Hp.
    rewrite length_app, length_replicate. lia. }
  rewrite Ht, be_decode_encode, Z.mod_small by done. done.
Qed.
(** *** The price of memory *)

(** The words that hold [n] bytes, and what a memory of [w] words costs. *)
Definition words_of (n : Z) : Z := (n + 31) / 32.
Definition mem_price (w : Z) : Z := 3 * w + w * w / 512.

(** What was paid so far is the price of the memory, which is a whole number of
    words and below 2^36 bytes. *)
Record priced (c : state) : Prop := {
  pr_len : Z.of_nat (slen (memory c)) = 32 * words_of (Z.of_nat (slen (memory c)));
  pr_max : Z.of_nat (slen (memory c)) <= 2 ^ 36;
  pr_last : lastGasCost c = mem_price (words_of (Z.of_nat (slen (memory c))))
}.

Lemma words_of_mono a b : a <= b -> words_of a <= words_of b.
Proof. intros. unfold words_of. apply Z.div_le_mono; lia. Qed.

Lemma words_of_range n : 0 <= n <= 2 ^ 36 -> 0 <= words_of n <= 2 ^ 31.
Proof. intros. unfold words_of. Z.div_mod_to_equations; lia. Qed.

Lemma mem_price_mono a b : 0 <= a <= b -> mem_price a <= mem_price b.
Proof.
  intros. unfold mem_price. assert (a * a / 512 <= b * b / 512) by (apply Z.div_le_mono; nia). lia.
Qed.

Lemma mem_price_range w : 0 <= w <= 2 ^ 31 -> 0 <= mem_price w < 2 ^ 60.
Proof.
  intros Hw. unfold mem_price. assert (0 <= w * w <= 2 ^ 62) by nia.
  assert (0 <= w * w / 512 <= 2 ^ 53) by (Z.div_mod_to_equations; lia). lia.
Qed.

Lemma memCost_price w : 0 <= w <= 2 ^ 31 -> memCost w = mem_price w.
Proof.
  intros Hw. pose proof (mem_price_range w Hw) as Hr. unfold memCost, mem_price in *.
  assert (0 <= w * w <= 2 ^ 62) by nia.
  rewrite !uint64_small; unfold is_u64; [done|lia|lia|].
  rewrite !uint64_small; unfold is_u64; lia.
Qed.

(** Memory that was paid for is extended for the difference of the prices. *)
Lemma checkMemory_exact o s c h :
  priced c -> is_u64 (gas c) -> 0 <= o -> 0 < s -> o + s <= 2 ^ 36 ->
  let len := Z.of_nat (slen (memory c)) in
  let price := mem_price (words_of (o + s)) in
  checkMemory o s c h =
  if o + s <=? len then Ok (true, c, h)
  else if gas c <? price - mem_price (words_of len) then
    Ok (false, set_err (Some ErrOutOfGas) (set_stop true (set_lastGasCost price c)), h)
  else
    Ok (true, set_memory (extendByteSlice (memory c) (Z.to_nat (32 * words_of (o + s))))
                (set_gas (gas c - (price - mem_price (words_of len))) (set_lastGasCost price c)), h).
Proof.
  intros [Hlen Hmax Hlast] [Hg0 Hg1] Ho Hs Hos len price. unfold checkMemory.
  rewrite (proj2 (Z.eqb_neq _ _)) by lia.
  rewrite !(proj2 (IsUint64_spec _)) by (unfold is_u64; lia). cbn [negb orb].
  rewrite !Uint64_small by (unfold is_u64; lia). rewrite !(proj2 (Z.ltb_ge 0xffffffffe0 _)) by lia.
  cbn [orb]. rewrite (uint64_small (o + s)) by (unfold is_u64; lia).
  unfold bind at 1, memLen, gets at 1. fold len.
  destruct (Z.leb_spec (o + s) len); [by rewrite (proj2 (Z.ltb_ge _ _)) by done|].
  rewrite (proj2 (Z.ltb_lt len _)) by done.
  rewrite (uint64_small (o + s + 31)) by (unfold is_u64; lia). fold (words_of (o + s)).
  pose proof (words_of_range (o + s) ltac:(lia)) as Hw.
  rewrite memCost_price by done. fold price. unfold bind at 1, gets at 1. rewrite Hlast. fold len.
  assert (Hle : mem_price (words_of len) <= price).
  { apply mem_price_mono. split; [|apply words_of_mono; lia]. apply words_of_range. lia. }
  pose proof (mem_price_range _ Hw) as Hpr. fold price in Hpr.
  pose proof (mem_price_range (words_of len) (words_of_range len ltac:(lia))) as Hpl.
  rewrite (uint64_small (price - _)) by (unfold is_u64; lia).
  unfold consumeGas, bind, modify, gets. st_cbn.
  destruct (Z.ltb_spec (gas c) (price - mem_price (words_of len))); unfold exit, modify, ret; cbn [negb].
  { by destruct c. }
  rewrite uint64_small by (unfold is_u64; lia). rewrite (uint64_small (words_of _ * 32)) by (unfold is_u64; lia).
  by rewrite (Z.mul_comm 32).
Qed.

Lemma priced_extend o s c g l :
  priced c -> 0 <= o -> 0 < s -> o + s <= 2 ^ 36 -> Z.of_nat (slen (memory c)) < o + s ->
  l = mem_price (words_of (o + s)) ->
  priced (set_memory (extendByteSlice (memory c) (Z.to_nat (32 * words_of (o + s))))
            (set_gas g (set_lastGasCost l c))).
Proof.
  intros Hpr Ho Hs Hos Hlt ->. pose proof (words_of_range (o + s) ltac:(lia)) as Hw.
  assert (Hww : words_of (32 * words_of (o + s)) = words_of (o + s))
    by (set (w := words_of (o + s)) in *; unfold words_of; Z.div_mod_to_equations; lia).
  split; st_cbn; rewrite extend_len, Z2Nat.id, ?Hww by lia; try done. lia.
Qed.

(** A memory that is paid for is stored to without a failure. *)
Lemma opMStore_runs c h o v s :
  wf c -> priced c -> stack c = o :: v :: s -> is_word o -> is_word v -> stop c = false ->
  o + 32 <= 2 ^ 36 ->
  mem_price (words_of (o + 32)) - mem_price (words_of (Z.of_nat (slen (memory c)))) <= gas c ->
  exists c1, opMStore c h = Ok (tt, c1, h) /\ stop c1 = false.
Proof.
  intros Hwf Hpr E Ho Hv Hst Hlim Hg. pose proof (word_nonneg o Ho) as Ho0.
  assert (Hs : wp (mkExits False False) opMStore (fun _ c' h' => h' = h /\ stop c' = false) c h).
  { unfold opMStore. repeat wp_prim. wp_unbind.
    apply (wp_mono _ _ (fun ok c' h' => ok = true /\ h' = h /\ stop c' = false /\
      mem_ok (memory c') /\ o + 32 <= Z.of_nat (slen (memory c')))).
    - unfold wp. set (c1 := set_stack s _).
      rewrite (checkMemory_exact o wordSize c1 h);
        [|by destruct Hpr; split|apply Hwf|done|done|unfold wordSize; lia].
      subst c1. st_cbn. unfold wordSize. destruct Hwf as [_ _ [Hm Hml] _ _ _ _ _].
      destruct (Z.leb_spec (o + 32) (Z.of_nat (slen (memory c)))); [by split_and!|].
      rewrite (proj2 (Z.ltb_ge _ _)) by done. st_cbn.
      assert (Hw : o + 32 <= 32 * words_of (o + 32) < o + 64)
        by (unfold words_of; Z.div_mod_to_equations; lia).
      split_and!; [done|done|done| |rewrite extend_len; lia].
      split; [apply extend_ok; [done|lia]|rewrite extend_len; lia].
    - intros ok c1 h1 (-> & -> & Hst1 & Hm & Hin). cbn [negb]. repeat wp_prim.
      rewrite Uint64_small by (unfold is_u64; lia).
      destruct (s_range_ok (memory c1) o (o + 32)) as (buf & Hr & Hb & Hl & _); [apply Hm|lia|done|].
      eapply wp_deref; [exact Hr|]. repeat wp_prim.
      eapply wp_deref; [apply mstore_buf_spec; [done|lia]|]. by repeat wp_prim. }
  unfold wp in Hs. destruct (opMStore c h) as [[[[] c1] h1]| |]; [|done..].
  destruct Hs as [-> ?]. by exists c1.
Qed.

(** *** Copies *)

(** [c'] is [c] with its memory grown with zeros and [n] bytes of [data] from
    [d] on, padded with zeros, copied to [o]. *)
Definition copied (data : list Z) (o d n : Z) (c c' : state) : Prop :=
  exists z, let m := view (memory c) ++ replicate z 0 in
    view (memory c') =
    take (Z.to_nat o) m ++ padded data d (Z.to_nat n) ++ drop (Z.to_nat (o + n)) m.

Lemma wp_copied X data o d n c0 c h :
  mem_ok (memory c) -> grown (memory c0) (memory c) -> bytes_ok data ->
  0 <= o -> 0 <= d -> 0 <= n ->
  (n <> 0 -> o + n <= Z.of_nat (slen (memory c)) /\ o <= 0xffffffffe0 /\ n <= 0xffffffffe0) ->
  wp X (if negb (big.Uint64 n =? 0) then mem_setBytes (big.Uint64 o) data (big.Uint64 n) d
        else ret tt)
    (fun _ c' h' => h' = h /\ stack c' = stack c /\ (n <> 0 -> copied data o d n c0 c')) c h.
Proof.
  intros Hm [z Hz] Hd Ho Hd0 Hn Hin. destruct (decide (n = 0)) as [->|Hne].
  { change (negb (big.Uint64 0 =? 0)) with false. cbv iota. by wp_prim. }
  destruct (Hin Hne) as (Hb & Ho' & Hn').
  rewrite !Uint64_small by (unfold is_u64; lia).
  rewrite (proj2 (Z.eqb_neq n 0)) by done. cbn [negb].
  apply wp_mem_setBytes; try done. intros m Hm' Hl Hv. split_and!; [done|done|].
  intros _. exists z. st_cbn. rewrite Hv, Hz. done.
Qed.

(** The common part of CALLDATACOPY and CODECOPY. *)
Definition copies (op : M H unit) (data : state -> list Z) : Prop :=
  forall X c h o d n s,
  wf c -> stack c = o :: d :: n :: s -> is_word o -> is_word d -> is_word n -> stop c = false ->
  wp X op (fun _ c' h' => h' = h /\
    (stop c' = false -> stack c' = s /\ (n <> 0 -> copied (data c) o d n c c'))) c h.

Ltac copy_effect :=
  intros X c h o d n s Hwf E Ho Hd Hn Hst;
  repeat wp_prim; wp_unbind;
  eapply wp_mono;
  [ apply wp_and;
    [ apply (wp_checkMemory X o n (fun ok c' _ => ok = true -> mem_ok (memory c') /\
        is_u64 (gas c') /\ code c' = code c /\ msg c' = msg c /\
        (n <> 0 -> o + n <= Z.of_nat (slen (memory c')) /\ o <= 0xffffffffe0 /\ n <= 0xffffffffe0)));
      [apply Hwf|apply Hwf|apply Hwf|by apply word_nonneg|by apply word_nonneg|done|];
      intros g l m Hg _ Hm _ _ Hb _; st_cbn; st_cbn_all; destruct (wf_gas _ Hwf);
      split_and!; [done|unfold is_u64; lia|done|done|done]
    | apply wp_checkMemory_grown; [apply Hwf|by apply word_nonneg..] ]
  | intros ok c2 h2 (Hok & -> & Es & Hgr & Ht & Hf); cbv beta in *; st_cbn_all;
    destruct ok; cbn [negb]; [|wp_prim; split; [done|]; by rewrite Hf];
    destruct (Hok eq_refl) as (Hm & Hg & Ec & Em & Hin);
    wp_unbind; apply wp_consumeGas; [done|apply uint64_range|..]; intros Hc; cbn [negb];
    repeat wp_prim; [done|] ].

Lemma opCallDataCopy_copies : copies opCallDataCopy (fun c => cInput (msg c)).
Proof.
  unfold opCallDataCopy. copy_effect. st_cbn. rewrite Em.
  eapply wp_mono; [apply (wp_copied X _ o d n c); try done; try by apply word_nonneg|].
  - apply k_input, wf_msg; done.
  - intros _ c' h' (-> & Es' & Hcp). cbv beta. split; [done|]. intros _. by rewrite Es'.
Qed.

Lemma opCodeCopy_copies : copies opCodeCopy code.
Proof.
  unfold opCodeCopy. copy_effect. st_cbn. rewrite Ec.
  eapply wp_mono; [apply (wp_copied X _ o d n c); try done; try by apply word_nonneg|].
  - apply wf_code; done.
  - intros _ c' h' (-> & Es' & Hcp). cbv beta. split; [done|]. intros _. by rewrite Es'.
Qed.

End memory.
