(* ===== verification/MockHost.v ===== *)
(** A concrete runtime and a concrete host, used to evaluate the model on
    concrete programs.  The host mirrors the mock of
    src/tievm/evm/execute/instructions_test.go: an empty world whose [Callx]
    returns a fixed result. *)

From Stdlib Require Import ZArith Lia.
From stdpp Require Import base list numbers.
From S2P Require Import Prelude Types Slice VM Instructions Interp.

Open Scope Z_scope.

(** Append allocates exactly what is needed; the hash is the value of the input
    modulo 2^256, so that different addresses have different hashes. *)
#[export] Instance exact_runtime : Runtime.
Proof.
  refine {| append_cap := fun _ n => n; Keccak256 := fun b => be_encode 32 (be_decode b);
            rlp_address_nonce := fun a n => a ++ [n] |}; [done| |].
  - intros b. apply be_encode_length.
  - intros b. apply be_encode_bytes.
Defined.

(** [mock_writes] counts the state-changing calls the host received. *)
Record mock := mkMock { mock_writes : nat; mock_callx : ExecutionResult }.

Definition mock_write (h : mock) : mock := mkMock (S (mock_writes h)) (mock_callx h).

#[export] Instance mock_host : Host mock := {|
  AccountExists _ _ := true;
  GetStorage _ _ _ := 0;
  SetStorage h _ _ _ _ := (StorageAdded, mock_write h);
  GetBalance _ _ := 0;
  GetCodeSize h _ := (0, h);
  GetCodeHash _ _ := 0;
  GetCode h _ := ([], h);
  Selfdestruct h _ _ := mock_write h;
  GetTxContext _ := mkTxContext 0 0 0 1 1 1000000 99 0;
  GetBlockHash _ _ := 0;
  EmitLog h _ _ _ := mock_write h;
  Callx h _ := Ok (mock_callx h, h);
  Empty _ _ := false;
  GetNonce _ _ := 0
|}.

Definition mock0 : mock := mkMock 0 (mkResult [] 0 0 None).

Definition all_forks : ForksInTime := Forks_At AllForksEnabled 0.

Definition clean_state : state :=
  mkState 0 [] [] (NewContract 0 0 0 0 None 0 []) all_forks nil_slice 0 [] None false 0
    nil_slice [] [].

(** A call of [code] with [g] gas from a fresh pooled state. *)
Definition mock_contract (code : list Z) (g : Z) : Contract :=
  NewContractCall 1 0 0 1 (Some 0) g code [].

Definition mock_run (code : list Z) (g : Z) : outcome (ExecutionResult * state * mock) :=
  EVM_Run clean_state (mock_contract code g) all_forks mock0.
