(* ===== verification/EvmMain.v ===== *)
(** The main theorems about the virtual machine, each with an instance on a
    concrete program: safety and termination of [EVM.Run], the states its loop
    reaches, static calls, the arithmetic instructions, memory and copies; and
    programs on which the machine panics or deviates from the Ethereum
    instruction set. *)

From Stdlib Require Import ZArith Lia.
From stdpp Require Import base list numbers relations.
From S2P Require Import Prelude Types Slice VM Opcodes Instructions Interp Logic Safety Run Frame Alu Memory MockHost.

Open Scope Z_scope.
Open Scope vm_scope.

(** ** The mock host keeps the contract of a host *)

#[export] Instance mock_host_ok : HostOk mock.
Proof.
  refine {| host_inv := fun h => mock_callx h = mkResult [] 0 0 None |}; try done.
  intros h k Hh Hk. cbn. split; [|done]. rewrite Hh. destruct (k_gas _ Hk).
  split; cbn; [apply bytes_ok_nil|lia].
Defined.

Lemma clean_state_ok : pooled_ok clean_state.
Proof. split; try done; (split; [apply nil_slice_ok|done]). Qed.

Lemma mock_contract_ok code g :
  forallb (fun b => (0 <=? b) && (b <? 256)) code = true -> len code < 2 ^ 63 -> is_u64 g ->
  contract_ok (mock_contract code g).
Proof.
  intros Hb Hl Hg. split; cbn; try done.
  - split; [|done]. apply List.Forall_forall. intros b Hin. rewrite forallb_forall in Hb.
    apply Hb, andb_true_iff in Hin as [??]. unfold is_byte. lia.
  - intros v [= <-]. apply word_0.
Qed.

(** PUSH1 2; PUSH1 3; ADD; PUSH1 0; MSTORE; PUSH1 32; PUSH1 0; RETURN. *)
Definition add_program : list Z := [96; 2; 96; 3; 1; 96; 0; 82; 96; 32; 96; 0; 243].

Lemma add_program_ok : contract_ok (mock_contract add_program 100).
Proof. apply mock_contract_ok; [done|vm_compute; done|unfold is_u64; lia]. Qed.

Section machine.
Context {H : Type} `{Host H} `{Runtime} `{!HostOk H}.
Implicit Types (c : state) (h : H).

(** C1: [EVM.Run] on any contract, with a host that keeps its contract, gas +
    1 iterations being enough: the loop terminates, the result holds at most
    the gas that was given and a byte string, the pooled state that goes back
    to the pool is as clean as the one that was taken, and the host's invariant
    is kept.  It panics only if the loop reaches a RETURNDATACOPY or a call
    instruction with an empty area beyond the memory ([run_panics]), or if a
    nested call panics. *)
Theorem evm_run_safe p k f h :
  pooled_ok p -> contract_ok k -> EIP150 f = true -> host_inv h ->
  exists b, Bitmap.setCode (bmap p) (cCode k) = Ok b /\
  match EVM_Run p k f h with
  | Ok (r, p', h') => result_ok k r /\ pooled_ok p' /\ host_inv h'
  | Panic => run_panics (start_state p k f b) h
  | OutOfFuel => call_no_fuel k
  end.
Proof. apply EVM_Run_ok. Qed.

Lemma start_reaches p k f h b c h1 :
  pooled_ok p -> contract_ok k -> EIP150 f = true -> host_inv h ->
  Bitmap.setCode (bmap p) (cCode k) = Ok b -> rtc goes (start_state p k f b, h) (c, h1) ->
  inv c h1 /\ pres (start_state p k f b) c.
Proof.
  intros Hp Hk Hf Hh Hb Hr. destruct (start_inv p k f h Hp Hk Hf Hh) as (b' & Hb' & Hi).
  rewrite Hb in Hb'. injection Hb' as <-. exact (reaches_inv _ _ Hr Hi).
Qed.




(** C20: every state the loop reaches is at the first byte of an instruction of
    the code (never inside the data of a PUSH, jumps included), with at most
    1024 words of 256 bits on the stack and no more gas than was given. *)
Theorem reachable_states p k f h b c h1 :
  pooled_ok p -> contract_ok k -> EIP150 f = true -> host_inv h ->
  Bitmap.setCode (bmap p) (cCode k) = Ok b ->
  rtc goes (start_state p k f b, h) (c, h1) -> ip c < len (cCode k) ->
  0 <= ip c /\ Bitmap.inst_start (cCode k) (Z.to_nat (ip c)) /\
  len (stack c) <= 1024 /\ words (stack c) /\ 0 <= gas c <= cGas k.
Proof.
  intros Hp Hk Hf Hh Hb Hreach Hip.
  destruct (start_reaches p k f h b c h1) as [Hi1 Hpr]; [done..|].
  pose proof (p_code _ _ Hpr) as Ec. cbn [start_state code] in Ec. rewrite <- Ec in Hip |- *.
  destruct Hi1, Hpr. split_and!; auto; cbn in *; lia.
Qed.

(** C21: a contract whose static flag is set never writes.  Any preorder on the
    host that code reads and static calls keep is kept by the whole run, so
    storage, balances, logs and self-destructs, which only SetStorage,
    Selfdestruct and EmitLog change, are untouched. *)
Theorem static_run_keeps (R : relation H) p k f h r p' h' :
  PreOrder R ->
  (forall h a, R h (snd (GetCode h a))) -> (forall h a, R h (snd (GetCodeSize h a))) ->
  (forall h k r h', cStatic k = true -> Callx h k = Ok (r, h') -> R h h') ->
  cStatic k = true -> EVM_Run p k f h = Ok (r, p', h') -> R h h'.
Proof.
  intros HR Hc Hs Hx Hk Hrun. eapply (EVM_Run_quiet true R); try done.
  - intros h0 k0 r0 h0' Hk0. by apply Hx, Hk0.
  - by intros _.
Qed.
End machine.

Lemma evm_run_safe_witness :
  exists b, Bitmap.setCode (bmap clean_state) add_program = Ok b /\
  match mock_run add_program 100 with
  | Ok (r, p', h') => result_ok (mock_contract add_program 100) r /\ pooled_ok p' /\ host_inv h'
  | Panic => run_panics (start_state clean_state (mock_contract add_program 100) all_forks b) mock0
  | OutOfFuel => call_no_fuel (H := mock) (mock_contract add_program 100)
  end.
Proof.
  exact (evm_run_safe clean_state (mock_contract add_program 100) all_forks mock0
           clean_state_ok add_program_ok eq_refl eq_refl).
Defined.


Lemma goes_step {W} `{Host W} c (h : W) c' h' :
  stop c = false -> step c h = Ok (true, c', h') -> goes (c, h) (c', h').
Proof. by split. Qed.

(** JUMP over a JUMPDEST byte that is data: PUSH1 5; JUMP; PUSH1 0x5b; JUMPDEST. *)
Definition jump_program : list Z := [96; 5; 86; 96; 91; 91].

Lemma jump_program_ok : contract_ok (mock_contract jump_program 100).
Proof. apply mock_contract_ok; [done|vm_compute; done|unfold is_u64; lia]. Qed.

Lemma reachable_states_witness :
  exists b c h1, Bitmap.setCode nil_slice jump_program = Ok b /\
    rtc goes (start_state clean_state (mock_contract jump_program 100) all_forks b, mock0) (c, h1) /\
    ip c = 5 /\ Bitmap.inst_start jump_program 5.
Proof.
  eexists _, _, _. split; [vm_compute; reflexivity|]. 
  assert (Hr : rtc goes (start_state clean_state (mock_contract jump_program 100) all_forks
    (mkSlice [32] 1), mock0) (set_gas 89 (set_ip 5 (start_state clean_state
    (mock_contract jump_program 100) all_forks (mkSlice [32] 1))), mock0)).
  { do 2 (eapply rtc_l; [eapply goes_step; vm_compute; reflexivity|]). apply rtc_refl. }
  split; [exact Hr|]. split; [done|].
  exact (proj1 (proj2 (reachable_states clean_state (mock_contract jump_program 100) all_forks mock0
    (mkSlice [32] 1) _ _ clean_state_ok jump_program_ok eq_refl eq_refl eq_refl Hr eq_refl))).
Defined.

(** SSTORE of 1 at 0 in a static call. *)
Definition static_contract : Contract :=
  with_static true (mock_contract [96; 1; 96; 0; 85] 30000).

Lemma static_run_keeps_witness :
  exists r p' h', EVM_Run clean_state static_contract all_forks mock0 = Ok (r, p', h') /\
    Err r = Some errWriteProtection /\ mock_writes mock0 = mock_writes h'.
Proof.
  eexists _, _, _. split; [vm_compute; reflexivity|]. split; [reflexivity|].
  refine (static_run_keeps (fun h h' => mock_writes h = mock_writes h')
    clean_state static_contract all_forks mock0 _ _ _ _ _ _ _ eq_refl _).
  - split; [done|]. intros x y z. congruence.
  - done.
  - done.
  - by intros h k r h' _ [= _ <-].
  - vm_compute. reflexivity.
Defined.

(** ** Instructions *)

Section instructions.
Context {H : Type} `{Host H} `{Runtime}.
Implicit Types (c : state) (h : H).

(** C23: one iteration of the loop at ADD, MUL, SUB, DIV, SDIV, MOD, SMOD, AND,
    OR, XOR, EQ, LT, GT, SLT, SGT or SIGNEXTEND replaces the two topmost words
    by the value of the mathematical operation (modulo 2^256, two's complement
    for the signed ones, 0 for a division by zero), charges the opcode's price,
    moves to the next byte, and changes nothing else. *)
Theorem arithmetic_step op price f c h a b s :
  In (op, price, f) arithmetic ->
  0 <= ip c -> code c !! Z.to_nat (ip c) = Some op -> stack c = a :: b :: s ->
  is_word a -> is_word b -> price <= gas c -> is_u64 (gas c) -> len (stack c) <= stackSize ->
  step c h = Ok (true, after_binary price (f a b) s c, h).
Proof.
  intros Hin Hip Hop E Ha Hb Hp Hg Hl.
  pose proof (proj1 (List.Forall_forall _ _) (arithmetic_registered (H := H)) _ Hin) as Hr.
  cbn [fst snd] in Hr. destruct Hr as (i & Hi & Hst & Hpr & Hm).
  apply (registered_step op price c h a b); try done.
  - exists i. split_and!; try done. intros g. by apply Hm with (b := b).
  - split; [|done]. pose proof (dispatch_gas_nonneg _ _ Hi). lia.
Qed.

(** the same for the shifts SHL, SHR and SAR from Constantinople on, for
    every shift amount: a shift by 256 or more gives 0, or -1 for the
    arithmetic shift of a negative word. *)
Theorem shift_step op f c h a b s :
  In (op, f) shifts -> Constantinople (config c) = true ->
  0 <= ip c -> code c !! Z.to_nat (ip c) = Some op -> stack c = a :: b :: s ->
  is_word a -> is_word b -> 3 <= gas c -> is_u64 (gas c) -> len (stack c) <= stackSize ->
  step c h = Ok (true, after_binary 3 (f a b) s c, h).
Proof.
  intros Hin Hf Hip Hop E Ha Hb Hp Hg Hl.
  pose proof (proj1 (List.Forall_forall _ _) (shifts_registered (H := H)) _ Hin) as Hr.
  cbn [fst snd] in Hr. destruct Hr as (i & Hi & Hst & Hpr & Hm).
  apply (registered_step op 3 c h a b); try done.
  exists i. split_and!; try done. intros g. by eapply shift_computes.
Qed.

(** EXP computes x^y modulo 2^256 by repeated squaring over the 64-bit words
    of y, for 50 gas (10 before EIP-158) for each byte of y, and stops with an
    out-of-gas error if that is not left. *)
Theorem exp_correct c h x y s :
  stack c = x :: y :: s -> is_word x -> is_word y -> is_u64 (gas c) ->
  opExp c h =
  if gas c <? exp_price (config c) y
  then Ok (tt, set_err (Some ErrOutOfGas) (set_stop true (set_stack (y :: s) c)), h)
  else Ok (tt, set_stack (wrap (x ^ y) :: s) (set_gas (gas c - exp_price (config c) y) c), h).
Proof. apply opExp_computes. Qed.

(** growing the memory costs the difference of 3w + w^2/512 for the words
    before and after, so the total paid depends on the size reached only; the
    memory never shrinks, is extended to whole words, and remains paid for.
    Without the gas the instruction stops with an out-of-gas error. *)
Theorem memory_price o s c h :
  priced c -> is_u64 (gas c) -> 0 <= o -> 0 < s -> o + s <= 2 ^ 36 ->
  let size := Z.of_nat (slen (memory c)) in
  let cost := mem_price (words_of (o + s)) - mem_price (words_of size) in
  exists ok c', checkMemory o s c h = Ok (ok, c', h) /\
    (ok = true <-> o + s <= size \/ cost <= gas c) /\
    (ok = false -> stop c' = true /\ err c' = Some ErrOutOfGas) /\
    (ok = true -> priced c' /\ gas c' = gas c - Z.max 0 cost /\
       Z.of_nat (slen (memory c')) = Z.max size (32 * words_of (o + s))).
Proof.
  intros Hp Hg Ho Hs Hos size cost. destruct Hp as [Hlen Hmax Hlast] eqn:Ep. clear Ep.
  rewrite checkMemory_exact by done. fold size cost.
  destruct (Z.leb_spec (o + s) size) as [Hle|Hgt].
  - pose proof (words_of_mono _ _ Hle) as Hw. fold size in Hlen.
    assert (cost <= 0).
    { subst cost. assert (mem_price (words_of (o + s)) <= mem_price (words_of size)); [|lia].
      apply mem_price_mono. split; [|done]. apply words_of_range. lia. }
    do 2 eexists. split_and!; [done|split; [auto|done]|done|]. intros _. split_and!; [done|lia|lia].
  - pose proof (words_of_mono size (o + s) ltac:(lia)) as Hw. fold size in Hlen.
    assert (0 <= cost).
    { subst cost. assert (mem_price (words_of size) <= mem_price (words_of (o + s))); [|lia].
      apply mem_price_mono. split; [|done]. apply words_of_range. lia. }
    destruct (Z.ltb_spec (gas c) cost) as [Hlt|Hge].
    + do 2 eexists. split_and!; [done| |done|done]. split; [done|]. lia.
    + do 2 eexists. split_and!; [done|split; [auto|done]|done|]. intros _.
      split_and!; [by apply priced_extend|st_cbn; lia|]. st_cbn. rewrite extend_len.
      pose proof (words_of_range (o + s) ltac:(lia)). lia.
Qed.

(** MSTORE within an affordable memory succeeds, and MLOAD at the same
    offset then pushes the value that was stored, without charging for memory
    again. *)
Theorem mstore_mload_roundtrip c h o v s :
  wf c -> priced c -> stack c = o :: v :: s -> is_word o -> is_word v -> stop c = false ->
  o + 32 <= 2 ^ 36 ->
  mem_price (words_of (o + 32)) - mem_price (words_of (Z.of_nat (slen (memory c)))) <= gas c ->
  exists c1, opMStore c h = Ok (tt, c1, h) /\ stop c1 = false /\
    opMload (set_stack (o :: s) c1) h =
    Ok (tt, set_stack (v :: s) (set_tmp (be_encode 32 v) c1), h).
Proof.
  intros Hwf Hpr E Ho Hv Hst Hlim Hg.
  destruct (opMStore_runs c h o v s) as (c1 & Hrun & Hst1); [done..|].
  exists c1. split_and!; [done|done|]. by eapply mstore_mload.
Qed.

(** CALLDATACOPY and CODECOPY never panic; when they do not stop the
    machine, the area holds the bytes of the call data or the code from the
    given offset on, followed by zeros where the source ends, for any 256-bit
    offset; the rest of the memory is unchanged. *)
Theorem data_copies : copies (H := H) opCallDataCopy (fun c => cInput (msg c)) /\
  copies (H := H) opCodeCopy code.
Proof. split; [apply opCallDataCopy_copies|apply opCodeCopy_copies]. Qed.
End instructions.

(** the bitmap that [EVM.Run] computes before running a program marks the
    JUMPDEST bytes at which an instruction starts, and no other: a jump lands
    on a byte of PUSH data in no case. *)
Theorem jump_destinations `{Runtime} b code :
  Forall is_byte code -> slice_ok b -> slen b = 0%nat ->
  exists b', Bitmap.setCode b code = Ok b' /\
    forall k, (k < length code)%nat ->
      exists m, Bitmap.isSet b' (Z.of_nat k) = Some m /\ (m = true <-> Bitmap.jumpdest code k).
Proof.
  intros Hc Hb H0. destruct (Bitmap.setCode_ok b code Hc Hb H0) as (b' & Hs & Hok & Hl & Hd).
  exists b'. split; [done|]. intros k Hk. exists (Bitmap.bit b' k). split; [|by apply Hd].
  apply Bitmap.isSet_bit; [|apply Hok]. rewrite Hl.
  pose proof (Nat.Div0.div_le_mono k (length code) 8). lia.
Qed.

Lemma register_app {H} `{Host H} `{Runtime} (es t t' : table (H := H)) :
  foldl register (Some t) es = Some t' -> t' = t ++ es /\
  forall op i, In (op, i) es -> lookup_op op t' = Some i.
Proof.
  revert t. induction es as [|[op i] es IH]; intros t; cbn [foldl].
  { intros [= <-]. by rewrite app_nil_r. }
  unfold register at 2. cbn [fst]. destruct (lookup_op op t) eqn:E.
  { intros Hf. exfalso. clear IH. induction es as [|e es IHe]; [done|auto]. }
  intros Hf. destruct (IH _ Hf) as [-> Hin]. rewrite <- app_assoc. split; [done|].
  intros op' i' [[= <- <-]|Hi]; [|by rewrite app_assoc; apply Hin].
  clear -E. induction t as [|[o j] t IHt]; cbn in *; [by rewrite Z.eqb_refl|].
  destruct (o =? op); [done|auto].
Qed.

(** the initialisation of the dispatch table does not panic: no opcode is
    registered twice, so each of the 141 registered opcodes is dispatched to
    the handler of its only registration, and the other bytes to none. *)
Theorem dispatch_table_total {H} `{Host H} `{Runtime} :
  init_table (H := H) = Some registrations /\
  length (registrations (H := H)) = 141%nat /\
  forall op i, dispatchTable (H := H) op = Some i <-> In (op, i) registrations.
Proof.
  assert (Hi : init_table (H := H) = Some registrations) by reflexivity.
  split_and!; [done|done|]. intros op i. split; [apply lookup_op_In|].
  apply (register_app registrations [] registrations Hi).
Qed.

(** The byte number [x] of [y], from the most significant one. *)
Definition byte_at (x y : Z) : Z := if x <? 32 then y / 256 ^ (31 - x) mod 256 else 0.

(** BYTE returns the byte of the given number for every number below 2^63. *)
Theorem byte_correct {H : Type} c (h : H) x y s :
  stack c = x :: y :: s -> 0 <= x < 2 ^ 63 -> is_word y ->
  opByte c h = Ok (tt, set_stack (byte_at x y :: s) c, h).
Proof.
  intros E Hx Hy. apply wp_exact. unfold opByte. repeat wp_prim.
  unfold big.Int64. rewrite (proj2 (Z.ltb_ge x 0)), Z.abs_eq by lia.
  unfold byte_at. destruct (Z.ltb_spec x 32) as [Hlt|Hge].
  - rewrite !int64_small by (rewrite ?int64_small; lia).
    rewrite (proj2 (Z.ltb_ge 31 x)) by lia. repeat wp_prim.
    rewrite uint64_small by (unfold is_u64; lia). unfold opByteMask.
    change 255 with (Z.ones 8). rewrite Z.land_ones, Z.shiftr_div_pow2 by lia.
    change 256 with (2 ^ 8) at 1. rewrite <- Z.pow_mul_r by lia. by rewrite (Z.mul_comm 8).
  - rewrite int64_small by lia. rewrite (proj2 (Z.ltb_lt 31 x)) by lia. by repeat wp_prim.
Qed.

(** ** Instances *)

(** A machine at the first byte of [code], with a stack and 100 gas. *)
Definition machine (code : list Z) (st : list Z) : state :=
  set_stack st (start_state clean_state (mock_contract code 100) all_forks nil_slice).

Lemma machine_wf code0 st :
  contract_ok (mock_contract code0 100) -> (length code0 < 8)%nat ->
  wf (set_bmap (mkSlice [0] 1) (machine code0 st)).
Proof.
  intros Hk Hl. split; try done; try apply Hk.
  - split; [|cbn; lia]. apply nil_slice_ok.
  - change (code (set_bmap _ _)) with code0. rewrite Nat.div_small by done. split; [|done].
    split; [cbn; lia| |cbn; lia]. constructor; [unfold is_byte; lia|constructor].
Qed.

(** 7 - 9. *)
Lemma arithmetic_step_witness :
  step (machine [3] [7; 9]) mock0 =
  Ok (true, after_binary 3 (2 ^ 256 - 2) [] (machine [3] [7; 9]), mock0).
Proof.
  apply (arithmetic_step Op.SUB 3 (fun a b => wrap (a - b)) (machine [3] [7; 9]) mock0 7 9 []);
    try done; cbn; tauto.
Defined.

(** -5 shifted right by 1. *)
Lemma shift_step_witness :
  step (machine [29] [1; 2 ^ 256 - 5]) mock0 =
  Ok (true, after_binary 3 (2 ^ 256 - 3) [] (machine [29] [1; 2 ^ 256 - 5]), mock0).
Proof.
  apply (shift_step Op.SAR (fun s v => wrap (signed v / 2 ^ s)) (machine [29] [1; 2 ^ 256 - 5])
    mock0 1 (2 ^ 256 - 5) []); try done; cbn; tauto.
Defined.

Lemma exp_correct_witness :
  opExp (machine [10] [3; 5]) mock0 =
  Ok (tt, set_stack [243] (set_gas 50 (machine [10] [3; 5])), mock0).
Proof. apply (exp_correct (machine [10] [3; 5]) mock0 3 5 []); done. Defined.

Lemma machine_priced code st : priced (machine code st).
Proof. by split. Qed.

Lemma memory_price_witness :
  exists ok c', checkMemory 40 10 (machine [82] []) mock0 = Ok (ok, c', mock0) /\
    ok = true /\ gas c' = 94 /\ Z.of_nat (slen (memory c')) = 64.
Proof.
  destruct (memory_price 40 10 (machine [82] []) mock0) as (ok & c' & Hr & Hok & _ & Ht);
    [apply machine_priced|done..|].
  exists ok, c'. assert (ok = true) as -> by (apply Hok; right; by vm_compute).
  destruct (Ht eq_refl) as (_ & Hg & Hl). by split_and!.
Defined.

Lemma mstore_mload_roundtrip_witness :
  let c := set_bmap (mkSlice [0] 1) (machine [82] [40; 77]) in
  exists c1, opMStore c mock0 = Ok (tt, c1, mock0) /\ stop c1 = false /\
    opMload (set_stack [40] c1) mock0 =
    Ok (tt, set_stack [77] (set_tmp (be_encode 32 77) c1), mock0).
Proof.
  apply (mstore_mload_roundtrip (set_bmap (mkSlice [0] 1) (machine [82] [40; 77])) mock0 40 77 []);
    try done.
  apply machine_wf; [|cbn; lia]. apply mock_contract_ok; [done|vm_compute; done|unfold is_u64; lia].
Defined.

Lemma jump_destinations_witness :
  exists b', Bitmap.setCode nil_slice jump_program = Ok b' /\
    forall k, (k < 6)%nat ->
      exists m, Bitmap.isSet b' (Z.of_nat k) = Some m /\ (m = true <-> Bitmap.jumpdest jump_program k).
Proof.
  apply (jump_destinations nil_slice jump_program); [|apply nil_slice_ok|done].
  repeat constructor; lia.
Defined.

Lemma byte_correct_witness :
  opByte (machine [26] [31; 0x1234]) mock0 =
  Ok (tt, set_stack [0x34] (machine [26] [31; 0x1234]), mock0).
Proof. apply (byte_correct (machine [26] [31; 0x1234]) mock0 31 0x1234 []); done. Defined.

(** ** Deviations *)

(** RETURNDATACOPY of zero bytes to an offset beyond the memory panics,
    because the destination [c.memory[memOffset:]] is sliced without a prior
    extension (an extension by zero bytes is a no-op).  No caller recovers. *)
Theorem returndatacopy_panics {H : Type} `{Runtime} c (h : H) o s :
  Byzantium (config c) = true -> stack c = o :: 0 :: 0 :: s -> is_u64 (gas c) ->
  Z.of_nat (slen (memory c)) < o -> is_u64 o ->
  opReturnDataCopy c h = Panic.
Proof.
  intros Hb E Hg Hm Ho. assert (Hw : wp (mkExits True False) opReturnDataCopy (fun _ _ _ => False) c h).
  { unfold opReturnDataCopy. repeat wp_prim. rewrite Hb. cbn [negb]. repeat wp_prim.
    change (checkMemory o 0) with (ret (H := H) true). repeat wp_prim. cbn [negb]. repeat wp_prim.
    apply wp_consumeGas; [done|apply uint64_range|..].
    { change (wordsGas (big.Uint64 0) copyGas) with 0. st_cbn. destruct Hg. lia. }
    intros _. cbn [negb]. unfold returnDataCopy. change (0 + 0) with 0.
    change (negb (big.IsUint64 0)) with false. cbv iota. repeat wp_prim.
    change (big.Uint64 0) with 0. rewrite (proj2 (Z.ltb_ge _ 0)) by (unfold len; lia).
    assert (Hl : forall l, l_range l 0 0 = Some []).
    { intros l. unfold l_range, len. by rewrite (proj2 (Z.leb_le 0 (Z.of_nat (length l)))) by lia. }
    rewrite Hl. repeat wp_prim.
    rewrite Uint64_small by done. st_cbn.
    assert (Hr : s_from (memory c) o = None).
    { unfold s_from. rewrite (proj2 (Z.leb_gt o _)) by done. by rewrite andb_false_r. }
    rewrite Hr. done. }
  unfold wp in Hw. by destruct (opReturnDataCopy c h) as [[[a c'] h']| |].
Qed.

(** PUSH1 0; PUSH1 0; PUSH1 1; RETURNDATACOPY. *)
Lemma returndatacopy_panics_witness :
  mock_run [96; 0; 96; 0; 96; 1; 62] 100 = Panic /\
  opReturnDataCopy (machine [62] [1; 0; 0]) mock0 = Panic.
Proof.
  split; [by vm_compute|].
  apply (returndatacopy_panics (machine [62] [1; 0; 0]) mock0 1 []); done.
Defined.

(** CALL with 10 gas to address 1, the result written to 0 bytes at offset 32. *)
Definition call_program : list Z := [96; 0; 96; 32; 96; 0; 96; 0; 96; 0; 96; 1; 96; 10; 241].

(** The host's calls return one byte. *)
Definition answering : mock := mkMock 0 (mkResult [1] 0 0 None).

(** A state whose memory had room for 64 bytes when it went back to the pool. *)
Definition used_state : state := set_memory (mkSlice (replicate 64 0) 0) clean_state.

(** whether a program panics can depend on the state the runtime takes from
    its pool.  Both pooled states are clean, but the return area of a call is
    sliced up to the capacity of the memory, which an earlier run left behind:
    the same call completes in one and panics in the other. *)
Theorem pool_is_observable :
  pooled_ok clean_state /\ pooled_ok used_state /\
  EVM_Run clean_state (mock_contract call_program 10000) all_forks answering = Panic /\
  exists r p h, EVM_Run used_state (mock_contract call_program 10000) all_forks answering = Ok (r, p, h) /\
    Err r = None.
Proof.
  split_and!; [apply clean_state_ok| |by vm_compute|].
  - split; try done; [|by split; [apply nil_slice_ok|]]. split; [|done]. split; [cbn; lia| |].
    + apply Forall_replicate. unfold is_byte. lia.
    + intros i Hi. apply lookup_replicate_2. cbn in Hi. lia.
  - do 3 eexists. split; [vm_compute; reflexivity|done].
Qed.

(** BYTE reads the index through Int64, so an index of 2^64 selects the most
    significant byte instead of giving 0. *)
Theorem byte_index_truncated :
  opByte (machine [26] [2 ^ 64; 0xab * 2 ^ 248]) mock0 =
    Ok (tt, set_stack [0xab] (machine [26] [2 ^ 64; 0xab * 2 ^ 248]), mock0) /\
  byte_at (2 ^ 64) (0xab * 2 ^ 248) = 0.
Proof. by vm_compute. Qed.

(** SIGNEXTEND is registered with one operand, but has two: on a stack of
    one word it pops the word and goes on, where the instruction set asks for a
    stack underflow error (as for ADD). *)
Theorem signextend_underflow :
  (exists p, mock_run [96; 1; Op.SIGNEXTEND] 100 = Ok (mkResult [] 92 0 None, p, mock0)) /\
  (exists p, mock_run [96; 1; Op.ADD] 100 = Ok (mkResult [] 0 0 (Some ErrStackUnderflow), p, mock0)).
Proof. split; eexists; vm_compute; reflexivity. Qed.

Definition copy_machine : state := set_bmap (mkSlice [0] 1) (machine [57; 7] [0; 1; 3]).

Lemma copy_machine_wf : wf copy_machine.
Proof.
  apply machine_wf; [|cbn; lia]. apply mock_contract_ok; [done|vm_compute; done|unfold is_u64; lia].
Qed.

Definition copy_result : state :=
  set_memory (mkSlice (7 :: replicate 31 0) 32)
    (set_gas 94 (set_lastGasCost 3 (set_stack [] copy_machine))).

Lemma copy_runs : opCodeCopy copy_machine mock0 = Ok (tt, copy_result, mock0).
Proof. vm_compute. reflexivity. Qed.

Lemma data_copies_witness :
  opCodeCopy copy_machine mock0 = Ok (tt, copy_result, mock0) /\
  copied [57; 7] 0 1 3 copy_machine copy_result.
Proof.
  split; [exact copy_runs|].
  refine (proj2 (proj2 (wp_run _ _ _ _ _ _ _ _ (proj2 data_copies (mkExits False False)
    copy_machine mock0 0 1 3 [] copy_machine_wf eq_refl _ _ _ eq_refl) copy_runs) eq_refl) _); done.
Defined.
