(* ===== verification/Txn.v ===== *)
(** The in-memory state of a block being executed, src/state/txn.go and
    src/state/state.go: accounts with their storage, logs, the refund counter,
    and the snapshots that failed calls are rolled back to. *)

From Stdlib Require Import ZArith Lia.
From stdpp Require Import base gmap list numbers sorting.
From S2P Require Import Prelude Types Chain.

Open Scope Z_scope.

(** ** Data *)

(** [Object] and [StorageObject], what is handed to the trie on commit. *)
Record StorageObject := mkStorageObject { sDeleted : bool; sKey : list Z; sVal : list Z }.
Record Object := mkObject {
  oAddress : Address;
  oCodeHash : Hash;
  oBalance : Z;
  oRoot : Hash;
  oNonce : Z;
  oDeleted : bool;
  oDirtyCode : bool;
  oCode : list Z;
  oStorage : list StorageObject
}.

(** The interfaces [State] and [Snapshot] with the account decoder and the value
    decoder built on fastrlp, and the code cache of golang-lru: what the state
    transaction calls and does not implement. *)
Class StateDB := {
  db : Type;
  snapshot : Type;
  Snapshot_Get : snapshot -> list Z -> option (list Z);
  Snapshot_Commit : db -> snapshot -> list Object -> db * snapshot * list Z;
  NewSnapshotAt : db -> Hash -> option snapshot;
  NewSnapshot : db -> snapshot;
  State_GetCode : db -> Hash -> list Z;
  UnmarshalRlp : list Z -> option (Z * Z * Hash * list Z);
  rlp_GetBytes : list Z -> option (list Z);
  cache : Type;
  cache_new : cache;
  cache_Get : cache -> Address -> option (list Z) * cache;
  cache_Add : cache -> Address -> list Z -> cache
}.

Module Tx.
Section txn.
Context `{Runtime} `{StateDB}.

Record Account := mkAccount {
  Nonce : Z;
  Balance : Z;
  Root : Hash;
  CodeHash : list Z;
  Trie : snapshot
}.

(** [Txn] is the storage written in this block: [Some None] is a deleted slot. *)
Record StateObject := mkObj {
  account : Account;
  Code : list Z;
  Suicide : bool;
  Deleted : bool;
  DirtyCode : bool;
  objTxn : option (gmap Z (option (list Z)))
}.

(** A radix tree: the accounts (20-byte keys) and the two 32-byte keys
    [logIndex] and [refundIndex]. *)
Record Tree := mkTree {
  objs : gmap Z StateObject;
  tlogs : option (list Log);
  trefund : option Z
}.

Record Txn := mkTxn {
  snap : snapshot;
  state : db;
  snapshots : list Tree;
  txn : Tree;
  codeCache : cache
}.

Definition set_txn (tr : Tree) (t : Txn) : Txn :=
  mkTxn (snap t) (state t) (snapshots t) tr (codeCache t).
Definition set_cache (k : cache) (t : Txn) : Txn :=
  mkTxn (snap t) (state t) (snapshots t) (txn t) k.

Definition emptyStateHash : Hash :=
  0x56e81f171bcc55a6ff8345e692c0f86e5b48e01b996cadc001622fb5e363b421.
Definition emptyCodeHash : list Z := Keccak256 [].

Definition newTxn (st : db) (s : snapshot) : Txn :=
  mkTxn s st [] (mkTree ∅ None None) cache_new.

Definition hashit (src : list Z) : list Z := Keccak256 src.

(** [Account.Copy] goes through the bytes of the balance, which drops its sign. *)
Definition Account_Copy (a : Account) : Account :=
  mkAccount (Nonce a) (be_decode (big_Bytes (Balance a))) (Root a) (CodeHash a) (Trie a).

Definition StateObject_Copy (o : StateObject) : StateObject :=
  mkObj (Account_Copy (account o)) (Code o) (Suicide o) (Deleted o) (DirtyCode o) (objTxn o).

Definition StateObject_Empty (o : StateObject) : bool :=
  (Nonce (account o) =? 0) && (Z.sgn (Balance (account o)) =? 0) &&
  bool_decide (CodeHash (account o) = emptyCodeHash).

Definition StateObject_GetCommitedState (o : StateObject) (key : Hash) : Hash :=
  match Snapshot_Get (Trie (account o)) (Hash_Bytes key) with
  | None => 0
  | Some val => match rlp_GetBytes val with None => 0 | Some res => BytesToHash res end
  end.

(** ** Snapshots *)

Definition Snapshot (t : Txn) : nat * Txn :=
  (length (snapshots t),
   mkTxn (snap t) (state t) (snapshots t ++ [txn t]) (txn t) (codeCache t)).

(** [id > len] is the explicit panic, [id = len] the index out of range. *)
Definition RevertToSnapshot (id : nat) (t : Txn) : outcome Txn :=
  match snapshots t !! id with
  | None => Panic
  | Some tree => Ok (set_txn tree t)
  end.

(** ** Accounts *)

Definition getStateObject (t : Txn) (addr : Address) : option StateObject :=
  match objs (txn t) !! addr with
  | Some obj => if Deleted obj then None else Some (StateObject_Copy obj)
  | None =>
    match Snapshot_Get (snap t) (hashit (Address_Bytes addr)) with
    | None => None
    | Some data =>
      match UnmarshalRlp data with
      | None => None
      | Some (nonce, balance, root, codeHash) =>
        let trie := if root =? emptyStateHash then Some (NewSnapshot (state t))
                    else NewSnapshotAt (state t) root in
        match trie with
        | None => None
        | Some tr =>
          Some (mkObj (Account_Copy (mkAccount nonce balance root codeHash tr))
                  [] false false false None)
        end
      end
    end
  end.

Definition GetAccount (t : Txn) (addr : Address) : option Account :=
  option_map account (getStateObject t addr).

Definition newStateObject (t : Txn) : StateObject :=
  mkObj (mkAccount 0 0 emptyStateHash emptyCodeHash (NewSnapshot (state t)))
    [] false false false None.

Definition insert_obj (addr : Address) (o : StateObject) (t : Txn) : Txn :=
  set_txn (mkTree (<[addr := o]> (objs (txn t))) (tlogs (txn t)) (trefund (txn t))) t.

(** The callback runs on nil only when [create] is unset; no callback but
    [Suicide]'s is run that way, and it leaves nil alone. *)
Definition upsertAccount (addr : Address) (create : bool) (f : StateObject -> StateObject)
    (t : Txn) : Txn :=
  let object :=
    match getStateObject t addr with
    | Some o => Some o
    | None => if create then Some (newStateObject t) else None
    end in
  match object with
  | Some o => insert_obj addr (f o) t
  | None => t
  end.

Definition set_account (a : Account) (o : StateObject) : StateObject :=
  mkObj a (Code o) (Suicide o) (Deleted o) (DirtyCode o) (objTxn o).
Definition set_balance (b : Z) (o : StateObject) : StateObject :=
  let a := account o in
  set_account (mkAccount (Nonce a) b (Root a) (CodeHash a) (Trie a)) o.
Definition set_nonce (n : Z) (o : StateObject) : StateObject :=
  let a := account o in
  set_account (mkAccount n (Balance a) (Root a) (CodeHash a) (Trie a)) o.

Definition AddSealingReward (addr : Address) (balance : Z) (t : Txn) : Txn :=
  upsertAccount addr true
    (fun o => if Suicide o
              then set_balance (be_decode (big_Bytes balance)) (newStateObject t)
              else set_balance (Balance (account o) + balance) o) t.

Definition AddBalance (addr : Address) (balance : Z) (t : Txn) : Txn :=
  upsertAccount addr true (fun o => set_balance (Balance (account o) + balance) o) t.

Definition GetBalance (t : Txn) (addr : Address) : Z :=
  match getStateObject t addr with None => 0 | Some o => Balance (account o) end.

(** [None] is [ErrNotEnoughFunds]. *)
Definition SubBalance (addr : Address) (amount : Z) (t : Txn) : option Txn :=
  if Z.sgn amount =? 0 then Some t
  else if GetBalance t addr <? amount then None
  else Some (upsertAccount addr true (fun o => set_balance (Balance (account o) - amount) o) t).

Definition SetBalance (addr : Address) (balance : Z) (t : Txn) : Txn :=
  upsertAccount addr true (set_balance (be_decode (big_Bytes balance))) t.

(** ** Logs and refunds *)

Definition AddLog (l : Log) (t : Txn) : Txn :=
  let logs := match tlogs (txn t) with None => [] | Some ls => ls end in
  set_txn (mkTree (objs (txn t)) (Some (logs ++ [l])) (trefund (txn t))) t.

Definition EmitLog (addr : Address) (topics : list Hash) (data : list Z) (t : Txn) : Txn :=
  AddLog (mkLog addr topics data) t.

Definition Logs (t : Txn) : list Log * Txn :=
  match tlogs (txn t) with
  | None => ([], t)
  | Some ls => (ls, set_txn (mkTree (objs (txn t)) None (trefund (txn t))) t)
  end.

Definition GetRefund (t : Txn) : Z := match trefund (txn t) with None => 0 | Some r => r end.

Definition put_refund (r : Z) (t : Txn) : Txn :=
  set_txn (mkTree (objs (txn t)) (tlogs (txn t)) (Some r)) t.
Definition AddRefund (gas : Z) (t : Txn) : Txn := put_refund (uint64 (GetRefund t + gas)) t.
Definition SubRefund (gas : Z) (t : Txn) : Txn := put_refund (uint64 (GetRefund t - gas)) t.

(** ** Storage *)

Definition set_objTxn (m : option (gmap Z (option (list Z)))) (o : StateObject) : StateObject :=
  mkObj (account o) (Code o) (Suicide o) (Deleted o) (DirtyCode o) m.

Definition SetState (addr : Address) (key value : Hash) (t : Txn) : Txn :=
  upsertAccount addr true
    (fun o =>
       let m := match objTxn o with None => ∅ | Some m => m end in
       set_objTxn (Some (<[key := if value =? 0 then None else Some (Hash_Bytes value)]> m)) o) t.

Definition GetCommittedState (t : Txn) (addr : Address) (key : Hash) : Hash :=
  match getStateObject t addr with
  | None => 0
  | Some o => StateObject_GetCommitedState o (BytesToHash (hashit (Hash_Bytes key)))
  end.

Definition GetState (t : Txn) (addr : Address) (key : Hash) : Hash :=
  match getStateObject t addr with
  | None => 0
  | Some o =>
    match match objTxn o with None => None | Some m => m !! key end with
    | Some None => 0
    | Some (Some val) => BytesToHash val
    | None => StateObject_GetCommitedState o (BytesToHash (hashit (Hash_Bytes key)))
    end
  end.

Definition SetStorage (t : Txn) (addr : Address) (key value : Hash) (f : ForksInTime)
    : StorageStatus * Txn :=
  let oldValue := GetState t addr key in
  if oldValue =? value then (StorageUnchanged, t)
  else
    let current := oldValue in
    let original := GetCommittedState t addr key in
    let t := SetState addr key value t in
    let legacyGasMetering := negb (Istanbul f) && (Petersburg f || negb (Constantinople f)) in
    if legacyGasMetering then
      if oldValue =? 0 then (StorageAdded, t)
      else if value =? 0 then (StorageDeleted, AddRefund 15000 t)
      else (StorageModified, t)
    else if original =? current then
      if original =? 0 then (StorageAdded, t)
      else if value =? 0 then (StorageDeleted, AddRefund 15000 t)
      else (StorageModified, t)
    else
      let t :=
        if negb (original =? 0) then
          if current =? 0 then SubRefund 15000 t
          else if value =? 0 then AddRefund 15000 t else t
        else t in
      let t :=
        if original =? value then
          if original =? 0 then AddRefund (if Istanbul f then 19200 else 19800) t
          else AddRefund (if Istanbul f then 4200 else 4800) t
        else t in
      (StorageModifiedAgain, t).

(** ** Nonce and code *)

Definition IncrNonce (addr : Address) (t : Txn) : Txn :=
  upsertAccount addr true (fun o => set_nonce (uint64 (Nonce (account o) + 1)) o) t.

Definition SetNonce (addr : Address) (nonce : Z) (t : Txn) : Txn :=
  upsertAccount addr true (set_nonce nonce) t.

Definition GetNonce (t : Txn) (addr : Address) : Z :=
  match getStateObject t addr with None => 0 | Some o => Nonce (account o) end.

Definition SetCode (addr : Address) (code : list Z) (t : Txn) : Txn :=
  upsertAccount addr true
    (fun o =>
       let a := account o in
       mkObj (mkAccount (Nonce a) (Balance a) (Root a) (Keccak256 code) (Trie a))
         code (Suicide o) (Deleted o) true (objTxn o)) t.

Definition GetCode (t : Txn) (addr : Address) : list Z * Txn :=
  match getStateObject t addr with
  | None => ([], t)
  | Some o =>
    if DirtyCode o then (Code o, t)
    else
      let (v, k) := cache_Get (codeCache t) addr in
      let t := set_cache k t in
      match v with
      | Some code => (code, t)
      | None =>
        let code := State_GetCode (state t) (BytesToHash (CodeHash (account o))) in
        (code, set_cache (cache_Add (codeCache t) addr code) t)
      end
  end.

Definition GetCodeSize (t : Txn) (addr : Address) : Z * Txn :=
  let (code, t) := GetCode t addr in (Z.of_nat (length code), t).

Definition GetCodeHash (t : Txn) (addr : Address) : Hash :=
  match getStateObject t addr with None => 0 | Some o => BytesToHash (CodeHash (account o)) end.

(** ** Destruction and creation *)

Definition set_suicide (o : StateObject) : StateObject :=
  mkObj (account (set_balance 0 o)) (Code o) true (Deleted o) (DirtyCode o) (objTxn o).

Definition Suicide_op (addr : Address) (t : Txn) : bool * Txn :=
  (match getStateObject t addr with None => false | Some o => negb (Suicide o) end,
   upsertAccount addr false set_suicide t).

Definition HasSuicided (t : Txn) (addr : Address) : bool :=
  match getStateObject t addr with None => false | Some o => Suicide o end.

Definition TouchAccount (addr : Address) (t : Txn) : Txn := upsertAccount addr true (fun o => o) t.

Definition Exist (t : Txn) (addr : Address) : bool :=
  match getStateObject t addr with None => false | Some _ => true end.

Definition Empty (t : Txn) (addr : Address) : bool :=
  match getStateObject t addr with None => true | Some o => StateObject_Empty o end.

Definition CreateAccount (addr : Address) (t : Txn) : Txn :=
  let obj := newStateObject t in
  let obj :=
    match getStateObject t addr with
    | Some prev => set_balance (be_decode (big_Bytes (Balance (account prev)))) obj
    | None => obj
    end in
  insert_obj addr obj t.

(** ** Commit *)

Definition set_deleted (o : StateObject) : StateObject :=
  mkObj (account o) (Code o) (Suicide o) true (DirtyCode o) (objTxn o).

Definition clean_obj (deleteEmptyObjects : bool) (o : StateObject) : StateObject :=
  if Suicide o || StateObject_Empty o && deleteEmptyObjects
  then set_deleted (StateObject_Copy o) else o.

Definition CleanDeleteObjects (deleteEmptyObjects : bool) (t : Txn) : Txn :=
  set_txn (mkTree (clean_obj deleteEmptyObjects <$> objs (txn t)) (tlogs (txn t)) None) t.

(** A radix tree is walked in the order of its keys. *)
Definition key_le {A} (x y : Z * A) : Prop := fst x <= fst y.
#[global] Instance key_le_dec {A} (x y : Z * A) : Decision (key_le x y).
Proof. unfold key_le. apply _. Defined.
Definition walk {A} (m : gmap Z A) : list (Z * A) := merge_sort key_le (map_to_list m).

Definition storage_object (e : Z * option (list Z)) : StorageObject :=
  match snd e with
  | None => mkStorageObject true (Hash_Bytes (fst e)) []
  | Some v => mkStorageObject false (Hash_Bytes (fst e)) v
  end.

Definition commit_object (e : Z * StateObject) : Object :=
  let a := snd e in
  mkObject (fst e) (BytesToHash (CodeHash (account a))) (Balance (account a)) (Root (account a))
    (Nonce (account a)) (Deleted a) (DirtyCode a) (Code a)
    (if Deleted a then []
     else match objTxn a with None => [] | Some m => map storage_object (walk m) end).

Definition Commit (deleteEmptyObjects : bool) (t : Txn) : snapshot * list Z * Txn :=
  let t := CleanDeleteObjects deleteEmptyObjects t in
  let '(d, s, root) := Snapshot_Commit (state t) (snap t) (map commit_object (walk (objs (txn t)))) in
  (s, root, mkTxn (snap t) d (snapshots t) (txn t) (codeCache t)).

End txn.
End Tx.
