(* ===== verification/Trie.v ===== *)
(** The state trie, src/state/trie: the nodes with insertion, lookup and deletion
    (trie.go), their hashes (hasher.go), their storage (storage.go), and the
    state that hands out tries (state.go), with the account encoding of
    src/state/state.go.

    Nodes are mutated in place: a lookup puts the nodes it loads in the place of
    their hashes, an insertion writes to the full nodes of its own epoch, a
    deletion drops the hashes on its way, and hashing stores the hashes.  An
    operation gives the node back as it leaves it. *)

From Stdlib Require Import ZArith Lia.
From stdpp Require Import base gmap list numbers.
From S2P Require Import Prelude Types Text Chain Rlp Nibbles Txn.

Open Scope Z_scope.
Open Scope outcome_scope.

(** ** Outside code *)

(** What else the trie uses of fastrlp: the size of a value, whether its type is
    [TypeBytes] or [TypeArray], the bytes of the one, the number of elements and
    the elements of the other. *)
Class NodeRLP `{FastRLP} := {
  Value_Len : Value -> Z;
  IsBytes : Value -> bool;
  IsArray : Value -> bool;
  Raw : Value -> list Z;
  Elems : Value -> nat;
  Value_Get : Value -> nat -> option Value
}.

(** The interfaces [Storage] and [Batch].  [Get] panics on a database error.  A
    batch is the list of what was put into it: [batch_put] is what a put does to
    the storage at once, [batch_write] what writing the batch does. *)
Class TrieStorage := {
  stor : Type;
  st_Get : stor -> list Z -> outcome (option (list Z));
  batch_put : list Z -> list Z -> stor -> stor;
  batch_write : list (list Z * list Z) -> stor -> stor;
  st_SetCode : Hash -> list Z -> stor -> stor;
  st_GetCode : stor -> Hash -> outcome (option (list Z))
}.

(** ** Nodes *)

(** A [ValueNode] with [hash] set stands for the stored node with the hash [buf].
    The hash of the other nodes is empty when it is not known.  The slots of a
    full node are its 16 children and its value. *)
Inductive Node :=
| ValueNode (hash : bool) (buf : list Z)
| ShortNode (hash : list Z) (key : list Z) (child : option Node)
| FullNode (hash : list Z) (epoch : Z) (slots : list (option Node)).

Definition no_slots : list (option Node) := replicate 17 None.

(** [get] and [set] of a full node; an index above 16 is out of range. *)
Definition slot_get (idx : Z) (slots : list (option Node)) : outcome (option Node) :=
  of_option (slots !! Z.to_nat idx).
Definition slot_set (idx : Z) (e : option Node) (slots : list (option Node))
    : outcome (list (option Node)) :=
  if idx <? 17 then Ok (<[Z.to_nat idx := e]> slots) else Panic.

Definition SetHash (b : list Z) (n : Node) : outcome Node :=
  match n with
  | ValueNode _ _ => Panic
  | ShortNode _ key child => Ok (ShortNode b key child)
  | FullNode _ epoch slots => Ok (FullNode b epoch slots)
  end.

Section trie.
Context `{FastRLP} `{Runtime} `{!NodeRLP} `{TrieStorage} `{LRU}.

(** ** Loading a node *)

Definition elem (v : Value) (i : nat) : outcome Value := of_option (Value_Get v i).

(** The loop over the children, from the [i]th on. *)
Fixpoint decode_children (decode : Value -> outcome (option Node)) (v : Value) (i n : nat)
    : outcome (option (list (option Node))) :=
  match n with
  | O => Ok (Some [])
  | S n =>
    let^ c := elem v i in
    if IsBytes c && (len (Raw c) =? 0) then
      let^ rest := decode_children decode v (S i) n in
      Ok (match rest with None => None | Some rest => Some (None :: rest) end)
    else
      let^ c := decode c in
      match c with
      | None => Ok None
      | Some c =>
        let^ rest := decode_children decode v (S i) n in
        Ok (match rest with None => None | Some rest => Some (Some c :: rest) end)
      end
  end.

(** [None] is an error.  [fuel] bounds the nesting of the value. *)
Fixpoint decodeNode (fuel : nat) (v : Value) : outcome (option Node) :=
  match fuel with
  | O => OutOfFuel
  | S fuel =>
    if IsBytes v then Ok (Some (ValueNode true (Raw v)))
    else
      let ll := Elems v in
      if (ll =? 2)%nat then
        let^ key := elem v 0 in
        if negb (IsBytes key) then Ok None
        else
          let^ key := decodeCompact (Raw key) in
          let^ second := elem v 1 in
          if hasTerminator key then
            if negb (IsBytes second) then Ok None
            else Ok (Some (ShortNode [] key (Some (ValueNode false (Raw second)))))
          else
            let^ child := decodeNode fuel second in
            match child with
            | None => Ok None
            | Some child => Ok (Some (ShortNode [] key (Some child)))
            end
      else if (ll =? 17)%nat then
        let^ children := decode_children (decodeNode fuel) v 0 16 in
        match children with
        | None => Ok None
        | Some children =>
          let^ value := elem v 16 in
          if negb (IsBytes value) then Ok None
          else
            let value := if len (Raw value) =? 0 then None else Some (ValueNode false (Raw value)) in
            Ok (Some (FullNode [] 0 (children ++ [value])))
        end
      else Ok None
  end.

Inductive got := Found (n : Node) | NotFound | BadNode.

(** The nesting of a parsed value is less than the length of its encoding.  A
    nil storage, as that of a trie of its own, is a nil dereference. *)
Definition GetNode (s : option stor) (root : list Z) : outcome got :=
  let^ s := of_option s in
  let^ data := st_Get s root in
  match data with
  | None => Ok NotFound
  | Some data =>
    match Parse data with
    | None => Ok BadNode
    | Some v =>
      if negb (IsArray v) then Ok BadNode
      else
        let^ n := decodeNode (length data) v in
        Ok (match n with Some n => Found n | None => BadNode end)
    end
  end.

(** The operations panic on a node that cannot be read. *)
Definition resolve (s : option stor) (buf : list Z) : outcome (option Node) :=
  let^ g := GetNode s buf in
  match g with Found n => Ok (Some n) | NotFound => Ok None | BadNode => Panic end.

(** ** Transactions on a trie *)

Record Txn := mkTxn { tRoot : option Node; tEpoch : Z }.

(** Enough for a key: a step of an operation takes a part of the key, loads a
    node, or makes the node for such a step. *)
Definition key_fuel (key : list Z) : nat := (3 * length key + 5)%nat.

(** The node that was loaded in the place of a hash, the node itself as it is
    left, and the value. *)
Fixpoint lookup (fuel : nat) (s : option stor) (node : option Node) (key : list Z)
    : outcome (option Node * option Node * option (list Z)) :=
  match fuel with
  | O => OutOfFuel
  | S fuel =>
    match node with
    | None => Ok (None, None, None)
    | Some (ValueNode true buf) =>
      let^ nc := resolve s buf in
      match nc with
      | None => Ok (None, node, None)
      | Some nc =>
        let^ (_, nc, res) := lookup fuel s (Some nc) key in
        Ok (nc, node, res)
      end
    | Some (ValueNode false buf) =>
      Ok (None, node, if len key =? 0 then Some buf else None)
    | Some (ShortNode hash k child) =>
      let plen := length k in
      if (length key <? plen)%nat || negb (bool_decide (take plen key = k)) then Ok (None, node, None)
      else
        let^ (loaded, child, res) := lookup fuel s child (drop plen key) in
        let child := match loaded with Some _ => loaded | None => child end in
        Ok (None, Some (ShortNode hash k child), res)
    | Some (FullNode hash epoch slots) =>
      match key with
      | [] =>
        let^ value := slot_get 16 slots in
        let^ (loaded, value, res) := lookup fuel s value [] in
        let^ slots := slot_set 16 value slots in
        Ok (loaded, Some (FullNode hash epoch slots), res)
      | x :: key =>
        let^ child := slot_get x slots in
        let^ (loaded, child, res) := lookup fuel s child key in
        if (x =? 16) && bool_decide (is_Some loaded) then Panic
        else
          let^ slots := slot_set x (match loaded with Some _ => loaded | None => child end) slots in
          Ok (None, Some (FullNode hash epoch slots), res)
      end
    end
  end.

Definition Lookup (s : option stor) (key : list Z) (t : Txn) : outcome (option (list Z) * Txn) :=
  let key := bytesToHexNibbles key in
  let^ (_, root, res) := lookup (key_fuel key) s (tRoot t) key in
  Ok (res, mkTxn root (tEpoch t)).

(** A full node of another epoch is copied, without its hash. *)
Definition writeNode (tepoch : Z) (hash : list Z) (epoch : Z) (slots : list (option Node)) : Node :=
  if tepoch =? epoch then FullNode hash epoch slots else FullNode [] tepoch slots.

Fixpoint insert (fuel : nat) (s : option stor) (tepoch : Z) (node : option Node) (search value : list Z)
    : outcome (option Node) :=
  match fuel with
  | O => OutOfFuel
  | S fuel =>
    match node with
    | None =>
      if len search =? 0 then Ok (Some (ValueNode false value))
      else
        let^ child := insert fuel s tepoch None [] value in
        Ok (Some (ShortNode [] search child))
    | Some (ValueNode true buf) =>
      let^ nc := resolve s buf in
      match nc with
      | None => Ok None
      | Some nc => insert fuel s tepoch (Some nc) search value
      end
    | Some (ValueNode false buf) =>
      if len search =? 0 then Ok (Some (ValueNode false value))
      else
        let^ slots := slot_set 16 node no_slots in
        insert fuel s tepoch (Some (FullNode [] tepoch slots)) search value
    | Some (ShortNode _ k child) =>
      let plen := prefixLen search k in
      if (plen =? length k)%nat then
        let^ child := insert fuel s tepoch child (drop plen search) value in
        Ok (Some (ShortNode [] k child))
      else
        let x := default 0 (k !! plen) in
        let rest :=
          if (plen + 1 <? length k)%nat then Some (ShortNode [] (drop (plen + 1) k) child) else child in
        let^ slots := slot_set x rest no_slots in
        let^ child := insert fuel s tepoch (Some (FullNode [] tepoch slots)) (drop plen search) value in
        Ok (if (plen =? 0)%nat then child else Some (ShortNode [] (take plen search) child))
    | Some (FullNode hash epoch slots) =>
      let write slots := Ok (Some (writeNode tepoch hash epoch slots)) in
      match search with
      | [] =>
        let^ v := slot_get 16 slots in
        let^ v := insert fuel s tepoch v [] value in
        let^ slots := slot_set 16 v slots in
        write slots
      | x :: search =>
        let^ child := slot_get x slots in
        let^ child := insert fuel s tepoch child search value in
        let^ slots := slot_set x child slots in
        write slots
      end
    end
  end.

Definition Insert (s : option stor) (key value : list Z) (t : Txn) : outcome Txn :=
  let key := bytesToHexNibbles key in
  let^ root := insert (key_fuel key) s (tEpoch t) (tRoot t) key value in
  Ok (match root with Some _ => mkTxn root (tEpoch t) | None => t end).

(** The indices, from [i], of the slots that are not empty. *)
Fixpoint used (i : nat) (slots : list (option Node)) : list nat :=
  match slots with
  | [] => []
  | Some _ :: slots => i :: used (S i) slots
  | None :: slots => used (S i) slots
  end.

(** What a full node becomes after a deletion: [None] if the last child cannot
    be found. *)
Definition collapse (s : option stor) (slots : list (option Node)) : outcome (option (option Node)) :=
  let^ value := slot_get 16 slots in
  match used 0 (take 16 slots), value with
  | [], None => Ok (Some None)
  | [], Some v => Ok (Some (Some (ShortNode [] [16] (Some v))))
  | [i], None =>
    let^ nc :=
      match slots !! i with
      | Some (Some (ValueNode true buf)) => resolve s buf
      | Some nc => Ok nc
      | None => Panic
      end in
    match nc with
    | None => Ok None
    | Some (ShortNode _ k c) => Ok (Some (Some (ShortNode [] (Z.of_nat i :: k) c)))
    | Some nc => Ok (Some (Some (ShortNode [] [Z.of_nat i] (Some nc))))
    end
  | _, _ => Ok (Some (Some (FullNode [] 0 slots)))
  end.

(** The node as it is left, and the node without the key; [None] if there is no
    such key. *)
Fixpoint delete (fuel : nat) (s : option stor) (node : option Node) (search : list Z)
    : outcome (option Node * option (option Node)) :=
  match fuel with
  | O => OutOfFuel
  | S fuel =>
    match node with
    | None => Ok (None, None)
    | Some (ShortNode _ k child) =>
      let plen := prefixLen search k in
      if (plen =? length search)%nat then Ok (Some (ShortNode [] k child), Some None)
      else if (plen =? 0)%nat then Ok (Some (ShortNode [] k child), None)
      else
        let^ (child, res) := delete fuel s child (drop plen search) in
        Ok (Some (ShortNode [] k child),
            match res with
            | None => None
            | Some None => Some None
            | Some (Some (ShortNode _ k' c)) => Some (Some (ShortNode [] (k ++ k') c))
            | Some (Some c) => Some (Some (ShortNode [] k (Some c)))
            end)
    | Some (ValueNode true buf) =>
      let^ nc := resolve s buf in
      match nc with
      | None => Ok (node, None)
      | Some nc => let^ (_, res) := delete fuel s (Some nc) search in Ok (node, res)
      end
    | Some (ValueNode false buf) => Ok (node, if len search =? 0 then Some None else None)
    | Some (FullNode hash epoch slots) =>
      match search with
      | [] => Panic
      | x :: search =>
        let^ child := slot_get x slots in
        let^ (child, res) := delete fuel s child search in
        let^ kept := slot_set x child slots in
        match res with
        | None => Ok (Some (FullNode hash epoch kept), None)
        | Some c =>
          let^ slots := slot_set x c slots in
          let^ res := collapse s slots in
          Ok (Some (FullNode hash epoch kept), res)
        end
      end
    end
  end.

Definition Delete (s : option stor) (key : list Z) (t : Txn) : outcome Txn :=
  let key := bytesToHexNibbles key in
  let^ (kept, root) := delete (key_fuel key) s (tRoot t) key in
  Ok (mkTxn (match root with Some root => root | None => kept end) (tEpoch t)).

(** ** Hashes *)

(** The end of [hash]: a value of 32 bytes or more is stored under its hash. *)
Definition hash_node (val : Value) (n : Node) (puts : list (list Z * list Z))
    : outcome (Value * Node * list (list Z * list Z)) :=
  if Value_Len val <? 32 then Ok (val, n, puts)
  else
    let buf := MarshalTo val in
    let tmp := Keccak256 buf in
    let^ n := SetHash tmp n in
    Ok (NewBytes tmp, n, puts ++ [(tmp, buf)]).

(** The value of a node, the node with its hashes, and what is put into the
    batch. *)
Fixpoint hash (n : Node) : outcome (Value * Node * list (list Z * list Z)) :=
  match n with
  | ValueNode _ buf => Ok (NewBytes buf, n, [])
  | ShortNode h key child =>
    if negb (len h =? 0) then Ok (NewBytes h, n, [])
    else
      match child with
      | None => Panic
      | Some child =>
        let^ (v, child, puts) := hash child in
        hash_node (NewArray [NewBytes (encodeCompact key); v]) (ShortNode h key (Some child)) puts
      end
  | FullNode h epoch slots =>
    if negb (len h =? 0) then Ok (NewBytes h, n, [])
    else
      let^ (vs, slots, puts) :=
        (fix hash_slots (slots : list (option Node))
             : outcome (list Value * list (option Node) * list (list Z * list Z)) :=
           match slots with
           | [] => Ok ([], [], [])
           | None :: slots =>
             let^ (vs, slots, puts) := hash_slots slots in
             Ok (NewNull :: vs, None :: slots, puts)
           | Some n :: slots =>
             let^ (v, n, puts) := hash n in
             let^ (vs, slots, puts') := hash_slots slots in
             Ok (v :: vs, Some n :: slots, puts ++ puts')
           end) slots in
      hash_node (NewArray vs) (FullNode h epoch slots) puts
  end.

(** The root hash, and what is put into the batch if there is one. *)
Definition Txn_Hash (t : Txn) : outcome (list Z * Txn * list (list Z * list Z)) :=
  match tRoot t with
  | None => Ok (Hash_Bytes EmptyRootHash, t, [])
  | Some root =>
    let^ (val, root, puts) := hash root in
    let t := mkTxn (Some root) (tEpoch t) in
    if IsBytes val then
      if negb (Value_Len val =? 32) then
        let root := Keccak256 (Raw val) in
        Ok (root, t, puts ++ [(root, Raw val)])
      else Ok (Raw val, t, puts)
    else
      let tmp := MarshalTo val in
      let root := Keccak256 tmp in
      Ok (root, t, puts ++ [(root, tmp)])
  end.

(** ** Tries *)

Record Trie := mkTrie { trRoot : option Node; trEpoch : Z }.

Definition NewTrie : Trie := mkTrie None 0.
Definition Trie_Txn (t : Trie) : Txn := mkTxn (trRoot t) ((trEpoch t + 1) mod 2 ^ 32).
Definition Txn_Commit (t : Txn) : Trie := mkTrie (tRoot t) (tEpoch t).

(** The transaction of [Get] shares the nodes of the trie. *)
Definition Trie_Get (s : option stor) (k : list Z) (t : Trie) : outcome (option (list Z) * Trie) :=
  let^ (res, tx) := Lookup s k (Trie_Txn t) in
  Ok (res, mkTrie (tRoot tx) (trEpoch t)).

(** [Hash]: the hash that the root has, which is zero if it has none. *)
Definition Trie_Hash (t : Trie) : Hash :=
  match trRoot t with
  | None => EmptyRootHash
  | Some (ValueNode _ h) | Some (ShortNode h _ _) | Some (FullNode h _ _) => BytesToHash h
  end.

(** [TryUpdate], on a new transaction's epoch; whether there is no error. *)
Definition TryUpdate (s : option stor) (key value : list Z) (t : Trie) : outcome (bool * Trie) :=
  let k := bytesToHexNibbles key in
  let tt := Trie_Txn t in
  if negb (len value =? 0) then
    let^ n := insert (key_fuel k) s (tEpoch tt) (trRoot t) k value in
    Ok (true, mkTrie n (trEpoch t))
  else
    let^ (kept, n) := delete (key_fuel k) s (trRoot t) k in
    Ok (match n with
        | None => (false, mkTrie kept (trEpoch t))
        | Some n => (true, mkTrie n (trEpoch t))
        end).

(** ** The state *)

Record State := mkState { sStorage : stor; sCache : lru Trie }.

Definition NewState (s : stor) : State := mkState s lru_New.

Definition State_SetCode (hash : Hash) (code : list Z) (st : State) : State :=
  mkState (st_SetCode hash code (sStorage st)) (sCache st).
Definition AddState (root : Hash) (t : Trie) (st : State) : State :=
  mkState (sStorage st) (lru_Add root t (sCache st)).

Definition State_GetCode (hash : Hash) (st : State) : outcome (option (list Z)) := st_GetCode (sStorage st) hash.
Definition State_NewSnapshot (st : State) : Trie := NewTrie.

(** [None] is an error. *)
Definition State_NewSnapshotAt (root : Hash) (st : State) : outcome (option Trie * State) :=
  if root =? EmptyRootHash then Ok (Some (State_NewSnapshot st), st)
  else
    let (t, cache) := lru_Get root (sCache st) in
    let st := mkState (sStorage st) cache in
    match t with
    | Some t => Ok (Some t, st)
    | None =>
      let^ n := GetNode (Some (sStorage st)) (Hash_Bytes root) in
      Ok (match n with Found n => Some (mkTrie (Some n) 0) | _ => None end, st)
    end.

(** ** Accounts *)

Definition Account_MarshalWith (nonce balance : Z) (root : Hash) (codeHash : list Z) : Value :=
  NewArray [NewUint nonce; NewBigInt (Some balance); NewBytes (Hash_Bytes root); NewBytes codeHash].

Definition Account_UnmarshalRlp (b : list Z) : option (Z * Z * Hash * list Z) :=
  v ← Parse b;
  elems ← GetElems v;
  match elems with
  | [e0; e1; e2; e3] =>
    nonce ← GetUint64 e0;
    balance ← GetBigInt e1;
    root ← GetHash e2;
    codeHash ← GetBytes e3 None;
    Some (nonce, balance, BytesToHash root, codeHash)
  | _ => None
  end.

(** ** Commit *)

(** [bytes.TrimLeft] of zero bytes. *)
Fixpoint TrimLeft (b : list Z) : list Z :=
  match b with
  | x :: b' => if x =? 0 then TrimLeft b' else b
  | [] => []
  end.

Definition commit_entry (s : stor) (e : StorageObject) (tx : Txn) : outcome Txn :=
  let k := Keccak256 (sKey e) in
  if sDeleted e then Delete (Some s) k tx
  else Insert (Some s) k (MarshalTo (NewBytes (TrimLeft (sVal e)))) tx.

Fixpoint commit_entries (s : stor) (es : list StorageObject) (tx : Txn) : outcome Txn :=
  match es with
  | [] => Ok tx
  | e :: es => let^ tx := commit_entry s e tx in commit_entries s es tx
  end.

Definition Batch : Type := list (list Z * list Z).

Definition put_all (puts : Batch) (s : stor) : stor :=
  foldl (fun s '(k, v) => batch_put k v s) s puts.

(** The storage of an account: its new root. *)
Definition commit_storage (obj : Object) (st : State) (b : Batch) : outcome (Hash * State * Batch) :=
  if len (oStorage obj) =? 0 then Ok (oRoot obj, st, b)
  else
    let^ (trie, st) := State_NewSnapshotAt (oRoot obj) st in
    let^ trie := of_option trie in
    let^ localTxn := commit_entries (sStorage st) (oStorage obj) (Trie_Txn trie) in
    let^ (root, localTxn, puts) := Txn_Hash localTxn in
    let st := mkState (put_all puts (sStorage st)) (sCache st) in
    Ok (BytesToHash root, AddState (BytesToHash root) (Txn_Commit localTxn) st, b ++ puts).

Definition commit_account (obj : Object) (st : State) (b : Batch) (tx : Txn)
    : outcome (State * Batch * Txn) :=
  let addr := Keccak256 (Address_Bytes (oAddress obj)) in
  if oDeleted obj then
    let^ tx := Delete (Some (sStorage st)) addr tx in
    Ok (st, b, tx)
  else
    let^ (root, st, b) := commit_storage obj st b in
    let st := if oDirtyCode obj then State_SetCode (oCodeHash obj) (oCode obj) st else st in
    let data := MarshalTo
      (Account_MarshalWith (oNonce obj) (oBalance obj) root (Hash_Bytes (oCodeHash obj))) in
    let^ tx := Insert (Some (sStorage st)) addr data tx in
    Ok (st, b, tx).

Fixpoint commit_accounts (objs : list Object) (st : State) (b : Batch) (tx : Txn)
    : outcome (State * Batch * Txn) :=
  match objs with
  | [] => Ok (st, b, tx)
  | obj :: objs =>
    let^ (st, b, tx) := commit_account obj st b tx in
    commit_accounts objs st b tx
  end.

Definition Trie_Commit (objs : list Object) (t : Trie) (st : State) : outcome (State * Trie * list Z) :=
  let^ (st, b, tx) := commit_accounts objs st [] (Trie_Txn t) in
  let^ (root, tx, puts) := Txn_Hash tx in
  let s := batch_write (b ++ puts) (put_all puts (sStorage st)) in
  let nTrie := Txn_Commit tx in
  Ok (AddState (BytesToHash root) nTrie (mkState s (sCache st)), nTrie, root).

End trie.
