(* ===== verification/TrieRep.v ===== *)
(** The nodes of a trie as representations of trees: what a node, with the
    hashes it knows and the stored nodes it refers to, stands for; loading a
    node, and looking up a key. *)

From Stdlib Require Import ZArith Lia.
From stdpp Require Import base list numbers.
From S2P Require Import Prelude Types Chain Rlp Nibbles Txn Trie.

Open Scope Z_scope.
Open Scope outcome_scope.

(** ** What the trie relies on of fastrlp *)

(** The encoding of byte strings and lists, of the Ethereum documentation. *)
Definition rlp_prefix (base n : Z) : list Z :=
  if n <=? 55 then [base + n] else (base + 55 + len (big_Bytes n)) :: big_Bytes n.

Definition rlp_string (b : list Z) : list Z :=
  match b with
  | [x] => if x <? 128 then [x] else rlp_prefix 128 1 ++ b
  | _ => rlp_prefix 128 (len b) ++ b
  end.

Definition rlp_list (items : list (list Z)) : list Z :=
  rlp_prefix 192 (len (concat items)) ++ concat items.

(** The size of an array is that of its encoding. *)
Class NodeRLPOk `{FastRLP} `{Runtime} `{!FastRLPOk} `{!NodeRLP} := {
  marshal_bytes b : MarshalTo (NewBytes b) = rlp_string b;
  marshal_uint n : MarshalTo (NewUint n) = rlp_string (big_Bytes n);
  marshal_bigint x : MarshalTo (NewBigInt (Some x)) = rlp_string (big_Bytes x);
  marshal_null : MarshalTo NewNull = [128];
  marshal_array vs : MarshalTo (NewArray vs) = rlp_list (MarshalTo <$> vs);
  marshal_byte v : rlp_wf v -> len (MarshalTo v) < 2 ^ 63 -> Forall is_byte (MarshalTo v);
  len_bytes b : Value_Len (NewBytes b) = len b;
  len_array vs : Value_Len (NewArray vs) = len (MarshalTo (NewArray vs));
  built_bytes b : IsBytes (NewBytes b) = true /\ Raw (NewBytes b) = b;
  built_array vs : IsBytes (NewArray vs) = false;
  node_bytes b v : decoded (NewBytes b) v -> IsBytes v = true /\ Raw v = b;
  node_null v : decoded NewNull v -> IsBytes v = true /\ Raw v = [];
  node_array vs v : decoded (NewArray vs) v -> IsBytes v = false /\ IsArray v = true /\
    Elems v = length vs /\
    forall i w, vs !! i = Some w -> exists w', Value_Get v i = Some w' /\ decoded w w'
}.

Section rep.
Context `{FastRLP} `{Runtime} `{!FastRLPOk} `{!NodeRLP} `{!NodeRLPOk} `{TrieStorage}.

Lemma rlp_prefix_nonempty base n : (1 <= length (rlp_prefix base n))%nat.
Proof. unfold rlp_prefix. case_match; cbn; lia. Qed.

Lemma rlp_prefix_length base n : 0 <= n < 2 ^ 63 -> (length (rlp_prefix base n) <= 9)%nat.
Proof.
  intros Hn. unfold rlp_prefix. case_match; cbn [length]; [lia|].
  assert (length (big_Bytes n) <= 8)%nat by (apply big_Bytes_length; lia). lia.
Qed.

Lemma rlp_string_length b : len b < 2 ^ 62 -> (1 <= length (rlp_string b) <= 9 + length b)%nat.
Proof.
  intros Hb. assert (forall n, 0 <= n < 2 ^ 63 -> (1 <= length (rlp_prefix 128 n ++ b) <= 9 + length b)%nat) as Hp.
  { intros n Hn. rewrite length_app. pose proof (rlp_prefix_length 128 n Hn). pose proof (rlp_prefix_nonempty 128 n). lia. }
  unfold rlp_string. destruct b as [|x [|y b]]; [apply Hp; unfold len; cbn [length]; lia| |apply Hp; unfold len in *; lia].
  case_match; [cbn; lia|apply Hp; lia].
Qed.

Lemma rlp_list_length items : len (concat items) < 2 ^ 63 ->
  (1 <= length (rlp_list items) <= 9 + length (concat items))%nat.
Proof.
  intros Hi. unfold rlp_list. rewrite length_app. pose proof (rlp_prefix_nonempty 192 (len (concat items))).
  pose proof (rlp_prefix_length 192 (len (concat items)) ltac:(unfold len in *; lia)). lia.
Qed.

Lemma array_longer vs v : v ∈ vs -> (length (MarshalTo v) < length (MarshalTo (NewArray vs)))%nat.
Proof.
  intros Hv. rewrite marshal_array. unfold rlp_list. rewrite length_app.
  pose proof (rlp_prefix_nonempty 192 (len (concat (MarshalTo <$> vs)))).
  enough (length (MarshalTo v) <= length (concat (MarshalTo <$> vs)))%nat by lia.
  apply list_elem_of_split in Hv as (l1 & l2 & ->).
  rewrite fmap_app, concat_app, length_app. cbn. rewrite length_app. lia.
Qed.

(** ** The encoding of a tree *)

(** The node composition of the Ethereum specification: a node of 32 bytes or
    more is referred to by its hash. *)
Definition cap (v : Value) : Value :=
  if Value_Len v <? 32 then v else NewBytes (Keccak256 (MarshalTo v)).

Fixpoint tref (t : mpt) : Value :=
  match t with
  | Leaf v => NewBytes v
  | Short k t => cap (NewArray [NewBytes (encodeCompact k); tref t])
  | Full ts => cap (NewArray (map (fun o => match o with Some t => tref t | None => NewNull end) ts))
  end.

Definition slot_ref (o : option mpt) : Value := match o with Some t => tref t | None => NewNull end.

Definition tnode (t : mpt) : Value :=
  match t with
  | Leaf v => NewBytes v
  | Short k t => NewArray [NewBytes (encodeCompact k); tref t]
  | Full ts => NewArray (map slot_ref ts)
  end.

Definition data (t : mpt) : list Z := MarshalTo (tnode t).
Definition tkey (t : mpt) : list Z := Keccak256 (data t).
Definition big (t : mpt) : Prop := 32 <= Value_Len (tnode t).
#[global] Instance big_dec t : Decision (big t) := decide (32 <= Value_Len (tnode t)).

Lemma tref_canon t : canon t -> tref t = cap (tnode t).
Proof. by destruct 1. Qed.

Lemma tref_big t : canon t -> big t -> tref t = NewBytes (tkey t).
Proof.
  intros Hc Hb. rewrite tref_canon by done. unfold cap, big in *.
  by destruct (Z.ltb_spec (Value_Len (tnode t)) 32); [lia|].
Qed.

Lemma tref_small t : canon t -> ~ big t -> tref t = tnode t.
Proof.
  intros Hc Hb. rewrite tref_canon by done. unfold cap, big in *.
  by destruct (Z.ltb_spec (Value_Len (tnode t)) 32); [|lia].
Qed.

Lemma tref_wf t : canon t -> rlp_wf (tnode t) /\ rlp_wf (tref t).
Proof.
  assert (forall v, rlp_wf v -> rlp_wf (cap v)) as Hcap.
  { intros v Hv. unfold cap. case_match; [done|]. apply wf_bytes, Keccak256_bytes. }
  intros Hc. enough (rlp_wf (tnode t)) as Hn by (rewrite tref_canon by done; auto).
  induction Hc as [k v Hk [Hv _]|k ts Hn Hk Hts IH|ts Hlen Hc Hv Hu] using canon_ind'; cbn [tnode].
  - apply wf_array. repeat constructor; apply wf_bytes; [apply encodeCompact_bytes; by right|done].
  - apply wf_array. repeat constructor; [apply wf_bytes, encodeCompact_bytes; by left|].
    rewrite tref_canon by done. by apply Hcap.
  - apply wf_array. apply Forall_map, Forall_lookup. intros i [t|] Ht; [|apply wf_null].
    cbn. destruct (decide (i < 16)%nat) as [Hi|Hi].
    + destruct (Hc i t Ht Hi) as [Ht' Hw]. rewrite tref_canon by done. by apply Hcap.
    + assert (i = 16%nat) as -> by (apply lookup_lt_Some in Ht; lia).
      destruct (Hv t Ht) as (v & -> & [Hb _]). by apply wf_bytes.
Qed.

Lemma data_nonempty t : canon t -> (1 <= length (data t))%nat.
Proof.
  intros Hc. unfold data. destruct Hc; cbn [tnode]; rewrite marshal_array; unfold rlp_list;
    rewrite length_app; pose proof (rlp_prefix_nonempty 192); match goal with |- context [rlp_prefix 192 ?n] =>
      pose proof (rlp_prefix_nonempty 192 n) end; lia.
Qed.

Lemma ref_nonempty t : canon t -> (1 <= length (MarshalTo (tref t)))%nat.
Proof.
  intros Hc. destruct (decide (big t)) as [Hb|Hb].
  - rewrite tref_big, marshal_bytes by done. unfold rlp_string. pose proof (Keccak256_length (data t)) as E.
    fold (tkey t) in E. destruct (tkey t) as [|x [|y l]]; try done. rewrite length_app. cbn. lia.
  - rewrite tref_small by done. by apply data_nonempty.
Qed.

(** ** Stored nodes *)

(** The nodes of a tree that are stored, according to [W]. *)
Definition node_in (W : list Z -> list Z -> Prop) (t : mpt) : Prop := big t -> W (tkey t) (data t).

Inductive all_nodes (W : list Z -> list Z -> Prop) : mpt -> Prop :=
| all_leaf v : all_nodes W (Leaf v)
| all_short k t : node_in W (Short k t) -> all_nodes W t -> all_nodes W (Short k t)
| all_full ts : node_in W (Full ts) -> (forall i t, slot ts i t -> all_nodes W t) -> all_nodes W (Full ts).

Lemma all_nodes_mono (W W' : list Z -> list Z -> Prop) t :
  (forall k d, W k d -> W' k d) -> all_nodes W t -> all_nodes W' t.
Proof.
  intros HW. induction t as [v|k t IH|ts IH] using mpt_ind'; intros Ht; inversion Ht as [|? ? Hn Hc|? Hn Hc]; subst.
  - constructor.
  - constructor; [|by apply IH]. intros Hb. by apply HW, Hn.
  - constructor; [intros Hb; by apply HW, Hn|]. intros i t Hs. by eapply IH, Hc.
Qed.

Lemma all_nodes_here W t : canon t -> all_nodes W t -> node_in W t.
Proof. intros Hc Ha. destruct Hc; by inversion Ha. Qed.

(** ** Nodes that represent a tree *)

Section relations.
Context (R W : list Z -> list Z -> Prop) (Q : Z -> list Z -> Prop).

(** A known hash is that of the node, and its nodes are in [W]. *)
Definition hash_ok (h : list Z) (t : mpt) : Prop :=
  h = [] \/ (big t /\ h = tkey t /\ all_nodes W t).

(** The nodes that are referred to are in [R]; [Q] is what holds of the epochs
    and hashes of full nodes. *)
Inductive rep : Node -> mpt -> Prop :=
| rep_value v : rep (ValueNode false v) (Leaf v)
| rep_short h k n t : hash_ok h (Short k t) -> rep n t -> rep (ShortNode h k (Some n)) (Short k t)
| rep_full h e ns ts : hash_ok h (Full ts) -> Q e h -> Forall2 (option_Forall2 rep) ns ts ->
    rep (FullNode h e ns) (Full ts)
| rep_ref t : canon t -> big t -> all_nodes R t -> rep (ValueNode true (tkey t)) t.

(** A trie: an empty one has no root. *)
Definition rep_root (root : option Node) (ot : option mpt) : Prop :=
  option_Forall2 rep root ot /\ match ot with Some t => canon t | None => True end.

Lemma hash_ok_nil t : hash_ok [] t.
Proof. by left. Qed.

Lemma rep_leaf n v : rep n (Leaf v) -> n = ValueNode false v.
Proof. inversion 1; subst; [done|]. match goal with Hc : canon (Leaf _) |- _ => inversion Hc end. Qed.

End relations.

Definition is_ref (n : Node) : bool := match n with ValueNode true _ => true | _ => false end.

Lemma rep_mono (R W R' W' : list Z -> list Z -> Prop) (Q Q' : Z -> list Z -> Prop) :
  (forall k d, R k d -> R' k d) -> (forall k d, W k d -> W' k d) -> (forall e h, Q e h -> Q' e h) ->
  forall t n, rep R W Q n t -> rep R' W' Q' n t.
Proof.
  intros HR HW HQ. assert (forall h t, hash_ok W h t -> hash_ok W' h t) as Hh.
  { intros h t [->|(Hb & -> & Ha)]; [by left|right]. split; [done|]. split; [done|]. by eapply all_nodes_mono. }
  induction t as [v|k t IH|ts IH] using mpt_ind'; intros n Hn; inversion Hn; subst;
    try (apply rep_ref; [done|done|by eapply all_nodes_mono]).
  - constructor.
  - constructor; auto.
  - constructor; auto. match goal with Hf : Forall2 _ _ ts |- _ => rename Hf into HF end.
    apply Forall2_same_length_lookup_2; [by eapply Forall2_length|].
    intros i on ot Hon Hot. pose proof (Forall2_lookup_lr _ _ _ _ _ _ HF Hon Hot) as Ho.
    inversion Ho; subst; constructor. by eapply IH.
Qed.

(** ** Loading *)

(** What is in [R] is read from the storage. *)
Definition readable (s : option stor) (R : list Z -> list Z -> Prop) : Prop :=
  forall k d, R k d -> len d < 2 ^ 63 /\ exists s', s = Some s' /\ st_Get s' k = Ok (Some d).

Section load.
Context (s : option stor) (R W : list Z -> list Z -> Prop) (Q : Z -> list Z -> Prop).
Context (HR : readable s R) (HQ : Q 0 []).
Abbreviation rep := (rep R W Q).

Lemma elem_ok vs v i w : decoded (NewArray vs) v -> vs !! i = Some w ->
  exists w', elem v i = Ok w' /\ decoded w w'.
Proof.
  intros Hd Hw. destruct (node_array vs v Hd) as (_ & _ & _ & He).
  destruct (He i w Hw) as (w' & E & Hd'). exists w'. unfold elem. by rewrite E.
Qed.

(** What [decodeNode] makes of a child's value. *)
Definition decodes (fuel : nat) (t : mpt) (v : Value) : Prop :=
  exists n, decodeNode fuel v = Ok (Some n) /\ rep n t.

Lemma decode_ref t fuel v : canon t -> all_nodes R t -> decoded (tref t) v -> (1 <= fuel)%nat ->
  (forall v', ~ big t -> decoded (tnode t) v' -> decodes fuel t v') -> decodes fuel t v.
Proof.
  intros Hc Ha Hd Hf Hsmall. destruct (decide (big t)) as [Hb|Hb].
  - rewrite tref_big in Hd by done. destruct (node_bytes _ _ Hd) as [E1 E2].
    exists (ValueNode true (tkey t)). destruct fuel as [|fuel]; [lia|]. cbn [decodeNode]. rewrite E1, E2.
    split; [done|]. by apply rep_ref.
  - rewrite tref_small in Hd by done. by apply Hsmall.
Qed.

Lemma tref_bytes_empty t v : canon t -> decoded (tref t) v -> IsBytes v && (len (Raw v) =? 0) = false.
Proof.
  intros Hc Hd. destruct (decide (big t)) as [Hb|Hb].
  - rewrite tref_big in Hd by done. destruct (node_bytes _ _ Hd) as [-> ->].
    unfold len, tkey. by rewrite Keccak256_length.
  - rewrite tref_small in Hd by done.
    assert (IsBytes v = false) as ->; [|done]. destruct Hc; cbn [tnode] in Hd; by apply node_array in Hd as (-> & _).
Qed.

Lemma decode_children_ok fuel vs v ts n : forall i, decoded (NewArray vs) v -> vs = map slot_ref ts ->
  (i + n <= 16)%nat -> length ts = 17%nat ->
  (forall j t v', slot ts j t -> (j < 16)%nat -> decoded (tref t) v' ->
     canon t /\ decodes fuel t v') ->
  exists ns, decode_children (decodeNode fuel) v i n = Ok (Some ns) /\
    Forall2 (option_Forall2 rep) ns (take n (drop i ts)).
Proof.
  induction n as [|n IH]; intros i Hd -> Hi Hlen Hdec; [by exists []|].
  destruct (lookup_lt_is_Some_2 ts i) as [o Ho]; [lia|].
  destruct (IH (S i)) as (ns & E & HF); [done|done|lia|done|done|].
  destruct (elem_ok _ _ i (slot_ref o) Hd) as (c & Ec & Hc); [by rewrite list_lookup_fmap, Ho|].
  cbn [decode_children]. rewrite Ec. cbn [obind]. rewrite (drop_S _ o) by done. cbn [take].
  destruct o as [t|]; cbn [slot_ref] in Hc.
  - destruct (Hdec i t c Ho ltac:(lia) Hc) as (Ht & m & Em & Hm). rewrite (tref_bytes_empty t) by done.
    rewrite Em. cbn [obind]. rewrite E. cbn [obind]. exists (Some m :: ns). split; [done|]. by repeat constructor.
  - destruct (node_null _ Hc) as [-> ->]. cbn. rewrite E. cbn [obind].
    exists (None :: ns). split; [done|]. by repeat constructor.
Qed.

Lemma decode_node t : canon t -> all_nodes R t -> forall v fuel, decoded (tnode t) v ->
  (length (data t) <= fuel)%nat ->
  exists n, decodeNode fuel v = Ok (Some n) /\ rep n t /\ is_ref n = false.
Proof.
  assert (forall t vs v fuel, canon t -> tnode t = NewArray vs -> (length (data t) <= S fuel)%nat ->
    v ∈ vs -> (length (MarshalTo v) <= fuel)%nat) as Hfuel.
  { intros t' vs v fuel _ E Hf Hv. unfold data in Hf. rewrite E in Hf. apply array_longer in Hv. lia. }
  induction 1 as [k v Hk Hv|k ts Hn Hk Hts IH|ts Hlen Hc Hv Hu] using canon_ind'; intros Ha v' fuel Hd Hf.
  - assert (canon (Short k (Leaf v))) as Hcan by (by constructor).
    destruct fuel as [|fuel]; [pose proof (data_nonempty _ Hcan); lia|].
    cbn [tnode tref] in Hd. destruct (node_array _ _ Hd) as (E1 & _ & E2 & _).
    destruct (elem_ok _ _ 0%nat _ Hd eq_refl) as (key & Ek & Hkey).
    destruct (elem_ok _ _ 1%nat _ Hd eq_refl) as (second & Es & Hsec).
    destruct (node_bytes _ _ Hkey) as [K1 K2], (node_bytes _ _ Hsec) as [S1 S2].
    cbn [decodeNode]. rewrite E1, E2. cbn [length Nat.eqb]. rewrite Ek. cbn [obind].
    rewrite K1, K2. cbn [negb]. rewrite decode_encodeCompact by (by right). cbn [obind].
    rewrite Es. cbn [obind]. rewrite hasTerminator_full by done. rewrite S1, S2. cbn [negb].
    eexists. split; [done|]. split; [|done]. constructor; [apply hash_ok_nil|constructor].
  - assert (canon (Short k (Full ts))) as Hcan by (by constructor).
    inversion Ha as [|? ? _ Hats|]; subst.
    destruct fuel as [|fuel]; [pose proof (data_nonempty _ Hcan); lia|].
    cbn [tnode] in Hd. destruct (node_array _ _ Hd) as (E1 & _ & E2 & _).
    destruct (elem_ok _ _ 0%nat _ Hd eq_refl) as (key & Ek & Hkey).
    destruct (elem_ok _ _ 1%nat _ Hd eq_refl) as (second & Es & Hsec).
    destruct (node_bytes _ _ Hkey) as [K1 K2].
    assert (length (MarshalTo (tref (Full ts))) <= fuel)%nat as Hf'.
    { eapply (Hfuel _ _ _ fuel Hcan eq_refl Hf). apply list_elem_of_further, list_elem_of_here. }
    destruct (decode_ref (Full ts) fuel second) as (n & En & Hnr); [done|done|done| | |].
    { pose proof (ref_nonempty _ Hts). lia. }
    { intros w Hb Hw. rewrite tref_small in Hf' by done.
      destruct (IH Hats w fuel Hw Hf') as (n & En & Hn' & _). by exists n. }
    cbn [decodeNode]. rewrite E1, E2. cbn [length Nat.eqb]. rewrite Ek. cbn [obind].
    rewrite K1, K2. cbn [negb]. rewrite decode_encodeCompact by (by left). cbn [obind].
    rewrite Es. cbn [obind]. rewrite hasTerminator_partial by done. rewrite En. cbn [obind].
    eexists. split; [done|]. split; [|done]. constructor; [apply hash_ok_nil|done].
  - assert (canon (Full ts)) as Hcan by (constructor; [done|intros; by eapply Hc|done..]).
    inversion Ha as [| |? _ Hats]; subst.
    destruct fuel as [|fuel]; [pose proof (data_nonempty _ Hcan); lia|].
    cbn [tnode] in Hd. destruct (node_array _ _ Hd) as (E1 & _ & E2 & _).
    rewrite length_map, Hlen in E2.
    destruct (decode_children_ok fuel _ v' ts 16 0 Hd eq_refl) as (ns & Ens & HF); [lia|done| |].
    { intros j t w Ht Hj Hw. destruct (Hc j t Ht Hj) as [Hct IH]. split; [done|].
      assert (length (MarshalTo (tref t)) <= fuel)%nat as Hf'.
      { eapply (Hfuel _ _ _ fuel Hcan eq_refl Hf). apply list_elem_of_fmap. exists (Some t).
        split; [done|]. by eapply list_elem_of_lookup_2. }
      apply decode_ref; [done|by eapply Hats|done|pose proof (ref_nonempty _ Hct); lia|].
      intros w' Hb Hw'. rewrite tref_small in Hf' by done.
      destruct (IH (Hats _ _ Ht) w' fuel Hw' Hf') as (n & En & Hn & _). by exists n. }
    destruct (lookup_lt_is_Some_2 ts 16) as [o Ho]; [lia|].
    destruct (elem_ok _ _ 16%nat (slot_ref o) Hd) as (c & Ec & Hdc); [by rewrite list_lookup_fmap, Ho|].
    assert (exists on, IsBytes c = true /\ (if len (Raw c) =? 0 then None else Some (ValueNode false (Raw c))) = on /\
      option_Forall2 rep on o) as (on & Eb & Eon & Hon).
    { destruct o as [t|].
      - destruct (Hv t Ho) as (w & -> & [_ Hw]). cbn in Hdc. destruct (node_bytes _ _ Hdc) as [-> ->].
        eexists. split; [done|]. split; [done|]. unfold len. destruct w; [done|]. cbn. by repeat constructor.
      - destruct (node_null _ Hdc) as [-> ->]. exists None. by repeat constructor. }
    cbn [decodeNode]. rewrite E1, E2. cbn [Nat.eqb]. rewrite Ens. cbn [obind]. rewrite Ec. cbn [obind].
    rewrite Eb. cbn [negb]. rewrite Eon. eexists. split; [done|]. split; [|done].
    constructor; [apply hash_ok_nil|done|].
    rewrite drop_0 in HF. rewrite <- (take_drop 16 ts). apply Forall2_app; [done|].
    rewrite (drop_S _ o) by done. rewrite drop_ge by lia. by repeat constructor.
Qed.

Lemma GetNode_ok t : canon t -> all_nodes R t -> R (tkey t) (data t) ->
  exists n, GetNode s (tkey t) = Ok (Found n) /\ rep n t /\ is_ref n = false.
Proof.
  intros Hc Ha Hin. destruct (HR _ _ Hin) as (Hl & s' & -> & E).
  destruct (parse_marshal (tnode t)) as (v & Ev & Hd); [by apply tref_wf|done|].
  destruct (decode_node t Hc Ha v (length (data t)) Hd) as (n & En & Hn & Hr); [lia|].
  exists n. split; [|done]. unfold GetNode. cbn [of_option obind]. rewrite E. cbn [obind].
  unfold data. rewrite Ev. assert (IsArray v = true) as ->.
  { destruct Hc; cbn [tnode] in Hd; by apply node_array in Hd as (_ & -> & _). }
  cbn [negb]. fold (data t). by rewrite En.
Qed.

Lemma resolve_ok t : canon t -> big t -> all_nodes R t ->
  exists n, resolve s (tkey t) = Ok (Some n) /\ rep n t /\ is_ref n = false.
Proof.
  intros Hc Hb Ha. destruct (GetNode_ok t Hc Ha) as (n & E & Hn); [by apply all_nodes_here in Ha; [apply Ha|]|].
  exists n. unfold resolve. by rewrite E.
Qed.
End load.
End rep.
