(* ===== verification/TrieOps.v ===== *)
(** Lookup, insertion and deletion in a trie do what they say on the map that
    the trie stands for, and keep it canonical. *)

From Stdlib Require Import ZArith Lia.
From stdpp Require Import base list numbers.
From S2P Require Import Prelude Types Chain Rlp Nibbles Txn Trie TrieRep.

Open Scope Z_scope.
Open Scope outcome_scope.

Section ops.
Context `{FastRLP} `{Runtime} `{!FastRLPOk} `{!NodeRLP} `{!NodeRLPOk} `{TrieStorage}.
Context (s : option stor) (R W : list Z -> list Z -> Prop) (HR : readable s R).

(** ** Slots *)

Lemma slot_get_ok x key (ns : list (option Node)) : full_key (x :: key) -> length ns = 17%nat ->
  exists o, slot_get x ns = Ok o /\ ns !! Z.to_nat x = Some o.
Proof.
  intros Hk Hl. destruct (lookup_lt_is_Some_2 ns (Z.to_nat x)) as [o Ho].
  { apply full_key_step in Hk as [(_ & -> & _)|(? & _)]; lia. }
  exists o. unfold slot_get. by rewrite Ho.
Qed.

Lemma slot_set_ok x key o (ns : list (option Node)) : full_key (x :: key) ->
  slot_set x o ns = Ok (<[Z.to_nat x := o]> ns).
Proof.
  intros Hk. unfold slot_set.
  by destruct (Z.ltb_spec x 17); [|apply full_key_step in Hk as [(-> & _)|(_ & ? & _)]; lia].
Qed.

Lemma canon_full_inv ts : canon (Full ts) -> length ts = 17%nat /\
  (forall i t, slot ts i t -> (i < 16)%nat -> canon t) /\
  (forall t, slot ts 16 t -> exists v, t = Leaf v /\ value_ok v).
Proof. intros Hc. inversion Hc; subst. done. Qed.

(** The key that goes on in a slot of a full node. *)
Lemma slot_fits ts x key t : canon (Full ts) -> full_key (x :: key) -> slot ts (Z.to_nat x) t ->
  (exists v, t = Leaf v /\ key = [] /\ value_ok v) \/ (canon t /\ full_key key).
Proof.
  intros Hc Hk Ht. destruct (canon_full_inv ts Hc) as (_ & Hcan & Hv).
  apply full_key_step in Hk as [(-> & E & ->)|(Hx & _ & Hk)].
  - left. rewrite E in Ht. destruct (Hv t Ht) as (v & -> & ?). by exists v.
  - right. split; [by eapply Hcan|done].
Qed.

(** The key that goes on below a short node. *)
Lemma short_fits k t key : canon (Short k t) -> full_key (k ++ key) ->
  (exists v, t = Leaf v /\ key = [] /\ full_key k /\ value_ok v) \/
  (exists ts, t = Full ts /\ canon t /\ full_key key /\ partial_key k /\ k <> []).
Proof.
  intros Hc Hk. inversion Hc as [? v Hfk Hv|? ts Hn Hpk Hts|]; subst.
  - left. exists v. destruct key as [|x key]; [done|]. by apply full_key_prefix in Hk.
  - right. exists ts. rewrite full_key_app in Hk by done. done.
Qed.

(** ** Lookup *)

Section lookup.
Context (Q : Z -> list Z -> Prop) (HQ : Q 0 []).
Abbreviation rep := (rep R W Q).

(** The value of the key, from a node that still represents the tree, and so
    does the node that was loaded for it. *)
Definition looks_up (fuel : nat) (n : Node) (t : mpt) (key : list Z) : Prop :=
  exists l n', lookup fuel s (Some n) key = Ok (l, Some n', tget t key) /\ rep n' t /\
    (is_ref n = false -> l = None) /\ match l with Some m => rep m t | None => True end.

Lemma lookup_ref t key fuel n : canon t -> rep n t ->
  (forall n fuel, rep n t -> is_ref n = false -> (2 * length key + 1 <= fuel)%nat -> looks_up fuel n t key) ->
  (2 * length key + 2 <= fuel)%nat -> looks_up fuel n t key.
Proof.
  intros Hc Hn Hlook Hf. destruct (is_ref n) eqn:Er; [|by apply Hlook; [..|lia]].
  destruct n as [[] buf| |]; try done. inversion Hn as [| | |? _ Hb Ha]; subst.
  destruct (resolve_ok s R W Q HR HQ t Hc Hb Ha) as (m & E & Hm & Hmr).
  destruct fuel as [|fuel]; [lia|].
  destruct (Hlook m fuel Hm Hmr) as (l & m' & E' & Hm' & Hl & _); [lia|].
  exists (Some m'), (ValueNode true (tkey t)). cbn [lookup]. rewrite E. cbn [obind]. rewrite E'. cbn [obind].
  split; [done|]. split; [done|]. by split.
Qed.

Lemma lookup_child t (l : option Node) (n' : Node) : rep n' t ->
  match l with Some m => rep m t | None => True end ->
  exists m, match l with Some _ => l | None => Some n' end = Some m /\ rep m t.
Proof. intros Hn Hl. destruct l as [m|]; [by exists m|by exists n']. Qed.

Lemma lookup_node t : canon t -> forall key n fuel, rep n t -> full_key key ->
  (2 * length key + 2 <= fuel)%nat -> looks_up fuel n t key.
Proof.
  intros Hc. induction Hc as [k v Hk Hv|k ts Hn Hk Hts IH|ts Hlen Hc Hv Hu] using canon_ind';
    intros key n fuel Hrep Hkey Hfuel.
  1,2: (eapply lookup_ref; [by eauto using canon|exact Hrep| |done]); clear n fuel Hrep Hfuel; intros n fuel Hrep Hr Hf;
    inversion Hrep as [|? ? m ? Hh Hm| |]; subst; [|done]; (destruct fuel as [|fuel]; [lia|]);
    unfold looks_up; cbn [lookup tget];
    (destruct (decide (take (length k) key = k)) as [E|E];
      [|rewrite bool_decide_false by done; rewrite orb_true_r; exists None; eexists; by repeat split]);
    rewrite bool_decide_true by done; cbn [negb];
    assert (length k <= length key)%nat as Hle by (apply (f_equal length) in E; rewrite length_take in E; lia);
    (destruct (Nat.ltb_spec (length key) (length k)); [lia|]); cbn [orb];
    set (key' := drop (length k) key);
    assert (key = k ++ key') as Ekey by (rewrite <- (take_drop (length k) key) at 1; by rewrite E);
    assert (length key' = length key - length k)%nat as Hlk by (subst key'; by rewrite length_drop).
  - apply rep_leaf in Hm as ->. rewrite Ekey in Hkey.
    assert (key' = []) as -> by (destruct key' as [|x r]; [done|by apply full_key_prefix in Hkey]).
    destruct fuel as [|fuel]; [apply full_key_length in Hk; lia|]. cbn [lookup obind]. cbn.
    exists None. eexists. split; [done|]. split; [by constructor; [|constructor]|done].
  - assert (full_key key') as Hk' by (rewrite Ekey, full_key_app in Hkey; done).
    assert (0 < length k)%nat by (destruct k; [done|cbn; lia]).
    destruct (IH key' m fuel Hm Hk') as (l & m' & E' & Hm' & _ & Hl); [lia|].
    rewrite E'. cbn [obind]. destruct (lookup_child _ l m' Hm' Hl) as (c & -> & Hc).
    exists None. eexists. split; [done|]. split; [by constructor|done].
  - assert (canon (Full ts)) as Hcan by (constructor; [done|intros; by eapply Hc|done..]).
    eapply lookup_ref; [done|done| |done]. clear n fuel Hrep Hfuel. intros n fuel Hrep Hr Hf.
    inversion Hrep as [| |h e ns ? Hh Hq HF|]; subst; [|done]. destruct fuel as [|fuel]; [lia|].
    unfold looks_up. cbn [lookup]. destruct key as [|x key]; [by apply full_key_nil in Hkey|].
    assert (length ns = 17%nat) as Hl by (rewrite <- Hlen; by eapply Forall2_length).
    destruct (slot_get_ok x key ns Hkey Hl) as (on & -> & Hon). cbn [obind].
    destruct (Forall2_lookup_l _ _ _ _ _ HF Hon) as (ot & Hot & Ho). rewrite tget_full. unfold tget_slot. rewrite Hot.
    assert (exists l c, lookup fuel s on key = Ok (l, c, match ot with Some t => tget t key | None => None end) /\
      option_Forall2 rep c ot /\ ((x = 16 -> l = None) /\ match l with Some m => ot <> None /\ option_Forall2 rep (Some m) ot | None => True end))
      as (l & c & E & Hoc & Hx & Hlo).
    { inversion Ho as [m t Hm|]; subst.
      2:{ destruct fuel; [cbn in Hf; lia|]. exists None, None. cbn. by repeat constructor. }
      cbn [length] in Hf. destruct (slot_fits ts x key t Hcan Hkey Hot) as [(w & -> & -> & _)|[Hct Hk']].
      - apply rep_leaf in Hm as ->. destruct fuel; [cbn in Hf; lia|]. exists None. eexists. cbn. by repeat constructor.
      - assert (Z.to_nat x < 16)%nat as Hx16.
        { apply full_key_step in Hkey as [(_ & _ & ->)|(? & _)]; [by apply full_key_nil in Hk'|done]. }
        destruct (Hc _ t Hot Hx16) as [_ IH]. destruct (IH key m fuel Hm Hk') as (l & m' & E & Hm' & _ & Hlo); [lia|].
        exists l, (Some m'). split; [done|]. split; [by constructor|]. split; [intros ->; lia|].
        destruct l; [|done]. split; [done|by constructor]. }
    rewrite E. cbn [obind].
    destruct ((x =? 16) && bool_decide (is_Some l)) eqn:Ex.
    { apply andb_true_iff in Ex as [Ex1%Z.eqb_eq Ex2%bool_decide_eq_true]. rewrite (Hx Ex1) in Ex2. by destruct Ex2. }
    rewrite (slot_set_ok x key) by done. cbn [obind]. exists None. eexists. split; [done|]. split; [|done].
    constructor; [done|done|]. rewrite <- (list_insert_id ts (Z.to_nat x) ot) by done.
    apply Forall2_insert; [done|]. destruct l as [m|]; [by apply Hlo|done].
Qed.

End lookup.

(** ** Insertion *)

Section insert.
Context (Q : Z -> list Z -> Prop) (te : Z) (HQ : Q 0 []) (HQe : Q te []) (HQh : forall h, Q te h -> h = []).
Abbreviation rep := (rep R W Q).

Definition inserts (fuel : nat) (n : Node) (t : mpt) (key v : list Z) : Prop :=
  exists n' t', insert fuel s te (Some n) key v = Ok (Some n') /\ rep n' t' /\ canon t' /\
    updates t t' key (Some v) /\ (forall ts, t = Full ts -> exists ts', t' = Full ts').

(** A copy or not, the written node has no hash. *)
Lemma writeNode_eq h e ns : Q e h -> writeNode te h e ns = FullNode [] te ns.
Proof.
  intros Hq. unfold writeNode. destruct (Z.eqb_spec te e) as [<-|_]; [|done]. by rewrite (HQh h Hq).
Qed.

(** A key of its own. *)
Definition fresh (key v : list Z) : mpt := match key with [] => Leaf v | _ => Short key (Leaf v) end.

Lemma insert_none fuel key v : (2 <= fuel)%nat ->
  exists n, insert fuel s te None key v = Ok (Some n) /\ rep n (fresh key v).
Proof.
  intros Hf. destruct fuel as [|[|fuel]]; try lia. destruct key as [|x key].
  - eexists. split; [done|]. constructor.
  - cbn [insert]. unfold len. cbn [length]. destruct (Z.eqb_spec (Z.of_nat (S (length key))) 0); [lia|].
    cbn. eexists. split; [done|]. constructor; [apply hash_ok_nil|constructor].
Qed.

Lemma insert_slot fuel ns ts h e x key v :
  full_key (x :: key) -> slots_ok ts -> Forall2 (option_Forall2 rep) ns ts -> Q e h -> value_ok v ->
  (2 <= fuel)%nat ->
  (forall n t, slot ts (Z.to_nat x) t -> rep n t -> canon t -> full_key key -> inserts fuel n t key v) ->
  exists ns' t', insert (S fuel) s te (Some (FullNode h e ns)) (x :: key) v = Ok (Some (FullNode [] te ns')) /\
    Forall2 (option_Forall2 rep) ns' (<[Z.to_nat x := Some t']> ts) /\ slot_ok (Z.to_nat x) t' /\
    updates (Full ts) (Full (<[Z.to_nat x := Some t']> ts)) (x :: key) (Some v).
Proof.
  intros Hk Hs HF Hq Hv Hf Hins. destruct Hs as [Hl Hs].
  assert (length ns = 17%nat) as Hln by (rewrite <- Hl; by eapply Forall2_length).
  destruct (slot_get_ok x key ns Hk Hln) as (on & Eg & Hon).
  destruct (Forall2_lookup_l _ _ _ _ _ HF Hon) as (ot & Hot & Ho).
  enough (exists n' t', insert fuel s te on key v = Ok (Some n') /\ rep n' t' /\ slot_ok (Z.to_nat x) t' /\
    forall key', full_key (x :: key') -> tget t' key' = if decide (key' = key) then Some v else tget_slot ts (Z.to_nat x) key')
    as (n' & t' & E & Hr & Hok & Hget).
  { exists (<[Z.to_nat x := Some n']> ns), t'. cbn [insert]. rewrite Eg. cbn [obind]. rewrite E. cbn [obind].
    rewrite (slot_set_ok x key) by done. cbn [obind]. rewrite writeNode_eq by done. split; [done|].
    split; [apply Forall2_insert; [done|by constructor]|]. split; [done|]. by apply updates_slot. }
  unfold tget_slot. rewrite Hot. inversion Ho as [n t Hn|]; subst.
  - destruct (Hs _ t Hot) as [[Hx Hct]|[Hx (w & -> & _)]].
    + apply full_key_step in Hk as [(_ & ? & _)|(_ & Hx' & Hk)]; [lia|].
      destruct (Hins n t Hot Hn Hct Hk) as (n' & t' & E & Hr & Hc' & Hu & _). exists n', t'.
      split; [done|]. split; [done|]. split; [by left|]. intros key' Hk'. apply Hu.
      by apply full_key_cons in Hk' as [[-> _]|[_ ?]]; [lia|].
    + apply full_key_step in Hk as [(Ex & _ & ->)|(? & _)]; [|lia]. apply rep_leaf in Hn as ->.
      destruct fuel as [|fuel]; [lia|]. exists (ValueNode false v), (Leaf v). split; [done|].
      split; [constructor|]. split; [right; split; [done|by exists v]|].
      intros key' Hk'. subst x. apply full_key_cons in Hk' as [[_ ->]|[? _]]; [done|unfold nibble in *; lia].
  - destruct (insert_none fuel key v Hf) as (n & E & Hn). exists n, (fresh key v).
    split; [done|]. split; [done|]. pose proof Hk as Hk0.
    apply full_key_step in Hk as [(-> & _ & ->)|(Hx & Hx' & Hk)].
    + split; [right; split; [done|by exists v]|]. intros key' Hk'.
      apply full_key_cons in Hk' as [[_ ->]|[? _]]; [done|unfold nibble in *; lia].
    + destruct key as [|z key]; [by apply full_key_nil in Hk|]. cbn [fresh].
      split; [left; split; [done|by constructor]|]. intros key' Hk'.
      apply full_key_cons in Hk' as [[-> _]|[_ Hk']]; [lia|]. case_decide as E'.
      * subst. apply tget_leaf.
      * apply tget_short_ne. intros [|y r] ->; [by rewrite app_nil_r in E'|]. exact (full_key_prefix _ _ _ Hk Hk').
Qed.

Lemma insert_ref t key v fuel n : canon t -> rep n t ->
  (forall n fuel, rep n t -> is_ref n = false -> (2 * length key + 3 <= fuel)%nat -> inserts fuel n t key v) ->
  (2 * length key + 4 <= fuel)%nat -> inserts fuel n t key v.
Proof.
  intros Hc Hn Hins Hf. destruct (is_ref n) eqn:Er; [|by apply Hins; [..|lia]].
  destruct n as [[] buf| |]; try done. inversion Hn as [| | |? _ Hb Ha]; subst.
  destruct (resolve_ok s R W Q HR HQ t Hc Hb Ha) as (m & E & Hm & Hmr).
  destruct fuel as [|fuel]; [lia|].
  destruct (Hins m fuel Hm Hmr) as (n' & t' & E' & Hn'); [lia|].
  exists n', t'. cbn [insert]. rewrite E. cbn [obind]. by rewrite E'.
Qed.

(** What is left of a short node behind the first part of its key. *)
Definition behind (r : list Z) (t : mpt) : mpt := match r with [] => t | _ => Short r t end.

Lemma behind_get r t key : tget (behind r t) key = tget (Short r t) key.
Proof. destruct r; [|done]. cbn. by rewrite bool_decide_true. Qed.

Lemma behind_ok p y r t : canon (Short (p ++ y :: r) t) -> 0 <= y <= 16 /\ slot_ok (Z.to_nat y) (behind r t).
Proof.
  intros Hc. inversion Hc as [? v Hk Hv|? ts Hn Hk Hts|]; subst.
  - apply full_key_front in Hk as [_ Hk]. apply full_key_cons in Hk as [[-> ->]|[Hy Hk]].
    + split; [lia|]. right. split; [done|by exists v].
    + unfold nibble in Hy. split; [lia|]. left. split; [lia|].
      destruct r; [by apply full_key_nil in Hk|by constructor].
  - apply Forall_app in Hk as [_ Hk]. apply List.Forall_cons_iff in Hk as [Hy Hk]. unfold nibble in Hy.
    split; [lia|]. left. split; [lia|]. destruct r; [done|by constructor].
Qed.

(** A key that leaves the key of a short node: the short node becomes a full
    node, below the common part of the keys. *)
Lemma insert_split fuel h p y r n t x r' v : canon (Short (p ++ y :: r) t) -> rep n t ->
  full_key (p ++ x :: r') -> x <> y -> value_ok v -> (4 <= fuel)%nat ->
  prefixLen (p ++ x :: r') (p ++ y :: r) = length p ->
  inserts fuel (ShortNode h (p ++ y :: r) (Some n)) (Short (p ++ y :: r) t) (p ++ x :: r') v.
Proof.
  intros Hc Hn Hk Hne Hv Hf Hp. destruct (full_key_front _ _ _ Hk) as [Hpp Hxk].
  destruct (behind_ok _ _ _ _ Hc) as [Hy Hok].
  set (rest := if (length p + 1 <? length p + S (length r))%nat
    then Some (ShortNode [] (drop (length p + 1) (p ++ y :: r)) (Some n)) else Some n).
  assert (option_Forall2 rep rest (Some (behind r t))) as Hrest.
  { unfold rest. rewrite drop_app_add. cbn [drop]. destruct r as [|z r]; cbn [behind length].
    - destruct (Nat.ltb_spec (length p + 1) (length p + 1)); [lia|by constructor].
    - destruct (Nat.ltb_spec (length p + 1) (length p + S (S (length r)))); [|lia].
      repeat constructor; done. }
  set (ts := <[Z.to_nat y := Some (behind r t)]> (replicate 17 (@None mpt))).
  assert (slots_ok ts) as Hts.
  { apply slots_ok_insert; [apply slots_ok_none|]. by intros ? [= <-]. }
  assert (Forall2 (option_Forall2 rep) (<[Z.to_nat y := rest]> no_slots) ts) as HF.
  { apply Forall2_insert; [|done]. apply Forall2_replicate. constructor. }
  assert (slot ts (Z.to_nat y) (behind r t)) as Hsy.
  { unfold slot, ts. apply list_lookup_insert_eq. rewrite length_replicate. lia. }
  assert (Z.to_nat x <> Z.to_nat y) as Hxy by (apply full_key_step in Hxk as [(-> & _)|(_ & ? & _)]; lia).
  destruct fuel as [|[|fuel]]; try lia.
  destruct (insert_slot fuel _ ts [] te x r' v Hxk Hts HF) as (ns' & t' & E & HF' & Hok' & Hu); [done|done|lia| |].
  { intros m u Hu. unfold slot, ts in Hu. rewrite list_lookup_insert_ne in Hu by done.
    apply lookup_replicate in Hu as [? _]. discriminate. }
  assert (canon (Full (<[Z.to_nat x := Some t']> ts))) as Hcan.
  { apply canon_full_iff. split; [apply slots_ok_insert; [done|by intros ? [= <-]]|].
    exists (Z.to_nat x), (Z.to_nat y), t', (behind r t). split; [done|]. unfold slot. split.
    - apply list_lookup_insert_eq. destruct Hts as [-> _]. destruct Hok' as [[? _]|[-> _]]; lia.
    - by rewrite list_lookup_insert_ne. }
  assert (updates (Short (y :: r) t) (Full (<[Z.to_nat x := Some t']> ts)) (x :: r') (Some v)) as Hu'.
  { intros key Hkey. rewrite Hu by done. case_decide; [done|].
    destruct key as [|z key]; [by apply full_key_nil in Hkey|]. rewrite tget_full. unfold tget_slot.
    destruct (decide (z = y)) as [->|Hz].
    - unfold slot in Hsy. rewrite Hsy, behind_get. change (y :: r) with ([y] ++ r).
      rewrite tget_short_app. change (y :: key) with ([y] ++ key). by rewrite tget_short.
    - rewrite tget_short_ne by (intros ? [= -> _]; done).
      assert (Z.to_nat z <> Z.to_nat y) by (apply full_key_step in Hkey as [(-> & _)|(_ & ? & _)]; lia).
      unfold ts. rewrite list_lookup_insert_ne by done. destruct (replicate 17 None !! Z.to_nat z) as [o|] eqn:Eo; [|done].
      apply lookup_replicate in Eo as [-> _]. done. }
  exists (match p with [] => FullNode [] te ns' | _ => ShortNode [] p (Some (FullNode [] te ns')) end),
    (behind p (Full (<[Z.to_nat x := Some t']> ts))).
  split; [|split; [|split; [|split; [|done]]]].
  - remember (S fuel) as f1 eqn:Ef. cbn [insert]. rewrite Hp, length_app. cbn [length].
    destruct (Nat.eqb_spec (length p) (length p + S (length r))); [lia|].
    rewrite (list_lookup_middle p r y (length p)) by done. cbn [default from_option id].
    fold rest. unfold slot_set. destruct (Z.ltb_spec y 17); [|lia]. cbn [obind].
    rewrite drop_app_length. rewrite E. cbn [obind].
    rewrite take_app_length. by destruct p.
  - assert (rep (FullNode [] te ns') (Full (<[Z.to_nat x:=Some t']> ts))) as Hfull by (by constructor; [apply hash_ok_nil|..]).
    destruct p; [done|]. constructor; [apply hash_ok_nil|done].
  - destruct p; [done|by constructor].
  - destruct p as [|z p]; [done|]. cbn [behind]. intros key Hkey. rewrite tget_short_app.
    apply updates_short; [|done|done]. intros key' Hk'. by rewrite full_key_app in Hk'.
Qed.

Lemma insert_short fuel h k m t key v : canon (Short k t) -> rep m t -> full_key key -> value_ok v ->
  (3 <= fuel)%nat ->
  (forall key', key = k ++ key' -> canon t -> full_key key' -> inserts fuel m t key' v) ->
  inserts (S fuel) (ShortNode h k (Some m)) (Short k t) key v.
Proof.
  intros Hc Hm Hkey Hv Hf Hins. destruct (prefixLen_spec key k) as (p & r1 & r2 & -> & -> & Hp & Hd).
  destruct r2 as [|y r2].
  - rewrite app_nil_r in *. unfold inserts. cbn [insert]. rewrite Hp, Nat.eqb_refl, drop_app_length.
    destruct (short_fits p t r1 Hc Hkey) as [(w & -> & -> & Hk & Hw)|(ts & -> & Hts & Hr & Hk & Hn)].
    + apply rep_leaf in Hm as ->. destruct fuel as [|fuel]; [lia|]. cbn [insert]. cbn [len length]. cbn.
      eexists _, (Short p (Leaf v)). split; [done|]. split; [by constructor; [apply hash_ok_nil|constructor]|].
      split; [by constructor|]. split; [|done]. intros key' Hk'. rewrite app_nil_r. case_decide as E.
      * subst. apply tget_leaf.
      * rewrite !tget_short_ne; [done|..]; intros [|z r] ->; rewrite ?app_nil_r in *; try done;
          exact (full_key_prefix _ _ _ Hk Hk').
    + destruct (Hins r1 eq_refl Hts Hr) as (n' & t' & E & Hn' & Hc' & Hu & Hfull). rewrite E. cbn [obind].
      destruct (Hfull ts eq_refl) as (ts' & ->). eexists _, (Short p (Full ts')). split; [done|].
      split; [by constructor; [apply hash_ok_nil|]|]. split; [by constructor|]. split; [|done].
      apply updates_short; [|done]. intros key' Hk'. by rewrite full_key_app in Hk'.
  - destruct r1 as [|x r1].
    + exfalso. rewrite app_nil_r in Hkey. inversion Hc as [? w Hk Hw|? ts Hn Hk Hts|]; subst.
      * exact (full_key_prefix _ _ _ Hkey Hk).
      * apply Forall_app in Hk as [Hk _]. destruct Hkey as (q & -> & _).
        apply Forall_app in Hk as [_ Hk]. apply Forall_inv in Hk. unfold nibble in Hk. lia.
    + apply insert_split; try done; [by apply (Hd x y r1 r2)|lia].
Qed.

Lemma insert_node t : canon t -> forall key v n fuel, rep n t -> full_key key -> value_ok v ->
  (2 * length key + 4 <= fuel)%nat -> inserts fuel n t key v.
Proof.
  intros Hc. induction Hc as [k w Hk Hw|k ts Hn Hk Hts IH|ts Hlen Hc Hv Hu] using canon_ind';
    intros key v n fuel Hrep Hkey Hval Hfuel.
  1,2: (eapply insert_ref; [by eauto using canon|exact Hrep| |done]); clear n fuel Hrep Hfuel; intros n fuel Hrep Hr Hf;
    inversion Hrep as [|h ? m ? Hh Hm| |]; subst; [|done]; pose proof (full_key_length _ Hkey);
    (destruct fuel as [|fuel]; [lia|]); apply insert_short; [by eauto using canon|done|done|done|lia|].
  - intros key' _ Hc. inversion Hc.
  - intros key' -> _ Hk'. apply IH; [done|done|done|]. rewrite length_app in *.
    assert (1 <= length k)%nat by (destruct k; [done|cbn; lia]). lia.
  - assert (canon (Full ts)) as Hcan by (constructor; [done|intros; by eapply Hc|done..]).
    eapply insert_ref; [done|exact Hrep| |done]. clear n fuel Hrep Hfuel. intros n fuel Hrep Hr Hf.
    inversion Hrep as [| |h e ns ? Hh Hq HF|]; subst; [|done]. destruct key as [|x key]; [by apply full_key_nil in Hkey|].
    cbn [length] in Hf. destruct fuel as [|fuel]; [lia|]. pose proof Hcan as [Hs (i & j & a & b & Hij & Ha & Hb)]%canon_full_iff.
    destruct (insert_slot fuel ns ts h e x key v) as (ns' & t' & E & HF' & Hok & Hup); [done|done|done|done|done|lia| |].
    { intros m t Ht Hm Hct Hk. destruct (decide (Z.to_nat x < 16)%nat) as [Hx|Hx].
      - apply (Hc _ t Ht Hx); [done|done|done|lia].
      - apply full_key_step in Hkey as [(_ & _ & ->)|(? & _)]; [by apply full_key_nil in Hk|lia]. }
    eexists _, _. split; [exact E|]. split; [by constructor; [apply hash_ok_nil|..]|]. split; [|split; [done|by eauto]].
    apply canon_full_iff. split; [apply slots_ok_insert; [done|by intros ? [= <-]]|].
    assert (forall i a, slot ts i a -> exists a', slot (<[Z.to_nat x := Some t']> ts) i a') as Hin.
    { intros q c Hq'. unfold slot in *. destruct (decide (Z.to_nat x = q)) as [<-|Hne].
      - exists t'. apply list_lookup_insert_eq. by eapply lookup_lt_Some.
      - exists c. by rewrite list_lookup_insert_ne. }
    destruct (Hin i a Ha) as (a' & Ha'), (Hin j b Hb) as (b' & Hb'). by exists i, j, a', b'.
Qed.

End insert.

(** ** Deletion *)

Section delete.
Context (Q : Z -> list Z -> Prop) (HQ : Q 0 []).
Abbreviation rep := (rep R W Q).

Definition is_value (n : Node) : bool := match n with ValueNode _ _ => true | _ => false end.

Definition removed (o : option Node) (ot : option mpt) (t : mpt) (key : list Z) : Prop :=
  option_Forall2 rep o ot /\ (forall t', ot = Some t' -> canon t') /\ removes t ot key /\
  (forall m, o = Some m -> is_value m = false).

Definition deletes (fuel : nat) (n : Node) (t : mpt) (key : list Z) : Prop :=
  exists n' r, delete fuel s (Some n) key = Ok (Some n', r) /\ rep n' t /\
    match tget t key with
    | None => r = None
    | Some _ => exists o ot, r = Some o /\ removed o ot t key
    end.

Lemma delete_ref t key fuel n : canon t -> rep n t ->
  (forall n fuel, rep n t -> is_ref n = false -> (2 * length key + 1 <= fuel)%nat -> deletes fuel n t key) ->
  (2 * length key + 2 <= fuel)%nat -> deletes fuel n t key.
Proof.
  intros Hc Hn Hdel Hf. destruct (is_ref n) eqn:Er; [|by apply Hdel; [..|lia]].
  destruct n as [[] buf| |]; try done. inversion Hn as [| | |? _ Hb Ha]; subst.
  destruct (resolve_ok s R W Q HR HQ t Hc Hb Ha) as (m & E & Hm & Hmr).
  destruct fuel as [|fuel]; [lia|].
  destruct (Hdel m fuel Hm Hmr) as (n' & r & E' & Hn' & Hr); [lia|].
  exists (ValueNode true (tkey t)), r. cbn [delete]. rewrite E. cbn [obind]. rewrite E'. cbn [obind].
  by split.
Qed.

(** A short node in front of what a deletion left of its child. *)
Definition in_front (k : list Z) (o : option Node) : option Node :=
  match o with
  | None => None
  | Some (ShortNode _ k' c) => Some (ShortNode [] (k ++ k') c)
  | Some c => Some (ShortNode [] k (Some c))
  end.

Lemma in_front_removed k o ot t key : partial_key k -> k <> [] -> removed o ot t key ->
  exists ot', removed (in_front k o) ot' (Short k t) (k ++ key).
Proof.
  intros Hk Hn (Ho & Hc & Hr & Hv).
  assert (forall key', full_key (k ++ key') -> full_key key') as Hfk by (intros; by rewrite full_key_app in *).
  pose proof (removes_short k t ot key Hfk Hr) as Hr'.
  inversion Ho as [n t' Hrep|]; subst; [|by exists None; repeat split].
  specialize (Hv n eq_refl). specialize (Hc t' eq_refl). cbn [fmap option_fmap option_map] in Hr'.
  inversion Hrep as [|h k' n' t'' Hh Hn'|h e ns ts Hh Hq HF|]; subst; try done.
  - exists (Some (Short (k ++ k') t'')). split; [|split; [|split; [|by intros ? [= <-]]]].
    + constructor. constructor; [apply hash_ok_nil|done].
    + intros ? [= <-]. inversion Hc as [? v Hfk' Hw|? ts Hn2 Hpk Hts|]; subst.
      * constructor; [by rewrite full_key_app|done].
      * constructor; [by destruct k|by apply Forall_app|done].
    + intros key' Hk'. cbn [oget]. rewrite tget_short_app. by apply Hr'.
  - exists (Some (Short k (Full ts))). split; [|split; [|split; [done|by intros ? [= <-]]]].
    + constructor. constructor; [apply hash_ok_nil|by constructor].
    + intros ? [= <-]. by constructor.
Qed.

Lemma delete_short fuel h k m t d key : canon (Short k t) -> rep m t -> uniform d t -> full_key key ->
  (length k + d <= length key)%nat -> (1 <= fuel)%nat ->
  (forall key', canon t -> full_key key' -> (d <= length key')%nat -> (length key' < length key)%nat ->
    deletes fuel m t key') ->
  deletes (S fuel) (ShortNode h k (Some m)) (Short k t) key.
Proof.
  intros Hc Hm Hd Hkey Hle Hf Hdel. destruct (prefixLen_spec key k) as (p & r1 & r2 & -> & -> & Hp & Hne).
  rewrite !length_app in Hle. unfold deletes. cbn [delete]. rewrite Hp, length_app.
  assert (rep (ShortNode [] (p ++ r2) (Some m)) (Short (p ++ r2) t)) as Hleft by (constructor; [apply hash_ok_nil|done]).
  destruct r1 as [|x r1].
  - cbn [length] in *. assert (r2 = []) as -> by (destruct r2; [done|cbn in Hle; lia]). rewrite !app_nil_r in *.
    rewrite Nat.add_0_r, Nat.eqb_refl. eexists _, _. split; [done|]. split; [done|].
    assert (d = 0%nat) as -> by lia. inversion Hc as [? v Hk Hv| |]; subst; [|inversion Hd].
    rewrite tget_leaf. exists None, None. split; [done|].
    split; [constructor|]. split; [done|]. split; [|done]. intros key' Hk'. cbn [oget]. case_decide as E; [done|].
    symmetry. apply tget_short_ne. intros [|z r] ->; [by rewrite app_nil_r in E|].
    exact (full_key_prefix _ _ _ Hk Hk').
  - cbn [length] in *. destruct (Nat.eqb_spec (length p) (length p + S (length r1))); [lia|].
    destruct (Nat.eqb_spec (length p) 0) as [Hp0|Hp0].
    { destruct p; [|done]. eexists _, _. split; [done|]. split; [done|].
      rewrite tget_short_ne; [done|]. intros r' E. destruct r2 as [|y r2].
      - apply canon_key_nonempty in Hc. done.
      - injection E as -> _. by apply (Hne y y r1 r2). }
    rewrite drop_app_length. destruct (full_key_front _ _ _ Hkey) as [Hpp Hr1].
    destruct r2 as [|y r2].
    + rewrite app_nil_r in *.
      destruct (short_fits p t (x :: r1) Hc Hkey) as [(w & -> & E & _)|(ts & -> & Hts & _ & Hk & Hn)]; [done|].
      destruct (Hdel (x :: r1) Hts Hr1) as (m' & r & E & Hm' & Hr); [cbn; lia|rewrite length_app; cbn; lia|].
      rewrite E. cbn [obind]. eexists _, _. split; [done|]. split; [by constructor; [apply hash_ok_nil|]|].
      rewrite tget_short. destruct (tget (Full ts) (x :: r1)); [|by rewrite Hr].
      destruct Hr as (o & ot & -> & Hrem). destruct (in_front_removed p o ot _ _ Hk Hn Hrem) as (ot' & Hrem').
      exists (in_front p o), ot'. split; [|done]. by destruct o as [[]|].
    + assert (tget (Short (p ++ y :: r2) t) (p ++ x :: r1) = None) as ->.
      { apply tget_short_ne. intros r' E. rewrite <- app_assoc in E. apply app_inv_head in E.
        injection E as -> _. by apply (Hne y y r1 r2). }
      cbn [length] in Hle. enough (exists m', delete fuel s (Some m) (x :: r1) = Ok (Some m', None) /\ rep m' t) as (m' & -> & Hm').
      { cbn [obind]. eexists _, _. split; [done|]. split; [|done]. by constructor; [apply hash_ok_nil|]. }
      inversion Hc as [? v Hk Hv|? ts Hn Hk Hts|]; subst.
      * apply rep_leaf in Hm as ->. destruct fuel as [|fuel]; [lia|]. eexists. split; [done|constructor].
      * destruct (Hdel (x :: r1) Hts Hr1) as (m' & r & E & Hm' & Hr); [cbn; lia|rewrite length_app; cbn; lia|].
        destruct (tget (Full ts) (x :: r1)) eqn:Et.
        { apply (uniform_length _ d) in Et; [|done]. cbn in Et. lia. }
        subst r. by exists m'.
Qed.

Lemma used_elem (l : list (option Node)) : forall i j,
  j ∈ used i l <-> (i <= j)%nat /\ exists n, l !! (j - i)%nat = Some (Some n).
Proof.
  induction l as [|[n|] l IH]; intros i j; cbn [used].
  - split; [by intros ?%elem_of_nil|]. intros (_ & n & E). done.
  - rewrite elem_of_cons, IH. split.
    + intros [->|(Hj & m & E)]; [split; [lia|exists n; by rewrite Nat.sub_diag]|].
      split; [lia|]. exists m. by replace (j - i)%nat with (S (j - S i)) by lia.
    + intros (Hj & m & E). destruct (decide (j = i)) as [->|Hne]; [by left|right]. split; [lia|].
      exists m. by replace (j - i)%nat with (S (j - S i)) in E by lia.
  - rewrite IH. split.
    + intros (Hj & m & E). split; [lia|]. exists m. by replace (j - i)%nat with (S (j - S i)) by lia.
    + intros (Hj & m & E). destruct (decide (j = i)) as [->|Hne]; [by rewrite Nat.sub_diag in E|].
      split; [lia|]. exists m. by replace (j - i)%nat with (S (j - S i)) in E by lia.
Qed.

Lemma used_NoDup (l : list (option Node)) : forall i, NoDup (used i l).
Proof.
  induction l as [|[n|] l IH]; intros i; cbn [used]; [constructor| |done]. constructor; [|done].
  intros (? & _)%used_elem. lia.
Qed.

(** The slots in use, in the nodes and in the tree. *)
Lemma used_children ns ts i : Forall2 (option_Forall2 rep) ns ts ->
  i ∈ used 0 (take 16 ns) <-> (i < 16)%nat /\ exists t, slot ts i t.
Proof.
  intros HF. rewrite used_elem, Nat.sub_0_r. split.
  - intros (_ & n & E). apply lookup_take_Some in E as [E Hi]. split; [done|].
    destruct (Forall2_lookup_l _ _ _ _ _ HF E) as (ot & Hot & Ho). inversion Ho; subst. by eexists.
  - intros (Hi & t & Ht). split; [lia|]. unfold slot in Ht.
    destruct (Forall2_lookup_r _ _ _ _ _ HF Ht) as (on & Hon & Ho). inversion Ho as [n ? Hn|]; subst.
    exists n. by rewrite lookup_take_lt.
Qed.

(** The only child: its key goes to the short node in front of it. *)
Definition only_child (i : nat) (nc : Node) : Node :=
  match nc with ShortNode _ k c => ShortNode [] (Z.of_nat i :: k) c | _ => ShortNode [] [Z.of_nat i] (Some nc) end.

Lemma only_child_ok i nc t : (i < 16)%nat -> canon t -> rep nc t -> is_ref nc = false ->
  exists t', rep (only_child i nc) t' /\ canon t' /\ same_map (Short [Z.of_nat i] t) t'.
Proof.
  intros Hi Hc Hn Hr. assert (nibble (Z.of_nat i)) as Hnib by (unfold nibble; lia).
  inversion Hn as [v|h k n' u Hh Hn'|h e ns ts Hh Hq HF|]; subst; [inversion Hc| | |done].
  - exists (Short (Z.of_nat i :: k) u). split; [constructor; [apply hash_ok_nil|done]|]. split.
    + inversion Hc as [? v Hk Hv|? ts Hne Hk Hts|]; subst.
      * constructor; [|done]. apply full_key_cons. by right.
      * constructor; [done|by constructor|done].
    + intros key Hkey. symmetry. apply (tget_short_app [Z.of_nat i] k).
  - exists (Short [Z.of_nat i] (Full ts)). split; [by constructor; [apply hash_ok_nil|constructor]|].
    split; [|done]. apply canon_ext; [done|by apply Forall_singleton|done].
Qed.

Lemma collapse_ok ns ts : slots_ok ts -> Forall2 (option_Forall2 rep) ns ts -> (exists i t, slot ts i t) ->
  exists m t', collapse s ns = Ok (Some (Some m)) /\ rep m t' /\ canon t' /\ same_map (Full ts) t' /\ is_value m = false.
Proof.
  intros Hs HF Hany. pose proof Hs as [Hl Hok].
  assert (length ns = 17%nat) as Hln by (rewrite <- Hl; by eapply Forall2_length).
  destruct (lookup_lt_is_Some_2 ns 16) as [v Hv]; [lia|].
  destruct (Forall2_lookup_l _ _ _ _ _ HF Hv) as (vt & Hvt & Hov).
  unfold collapse, slot_get. change (Z.to_nat 16) with 16%nat. rewrite Hv. cbn [of_option obind].
  assert (forall i, i ∈ used 0 (take 16 ns) <-> (i < 16)%nat /\ exists t, slot ts i t) as Hused
    by (intros; by apply used_children).
  assert (forall i j t u, i <> j -> slot ts i t -> slot ts j u -> canon (Full ts)) as Htwo.
  { intros i j t u Hij Ht Hu. apply canon_full_iff. split; [done|]. by exists i, j, t, u. }
  assert (canon (Full ts) -> exists m t', Ok (Some (Some (FullNode [] 0 ns))) = Ok (Some (Some m)) /\ rep m t' /\ canon t' /\
    same_map (Full ts) t' /\ is_value m = false) as Hstay.
  { intros Hc. exists (FullNode [] 0 ns), (Full ts). split; [done|]. split; [by constructor; [apply hash_ok_nil|..]|]. by repeat split. }
  destruct (used 0 (take 16 ns)) as [|i [|j us]] eqn:Eu.
  - assert (forall j u, slot ts j u -> j = 16%nat) as Hone.
    { intros j u Hu. destruct (Hok j u Hu) as [[Hj _]|[-> _]]; [|done].
      assert (j ∈ @nil nat) as ?%elem_of_nil by (apply Hused; by eauto). done. }
    destruct Hany as (j & u & Hu). pose proof (Hone j u Hu) as ->. unfold slot in Hu. rewrite Hu in Hvt.
    injection Hvt as <-. inversion Hov as [n ? Hn|]; subst.
    destruct (Hok _ u Hu) as [[? _]|[_ (w & -> & Hw)]]; [lia|]. apply rep_leaf in Hn as ->.
    eexists _, (Short [16] (Leaf w)). split; [done|]. split; [constructor; [apply hash_ok_nil|constructor]|].
    split; [constructor; [by exists []|done]|]. split; [|done]. by apply (one_slot ts 16).
  - assert ((i < 16)%nat /\ exists t, slot ts i t) as [Hi (t & Ht)] by (apply Hused; by left).
    destruct v as [v|].
    { apply Hstay. inversion Hov; subst. eapply (Htwo i 16%nat); [lia|done|]. by unfold slot. }
    assert (forall j u, slot ts j u -> j = i) as Hone.
    { intros j u Hu. destruct (Hok j u Hu) as [[Hj _]|[-> _]].
      - assert (j ∈ [i]) as ?%list_elem_of_singleton by (apply Hused; by eauto). done.
      - unfold slot in Hu. rewrite Hu in Hvt. injection Hvt as <-. inversion Hov. }
    destruct (Hok i t Ht) as [[_ Hc]|[? _]]; [|lia].
    destruct (Forall2_lookup_r _ _ _ _ _ HF Ht) as (on & Hon & Ho). inversion Ho as [nc ? Hn|]; subst.
    rewrite Hon.
    assert (forall nc', rep nc' t -> is_ref nc' = false -> exists m t',
      Ok (Some (Some (only_child i nc'))) = Ok (Some (Some m)) /\ rep m t' /\ canon t' /\
      same_map (Full ts) t' /\ is_value m = false) as Hfin.
    { intros nc' Hn' Hr'. destruct (only_child_ok i nc' t Hi Hc Hn' Hr') as (t' & Ht' & Hc' & Hsame).
      exists (only_child i nc'), t'. split; [done|]. split; [done|]. split; [done|].
      split; [|by destruct nc' as [[]| |]].
      intros key Hkey. rewrite (one_slot ts i t Hs Ht Hone) by done. by apply Hsame. }
    destruct (is_ref nc) eqn:Er.
    + destruct nc as [[] buf| |]; try done. inversion Hn as [| | |? _ Hb Ha]; subst.
      destruct (resolve_ok s R W Q HR HQ t Hc Hb Ha) as (nc' & E & Hn' & Hr'). rewrite E. cbn [obind].
      specialize (Hfin nc' Hn' Hr'). by destruct nc' as [[]| |].
    + specialize (Hfin nc Hn Er). by destruct nc as [[]| |].
  - assert ((i < 16)%nat /\ exists t, slot ts i t) as [_ (t & Ht)] by (apply Hused; by left).
    assert ((j < 16)%nat /\ exists t, slot ts j t) as [_ (u & Hu)] by (apply Hused; right; by left).
    pose proof (used_NoDup (take 16 ns) 0) as Hnd. rewrite Eu in Hnd. inversion Hnd as [|? ? Hnin _]; subst.
    apply Hstay. eapply (Htwo i j); [|done|done]. intros ->. apply Hnin. by left.
Qed.

(** Deleting in the child that the key leads to. *)
Lemma delete_slot fuel ns ts x key : canon (Full ts) -> full_key (x :: key) ->
  Forall2 (option_Forall2 rep) ns ts -> (1 <= fuel)%nat ->
  (forall n t, slot ts (Z.to_nat x) t -> rep n t -> canon t -> full_key key -> deletes fuel n t key) ->
  exists on oc r, slot_get x ns = Ok on /\ delete fuel s on key = Ok (oc, r) /\
    Forall2 (option_Forall2 rep) (<[Z.to_nat x := oc]> ns) ts /\
    match tget (Full ts) (x :: key) with
    | None => r = None
    | Some _ => exists o ot, r = Some o /\ option_Forall2 rep o ot /\ (forall t, ot = Some t -> slot_ok (Z.to_nat x) t) /\
        forall key', full_key (x :: key') ->
          oget ot key' = if decide (key' = key) then None else tget_slot ts (Z.to_nat x) key'
    end.
Proof.
  intros Hc Hk HF Hf Hdel. pose proof Hc as [[Hl Hok] _]%canon_full_iff.
  assert (length ns = 17%nat) as Hln by (rewrite <- Hl; by eapply Forall2_length).
  destruct (slot_get_ok x key ns Hk Hln) as (on & Eg & Hon).
  destruct (Forall2_lookup_l _ _ _ _ _ HF Hon) as (ot & Hot & Ho).
  rewrite tget_full. unfold tget_slot. rewrite Hot. exists on.
  assert (forall oc, option_Forall2 rep oc ot -> Forall2 (option_Forall2 rep) (<[Z.to_nat x := oc]> ns) ts) as Hset.
  { intros oc Hoc. rewrite <- (list_insert_id ts (Z.to_nat x) ot) by done. by apply Forall2_insert. }
  inversion Ho as [n t Hn|]; subst.
  2:{ exists None, None. destruct fuel as [|fuel]; [lia|]. split; [done|]. split; [done|]. split; [by apply Hset|done]. }
  destruct (Hok _ t Hot) as [[Hx Hct]|[Hx (w & -> & Hw)]].
  - assert (0 <= x < 16 /\ full_key key) as [Hx' Hk'].
    { apply full_key_step in Hk as [(_ & ? & _)|(_ & ? & ?)]; [lia|done]. }
    destruct (Hdel n t Hot Hn Hct Hk') as (n' & r & E & Hn' & Hr). exists (Some n'), r.
    split; [done|]. split; [done|]. split; [by apply Hset; constructor|].
    destruct (tget t key); [|done]. destruct Hr as (o & ot & -> & Hrep & Hc' & Hrem & _).
    exists o, ot. split; [done|]. split; [done|]. split; [intros t' ->; left; split; [done|by apply Hc']|].
    intros key' Hk2. apply Hrem. by apply full_key_cons in Hk2 as [[-> _]|[_ ?]]; [lia|].
  - apply full_key_step in Hk as [(-> & _ & ->)|(? & _)]; [|lia]. apply rep_leaf in Hn as ->.
    destruct fuel as [|fuel]; [lia|]. exists (Some (ValueNode false w)), (Some None).
    split; [done|]. split; [done|]. split; [apply Hset; by repeat constructor|]. cbn.
    exists None, None. split; [done|]. split; [constructor|]. split; [done|]. intros key' Hk'.
    apply full_key_cons in Hk' as [[_ ->]|[? _]]; [done|unfold nibble in *; lia].
Qed.

(** At least one other slot stays in use. *)
Lemma other_slot ts x o : canon (Full ts) -> exists i t, slot (<[x := o]> ts) i t.
Proof.
  intros [_ (i & j & t & u & Hij & Ht & Hu)]%canon_full_iff. unfold slot in *.
  destruct (decide (x = i)) as [->|Hne].
  - exists j, u. by rewrite list_lookup_insert_ne.
  - exists i, t. by rewrite list_lookup_insert_ne.
Qed.

Lemma delete_node t : canon t -> forall d key n fuel, uniform d t -> rep n t -> full_key key ->
  (d <= length key)%nat -> (2 * length key + 2 <= fuel)%nat -> deletes fuel n t key.
Proof.
  intros Hc. induction Hc as [k w Hk Hw|k ts Hn Hk Hts IH|ts Hlen Hc Hv Hu] using canon_ind';
    intros d key n fuel Hd Hrep Hkey Hle Hfuel.
  1,2: (eapply delete_ref; [by eauto using canon|exact Hrep| |done]); clear n fuel Hrep Hfuel; intros n fuel Hrep Hr Hf;
    inversion Hrep as [|h ? m ? Hh Hm| |]; subst; [|done]; inversion Hd as [|? ? d' Hd'|]; subst;
    pose proof (full_key_length _ Hkey);
    (destruct fuel as [|fuel]; [lia|]); apply (delete_short _ _ _ _ _ d'); [by eauto using canon|done|done|done|lia|lia|].
  - intros key' Hc. inversion Hc.
  - intros key' _ Hk' Hle' Hlt. apply (IH d'); [done|done|done|done|lia].
  - assert (canon (Full ts)) as Hcan by (constructor; [done|intros; by eapply Hc|done..]).
    eapply delete_ref; [done|exact Hrep| |done]. clear n fuel Hrep Hfuel. intros n fuel Hrep Hr Hf.
    inversion Hrep as [| |h e ns ? Hh Hq HF|]; subst; [|done]. inversion Hd as [| |? d' Hd']; subst.
    destruct key as [|x key]; [by apply full_key_nil in Hkey|]. cbn [length] in *. destruct fuel as [|fuel]; [lia|].
    destruct (delete_slot fuel ns ts x key) as (on & oc & r & Eg & E & HF' & Hr'); [done|done|done|lia| |].
    { intros m t Ht Hm Hct Hk. destruct (decide (Z.to_nat x < 16)%nat) as [Hx|Hx].
      - apply (Hc _ t Ht Hx) with (d := d'); [by eapply Hd'|done|done|lia|lia].
      - apply full_key_step in Hkey as [(_ & _ & ->)|(? & _)]; [by apply full_key_nil in Hk|lia]. }
    unfold deletes. cbn [delete]. rewrite Eg. cbn [obind]. rewrite E. cbn [obind].
    rewrite (slot_set_ok x key) by done. cbn [obind].
    assert (rep (FullNode h e (<[Z.to_nat x := oc]> ns)) (Full ts)) as Hleft by (by constructor).
    destruct (tget (Full ts) (x :: key)); [|subst r; by eexists _, _].
    destruct Hr' as (o & ot & -> & Hot & Hok & Hget). rewrite (slot_set_ok x key) by done. cbn [obind].
    pose proof Hcan as [Hs _]%canon_full_iff.
    destruct (collapse_ok (<[Z.to_nat x := o]> ns) (<[Z.to_nat x := ot]> ts)) as (m & t' & Ecol & Hm & Hc' & Hsame & Hval).
    { by apply slots_ok_insert. }
    { by apply Forall2_insert. }
    { by apply other_slot. }
    rewrite Ecol. cbn [obind]. eexists _, _. split; [done|]. split; [done|]. exists (Some m), (Some t').
    split; [done|]. split; [by constructor|]. split; [by intros ? [= <-]|]. split; [|by intros ? [= <-]].
    intros key' Hk'. cbn [oget]. rewrite <- Hsame by done. by apply updates_slot.
Qed.

End delete.
End ops.
