(* ===== verification/TrieHash.v ===== *)
(** Hashing a trie: the value of its root is the one the Ethereum specification
    gives for the tree, and every node that is not stored yet is put into the
    batch. *)

From Stdlib Require Import ZArith Lia.
From stdpp Require Import base list numbers.
From S2P Require Import Prelude Types Chain Rlp Nibbles Txn Trie TrieRep.

Open Scope Z_scope.
Open Scope outcome_scope.

Section hash.
Context `{FastRLP} `{Runtime} `{!FastRLPOk} `{!NodeRLP} `{!NodeRLPOk}.

(** The loop over the slots of a full node. *)
Fixpoint hash_slots (slots : list (option Node))
    : outcome (list Value * list (option Node) * list (list Z * list Z)) :=
  match slots with
  | [] => Ok ([], [], [])
  | None :: slots =>
    let^ (vs, slots, puts) := hash_slots slots in
    Ok (NewNull :: vs, None :: slots, puts)
  | Some n :: slots =>
    let^ (v, n, puts) := hash n in
    let^ (vs, slots, puts') := hash_slots slots in
    Ok (v :: vs, Some n :: slots, puts ++ puts')
  end.

Lemma hash_full h e slots : hash (FullNode h e slots) =
  if negb (len h =? 0) then Ok (NewBytes h, FullNode h e slots, [])
  else let^ (vs, slots, puts) := hash_slots slots in hash_node (NewArray vs) (FullNode h e slots) puts.
Proof. done. Qed.

Context (R W : list Z -> list Z -> Prop) (Q Q' : Z -> list Z -> Prop).
Context (HRW : forall k d, R k d -> W k d) (HQ : forall e h h', Q e h -> Q' e h').

(** What is put are nodes of the tree, under their hashes. *)
Definition nodes_of (t : mpt) (puts : list (list Z * list Z)) : Prop :=
  Forall (fun '(k, d) => exists u, subtree u t /\ k = tkey u /\ d = data u) puts.

Lemma nodes_of_mono t t' puts : (forall u, subtree u t -> subtree u t') -> nodes_of t puts -> nodes_of t' puts.
Proof.
  intros Hs Hp. eapply Forall_weaken; [done|]. intros [k d] (u & Hu & E). exists u. split; [by apply Hs|done].
Qed.

(** With the puts, in any [W'] that has them, the tree is complete. *)
Definition covers (W' : list Z -> list Z -> Prop) (puts : list (list Z * list Z)) : Prop :=
  (forall k d, W k d -> W' k d) /\ forall k d, (k, d) ∈ puts -> W' k d.

Lemma covers_app W' p1 p2 : covers W' (p1 ++ p2) <-> covers W' p1 /\ covers W' p2.
Proof.
  split.
  - intros [HW Hp]. split; split; try done; intros k d Hin; apply Hp, elem_of_app; auto.
  - intros [[HW Hp1] [_ Hp2]]. split; [done|]. intros k d [Hin|Hin]%elem_of_app; auto.
Qed.

Definition hashes (n : Node) (t : mpt) : Prop :=
  exists n' puts, hash n = Ok (tref t, n', puts) /\ nodes_of t puts /\
    forall W', covers W' puts -> rep R W' Q' n' t /\ all_nodes W' t.

(** The end of the work on a node whose children are hashed. *)
Lemma hash_node_ok t n puts : tref t = cap (tnode t) -> nodes_of t puts ->
  (forall h, exists n', SetHash h n = Ok n') ->
  (forall W', covers W' puts -> (node_in W' t -> all_nodes W' t) /\ rep R W' Q' n t /\
    (forall h n', SetHash h n = Ok n' -> hash_ok W' h t -> rep R W' Q' n' t)) ->
  exists n' puts', hash_node (tnode t) n puts = Ok (tref t, n', puts') /\ nodes_of t puts' /\
    forall W', covers W' puts' -> rep R W' Q' n' t /\ all_nodes W' t.
Proof.
  intros Et Ha Hset Hrep. unfold hash_node. rewrite Et. unfold cap.
  destruct (Z.ltb_spec (Value_Len (tnode t)) 32) as [Hlt|Hge].
  - exists n, puts. split; [done|]. split; [done|]. intros W' HW'. destruct (Hrep W' HW') as (Hall & Hn & _).
    split; [done|]. apply Hall. intros Hb. unfold big in Hb. lia.
  - fold (data t). fold (tkey t). destruct (Hset (tkey t)) as (n' & En). rewrite En. cbn [obind].
    exists n', (puts ++ [(tkey t, data t)]). split; [done|].
    split; [apply Forall_app; split; [done|]; constructor; [by exists t; repeat constructor|constructor]|].
    intros W' [HW' Hput]%covers_app. destruct (Hrep W' HW') as (Hall & _ & Hset').
    assert (all_nodes W' t) as Hall'.
    { apply Hall. intros _. apply Hput. by left. }
    split; [|done]. eapply Hset'; [done|]. right. done.
Qed.

Lemma known_hash h t n : hash_ok W h t -> len h <> 0 -> tref t = cap (tnode t) ->
  (forall W', (forall k d, W k d -> W' k d) -> rep R W' Q' n t) ->
  exists n' puts, Ok (NewBytes h, n, []) = Ok (tref t, n', puts) /\ nodes_of t puts /\
    forall W', covers W' puts -> rep R W' Q' n' t /\ all_nodes W' t.
Proof.
  intros [->|(Hb & -> & Hall)] Hne Et Hrep; [done|]. exists n, []. split; [|split; [constructor|]].
  - rewrite Et. unfold cap. unfold big in Hb. by destruct (Z.ltb_spec (Value_Len (tnode t)) 32); [lia|].
  - intros W' [HW' _]. split; [by apply Hrep|by eapply all_nodes_mono].
Qed.

Lemma hash_slots_ok ns ts : Forall2 (option_Forall2 (rep R W Q)) ns ts ->
  (forall i n t, ns !! i = Some (Some n) -> slot ts i t -> hashes n t) ->
  exists ns' puts, hash_slots ns = Ok (map slot_ref ts, ns', puts) /\
    Forall (fun '(k, d) => exists i t u, slot ts i t /\ subtree u t /\ k = tkey u /\ d = data u) puts /\
    forall W', covers W' puts -> Forall2 (option_Forall2 (rep R W' Q')) ns' ts /\
      forall i t, slot ts i t -> all_nodes W' t.
Proof.
  induction 1 as [|on ot ns ts Ho HF IH]; intros Hh.
  { exists [], []. split; [done|]. split; [constructor|]. intros W' _. split; [constructor|]. by intros i t Ht. }
  destruct IH as (ns' & puts' & E' & Ha' & Hr').
  { intros i n t Hn Ht. by apply (Hh (S i)). }
  inversion Ho as [n t Hn|]; subst; cbn [hash_slots map slot_ref].
  - destruct (Hh 0%nat n t eq_refl eq_refl) as (n' & puts & E & Ha & Hr). rewrite E. cbn [obind]. rewrite E'. cbn [obind].
    exists (Some n' :: ns'), (puts ++ puts'). split; [done|]. split.
    { apply Forall_app. split; (eapply Forall_weaken; [done|]).
      - intros [k d] (u & Hu & Ek & Ed). by exists 0%nat, t, u.
      - intros [k d] (i & t' & u & Ht' & Hu & Ek & Ed). by exists (S i), t', u. }
    intros W' [HW1 HW2]%covers_app. destruct (Hr W' HW1) as [Hrep Hall], (Hr' W' HW2) as [HF' Hall'].
    split; [by constructor; [constructor|]|]. intros [|i] u Hu; [by injection Hu as <-|by apply (Hall' i)].
  - rewrite E'. cbn [obind]. exists (None :: ns'), puts'. split; [done|]. split.
    { eapply Forall_weaken; [done|]. intros [k d] (i & t' & u & Ht' & Hu & Ek & Ed). by exists (S i), t', u. }
    intros W' HW'. destruct (Hr' W' HW') as [HF' Hall']. split; [by constructor; [constructor|]|].
    intros [|i] u Hu; [done|by apply (Hall' i)].
Qed.

Lemma hash_rep t : forall n, rep R W Q n t -> hashes n t.
Proof.
  assert (forall e h, Q e h -> Q' e h) as HQ' by eauto.
  induction t as [v|k t IH|ts IH] using mpt_ind'; intros n Hn; pose proof Hn as Hn0;
    inversion Hn as [?|h ? m ? Hh Hm|h e ns ? Hh Hq HF|? Hc Hb Ha]; subst;
    try (eexists _, []; split; [cbn [hash]; by rewrite tref_big|]; split; [constructor|];
         intros W' [HW' _]; split; [by apply rep_ref|eapply all_nodes_mono; [|done]; auto]).
  - exists (ValueNode false v), []. split; [done|]. split; [constructor|]. intros W' _. split; constructor.
  - unfold hashes. cbn [hash]. destruct (Z.eqb_spec (len h) 0) as [E|E]; cbn [negb].
    2:{ apply known_hash; [done|done|done|]. intros W' HW'. by eapply rep_mono; [| | |done]. }
    destruct (IH m Hm) as (m' & puts & Em & Hp & Hr). rewrite Em. cbn [obind].
    apply (hash_node_ok (Short k t)); [done|eapply nodes_of_mono; [|done]; by constructor|by eexists|]. intros W' HW'. destruct (Hr W' HW') as [Hm' Hall].
    assert (h = []) as -> by (by destruct h). split; [by constructor|]. split; [by constructor; [apply hash_ok_nil|]|].
    intros h n' [= <-] Hh'. by constructor.
  - unfold hashes. rewrite hash_full. destruct (Z.eqb_spec (len h) 0) as [E|E]; cbn [negb].
    2:{ apply known_hash; [done|done|done|]. intros W' HW'. by eapply rep_mono; [| | |done]. }
    destruct (hash_slots_ok ns ts HF) as (ns' & puts & Es & Hp & Hr).
    { intros i n t Hni Ht. eapply IH; [done|]. pose proof (Forall2_lookup_lr _ _ _ _ _ _ HF Hni Ht) as Ho. by inversion Ho. }
    rewrite Es. cbn [obind]. apply (hash_node_ok (Full ts)); [done| |by eexists|].
    { eapply Forall_weaken; [done|]. intros [k d] (i & t & u & Ht & Hu & Ek & Ed). exists u.
      split; [by econstructor|done]. }
    intros W' HW'.
    destruct (Hr W' HW') as [HF' Hall]. assert (h = []) as -> by (by destruct h).
    split; [by constructor|]. split; [constructor; [apply hash_ok_nil|by eapply HQ|done]|].
    intros h n' [= <-] Hh'. constructor; [done|by eapply HQ|done].
Qed.

(** ** The root *)

(** The root hash of a tree. *)
Definition mpt_root (ot : option mpt) : list Z :=
  match ot with None => Hash_Bytes EmptyRootHash | Some t => tkey t end.

(** [Hash] gives the root hash of the tree, whatever is cached in the nodes; the
    root is stored even if it is short. *)
Lemma Txn_Hash_ok tx ot : rep_root R W Q (tRoot tx) ot ->
  exists root puts, Txn_Hash tx = Ok (mpt_root ot, mkTxn root (tEpoch tx), puts) /\
    (forall k d, (k, d) ∈ puts -> exists t u, ot = Some t /\ subtree u t /\ k = tkey u /\ d = data u) /\
    forall W', covers W' puts -> rep_root R W' Q' root ot /\
      forall t, ot = Some t -> all_nodes W' t /\ W' (tkey t) (data t).
Proof.
  intros [Hrep Hc]. unfold Txn_Hash. inversion Hrep as [n t Hn En Eot|En Eot]; subst.
  2:{ destruct tx as [root e]. cbn in *. subst. exists None, []. split; [done|]. split; [by intros k d ?%elem_of_nil|].
      intros W' _. split; [by split; [constructor|]|]. by intros ? [=]. }
  destruct (hash_rep t n Hn) as (n' & puts & E & Ha & Hr). rewrite E. cbn [obind].
  assert (forall k d, (k, d) ∈ puts -> exists u, subtree u t /\ k = tkey u /\ d = data u) as Hputs.
  { intros k d Hin. unfold nodes_of in Ha. rewrite List.Forall_forall in Ha. apply (Ha (k, d)). by apply list_elem_of_In. }
  destruct (decide (big t)) as [Hb|Hb].
  - rewrite tref_big by done. destruct (built_bytes (tkey t)) as [-> ->]. rewrite len_bytes.
    unfold tkey at 1. unfold len. rewrite Keccak256_length. cbn. exists (Some n'), puts.
    split; [done|]. split; [intros k d Hin; destruct (Hputs k d Hin) as (u & ?); by exists t, u|]. intros W' HW'. destruct (Hr W' HW') as [Hn' Hall].
    split; [by split; [constructor|]|]. intros ? [= <-]. split; [done|]. by apply all_nodes_here in Hall; [apply Hall|].
  - rewrite tref_small by done. assert (IsBytes (tnode t) = false) as ->.
    { destruct Hc; cbn [tnode]; apply built_array. }
    exists (Some n'), (puts ++ [(tkey t, data t)]). split; [done|].
    split.
    { intros k d [Hin|[= -> ->]%list_elem_of_singleton]%elem_of_app; [|exists t, t; by repeat constructor].
      destruct (Hputs k d Hin) as (u & ?). by exists t, u. }
    intros W' [HW' Hput]%covers_app. destruct (Hr W' HW') as [Hn' Hall]. split; [by split; [constructor|]|].
    intros ? [= <-]. split; [done|]. apply Hput. by left.
Qed.
End hash.
