(* ===== verification/TrieMap.v ===== *)
(** A trie as a map from byte strings to byte strings: the operations on
    transactions, sequences of them, and what the root hash says about the map. *)


From Stdlib Require Import ZArith Lia.
From stdpp Require Import base gmap list numbers.
From S2P Require Import Prelude Types Chain Rlp Nibbles Txn Trie TrieRep TrieOps TrieHash.

Open Scope Z_scope.
Open Scope outcome_scope.

Abbreviation bmap := (gmap (list Z) (list Z)).

(** ** The map of a tree *)

(** The keys of the tree are the nibbles of the keys of the map. *)
Record contents (ot : option mpt) (m : bmap) : Prop := {
  contents_get k : Forall is_byte k -> oget ot (bytesToHexNibbles k) = m !! k;
  contents_keys key v : full_key key -> oget ot key = Some v ->
    exists k, Forall is_byte k /\ key = bytesToHexNibbles k;
  contents_bytes k v : m !! k = Some v -> Forall is_byte k
}.

Definition ocanon (ot : option mpt) : Prop := match ot with Some t => canon t | None => True end.

Lemma contents_empty : contents None ∅.
Proof. split; [done|done|]. by intros k v; rewrite lookup_empty. Qed.

(** Equal maps have equal trees. *)
Lemma contents_unique ot ot' m : ocanon ot -> ocanon ot' -> contents ot m -> contents ot' m -> ot = ot'.
Proof.
  assert (forall t, canon t -> contents (Some t) m -> contents None m -> False) as Hne.
  { intros t Hc Ht Hn. destruct (canon_inhabited t Hc) as (key & v & Hk & E).
    destruct (contents_keys _ _ Ht key v Hk E) as (k & Hb & ->).
    pose proof (contents_get _ _ Ht k Hb) as E1. pose proof (contents_get _ _ Hn k Hb) as E2. cbn in *. congruence. }
  intros Hc Hc' H H'. destruct ot as [t|], ot' as [t'|]; [|by destruct (Hne t)|by destruct (Hne t')|done].
  f_equal. apply canon_unique; [done|done|].
  assert (forall t1 t2, contents (Some t1) m -> contents (Some t2) m -> forall key v, full_key key -> tget t1 key = Some v -> tget t2 key = Some v) as Hsub.
  { intros t1 t2 Hc1 Hc2 key v Hk E. destruct (contents_keys _ _ Hc1 key v Hk E) as (k & Hb & ->).
    pose proof (contents_get _ _ Hc1 k Hb). pose proof (contents_get _ _ Hc2 k Hb). cbn in *. congruence. }
  intros key Hk. destruct (tget t key) as [v|] eqn:E; [symmetry; by apply (Hsub t t')|].
  destruct (tget t' key) as [v|] eqn:E'; [|done]. by rewrite (Hsub t' t H' H key v Hk E') in E.
Qed.

(** Setting or removing a key, in the tree and in the map. *)
Lemma contents_change ot ot' m k o : Forall is_byte k -> contents ot m ->
  (forall key, full_key key -> oget ot' key = if decide (key = bytesToHexNibbles k) then o else oget ot key) ->
  contents ot' (partial_alter (fun _ => o) k m).
Proof.
  intros Hb [Hg Hk Hm] Hu. split.
  - intros k' Hb'. rewrite Hu by (by apply nibbles_full). destruct (decide (k' = k)) as [->|Hne].
    + by rewrite decide_True, lookup_partial_alter_eq by done.
    + rewrite decide_False, lookup_partial_alter_ne by (try done; intros E; by apply Hne, nibbles_inj).
      by apply Hg.
  - intros key v Hfk E. rewrite Hu in E by done. case_decide as Ek; [by exists k|by eapply Hk].
  - intros k' v. destruct (decide (k = k')) as [->|Hne]; [done|]. rewrite lookup_partial_alter_ne by done. apply Hm.
Qed.

(** The keys are strings of [n] bytes. *)
Definition keys_of (n : nat) (m : bmap) : Prop := forall k v, m !! k = Some v -> length k = n.

Lemma contents_uniform t m n : canon t -> contents (Some t) m -> keys_of n m -> uniform (2 * n + 1) t.
Proof.
  intros Hc Ht Hk. apply canon_uniform; [done|]. intros key v Hfk E.
  destruct (contents_keys _ _ Ht key v Hfk E) as (k & Hb & ->). rewrite nibbles_length.
  rewrite (contents_get _ _ Ht k Hb : tget t _ = _) in E. by rewrite (Hk k v E).
Qed.

(** ** Transactions *)

(** Full nodes of the transaction's own epoch have no hash; a committed trie has
    no node of a later epoch. *)
Definition txn_epochs (te e : Z) (h : list Z) : Prop := 0 <= e <= te /\ (e = te -> h = []).
Definition trie_epochs (te e : Z) (h : list Z) : Prop := 0 <= e <= te.

Section txn.
Context `{FastRLP} `{Runtime} `{!FastRLPOk} `{!NodeRLP} `{!NodeRLPOk} `{TrieStorage}.

(** The transaction, or the trie, holds the map. *)
Definition txn_holds (R W : list Z -> list Z -> Prop) (tx : Txn) (m : bmap) : Prop :=
  0 <= tEpoch tx /\ exists ot, rep_root R W (txn_epochs (tEpoch tx)) (tRoot tx) ot /\ contents ot m.

Definition trie_holds (R W : list Z -> list Z -> Prop) (t : Trie) (m : bmap) : Prop :=
  0 <= trEpoch t /\ exists ot, rep_root R W (trie_epochs (trEpoch t)) (trRoot t) ot /\ contents ot m.

Lemma Trie_Txn_holds R W t m : trie_holds R W t m -> trEpoch t + 1 < 2 ^ 32 -> txn_holds R W (Trie_Txn t) m.
Proof.
  intros (He & ot & [Hr Hc] & Hm) Hlt. unfold txn_holds, Trie_Txn. cbn [tEpoch tRoot].
  rewrite Z.mod_small by lia. split; [lia|]. exists ot. split; [|done]. split; [|done].
  inversion Hr; subst; constructor. eapply rep_mono; [done|done| |done].
  unfold trie_epochs, txn_epochs. intros e h. lia.
Qed.

Lemma NewTrie_holds R W : trie_holds R W NewTrie ∅.
Proof. split; [done|]. exists None. split; [|apply contents_empty]. split; [constructor|done]. Qed.

Context (s : option stor) (R W : list Z -> list Z -> Prop) (HR : readable s R).

Lemma txn_epochs_loaded te : 0 <= te -> txn_epochs te 0 [].
Proof. by split; [lia|]. Qed.
#[local] Hint Resolve txn_epochs_loaded : core.

Lemma Lookup_ok tx m k : txn_holds R W tx m -> Forall is_byte k ->
  exists tx', Lookup s k tx = Ok (m !! k, tx') /\ txn_holds R W tx' m /\ tEpoch tx' = tEpoch tx.
Proof.
  intros (He & ot & [Hr Hc] & Hm) Hb. unfold Lookup. set (key := bytesToHexNibbles k).
  rewrite <- (contents_get _ _ Hm k Hb). fold key.
  inversion Hr as [n t Hn En Et|En Et]; subst.
  - destruct (lookup_node s R W HR (txn_epochs (tEpoch tx)) (txn_epochs_loaded _ He) t Hc key n (key_fuel key))
      as (l & n' & E & Hn' & _); [done|by apply nibbles_full|unfold key_fuel; lia|].
    rewrite E. cbn [obind]. eexists. split; [done|]. split; [|done]. split; [done|]. exists (Some t).
    split; [|done]. split; [by constructor|done].
  - unfold key_fuel. rewrite Nat.add_comm. cbn. eexists. split; [done|]. split; [|done].
    split; [done|]. exists None. split; [|done]. split; [constructor|done].
Qed.

Lemma Insert_ok tx m k v : txn_holds R W tx m -> Forall is_byte k -> value_ok v ->
  exists tx', Insert s k v tx = Ok tx' /\ txn_holds R W tx' (<[k := v]> m) /\ tEpoch tx' = tEpoch tx.
Proof.
  intros (He & ot & [Hr Hc] & Hm) Hb Hv. unfold Insert. set (key := bytesToHexNibbles k).
  assert (full_key key) as Hk by (by apply nibbles_full).
  assert (exists n' t', insert (key_fuel key) s (tEpoch tx) (tRoot tx) key v = Ok (Some n') /\
    rep R W (txn_epochs (tEpoch tx)) n' t' /\ canon t' /\
    forall key', full_key key' -> tget t' key' = if decide (key' = key) then Some v else oget ot key') as (n' & t' & E & Hn' & Hc' & Hu).
  { inversion Hr as [n t Hn En Et|En Et]; subst.
    - destruct (insert_node s R W HR (txn_epochs (tEpoch tx)) (tEpoch tx)) with (t := t) (key := key) (v := v) (n := n) (fuel := key_fuel key)
        as (n' & t' & E & Hn' & Hc' & Hu & _); [auto|done| |done|done|done|done|unfold key_fuel; lia|by exists n', t'].
      intros h [_ Hh]. by apply Hh.
    - destruct (insert_none s R W (txn_epochs (tEpoch tx)) (tEpoch tx) (key_fuel key) key v) as (n & E & Hn); [unfold key_fuel; lia|].
      exists n, (fresh key v). split; [done|]. split; [done|].
      destruct key as [|x key]; [by apply full_key_nil in Hk|]. cbn [fresh]. split; [by constructor|].
      intros key' Hk'. cbn [oget]. case_decide as E'; [subst; apply tget_leaf|].
      apply tget_short_ne. intros [|y r] ->; [by rewrite app_nil_r in E'|]. exact (full_key_prefix _ _ _ Hk Hk'). }
  rewrite E. cbn [obind]. eexists. split; [done|]. split; [|done]. split; [done|]. exists (Some t').
  split; [by split; [constructor|]|]. by apply (contents_change ot).
Qed.

Lemma Delete_ok tx m k n : txn_holds R W tx m -> Forall is_byte k -> keys_of n m -> length k = n ->
  exists tx', Delete s k tx = Ok tx' /\ txn_holds R W tx' (base.delete k m) /\ tEpoch tx' = tEpoch tx.
Proof.
  intros (He & ot & [Hr Hc] & Hm) Hb Hkeys Hl. unfold Delete. set (key := bytesToHexNibbles k).
  assert (full_key key) as Hk by (by apply nibbles_full).
  inversion Hr as [nd t Hn En Et|En Et]; subst.
  2:{ unfold key_fuel. rewrite Nat.add_comm. cbn. eexists. split; [done|]. split; [|done].
      split; [done|]. exists None. split; [split; [constructor|done]|].
      apply (contents_change None); [done|done|]. intros key' _. by case_decide. }
  destruct (delete_node s R W HR (txn_epochs (tEpoch tx)) (txn_epochs_loaded _ He) t Hc (2 * length k + 1) key nd (key_fuel key))
    as (n' & r & E & Hn' & Hr'); [by eapply contents_uniform|done|done|unfold key; rewrite nibbles_length; lia|unfold key_fuel; lia|].
  rewrite E. cbn [obind]. eexists. split; [done|]. split; [|done]. split; [done|].
  destruct (tget t key) as [v|] eqn:Ev.
  - destruct Hr' as (o & ot & -> & Ho & Hc' & Hrem & _). exists ot. split; [|by apply (contents_change (Some t))].
    split; [done|]. destruct ot as [t'|]; [by apply Hc'|done].
  - subst r. exists (Some t). split; [by split; [constructor|]|]. apply (contents_change (Some t)); [done|done|].
    intros key' _. case_decide as E'; [|done]. by rewrite E'.
Qed.

(** ** Sequences of operations *)

Inductive trie_op := OpInsert (k v : list Z) | OpDelete (k : list Z).

Definition run_op (op : trie_op) (tx : Txn) : outcome Txn :=
  match op with OpInsert k v => Insert s k v tx | OpDelete k => Delete s k tx end.

Fixpoint run_ops (ops : list trie_op) (tx : Txn) : outcome Txn :=
  match ops with
  | [] => Ok tx
  | op :: ops => let^ tx := run_op op tx in run_ops ops tx
  end.

Definition spec_op (m : bmap) (op : trie_op) : bmap :=
  match op with OpInsert k v => <[k := v]> m | OpDelete k => base.delete k m end.

(** Keys of [n] bytes, and values. *)
Definition op_ok (n : nat) (op : trie_op) : Prop :=
  match op with
  | OpInsert k v => Forall is_byte k /\ length k = n /\ value_ok v
  | OpDelete k => Forall is_byte k /\ length k = n
  end.

Lemma spec_op_keys n m op : keys_of n m -> op_ok n op -> keys_of n (spec_op m op).
Proof.
  intros Hm Hop k v. destruct op as [k' v'|k']; cbn.
  - intros [[<- _]|[_ E]]%lookup_insert_Some; [by destruct Hop as (_ & ? & _)|by eapply Hm].
  - intros [_ E]%lookup_delete_Some. by eapply Hm.
Qed.

Lemma run_ops_ok n ops : forall tx m, txn_holds R W tx m -> keys_of n m -> Forall (op_ok n) ops ->
  exists tx', run_ops ops tx = Ok tx' /\ txn_holds R W tx' (foldl spec_op m ops) /\
    keys_of n (foldl spec_op m ops) /\ tEpoch tx' = tEpoch tx.
Proof.
  induction ops as [|op ops IH]; intros tx m Htx Hm Hops; [by exists tx|].
  apply List.Forall_cons_iff in Hops as [Hop Hops].
  assert (exists tx1, run_op op tx = Ok tx1 /\ txn_holds R W tx1 (spec_op m op) /\ tEpoch tx1 = tEpoch tx) as (tx1 & E & Htx1 & He).
  { destruct op as [k v|k]; cbn in Hop |- *.
    - destruct Hop as (Hb & _ & Hv). by apply Insert_ok.
    - destruct Hop as (Hb & Hl). by apply (Delete_ok _ _ _ n). }
  destruct (IH tx1 (spec_op m op)) as (tx' & E' & Htx' & Hk & He'); [done|by apply spec_op_keys|done|].
  exists tx'. cbn [run_ops foldl]. rewrite E. cbn [obind]. by rewrite He'.
Qed.

(** ** Roots *)

(** The root hash of a map, by the Ethereum specification. *)
Definition is_root (m : bmap) (root : list Z) : Prop :=
  exists ot, ocanon ot /\ contents ot m /\ root = mpt_root ot.

Lemma is_root_unique m r r' : is_root m r -> is_root m r' -> r = r'.
Proof.
  intros (ot & Hc & Hm & ->) (ot' & Hc' & Hm' & ->). by rewrite (contents_unique ot ot' m).
Qed.

Lemma Txn_Hash_root tx m : (forall k d, R k d -> W k d) -> txn_holds R W tx m ->
  exists root tx' puts, Txn_Hash tx = Ok (root, tx', puts) /\ is_root m root.
Proof.
  intros HRW (He & ot & Hr & Hm).
  destruct (Txn_Hash_ok R W (txn_epochs (tEpoch tx)) (fun _ _ => True) HRW ltac:(done) tx ot Hr) as (root & puts & E & _).
  eexists _, _, _. split; [done|]. exists ot. destruct Hr as [_ Hc]. by split.
Qed.

End txn.

(** What a sequence leaves for a key. *)

Definition op_key (op : trie_op) : list Z := match op with OpInsert k _ | OpDelete k => k end.
Definition op_val (op : trie_op) : option (list Z) := match op with OpInsert _ v => Some v | OpDelete _ => None end.

Lemma spec_op_lookup m op k : spec_op m op !! k = if decide (op_key op = k) then op_val op else m !! k.
Proof.
  destruct op as [k' v|k']; cbn; case_decide as E; subst;
    rewrite ?lookup_insert_eq, ?lookup_delete_eq, ?lookup_insert_ne, ?lookup_delete_ne by done; done.
Qed.

Lemma spec_ops_other ops k : k ∉ op_key <$> ops -> forall m, foldl spec_op m ops !! k = m !! k.
Proof.
  induction ops as [|op ops IH]; intros Hk m; [done|]. cbn in *. apply not_elem_of_cons in Hk as [Hne Hk].
  rewrite IH by done. rewrite spec_op_lookup. by rewrite decide_False.
Qed.

Lemma spec_ops_in ops op : NoDup (op_key <$> ops) -> op ∈ ops -> forall m, foldl spec_op m ops !! op_key op = op_val op.
Proof.
  induction ops as [|o ops IH]; intros Hnd Hin m; [by apply elem_of_nil in Hin|]. cbn in *.
  apply list.NoDup_cons in Hnd as [Ho Hnd]. apply elem_of_cons in Hin as [<-|Hin]; [|by apply IH].
  rewrite spec_ops_other by done. rewrite spec_op_lookup. by rewrite decide_True.
Qed.

(** *** The root of a map *)

Section root.
Context `{FastRLP} `{Runtime} `{!FastRLPOk} `{!NodeRLP} `{!NodeRLPOk} `{TrieStorage}.

(** Keys of [n] bytes, and values. *)
Definition map_ok (n : nat) (m : bmap) : Prop := map_Forall (fun k v => op_ok n (OpInsert k v)) m.

Lemma contents_ok n ot m : ocanon ot -> contents ot m -> keys_of n m -> map_ok n m.
Proof.
  intros Hc Hm Hk k v E. pose proof (contents_bytes _ _ Hm k v E) as Hb. split; [done|].
  split; [by eapply Hk|]. rewrite <- (contents_get _ _ Hm k Hb) in E.
  destruct ot as [t|]; [by eapply canon_values|done].
Qed.

Lemma map_ok_keys n m : map_ok n m -> keys_of n m.
Proof. intros Hm k v E. by apply Hm in E as (_ & ? & _). Qed.

Lemma spec_op_ok n m op : map_ok n m -> op_ok n op -> map_ok n (spec_op m op).
Proof.
  intros Hm Hop. destruct op as [k v|k]; cbn; [by apply map_Forall_insert_2|by apply map_Forall_delete].
Qed.

Lemma spec_ops_ok n ops : forall m, map_ok n m -> Forall (op_ok n) ops -> map_ok n (foldl spec_op m ops).
Proof.
  induction ops as [|op ops IH]; intros m Hm Hops; [done|]. apply List.Forall_cons_iff in Hops as [Hop Hops].
  by apply IH; [apply spec_op_ok|].
Qed.

(** Building a map from nothing. *)
Definition build (m : bmap) : list trie_op := map (uncurry OpInsert) (map_to_list m).

Lemma build_ok n m : map_ok n m -> Forall (op_ok n) (build m).
Proof.
  intros Hm. apply List.Forall_map, List.Forall_forall. intros [k v] Hin%list_elem_of_In%elem_of_map_to_list.
  by apply Hm.
Qed.

Lemma build_map m : foldl spec_op ∅ (build m) = m.
Proof.
  assert (forall (l : list (list Z * list Z)) m0, NoDup l.*1 ->
    foldl spec_op m0 (map (uncurry OpInsert) l) = list_to_map l ∪ m0) as Hl.
  { induction l as [|[k v] l IH]; intros m0 Hnd; cbn; [by rewrite (left_id_L ∅ (∪))|].
    cbn in Hnd. apply list.NoDup_cons in Hnd as [Hk Hnd]. rewrite IH by done.
    rewrite <- insert_union_l, insert_union_r; [done|]. by apply not_elem_of_list_to_map_1. }
  unfold build. rewrite Hl by apply NoDup_fst_map_to_list.
  by rewrite (right_id_L ∅ (∪)), list_to_map_to_list.
Qed.

(** The root that inserting the entries of the map gives. *)
Definition map_root (m : bmap) : Hash :=
  match (let^ tx := run_ops None (build m) (Trie_Txn NewTrie) in Txn_Hash tx) with
  | Ok (root, _, _) => BytesToHash root
  | _ => 0
  end.

Lemma mpt_root_hash ot : length (mpt_root ot) = 32%nat /\ Forall is_byte (mpt_root ot).
Proof.
  destruct ot as [t|]; cbn [mpt_root].
  - split; [apply Keccak256_length|apply Keccak256_bytes].
  - split; [apply be_encode_length|apply be_encode_bytes].
Qed.

Lemma map_root_ok n m : map_ok n m -> is_root m (Hash_Bytes (map_root m)) /\ is_word (map_root m).
Proof.
  intros Hm. unfold map_root.
  destruct (run_ops_ok None (fun _ _ => False) (fun _ _ => False) ltac:(by intros k d []) n (build m) (Trie_Txn NewTrie) ∅)
    as (tx & -> & Htx & _); [by apply Trie_Txn_holds; [apply NewTrie_holds|]|by intros k v; rewrite lookup_empty|by apply build_ok|].
  rewrite build_map in Htx. cbn [obind].
  destruct (Txn_Hash_root (fun _ _ => False) (fun _ _ => False) tx m ltac:(done) Htx) as (root & tx' & puts & -> & Hroot).
  pose proof Hroot as (ot & _ & _ & ->). destruct (mpt_root_hash ot) as [Hl Hb].
  rewrite Hash_Bytes_BytesToHash by done. split; [done|]. by apply BytesToHash_range.
Qed.

Lemma is_root_map_root n m root : map_ok n m -> is_root m root -> BytesToHash root = map_root m.
Proof.
  intros Hm Hr. destruct (map_root_ok n m Hm) as [Hr' Hw]. rewrite (is_root_unique m root _ Hr Hr').
  by apply BytesToHash_Hash_Bytes.
Qed.

End root.

(** Stored tries: a root hash stands for one map, as long as no two stored nodes
    have the same hash. *)

Section binding.
Context `{FastRLP} `{Runtime} `{!FastRLPOk} `{!NodeRLP} `{!NodeRLPOk}.

(** Stored data: one per key, no longer than a slice can be. *)
Context (W : list Z -> list Z -> Prop).
Context (Hone : forall k d d', W k d -> W k d' -> d = d') (Hlen : forall k d, W k d -> len d < 2 ^ 63).

Abbreviation rep := (rep W W (fun _ _ => True)).

Definition placed (t : mpt) : Prop := canon t \/ exists v, t = Leaf v.

Lemma same_node t1 t2 : canon t1 -> canon t2 -> all_nodes W t1 -> all_nodes W t2 ->
  len (data t1) < 2 ^ 63 -> data t1 = data t2 ->
  exists n, is_ref n = false /\ rep n t1 /\ rep n t2.
Proof.
  intros Hc1 Hc2 Ha1 Ha2 Hl E.
  destruct (parse_marshal (tnode t1)) as (v & Ev & Hd1); [by apply tref_wf|done|].
  destruct (parse_marshal (tnode t2)) as (v' & Ev' & Hd2); [by apply tref_wf|by fold (data t2); rewrite <- E|].
  fold (data t1) in Ev. fold (data t2) in Ev'. rewrite <- E, Ev in Ev'. injection Ev' as <-.
  destruct (decode_node W W (fun _ _ => True) I t1 Hc1 Ha1 v (length (data t1)) Hd1) as (n & En & Hn & Hr); [lia|].
  destruct (decode_node W W (fun _ _ => True) I t2 Hc2 Ha2 v (length (data t1)) Hd2) as (n' & En' & Hn' & _); [by rewrite E|].
  rewrite En in En'. injection En' as <-. by exists n.
Qed.
(** One node does not represent two trees. *)
Lemma rep_inj t1 : forall n t2, rep n t1 -> rep n t2 -> placed t1 -> placed t2 ->
  all_nodes W t1 -> all_nodes W t2 -> t1 = t2.
Proof.
  assert (forall t n t2, (forall m, is_ref m = false -> rep m t -> rep m t2 -> t = t2) ->
    rep n t -> rep n t2 -> placed t -> placed t2 -> all_nodes W t -> all_nodes W t2 -> t = t2) as Hcase.
  { intros t n t2 Hin Hn1 Hn2 Hp1 Hp2 Ha1 Ha2. destruct (is_ref n) eqn:Er; [|by apply (Hin n)].
    destruct n as [[] h| |]; try done. inversion Hn1 as [| | |? Hc1 Hb1 _ Eh]; subst.
    inversion Hn2 as [| | |? Hc2 Hb2 _ Eh2]; subst.
    pose proof (all_nodes_here W t Hc1 Ha1 Hb1) as W1. pose proof (all_nodes_here W t2 Hc2 Ha2 Hb2) as W2.
    rewrite Eh2 in W2. destruct (same_node t t2) as (m & Hm & R1 & R2); try done; [by eapply Hlen|by eapply Hone|].
    by apply (Hin m). }
  induction t1 as [v|k t1 IH|ts IH] using mpt_ind'; intros n t2 Hn1 Hn2 Hp1 Hp2 Ha1 Ha2.
  - apply rep_leaf in Hn1 as ->. by inversion Hn2.
  - apply (Hcase _ n); try done. intros m Hm R1 R2.
    inversion R1 as [|h ? c ? _ Hc| |]; subst; [|done]. inversion R2 as [|? ? ? u _ Hcu| |]; subst.
    f_equal. apply (IH c); try done.
    + destruct Hp1 as [Hp1|[? ?]]; [|done]. inversion Hp1; subst; [right; by eexists|by left].
    + destruct Hp2 as [Hp2|[? ?]]; [|done]. inversion Hp2; subst; [right; by eexists|by left].
    + by inversion Ha1.
    + by inversion Ha2.
  - apply (Hcase _ n); try done. intros m Hm R1 R2.
    inversion R1 as [| |h e ns ? _ _ HF1|]; subst; [|done]. inversion R2 as [| |? ? ? ts2 _ _ HF2|]; subst.
    f_equal. apply list_eq. intros i.
    destruct (ns !! i) as [on|] eqn:En.
    2:{ apply lookup_ge_None in En. rewrite !lookup_ge_None_2; [done| |].
        - by rewrite <- (Forall2_length HF2).
        - by rewrite <- (Forall2_length HF1). }
    destruct (Forall2_lookup_l _ _ _ _ _ HF1 En) as (o1 & E1 & Ho1), (Forall2_lookup_l _ _ _ _ _ HF2 En) as (o2 & E2 & Ho2).
    rewrite E1, E2. f_equal. inversion Ho1 as [c t Hc|]; subst; inversion Ho2 as [? u Hu|]; subst; [|done].
    f_equal. assert (forall ts t, placed (Full ts) -> slot ts i t -> placed t) as Hpl.
    { intros l x [Hl|[? ?]] Hx; [|done]. apply canon_full_iff in Hl as [[_ Hok] _].
      destruct (Hok i x Hx) as [[_ ?]|[_ (w & -> & _)]]; [by left|right; by eexists]. }
    inversion Ha1; subst. inversion Ha2; subst. eapply (IH i t); eauto.
Qed.

(** A root hash stands for one tree. *)
Lemma root_tree t1 t2 : canon t1 -> canon t2 -> all_nodes W t1 -> all_nodes W t2 ->
  W (tkey t1) (data t1) -> W (tkey t2) (data t2) -> tkey t1 = tkey t2 -> t1 = t2.
Proof.
  intros Hc1 Hc2 Ha1 Ha2 W1 W2 E. rewrite E in W1.
  destruct (same_node t1 t2) as (n & _ & R1 & R2); try done; [by eapply Hlen|by eapply Hone|].
  apply (rep_inj t1 n t2); try done; by left.
Qed.

End binding.
