(* ===== verification/TrieState.v ===== *)
(** The state over a storage: what a commit writes can be loaded again under the
    root it returns, by this node and after a restart. *)

From Stdlib Require Import ZArith Lia.
From stdpp Require Import base gmap list numbers.
From S2P Require Import Prelude Types Chain Rlp Nibbles Txn Trie TrieRep TrieOps TrieHash TrieMap.

Open Scope Z_scope.
Open Scope outcome_scope.

(** ** What the state relies on of its storage *)

(** The keys of nodes are hashes. *)
Definition node_key (k : list Z) : Prop := length k = 32%nat /\ Forall is_byte k.

(** What is stored under a key. *)
Abbreviation store := (list Z -> option (list Z)).

Definition put_nodes (V : store) (b : Batch) : store :=
  foldl (fun m '(k, d) k' => if decide (k = k') then Some d else m k') V b.

(** [writing V b s]: a storage with the nodes [V] has become [s] while [b] was
    put into a batch.  Puts may show at once, but do not hide what was there. *)
Class TrieStorageOk `{TrieStorage} := {
  nodes : stor -> store;
  codes : stor -> Hash -> option (list Z);
  writing : store -> Batch -> stor -> Prop;
  nodes_get s k : node_key k -> st_Get s k = Ok (nodes s k);
  codes_get s h : st_GetCode s h = Ok (codes s h);
  codes_set s h c h' : is_word h -> is_word h' ->
    codes (st_SetCode h c s) h' = if decide (h = h') then Some c else codes s h';
  codes_put s k d h : node_key k -> codes (batch_put k d s) h = codes s h;
  codes_write s b h : Forall (fun '(k, d) => node_key k) b -> codes (batch_write b s) h = codes s h;
  writing_new s : writing (nodes s) [] s;
  writing_put V b s k d : node_key k -> writing V b s -> writing V (b ++ [(k, d)]) (batch_put k d s);
  writing_code V b s h c : writing V b s -> writing V b (st_SetCode h c s);
  writing_keeps V b s k d : node_key k -> writing V b s -> V k = Some d -> (forall d', (k, d') ∈ b -> d' = d) ->
    nodes s k = Some d;
  writing_write V b s k : node_key k -> Forall (fun '(k, d) => node_key k) b -> writing V b s ->
    nodes (batch_write b s) k = put_nodes V b k
}.

(** ** Nodes and collisions *)

Section state.
Context `{FastRLP} `{Runtime} `{!FastRLPOk} `{!NodeRLP} `{!NodeRLPOk}.
Context `{TrieStorage} `{!TrieStorageOk} `{LRU} `{!LRUOk}.

Definition stored_in (V : store) (k d : list Z) : Prop := node_key k /\ V k = Some d /\ len d < 2 ^ 63.

(** Stored, or put into the batch. *)
Definition written_in (V : store) (b : Batch) (k d : list Z) : Prop := stored_in V k d \/ (k, d) ∈ b.

(** The nodes of the trie of a map. *)
Definition node_of (m : bmap) (k d : list Z) : Prop :=
  exists t u, canon t /\ contents (Some t) m /\ subtree u t /\ k = tkey u /\ d = data u.

Definition known (V : store) (ms : list bmap) (k d : list Z) : Prop :=
  stored_in V k d \/ exists m, m ∈ ms /\ node_of m k d.

(** No two nodes, stored or of the tries of [ms], have the same hash, and none has
    that of the empty trie. *)
Definition collision_free (V : store) (ms : list bmap) : Prop :=
  (forall k d d', known V ms k d -> known V ms k d' -> d = d') /\
  (forall k d, known V ms k d -> len d < 2 ^ 63 /\ k <> Hash_Bytes EmptyRootHash).

Lemma tkey_node_key t : node_key (tkey t).
Proof. split; [apply Keccak256_length|apply Keccak256_bytes]. Qed.

(** ** Tries under a root *)

Definition complete (W : list Z -> list Z -> Prop) (ot : option mpt) : Prop :=
  forall t, ot = Some t -> all_nodes W t /\ W (tkey t) (data t).

(** The map, with keys that are hashes, that is stored under a root. *)
Definition holds_at (W : list Z -> list Z -> Prop) (root : Hash) (m : bmap) : Prop :=
  exists ot, ocanon ot /\ contents ot m /\ keys_of 32 m /\ mpt_root ot = Hash_Bytes root /\ complete W ot.

(** The cached tries are those of their roots. *)
Definition cached (V : store) (b : Batch) (root : Hash) (t : Trie) : Prop :=
  exists m ot, rep_root (stored_in V) (written_in V b) (trie_epochs (trEpoch t)) (trRoot t) ot /\
    contents ot m /\ keys_of 32 m /\ mpt_root ot = Hash_Bytes root /\ complete (written_in V b) ot.

Record state_ok (V : store) (b : Batch) (B : Z) (st : State) : Prop := {
  state_writing : writing V b (sStorage st);
  state_cached root t : lru_in root t (sCache st) -> 0 <= trEpoch t <= B /\ cached V b root t
}.

Lemma holds_at_mono (W W' : list Z -> list Z -> Prop) root m :
  (forall k d, W k d -> W' k d) -> holds_at W root m -> holds_at W' root m.
Proof.
  intros HW (ot & Hc & Hm & Hk & Hr & Hall). exists ot. repeat (split; [done|]).
  intros t ->. destruct (Hall t eq_refl) as [Ha Hin]. split; [by eapply all_nodes_mono|by apply HW].
Qed.

Lemma contents_none m : contents None m -> m = ∅.
Proof.
  intros Hm. apply map_empty. intros k. destruct (m !! k) as [v|] eqn:E; [|done].
  pose proof (contents_bytes _ _ Hm k v E) as Hb. pose proof (contents_get _ _ Hm k Hb) as E'. cbn in E'. congruence.
Qed.

Lemma contents_fun ot m m' : contents ot m -> contents ot m' -> m = m'.
Proof.
  assert (forall m m' k v, contents ot m -> contents ot m' -> m !! k = Some v -> m' !! k = Some v) as Hsub.
  { intros m1 m2 k v Hm1 Hm2 E. pose proof (contents_bytes _ _ Hm1 k v E) as Hb.
    by rewrite <- (contents_get _ _ Hm2 k Hb), (contents_get _ _ Hm1 k Hb). }
  intros Hm Hm'. apply map_eq. intros k. destruct (m !! k) as [v|] eqn:E; [symmetry; by apply (Hsub m m')|].
  destruct (m' !! k) as [v|] eqn:E'; [|done]. by rewrite (Hsub m' m k v) in E.
Qed.

Lemma rep_root_mono (R W R' W' : list Z -> list Z -> Prop) Q r ot :
  (forall k d, R k d -> R' k d) -> (forall k d, W k d -> W' k d) -> rep_root R W Q r ot -> rep_root R' W' Q r ot.
Proof.
  intros HR HW [Hr Hc]. split; [|done]. inversion Hr; subst; constructor. by eapply rep_mono.
Qed.

Lemma trie_holds_mono (R W R' W' : list Z -> list Z -> Prop) t m :
  (forall k d, R k d -> R' k d) -> (forall k d, W k d -> W' k d) -> trie_holds R W t m -> trie_holds R' W' t m.
Proof.
  intros HR HW (He & ot & Hr & Hm). split; [done|]. exists ot. split; [|done]. by eapply rep_root_mono.
Qed.

Lemma txn_holds_mono (R W W' : list Z -> list Z -> Prop) tx m :
  (forall k d, W k d -> W' k d) -> txn_holds R W tx m -> txn_holds R W' tx m.
Proof.
  intros HW (He & ot & Hr & Hm). split; [done|]. exists ot. split; [|done]. by eapply rep_root_mono.
Qed.

(** ** During a commit *)

Section during.
Context (V : store) (ms : list bmap) (Hfree : collision_free V ms).

Definition batch_ok (b : Batch) : Prop := forall k d, (k, d) ∈ b -> node_key k /\ exists m, m ∈ ms /\ node_of m k d.

Lemma written_known b k d : batch_ok b -> written_in V b k d -> known V ms k d.
Proof. intros Hb [Hs|Hin]; [by left|right]. by apply Hb. Qed.

Lemma state_readable b B st : batch_ok b -> state_ok V b B st -> readable (Some (sStorage st)) (stored_in V).
Proof.
  intros Hb Hst k d Hs. pose proof Hs as (Hk & E & Hl). split; [done|]. exists (sStorage st). split; [done|].
  rewrite nodes_get by done. f_equal. eapply writing_keeps; [done|by eapply state_writing|done|].
  intros d' Hin. apply (proj1 Hfree k); [by apply (written_known b); [|right]|by left].
Qed.

(** A root has one map. *)
Lemma holds_at_unique b root m m' : batch_ok b -> holds_at (written_in V b) root m ->
  holds_at (written_in V b) root m' -> m = m'.
Proof.
  intros Hb (ot & Hc & Hm & _ & Hr & Hall) (ot' & Hc' & Hm' & _ & Hr' & Hall').
  assert (forall k d, written_in V b k d -> len d < 2 ^ 63 /\ k <> Hash_Bytes EmptyRootHash) as Hw.
  { intros k d Hkd. apply (proj2 Hfree k d). by eapply written_known. }
  assert (ot = ot') as <-.
  { destruct ot as [t|], ot' as [t'|]; cbn [mpt_root] in *; [|..|done].
    - destruct (Hall t eq_refl), (Hall' t' eq_refl). f_equal.
      apply (root_tree (written_in V b)); try done; [|intros; by eapply Hw|congruence].
      intros k d d' H1' H2'. apply (proj1 Hfree k); by eapply written_known.
    - destruct (Hall t eq_refl) as [_ Hin]. apply Hw in Hin as [_ []]. congruence.
    - destruct (Hall' t' eq_refl) as [_ Hin]. apply Hw in Hin as [_ []]. congruence. }
  by eapply contents_fun.
Qed.

(** A snapshot at a root that was stored before the commit. *)
Lemma snapshot_holds b B st root m : batch_ok b -> state_ok V b B st -> 0 <= B -> is_word root ->
  holds_at (stored_in V) root m ->
  exists t st', State_NewSnapshotAt root st = Ok (Some t, st') /\ trEpoch t <= B /\
    trie_holds (stored_in V) (written_in V b) t m /\ state_ok V b B st' /\ sStorage st' = sStorage st.
Proof.
  intros Hb Hst HB Hroot Hat. unfold State_NewSnapshotAt.
  assert (holds_at (written_in V b) root m) as Hatw by (eapply holds_at_mono; [|done]; by left).
  destruct (Z.eqb_spec root EmptyRootHash) as [->|Hne].
  { exists NewTrie, st. repeat (split; [done|]). split; [|done].
    destruct Hat as (ot & Hc & Hm & _ & Hr & Hall). destruct ot as [t|].
    - destruct (Hall t eq_refl) as [_ Hin]. cbn in Hr. destruct (proj2 Hfree (tkey t) (data t)) as [_ []]; [by left|done].
    - rewrite (contents_none m Hm). apply NewTrie_holds. }
  destruct (lru_Get root (sCache st)) as [o cache] eqn:Eg. set (st' := mkState (sStorage st) cache).
  assert (state_ok V b B st') as Hst'.
  { split; [by apply (state_writing V b B st)|]. intros r t Hin. apply (state_cached V b B st Hst). by eapply get_keeps. }
  destruct o as [t|].
  - exists t, st'. apply get_in in Eg. apply (state_cached V b B st Hst) in Eg as [He (m' & ot & Hrep & Hm' & Hk & Hr & Hall)].
    split; [done|]. split; [lia|]. split; [|done]. split; [lia|]. exists ot. split; [done|].
    rewrite (holds_at_unique b root m m'); [done|done|done|]. exists ot. by destruct Hrep as [_ Hc].
  - destruct Hat as (ot & Hc & Hm & Hk & Hr & Hall). destruct ot as [t|].
    2:{ destruct Hne. symmetry. apply Hash_Bytes_inj; [by split|done|done]. }
    destruct (Hall t eq_refl) as [Ha Hin]. cbn [mpt_root] in Hr. rewrite <- Hr.
    destruct (GetNode_ok (Some (sStorage st)) (stored_in V) (written_in V b) (trie_epochs 0)) with (t := t) as (n & E & Hn & _);
      [by eapply state_readable|done|done|done|done|].
    change (sStorage st') with (sStorage st). rewrite E. cbn [obind]. exists (mkTrie (Some n) 0), st'. split; [done|]. split; [done|].
    split; [|done]. split; [done|]. exists (Some t). split; [by split; [constructor|]|done].
Qed.

(** *** Puts *)

Lemma put_all_writing b puts st : Forall (fun '(k, d) => node_key k) puts -> writing V b st ->
  writing V (b ++ puts) (put_all puts st).
Proof.
  unfold put_all. revert b st. induction puts as [|[k d] puts IH]; intros b st Hk Hw; [by rewrite app_nil_r|].
  apply List.Forall_cons_iff in Hk as [Hk Hks]. cbn [foldl].
  change ((k, d) :: puts) with ([(k, d)] ++ puts). rewrite app_assoc. apply IH; [done|]. by apply writing_put.
Qed.

Lemma written_mono b b' k d : written_in V b k d -> written_in V (b ++ b') k d.
Proof. intros [Hs|Hin]; [by left|right]. apply elem_of_app. by left. Qed.

Lemma cached_mono b b' root t : cached V b root t -> cached V (b ++ b') root t.
Proof.
  intros (m & ot & Hr & Hm & Hk & Ert & Hall). exists m, ot.
  split; [eapply rep_root_mono; [done|apply written_mono|done]|].
  repeat (split; [done|]). intros t' ->. destruct (Hall t' eq_refl) as [Ha Hin].
  split; [eapply all_nodes_mono; [|done]|]; by intros; apply written_mono.
Qed.

(** Hashing a transaction that holds [m]: the batch has its nodes, and the trie is
    that of the root. *)
Lemma hash_commit b tx m : m ∈ ms -> txn_holds (stored_in V) (written_in V b) tx m -> keys_of 32 m ->
  exists root tx' puts, Txn_Hash tx = Ok (root, tx', puts) /\ is_root m root /\
    Hash_Bytes (BytesToHash root) = root /\ is_word (BytesToHash root) /\ tEpoch tx' = tEpoch tx /\
    Forall (fun '(k, d) => node_key k) puts /\ (forall k d, (k, d) ∈ puts -> node_of m k d) /\
    cached V (b ++ puts) (BytesToHash root) (Txn_Commit tx') /\
    holds_at (written_in V (b ++ puts)) (BytesToHash root) m /\
    trie_holds (stored_in V) (written_in V (b ++ puts)) (Txn_Commit tx') m.
Proof.
  intros Hin (He & ot & Hr & Hm) Hk. pose proof Hr as [_ Hc].
  destruct (Txn_Hash_ok (stored_in V) (written_in V b) (txn_epochs (tEpoch tx)) (trie_epochs (tEpoch tx)))
    with (tx := tx) (ot := ot) as (root & puts & E & Hputs & Hcov); [by left|by intros ? ? ? [? _]|done|].
  destruct (mpt_root_hash ot) as [Hl Hb].
  assert (Hash_Bytes (BytesToHash (mpt_root ot)) = mpt_root ot) as Eh by (by apply Hash_Bytes_BytesToHash).
  destruct (Hcov (written_in V (b ++ puts))) as [Hr' Hall].
  { split; [intros; by apply written_mono|]. intros k d Hkd. right. apply elem_of_app. by right. }
  eexists _, _, puts. split; [exact E|]. split; [by exists ot|]. split; [done|]. split; [by apply BytesToHash_range|].
  split; [done|]. split; [|split; [|split; [|split]]].
  - apply List.Forall_forall. intros [k d] Hkd%list_elem_of_In.
    destruct (Hputs k d Hkd) as (t & u & _ & _ & -> & _). apply tkey_node_key.
  - intros k d Hkd. destruct (Hputs k d Hkd) as (t & u & -> & Hu & -> & ->). by exists t, u.
  - exists m, ot. unfold Txn_Commit. cbn [trEpoch trRoot tEpoch tRoot]. by rewrite Eh.
  - exists ot. by rewrite Eh.
  - split; [done|]. by exists ot.
Qed.

Lemma state_later b B B' st : B <= B' -> state_ok V b B st -> state_ok V b B' st.
Proof. intros HB [Hw Hc]. split; [done|]. intros r t [? ?]%Hc. split; [lia|done]. Qed.

Lemma state_ok_step b puts B B' st t root : state_ok V b B st -> B <= B' ->
  Forall (fun '(k, d) => node_key k) puts -> cached V (b ++ puts) root t -> 0 <= trEpoch t <= B' ->
  state_ok V (b ++ puts) B' (AddState root t (mkState (put_all puts (sStorage st)) (sCache st))).
Proof.
  intros Hst HB Hk Hc He. split.
  - cbn. apply put_all_writing; [done|]. by apply (state_writing V b B st).
  - intros r u. cbn. intros [[-> ->]|[_ Hin]]%in_add; [done|].
    apply (state_cached V b B st Hst) in Hin as [? ?]. split; [lia|by apply cached_mono].
Qed.

(** *** The storage of an account *)

Definition entry_op (e : StorageObject) : trie_op :=
  if sDeleted e then OpDelete (Keccak256 (sKey e))
  else OpInsert (Keccak256 (sKey e)) (MarshalTo (NewBytes (TrimLeft (sVal e)))).

Definition entry_ok (e : StorageObject) : Prop := Forall is_byte (sVal e) /\ len (sVal e) <= 32.

Lemma commit_entries_run s es : forall tx, commit_entries s es tx = run_ops (Some s) (map entry_op es) tx.
Proof.
  assert (forall e tx, commit_entry s e tx = run_op (Some s) (entry_op e) tx) as He.
  { intros e tx. unfold commit_entry, entry_op. by destruct (sDeleted e). }
  induction es as [|e es IH]; intros tx; [done|]. cbn [commit_entries map run_ops]. rewrite He.
  destruct (run_op (Some s) (entry_op e) tx); [apply IH|done|done].
Qed.

Lemma TrimLeft_bytes b : Forall is_byte b -> Forall is_byte (TrimLeft b).
Proof. induction 1 as [|x b Hx Hb IH]; [done|]. cbn. case_match; [done|]. by constructor. Qed.

Lemma TrimLeft_length b : len (TrimLeft b) <= len b.
Proof. unfold len. induction b as [|x b IH]; [done|]. cbn [TrimLeft]. case_match; cbn [length] in *; lia. Qed.

Lemma marshal_value v : rlp_wf v -> 1 <= len (MarshalTo v) < 2 ^ 63 -> value_ok (MarshalTo v).
Proof. intros Hw Hl. split; [apply marshal_byte; [done|lia]|]. intros E. rewrite E in Hl. unfold len in Hl. cbn in Hl. lia. Qed.

Lemma entry_op_ok e : entry_ok e -> op_ok 32 (entry_op e).
Proof.
  intros [Hb Hl]. pose proof (Keccak256_length (sKey e)). pose proof (Keccak256_bytes (sKey e)).
  unfold entry_op. destruct (sDeleted e); cbn; [done|]. split; [done|]. split; [done|].
  pose proof (TrimLeft_length (sVal e)). pose proof (rlp_string_length (TrimLeft (sVal e)) ltac:(lia)).
  apply marshal_value; [by apply wf_bytes, TrimLeft_bytes|]. rewrite marshal_bytes. unfold len in *. lia.
Qed.

Lemma codes_put_all puts st h : Forall (fun '(k, d) => node_key k) puts -> codes (put_all puts st) h = codes st h.
Proof.
  unfold put_all. revert st. induction puts as [|[k d] puts IH]; intros st Hk; [done|].
  apply List.Forall_cons_iff in Hk as [Hk Hks]. cbn [foldl]. rewrite IH by done. by apply codes_put.
Qed.

(** The storage after the entries are committed. *)
Definition storage_map (old : bmap) (es : list StorageObject) : bmap := foldl spec_op old (map entry_op es).

Record object_ok (obj : Object) : Prop := {
  object_root : is_word (oRoot obj);
  object_nonce : is_u64 (oNonce obj);
  object_balance : is_word (oBalance obj);
  object_code : is_word (oCodeHash obj);
  object_entries : Forall entry_ok (oStorage obj)
}.

Lemma storage_map_ok old es : map_ok 32 old -> Forall entry_ok es -> map_ok 32 (storage_map old es).
Proof.
  intros Ho He. apply spec_ops_ok; [done|]. apply List.Forall_map. eapply Forall_weaken; [done|]. apply entry_op_ok.
Qed.

Lemma holds_at_ok (W : list Z -> list Z -> Prop) root m : holds_at W root m -> map_ok 32 m.
Proof. intros (ot & Hc & Hm & Hk & _). by eapply contents_ok. Qed.

Lemma holds_at_root (W : list Z -> list Z -> Prop) root m : is_word root -> holds_at W root m -> root = map_root m.
Proof.
  intros Hw Hat. rewrite <- (BytesToHash_Hash_Bytes root Hw). apply (is_root_map_root 32); [by eapply holds_at_ok|].
  destruct Hat as (ot & Hc & Hm & _ & Hr & _). by exists ot.
Qed.

Lemma batch_keys b : batch_ok b -> Forall (fun '(k, d) => node_key k) b.
Proof. intros Hb. apply List.Forall_forall. intros [k d] Hin%list_elem_of_In. by eapply Hb. Qed.

Lemma batch_ok_app b puts m : batch_ok b -> m ∈ ms -> Forall (fun '(k, d) => node_key k) puts ->
  (forall k d, (k, d) ∈ puts -> node_of m k d) -> batch_ok (b ++ puts).
Proof.
  intros Hb Hm Hk Hp k d [Hin|Hin]%elem_of_app; [by apply Hb|].
  split; [by apply (proj1 (List.Forall_forall _ _) Hk (k, d)), list_elem_of_In|]. exists m. by auto.
Qed.

Lemma commit_storage_ok b B st obj old : let sm := storage_map old (oStorage obj) in
  batch_ok b -> state_ok V b B st -> 0 <= B -> B + 1 < 2 ^ 32 -> object_ok obj ->
  holds_at (stored_in V) (oRoot obj) old -> sm ∈ ms ->
  exists st' puts, commit_storage obj st b = Ok (map_root sm, st', b ++ puts) /\
    state_ok V (b ++ puts) (B + 1) st' /\ batch_ok (b ++ puts) /\
    holds_at (written_in V (b ++ puts)) (map_root sm) sm /\
    forall h, codes (sStorage st') h = codes (sStorage st) h.
Proof.
  intros sm Hb Hst HB HB' Hobj Hat Hsm. unfold commit_storage.
  assert (map_ok 32 sm) as Hok by (apply storage_map_ok; [by eapply holds_at_ok|by apply object_entries]).
  destruct (Z.eqb_spec (len (oStorage obj)) 0) as [E|_].
  { exists st, []. rewrite app_nil_r. assert (oStorage obj = []) as E' by (by apply nil_length_inv; unfold len in E; lia).
    assert (sm = old) as -> by (unfold sm; by rewrite E').
    rewrite <- (holds_at_root (stored_in V) (oRoot obj) old) by (done || by apply object_root).
    split; [done|]. split; [|split; [done|split; [|done]]].
    - by eapply state_later; [|done]; lia.
    - eapply holds_at_mono; [|done]. by left. }
  destruct (snapshot_holds b B st (oRoot obj) old) as (t & st1 & -> & He & Ht & Hst1 & Es); [done|done|done|by apply object_root|done|].
  cbn [obind of_option]. rewrite commit_entries_run.
  destruct (run_ops_ok (Some (sStorage st1)) (stored_in V) (written_in V b) (state_readable _ _ _ Hb Hst1) 32 (map entry_op (oStorage obj)) (Trie_Txn t) old)
    as (tx & -> & Htx & Hkeys & Ee).
  { apply Trie_Txn_holds; [done|lia]. }
  { by eapply map_ok_keys, holds_at_ok. }
  { apply List.Forall_map. eapply Forall_weaken; [by apply object_entries|]. apply entry_op_ok. }
  cbn [obind]. destruct (hash_commit b tx sm) as (root & tx' & puts & -> & Hr & Eh & Hw & Ee' & Hkp & Hputs & Hca & Hat' & _); [done|done|done|].
  cbn [obind]. rewrite (is_root_map_root 32 sm root) in * by done. eexists _, puts. split; [done|].
  split; [|split; [by eapply batch_ok_app|split; [done|]]].
  - apply (state_ok_step b puts B); [done|lia|done|done|]. unfold Txn_Commit. cbn [trEpoch]. rewrite Ee', Ee.
    unfold Trie_Txn. cbn [tEpoch]. destruct Ht as [? _]. rewrite Z.mod_small by lia. lia.
  - intros h. cbn. rewrite codes_put_all by done. by rewrite Es.
Qed.

(** *** Accounts *)

Definition account_key (obj : Object) : list Z := Keccak256 (Address_Bytes (oAddress obj)).
Definition account_data (obj : Object) (root : Hash) : list Z :=
  MarshalTo (Account_MarshalWith (oNonce obj) (oBalance obj) root (Hash_Bytes (oCodeHash obj))).

(** The storage under a root is [olds root]. *)
Definition object_map (olds : Hash -> bmap) (obj : Object) : bmap := storage_map (olds (oRoot obj)) (oStorage obj).

Definition account_op (olds : Hash -> bmap) (obj : Object) : trie_op :=
  if oDeleted obj then OpDelete (account_key obj)
  else OpInsert (account_key obj) (account_data obj (map_root (object_map olds obj))).

(** The accounts after the commit. *)
Definition accounts_map (olds : Hash -> bmap) (m : bmap) (objs : list Object) : bmap :=
  foldl spec_op m (map (account_op olds) objs).

Definition codes_after (c : Hash -> option (list Z)) (obj : Object) : Hash -> option (list Z) :=
  if negb (oDeleted obj) && oDirtyCode obj
  then fun h => if decide (oCodeHash obj = h) then Some (oCode obj) else c h
  else c.

Lemma codes_after_ext objs : forall c c', (forall h, is_word h -> c h = c' h) ->
  forall h, is_word h -> foldl codes_after c objs h = foldl codes_after c' objs h.
Proof.
  induction objs as [|o objs IH]; intros c c' Hcc; [done|]. apply IH. intros h' Hh'. unfold codes_after.
  case_match; [by case_decide; auto|by apply Hcc].
Qed.

Definition olds_ok (olds : Hash -> bmap) (obj : Object) : Prop :=
  oDeleted obj = false -> holds_at (stored_in V) (oRoot obj) (olds (oRoot obj)) /\ object_map olds obj ∈ ms.

Lemma account_wf obj root : object_ok obj ->
  rlp_wf (Account_MarshalWith (oNonce obj) (oBalance obj) root (Hash_Bytes (oCodeHash obj))).
Proof.
  intros Hobj. apply wf_array. repeat apply List.Forall_cons; [| | | |done].
  - by apply wf_uint, object_nonce.
  - apply wf_bigint.
  - apply wf_bytes, be_encode_bytes.
  - apply wf_bytes, be_encode_bytes.
Qed.

Lemma account_length obj root : object_ok obj -> 1 <= len (account_data obj root) < 256.
Proof.
  intros Hobj. unfold account_data, Account_MarshalWith. rewrite marshal_array. cbn [fmap list_fmap].
  rewrite marshal_uint, marshal_bigint, !marshal_bytes.
  assert (forall n m, 0 <= n < 256 ^ Z.of_nat m -> (m <= 32)%nat -> (1 <= length (rlp_string (big_Bytes n)) <= 41)%nat) as Hn.
  { intros n m Hn Hm. pose proof (big_Bytes_length n m Hn).
    pose proof (rlp_string_length (big_Bytes n) ltac:(unfold len; lia)). lia. }
  assert (forall h, (1 <= length (rlp_string (Hash_Bytes h)) <= 41)%nat) as Hh.
  { intros h. assert (length (Hash_Bytes h) = 32%nat) as El by apply be_encode_length.
    pose proof (rlp_string_length (Hash_Bytes h) ltac:(unfold len; lia)). lia. }
  pose proof (Hn (oNonce obj) 8%nat (object_nonce _ Hobj) ltac:(lia)).
  pose proof (Hn (oBalance obj) 32%nat (object_balance _ Hobj) ltac:(lia)).
  pose proof (Hh root). pose proof (Hh (oCodeHash obj)).
  match goal with |- context [rlp_list ?l] => assert (length (concat l) <= 164)%nat by (cbn [concat]; rewrite !length_app; cbn [length]; lia);
    pose proof (rlp_list_length l ltac:(unfold len; lia)) end.
  unfold len. lia.
Qed.

Lemma account_roundtrip obj root : object_ok obj -> is_word root ->
  Account_UnmarshalRlp (account_data obj root) = Some (oNonce obj, oBalance obj, root, Hash_Bytes (oCodeHash obj)).
Proof.
  intros Hobj Hr. pose proof (account_length obj root Hobj). unfold account_data, Account_UnmarshalRlp in *.
  destruct (parse_marshal _ (account_wf obj root Hobj)) as (v & -> & Hd); [lia|]. cbn [mbind option_bind].
  apply decoded_array in Hd as (vs & -> & Hvs). cbn [mbind option_bind].
  inversion Hvs as [|? e0 ? ? D0 H1']; subst. inversion H1' as [|? e1 ? ? D1 H2']; subst.
  inversion H2' as [|? e2 ? ? D2 H3']; subst. inversion H3' as [|? e3 ? ? D3 H4']; subst. inversion H4'; subst.
  apply decoded_uint in D0 as [-> _]; [|by apply object_nonce]. cbn [mbind option_bind].
  rewrite (decoded_bigint _ _ D1). apply decoded_bytes in D2 as (_ & _ & _ & E2 & _). apply decoded_bytes in D3 as (_ & E3 & _).
  cbn [mbind option_bind]. rewrite E2 by apply be_encode_length. cbn [mbind option_bind]. rewrite E3. cbn [mbind option_bind default].
  rewrite BytesToHash_Hash_Bytes by done. pose proof (object_balance _ Hobj) as Hb. unfold is_word in Hb.
  cbn. by rewrite Z.abs_eq by lia.
Qed.

Lemma account_op_ok olds obj : object_ok obj -> op_ok 32 (account_op olds obj).
Proof.
  intros Hobj. pose proof (Keccak256_length (Address_Bytes (oAddress obj))).
  pose proof (Keccak256_bytes (Address_Bytes (oAddress obj))).
  unfold account_op, account_key. destruct (oDeleted obj); cbn; [done|]. split; [done|]. split; [done|].
  pose proof (account_length obj (map_root (object_map olds obj)) Hobj).
  apply marshal_value; [by apply account_wf|]. unfold account_data in *. lia.
Qed.

Lemma state_code b B st h c : state_ok V b B st -> state_ok V b B (State_SetCode h c st).
Proof. intros [Hw Hc]. split; [by apply writing_code|done]. Qed.

Definition in_commit (b : Batch) (B : Z) (st : State) (tx : Txn) (m : bmap) : Prop :=
  batch_ok b /\ state_ok V b B st /\ txn_holds (stored_in V) (written_in V b) tx m /\ keys_of 32 m.

Lemma commit_account_ok olds b B st obj tx m :
  in_commit b B st tx m -> 0 <= B -> B + 1 < 2 ^ 32 -> object_ok obj -> olds_ok olds obj ->
  exists st' puts tx', commit_account obj st b tx = Ok (st', b ++ puts, tx') /\
    in_commit (b ++ puts) (B + 1) st' tx' (spec_op m (account_op olds obj)) /\ tEpoch tx' = tEpoch tx /\
    (oDeleted obj = false ->
       holds_at (written_in V (b ++ puts)) (map_root (object_map olds obj)) (object_map olds obj)) /\
    forall h, is_word h -> codes (sStorage st') h = codes_after (codes (sStorage st)) obj h.
Proof.
  intros (Hb & Hst & Htx & Hk) HB HB' Hobj Holds. pose proof (account_op_ok olds obj Hobj) as Hop.
  pose proof (spec_op_keys 32 m _ Hk Hop) as Hk'.
  unfold commit_account, codes_after. unfold account_op, olds_ok in *. fold (account_key obj). destruct (oDeleted obj).
  - destruct (Delete_ok (Some (sStorage st)) (stored_in V) (written_in V b) (state_readable _ _ _ Hb Hst) tx m (account_key obj) 32) as (tx' & -> & Htx' & He);
      [done|apply Hop|done|apply Hop|].
    exists st, [], tx'. cbn [obind]. rewrite app_nil_r. split; [done|]. split; [|by split; [|split]].
    split; [done|]. split; [by eapply state_later; [|done]; lia|by split].
  - destruct Holds as [Hat Hin]; [done|].
    destruct (commit_storage_ok b B st obj _ Hb Hst HB HB' Hobj Hat Hin) as (st1 & puts & -> & Hst1 & Hb1 & Hat1 & Hcodes).
    fold (object_map olds obj) in *. cbn [obind andb negb].
    set (st2 := if oDirtyCode obj then _ else _). assert (state_ok V (b ++ puts) (B + 1) st2) as Hst2.
    { unfold st2. destruct (oDirtyCode obj); [by apply state_code|done]. }
    fold (account_data obj (map_root (object_map olds obj))).
    destruct (Insert_ok (Some (sStorage st2)) (stored_in V) (written_in V (b ++ puts)) (state_readable _ _ _ Hb1 Hst2) tx m
      (account_key obj) (account_data obj (map_root (object_map olds obj)))) as (tx' & -> & Htx' & He);
      [eapply txn_holds_mono; [apply written_mono|done]|apply Hop|apply Hop|].
    cbn [obind]. exists st2, puts, tx'. split; [done|]. split; [done|]. split; [done|]. split; [done|].
    intros h Hh. unfold st2. destruct (oDirtyCode obj); [|apply Hcodes]. cbn.
    rewrite codes_set by (done || by apply object_code). by case_decide.
Qed.

Lemma commit_accounts_ok olds objs : forall b B st tx m,
  in_commit b B st tx m -> 0 <= B -> B + len objs < 2 ^ 32 -> Forall object_ok objs -> Forall (olds_ok olds) objs ->
  exists st' puts tx', commit_accounts objs st b tx = Ok (st', b ++ puts, tx') /\
    in_commit (b ++ puts) (B + len objs) st' tx' (accounts_map olds m objs) /\ tEpoch tx' = tEpoch tx /\
    (forall obj, obj ∈ objs -> oDeleted obj = false ->
       holds_at (written_in V (b ++ puts)) (map_root (object_map olds obj)) (object_map olds obj)) /\
    forall h, is_word h -> codes (sStorage st') h = foldl codes_after (codes (sStorage st)) objs h.
Proof.
  induction objs as [|obj objs IH]; intros b B st tx m Hin HB HB' Hok Holds.
  { exists st, [], tx. rewrite app_nil_r, Z.add_0_r. split; [done|]. split; [done|]. split; [done|]. split; [|done].
    intros obj Hobj. by apply elem_of_nil in Hobj. }
  apply List.Forall_cons_iff in Hok as [Ho Hok]. apply List.Forall_cons_iff in Holds as [Hol Holds].
  assert (len (obj :: objs) = 1 + len objs) as El by (unfold len; cbn [length]; lia). rewrite El in *.
  assert (0 <= len objs) by (unfold len; lia).
  destruct (commit_account_ok olds b B st obj tx m) as (st1 & p1 & tx1 & E1 & Hin1 & He1 & Hat1 & Hc1); [done|done|lia|done|done|].
  destruct (IH (b ++ p1) (B + 1) st1 tx1 _ Hin1) as (st' & p2 & tx' & E2 & Hin2 & He2 & Hat2 & Hc2); [lia|lia|done|done|].
  exists st', (p1 ++ p2), tx'. cbn [commit_accounts]. rewrite E1. cbn [obind]. rewrite E2, app_assoc in *.
  split; [done|]. split; [by replace (B + (1 + len objs)) with (B + 1 + len objs) by lia|]. split; [congruence|]. split.
  - intros o [->|Ho']%elem_of_cons Hd; [|by apply Hat2]. eapply holds_at_mono; [apply written_mono|by apply Hat1].
  - intros h Hh. rewrite Hc2 by done. cbn [foldl]. by apply codes_after_ext.
Qed.

(** *** Writing the batch *)

Lemma put_nodes_spec b k : (exists d, (k, d) ∈ b /\ put_nodes V b k = Some d) \/
  ((forall d, (k, d) ∉ b) /\ put_nodes V b k = V k).
Proof.
  induction b as [|[k' d'] b IH] using rev_ind; [right; split; [intros d Hd; by apply elem_of_nil in Hd|done]|].
  unfold put_nodes in *. rewrite foldl_snoc. case_decide as Hne; [subst k'|].
  - left. exists d'. split; [|done]. apply elem_of_app. right. by apply list_elem_of_singleton.
  - destruct IH as [(d & Hin & E)|[Hn E]].
    + left. exists d. split; [|done]. apply elem_of_app. by left.
    + right. split; [|done]. intros d [Hin|Hin]%elem_of_app; [by apply (Hn d)|].
      apply list_elem_of_singleton in Hin. by injection Hin as <-.
Qed.

Lemma written_stored b k d : batch_ok b -> written_in V b k d <-> stored_in (put_nodes V b) k d.
Proof.
  intros Hb. split.
  - intros Hw. pose proof (written_known b k d Hb Hw) as Hk. destruct (proj2 Hfree k d Hk) as [Hl _].
    split; [destruct Hw as [Hs|Hin]; [apply Hs|by eapply Hb]|]. split; [|done].
    destruct (put_nodes_spec b k) as [(d' & Hin & ->)|[Hn ->]].
    + f_equal. apply (proj1 Hfree k); [|done]. apply (written_known b); [done|by right].
    + destruct Hw as [Hs|Hin]; [apply Hs|by apply Hn in Hin].
  - intros (Hk & E & Hl). destruct (put_nodes_spec b k) as [(d' & Hin & E')|[Hn E']]; [right|left]; congruence || split; [done|].
    by rewrite <- E'.
Qed.

Lemma cached_written (V' : store) b root t : (forall k d, written_in V b k d -> stored_in V' k d) ->
  cached V b root t -> cached V' [] root t.
Proof.
  intros Hw (m & ot & Hr & Hm & Hk & Ert & Hall). exists m, ot. split.
  { eapply rep_root_mono; [| |done]; [intros; apply Hw; by left|intros; left; by apply Hw]. }
  repeat (split; [done|]). intros t' ->. destruct (Hall t' eq_refl) as [Ha Hin].
  split; [eapply all_nodes_mono; [|done]|]; intros; left; by apply Hw.
Qed.

Definition committed (m : bmap) (root : list Z) (B : Z) (st : State) (t : Trie) : Prop :=
  let V' := nodes (sStorage st) in
  root = Hash_Bytes (map_root m) /\ state_ok V' [] B st /\ 0 <= trEpoch t <= B /\
  trie_holds (stored_in V') (stored_in V') t m /\ holds_at (stored_in V') (map_root m) m.

Lemma Trie_Commit_ok olds objs st B t m : let m' := accounts_map olds m objs in
  state_ok V [] B st -> trie_holds (stored_in V) (stored_in V) t m -> keys_of 32 m -> 0 <= trEpoch t <= B ->
  B + len objs + 1 < 2 ^ 32 -> Forall object_ok objs -> Forall (olds_ok olds) objs -> m' ∈ ms ->
  exists st' t' root, Trie_Commit objs t st = Ok (st', t', root) /\
    committed m' root (B + len objs + 1) st' t' /\
    (forall k d, stored_in V k d -> stored_in (nodes (sStorage st')) k d) /\
    (forall k d, stored_in (nodes (sStorage st')) k d -> known V ms k d) /\
    (forall obj, obj ∈ objs -> oDeleted obj = false ->
       holds_at (stored_in (nodes (sStorage st'))) (map_root (object_map olds obj)) (object_map olds obj)) /\
    forall h, is_word h -> codes (sStorage st') h = foldl codes_after (codes (sStorage st)) objs h.
Proof.
  intros m' Hst Ht Hk He HB Hok Holds Hin. unfold Trie_Commit. assert (0 <= len objs) by (unfold len; lia).
  destruct (commit_accounts_ok olds objs [] B st (Trie_Txn t) m) as (st1 & b & tx & -> & (Hb & Hst1 & Htx & Hk') & He1 & Hats & Hcodes);
    [|lia|lia|done|done|].
  { split; [by intros k d Hd%elem_of_nil|]. split; [done|]. split; [|done]. apply Trie_Txn_holds; [|lia].
    eapply trie_holds_mono; [done|by left|done]. }
  rewrite app_nil_l in *. cbn [obind]. fold m' in Htx, Hk'.
  destruct (hash_commit b tx m' Hin Htx Hk') as (root & tx' & puts & -> & Hr & Eh & Hw & Ee & Hkp & Hputs & Hca & Hat & Hth).
  cbn [obind]. assert (batch_ok (b ++ puts)) as Hb' by (by eapply batch_ok_app).
  assert (map_ok 32 m') as Hm' by (by eapply holds_at_ok). rewrite (is_root_map_root 32 m' root) in * by done.
  assert (trEpoch (Txn_Commit tx') = trEpoch t + 1) as Et.
  { cbn. rewrite Ee, He1. cbn. apply Z.mod_small. lia. }
  set (st2 := AddState _ _ _).
  assert (forall k d, written_in V (b ++ puts) k d <-> stored_in (nodes (sStorage st2)) k d) as En.
  { intros k d. rewrite written_stored by done. assert (node_key k -> put_nodes V (b ++ puts) k = nodes (sStorage st2) k) as Ek.
    2:{ unfold stored_in. split; intros (Hkk & E' & Hl); (split; [done|]); split; try done; by rewrite <- E', Ek. }
    intros Hkk. cbn. symmetry. apply writing_write; [done|by apply batch_keys|]. apply put_all_writing; [done|].
    by apply (state_writing V b (B + len objs) st1). }
  set (V' := nodes (sStorage st2)) in *. eexists st2, _, root. split; [done|]. split; [|split; [|split; [|split]]].
  - split; [done|]. cbn zeta. split; [|split; [lia|split]].
    + split; [apply writing_new|]. intros r u. cbn. intros [[-> ->]|[_ Hu]]%in_add.
      * split; [rewrite Et; lia|]. eapply cached_written; [apply En|done].
      * apply (state_cached V b (B + len objs) st1 Hst1) in Hu as [? ?]. split; [lia|].
        eapply cached_written; [apply En|by apply cached_mono].
    + eapply trie_holds_mono; [|apply En|done]. intros. apply En. by left.
    + eapply holds_at_mono; [apply En|done].
  - intros k d Hs. apply En. by left.
  - intros k d Hs. apply (written_known (b ++ puts)); [done|]. by apply En.
  - intros obj Hobj Hd. eapply holds_at_mono; [|by apply Hats]. intros k d Hs. by apply En, written_mono.
  - intros h Hh. cbn. rewrite codes_write, codes_put_all by (done || by apply batch_keys).
    by apply Hcodes.
Qed.

End during.
End state.
