(* ===== verification/TrieDB.v ===== *)
(** The two storages of src/state/trie/storage.go, in memory and over goleveldb,
    as implementations of what the state relies on. *)

From Stdlib Require Import ZArith Lia.
From stdpp Require Import base gmap list numbers.
From S2P Require Import Prelude Types Text Chain Rlp Nibbles Txn Trie TrieRep TrieOps TrieHash TrieMap TrieState.

Open Scope Z_scope.
Open Scope outcome_scope.

(** ** [memStorage] *)

Module Mem.

Record memStorage := mkMem { db : bmap; code : bmap }.

Definition NewMemoryStorage : memStorage := mkMem ∅ ∅.

Definition Put (p v : list Z) (m : memStorage) : memStorage := mkMem (<[EncodeToHex p := v]> (db m)) (code m).
Definition Get (m : memStorage) (p : list Z) : option (list Z) := db m !! EncodeToHex p.
Definition SetCode (hash : Hash) (c : list Z) (m : memStorage) : memStorage :=
  mkMem (db m) (<[Hash_String hash := c]> (code m)).
Definition GetCode (m : memStorage) (hash : Hash) : option (list Z) := code m !! Hash_String hash.

(** A put into a batch goes to the map at once, and writing does nothing. *)
Definition Batch_Put (p v : list Z) (m : memStorage) : memStorage := Put p v m.
Definition Batch_Write (b : Batch) (m : memStorage) : memStorage := m.

Definition storage : TrieStorage := {|
  stor := memStorage;
  st_Get m p := Ok (Get m p);
  batch_put := Batch_Put;
  batch_write := Batch_Write;
  st_SetCode := SetCode;
  st_GetCode m h := Ok (GetCode m h)
|}.

Lemma Hash_String_inj h h' : is_word h -> is_word h' -> Hash_String h = Hash_String h' -> h = h'.
Proof.
  intros Hh Hh' E%EncodeToHex_inj; [|apply be_encode_bytes..]. by apply Hash_Bytes_inj.
Qed.

Lemma get_put p v m p' : node_key p -> node_key p' ->
  Get (Put p v m) p' = if decide (p = p') then Some v else Get m p'.
Proof.
  intros [_ Hb] [_ Hb']. unfold Get, Put. cbn. case_decide as E; [subst; apply lookup_insert_eq|].
  apply lookup_insert_ne. intros F. by apply E, EncodeToHex_inj.
Qed.

(** What was put into the batch shows. *)
Definition mem_writing (V : store) (b : Batch) (m : memStorage) : Prop :=
  Forall (fun '(k, d) => node_key k) b /\ forall k, node_key k -> Get m k = put_nodes V b k.

Definition storage_ok : @TrieStorageOk storage.
Proof.
  refine (@Build_TrieStorageOk storage Get GetCode mem_writing _ _ _ _ _ _ _ _ _ _).
  - done.
  - done.
  - intros m h c h' Hh Hh'. cbn. unfold GetCode, SetCode. cbn. case_decide as E; [subst; apply lookup_insert_eq|].
    apply lookup_insert_ne. intros F. by apply E, Hash_String_inj.
  - done.
  - done.
  - by intros m.
  - intros V b m k d Hk [Hb Hm]. split; [apply Forall_app; split; [done|]; by constructor|].
    intros k' Hk'. unfold put_nodes in *. rewrite foldl_snoc. change (batch_put k d m) with (Put k d m).
    rewrite get_put by done. case_decide; [done|]. by apply Hm.
  - done.
  - intros V b m k d Hk [_ Hm] E Hd. rewrite Hm by done.
    destruct (put_nodes_spec V b k) as [(d' & Hin & ->)|[_ ->]]; [|done]. by rewrite (Hd d' Hin).
  - intros V b m k Hk _ [_ Hm]. by apply Hm.
Defined.

End Mem.

(** ** [KVStorage] *)

(** The package goleveldb: reading gives data, [ErrNotFound] or another error. *)
Inductive ldb_result := Data (d : list Z) | ErrNotFound | Failed.

Class LevelDB := {
  ldb : Type;
  ldb_Get : ldb -> list Z -> ldb_result;
  ldb_Put : list Z -> list Z -> ldb -> ldb;
  ldb_Write : Batch -> ldb -> ldb
}.

(** Without disk errors, it is a map; a batch writes its puts in order. *)
Class LevelDBOk `{LevelDB} := {
  ldb_map : ldb -> bmap;
  ldb_get s k : ldb_Get s k = match ldb_map s !! k with Some d => Data d | None => ErrNotFound end;
  ldb_put k d s : ldb_map (ldb_Put k d s) = <[k := d]> (ldb_map s);
  ldb_write b s : ldb_map (ldb_Write b s) = foldl (fun m '(k, d) => <[k := d]> m) (ldb_map s) b
}.

Module Kv.
Section kv.
Context `{LevelDB}.

Definition Get (s : ldb) (k : list Z) : outcome (option (list Z)) :=
  match ldb_Get s k with Data d => Ok (Some d) | ErrNotFound => Ok None | Failed => Panic end.
Definition Put (k v : list Z) (s : ldb) : ldb := ldb_Put k v s.

(** "code" *)
Definition codePrefix : list Z := [99; 111; 100; 101].

Definition SetCode (hash : Hash) (code : list Z) (s : ldb) : ldb := Put (codePrefix ++ Hash_Bytes hash) code s.
Definition GetCode (s : ldb) (hash : Hash) : outcome (option (list Z)) := Get s (codePrefix ++ Hash_Bytes hash).

(** A put into a batch does not show until the batch is written. *)
Definition Batch_Put (k v : list Z) (s : ldb) : ldb := s.
Definition Batch_Write (b : Batch) (s : ldb) : ldb := ldb_Write b s.

Definition storage : TrieStorage := {|
  stor := ldb;
  st_Get := Get;
  batch_put := Batch_Put;
  batch_write := Batch_Write;
  st_SetCode := SetCode;
  st_GetCode := GetCode
|}.

Context `{!LevelDBOk}.

Lemma Get_map s k : Get s k = Ok (ldb_map s !! k).
Proof. unfold Get. rewrite ldb_get. by destruct (ldb_map s !! k). Qed.

Lemma put_nodes_map (b : Batch) (m : bmap) k :
  foldl (fun m '(k, d) => <[k := d]> m) m b !! k = put_nodes (fun k => m !! k) b k.
Proof.
  induction b as [|[k' d] b IH] using rev_ind; [done|]. unfold put_nodes in *. rewrite !foldl_snoc.
  case_decide as E; [subst; apply lookup_insert_eq|]. by rewrite lookup_insert_ne.
Qed.

Lemma node_key_code k h : node_key k -> k <> codePrefix ++ Hash_Bytes h.
Proof. intros [Hl _] ->. rewrite length_app in Hl. unfold Hash_Bytes in Hl. by rewrite be_encode_length in Hl. Qed.

Lemma put_nodes_ext (V V' : store) b k : V k = V' k -> put_nodes V b k = put_nodes V' b k.
Proof.
  intros E. induction b as [|[k' d] b IH] using rev_ind; [done|]. unfold put_nodes in *. rewrite !foldl_snoc.
  by case_decide.
Qed.

Definition kv_writing (V : store) (b : Batch) (s : ldb) : Prop := forall k, node_key k -> ldb_map s !! k = V k.

Definition storage_ok : @TrieStorageOk storage.
Proof.
  refine (@Build_TrieStorageOk storage (fun s k => ldb_map s !! k) (fun s h => ldb_map s !! (codePrefix ++ Hash_Bytes h))
    kv_writing _ _ _ _ _ _ _ _ _ _).
  - intros s k _. apply Get_map.
  - intros s h. apply Get_map.
  - intros s h c h' Hh Hh'. cbn [st_SetCode storage]. unfold SetCode, Put. rewrite ldb_put. case_decide as E; [subst; apply lookup_insert_eq|].
    apply lookup_insert_ne. intros F%app_inv_head. by apply E, Hash_Bytes_inj.
  - done.
  - intros s b h Hb. cbn [batch_write storage]. unfold Batch_Write. rewrite ldb_write, put_nodes_map.
    destruct (put_nodes_spec (fun k => ldb_map s !! k) b (codePrefix ++ Hash_Bytes h)) as [(d & Hin & _)|[_ ->]]; [|done].
    rewrite List.Forall_forall in Hb. apply list_elem_of_In in Hin. by destruct (node_key_code _ h (Hb _ Hin)).
  - by intros s k.
  - done.
  - intros V b s h c Hs k Hk. cbn [st_SetCode storage]. unfold SetCode, Put. rewrite ldb_put, lookup_insert_ne; [by apply Hs|].
    intros F. by apply (node_key_code k h).
  - intros V b s k d Hk Hs E _. by rewrite Hs.
  - intros V b s k Hk _ Hs. cbn [batch_write storage]. unfold Batch_Write. rewrite ldb_write, put_nodes_map. by apply put_nodes_ext, Hs.
Defined.

End kv.
End Kv.
