(* ===== verification/Rewards.v ===== *)
(** The rewards of src/consensus/pvbft/blockreward.go: a fixed reward for each
    block, from an allotment that halves every two years.

    The numbers are pointers to [big.Int], some of them shared and changed in
    place, so they live in a heap. *)

From Stdlib Require Import ZArith Lia.
From stdpp Require Import base gmap list numbers.
From S2P Require Import Prelude Types Text Chain Rlp TxSigner Seals TrieDB.

Open Scope Z_scope.

(** ** Numbers on the heap *)

Notation heap := (list Z) (only parsing).
Notation ptr := nat (only parsing).
Definition big_new (v : Z) (h : heap) : ptr * heap := (length h, h ++ [v]).
Definition big_get (p : ptr) (h : heap) : Z := default 0 (h !! p).
Definition big_set (p : ptr) (v : Z) (h : heap) : heap := <[p := v]> h.

(** ** Constants *)

Definition RewardTotal : Z := 660000000.
Definition WEI : Z := 10 ^ 18.
Definition OneYearEpoch : Z := 438000.
(** "RewardKey", "RemainingKey" and "RewardListKey" *)
Definition rewardKey : list Z := [82; 101; 119; 97; 114; 100; 75; 101; 121].
Definition remainingKey : list Z := [82; 101; 109; 97; 105; 110; 105; 110; 103; 75; 101; 121].
Definition rewardListKey : list Z := [82; 101; 119; 97; 114; 100; 76; 105; 115; 116; 75; 101; 121].

(** The loop of [initReward]: [n] halvings. *)
Fixpoint halvings (n : nat) (total : Z) : list Z * Z :=
  match n with
  | O => ([], total)
  | S n =>
    let total := total - total / 2 in
    let (l, last) := halvings n total in (total :: l, last)
  end.
Definition reward_amounts : list Z := let (l, total) := halvings 9 RewardTotal in l ++ [total].

(** [json.Marshal] of a list of numbers. *)
Definition json_numbers (l : list Z) : list Z :=
  [91] ++ concat (imap (fun i v => (if (i =? 0)%nat then [] else [44]) ++ nat_digits v) l) ++ [93].

Section rewards.
Context `{LevelDB}.

Record BlockReward := mkBlockReward {
  brDb : ldb;
  brHeap : heap;
  brReward : ptr;
  brEpochTotal : ptr;
  brRemaining : ptr;
  brRewardList : list ptr
}.

Definition reward_value (br : BlockReward) : Z := big_get (brReward br) (brHeap br).
Definition remaining_value (br : BlockReward) : Z := big_get (brRemaining br) (brHeap br).

(** [SetBytes] of what is stored; an error leaves no bytes. *)
Definition stored_number (key : list Z) (db : ldb) : Z :=
  match ldb_Get db key with Data d => be_decode d | _ => 0 end.
Definition getReward (br : BlockReward) : Z := stored_number rewardKey (brDb br).
Definition getRemaining (br : BlockReward) : Z := stored_number remainingKey (brDb br).

(** [initReward] puts the ten allotments into the list. *)
Definition initReward (br : BlockReward) : BlockReward :=
  let amounts := (fun v => v * WEI) <$> reward_amounts in
  mkBlockReward (ldb_Put rewardListKey (json_numbers amounts) (brDb br)) (brHeap br ++ amounts)
    (brReward br) (brEpochTotal br) (brRemaining br)
    (brRewardList br ++ seq (length (brHeap br)) (length amounts)).

Definition newBlockReward (db : ldb) : BlockReward :=
  initReward (mkBlockReward db [0; 0; 0] 0%nat 1%nat 2%nat []).

(** The first two-year period that the epoch is not past. *)
Fixpoint pick_epoch (k : Z) (l : list ptr) (currentEpoch : Z) : option ptr :=
  match l with
  | [] => None
  | p :: l => if currentEpoch <=? uint64 ((k + 1) * 2 * OneYearEpoch) then Some p else pick_epoch (k + 1) l currentEpoch
  end.

(** [calcEpochTotal]: [remaining] points to the allotment in the list.  A block
    time of less than a second, or of more than two years, is a division by
    zero. *)
Definition calcEpochTotal (blockTime currentEpoch : Z) (br : BlockReward) : outcome BlockReward :=
  let epochTotal := default (brEpochTotal br) (pick_epoch 0 (brRewardList br) currentEpoch) in
  if blockTime / 10 ^ 9 =? 0 then Panic
  else
    let outBlock := 86400 * 365 * 2 / (blockTime / 10 ^ 9) in
    let noWeiTotal := big_get epochTotal (brHeap br) / WEI in
    if outBlock =? 0 then Panic
    else
      let (reward, h) := big_new (noWeiTotal / outBlock) (brHeap br) in
      let h := big_set reward (big_get reward h * WEI) h in
      let db := ldb_Put rewardKey (big_Bytes (big_get reward h)) (brDb br) in
      let db := ldb_Put remainingKey (big_Bytes (big_get epochTotal h)) db in
      Ok (mkBlockReward db h reward epochTotal epochTotal (brRewardList br)).

Definition set_reward (v : Z) (br : BlockReward) : BlockReward :=
  let (p, h) := big_new v (brHeap br) in
  mkBlockReward (brDb br) h p (brEpochTotal br) (brRemaining br) (brRewardList br).

(** [GetReward]; the reward is [reward_value] after it. *)
Definition GetReward (blockTime currentEpoch : Z) (br : BlockReward) : outcome BlockReward :=
  obind (if getRemaining br <? reward_value br then calcEpochTotal blockTime currentEpoch br else Ok br) (fun br =>
  if reward_value br =? 0 then
    let reward := getReward br in
    if 0 <? reward then Ok (set_reward reward br) else calcEpochTotal blockTime currentEpoch br
  else Ok br).

(** [settlementReward] changes the number that [remaining] points to. *)
Definition settlementReward (br : BlockReward) : BlockReward :=
  let br :=
    if remaining_value br =? 0 then
      let (p, h) := big_new (getRemaining br) (brHeap br) in
      mkBlockReward (brDb br) h (brReward br) (brEpochTotal br) p (brRewardList br)
    else br in
  let h := big_set (brRemaining br) (remaining_value br - reward_value br) (brHeap br) in
  mkBlockReward (ldb_Put remainingKey (big_Bytes (big_get (brRemaining br) h)) (brDb br)) h
    (brReward br) (brEpochTotal br) (brRemaining br) (brRewardList br).

(** [getRewardList] decodes into a value that is not a pointer, which fails. *)
Definition getRewardList (br : BlockReward) : list Z := [].

(** [rewardTx]: a transaction from the miner, signed by its key; its data are the
    four bytes of the method. *)
Definition rewardTx `{FastRLP} `{Runtime} `{Secp256k1} (chainID : Z) (prv : PrivateKey) (miner rewardPool : Address)
    (nonce amount : Z) : option Transaction :=
  EIP155_SignTx chainID
    (mkTransaction nonce 0 21000 (Some rewardPool) amount [0x57; 0x30; 0x59; 0x20] None None None 0 miner) prv.

End rewards.

(** ** What is paid *)

Section facts.
Context `{LevelDB} `{!LevelDBOk}.

(** A block: the reward is fetched, and settled if its transaction is written.
    The amount is what the transaction pays. *)
Definition reward_step (blockTime epoch : Z) (settled : bool) (br : BlockReward) : outcome (Z * BlockReward) :=
  obind (GetReward blockTime epoch br) (fun br =>
  Ok (if settled then (reward_value br, settlementReward br) else (0, br))).

(** What a node has paid since it started with an empty database. *)
Inductive paid : BlockReward -> Z -> Prop :=
| paid_start db : ldb_map db = ∅ -> paid (newBlockReward db) 0
| paid_step br z blockTime epoch settled v br' : paid br z -> is_u64 blockTime ->
    reward_step blockTime epoch settled br = Ok (v, br') -> paid br' (z + v).

Definition allotments (br : BlockReward) : list Z := (fun p => big_get p (brHeap br)) <$> brRewardList br.
Definition sum_Z (l : list Z) : Z := foldr Z.add 0 l.
Definition supply : Z := sum_Z ((fun v => v * WEI) <$> reward_amounts).

(** *** The heap *)

Lemma big_get_set p q v h : (p < length h)%nat ->
  big_get q (big_set p v h) = if decide (p = q) then v else big_get q h.
Proof.
  intros Hp. unfold big_get, big_set. case_decide as E; [subst; by rewrite list_lookup_insert_eq|].
  by rewrite list_lookup_insert_ne.
Qed.

Lemma big_get_app p h h' : (p < length h)%nat -> big_get p (h ++ h') = big_get p h.
Proof. intros Hp. unfold big_get. by rewrite lookup_app_l. Qed.

Lemma big_get_new v h : big_get (length h) (h ++ [v]) = v.
Proof. unfold big_get. by rewrite list_lookup_middle. Qed.

Lemma sum_set l p v h : NoDup l -> (forall q, q ∈ l -> (q < length h)%nat) -> p ∈ l ->
  sum_Z ((fun q => big_get q (big_set p v h)) <$> l) = sum_Z ((fun q => big_get q h) <$> l) - big_get p h + v.
Proof.
  intros Hn Hl Hp. induction l as [|q l IH]; [by apply not_elem_of_nil in Hp|].
  apply list.NoDup_cons in Hn as [Hq Hn]. cbn [fmap list_fmap sum_Z foldr].
  fold (sum_Z ((fun q => big_get q (big_set p v h)) <$> l)) (sum_Z ((fun q => big_get q h) <$> l)).
  assert (p < length h)%nat as Hlt by (by apply Hl).
  rewrite big_get_set by done. apply list_elem_of_In in Hp. case_decide as E.
  - subst q. assert ((fun q => big_get q (big_set p v h)) <$> l = (fun q => big_get q h) <$> l) as ->; [|lia].
    apply list_fmap_ext. intros i q Hi. rewrite big_get_set by done. case_decide; [|done]. subst. destruct Hq.
    by eapply list_elem_of_lookup_2.
  - destruct Hp as [->|Hp]; [done|]. rewrite IH; [lia|done| |by apply list_elem_of_In].
    intros r Hr. apply Hl. by apply list_elem_of_further.
Qed.

(** *** The invariant *)

Lemma stored_put k k' d db : stored_number k (ldb_Put k' d db) =
  if decide (k = k') then be_decode d else stored_number k db.
Proof.
  unfold stored_number. rewrite !ldb_get, ldb_put. case_decide as E; [subst; by rewrite lookup_insert_eq|].
  by rewrite lookup_insert_ne.
Qed.

Lemma stored_put_same k v db : 0 <= v -> stored_number k (ldb_Put k (big_Bytes v) db) = v.
Proof. intros Hv. rewrite stored_put, decide_True by done. rewrite be_decode_big_Bytes. lia. Qed.

Record reward_inv (br : BlockReward) : Prop := {
  ri_list : brRewardList br = seq 3 10;
  ri_heap : (13 <= length (brHeap br))%nat;
  ri_reward : (brReward br < length (brHeap br))%nat /\ brReward br ∉ seq 3 10;
  ri_epoch : (brEpochTotal br < length (brHeap br))%nat /\
    (brEpochTotal br ∈ seq 3 10 \/ big_get (brEpochTotal br) (brHeap br) = 0 /\ brEpochTotal br = 1%nat);
  ri_remaining : (brRemaining br < length (brHeap br))%nat /\
    (brRemaining br ∈ seq 3 10 \/ remaining_value br = 0);
  ri_positive : Forall (fun p => 0 <= big_get p (brHeap br)) (seq 3 10);
  ri_stored : getRemaining br = remaining_value br /\ getReward br = reward_value br
}.

Lemma seq_list p : p ∈ seq 3 10 <-> (3 <= p < 13)%nat.
Proof. rewrite elem_of_seq. lia. Qed.

(** What the steps of a block keep: the allotments, and that the reward can be paid. *)
Definition payable (br : BlockReward) : Prop := 0 <= reward_value br <= remaining_value br.

Lemma reward_start db : ldb_map db = ∅ -> reward_inv (newBlockReward db) /\ sum_Z (allotments (newBlockReward db)) = supply.
Proof.
  intros Hdb. split; [|vm_compute; reflexivity]. split.
  - reflexivity.
  - vm_compute. lia.
  - split; [vm_compute; lia|]. rewrite seq_list. cbn. lia.
  - split; [vm_compute; lia|]. right. by vm_compute.
  - split; [vm_compute; lia|]. right. by vm_compute.
  - repeat constructor; vm_compute; discriminate.
  - unfold getRemaining, getReward, newBlockReward, initReward. cbn [brDb].
    rewrite !stored_put, !decide_False by done. unfold stored_number. rewrite !ldb_get, Hdb, !lookup_empty. done.
Qed.

Lemma reward_fraction x n : 0 <= x -> 0 < n -> 0 <= x / WEI / n * WEI <= x.
Proof. unfold WEI. intros Hx Hn. assert (0 <= x / 10 ^ 18 / n <= x / 10 ^ 18) by (Z.div_mod_to_equations; nia). Z.div_mod_to_equations; lia. Qed.

Lemma pick_epoch_in k l e p : pick_epoch k l e = Some p -> p ∈ l.
Proof.
  revert k. induction l as [|q l IH]; intros k; [done|]. cbn. case_match; [intros [= <-]; apply list_elem_of_here|].
  intros Hp. apply list_elem_of_further. by eapply IH.
Qed.

(** The allotment that [calcEpochTotal] takes. *)
Lemma epoch_pointer br e : reward_inv br ->
  let p := default (brEpochTotal br) (pick_epoch 0 (brRewardList br) e) in
  (p < length (brHeap br))%nat /\ (p ∈ seq 3 10 \/ big_get p (brHeap br) = 0 /\ p = 1%nat).
Proof.
  intros Hi. cbn zeta. destruct (pick_epoch 0 (brRewardList br) e) as [p|] eqn:E; cbn; [|apply (ri_epoch _ Hi)].
  apply pick_epoch_in in E. rewrite (ri_list _ Hi) in E. pose proof (ri_heap _ Hi). split; [|by left].
  apply seq_list in E. lia.
Qed.

Lemma calcEpochTotal_inv t e br br' : is_u64 t -> reward_inv br -> calcEpochTotal t e br = Ok br' ->
  reward_inv br' /\ allotments br' = allotments br /\ payable br'.
Proof.
  intros Ht Hi. unfold calcEpochTotal. destruct (epoch_pointer br e Hi) as [Hp Hv]. cbn zeta in *.
  set (p := default _ _) in *. destruct (Z.eqb_spec (t / 10 ^ 9) 0) as [|Ht0]; [done|].
  destruct (Z.eqb_spec (86400 * 365 * 2 / (t / 10 ^ 9)) 0) as [|Hn0]; [done|].
  set (n := 86400 * 365 * 2 / (t / 10 ^ 9)) in *. unfold big_new.
  assert (0 < n). { subst n. unfold is_u64 in Ht. assert (0 < t / 10 ^ 9) by (Z.div_mod_to_equations; lia).
    assert (0 <= 86400 * 365 * 2 / (t / 10 ^ 9)) by (apply Z.div_pos; lia). lia. }
  pose proof (ri_heap _ Hi) as Hh. set (v := big_get p (brHeap br)) in *.
  assert (0 <= v) as Hv0.
  { destruct Hv as [Hin|[-> _]]; [|done]. pose proof (ri_positive _ Hi) as Hpos. rewrite list.Forall_forall in Hpos. by apply Hpos. }
  pose proof (reward_fraction v n Hv0 ltac:(lia)) as Hr. set (r := v / WEI / n * WEI) in *.
  set (h := big_set (length (brHeap br)) (big_get (length (brHeap br)) (brHeap br ++ [v / WEI / n]) * WEI) (brHeap br ++ [v / WEI / n])).
  assert (forall q, (q < length (brHeap br))%nat -> big_get q h = big_get q (brHeap br)) as Hold.
  { intros q Hq. subst h. rewrite big_get_set by (rewrite length_app; cbn; lia). rewrite decide_False by lia.
    by apply big_get_app. }
  assert (big_get (length (brHeap br)) h = r) as Hnew.
  { subst h. rewrite big_get_set by (rewrite length_app; cbn; lia). rewrite decide_True by done. by rewrite big_get_new. }
  assert (length h = S (length (brHeap br))) as Hlen by (subst h; unfold big_set; rewrite length_insert, length_app; cbn; lia).
  rewrite Hnew, (Hold p) by lia. intros [= <-]. split; [|split].
  - split; cbn [brRewardList brHeap brReward brEpochTotal brRemaining].
    + apply (ri_list _ Hi).
    + lia.
    + split; [lia|]. rewrite seq_list. lia.
    + split; [lia|]. rewrite Hold by lia. exact Hv.
    + split; [lia|]. unfold remaining_value. cbn [brRemaining brHeap]. rewrite Hold by lia. destruct Hv as [|[? _]]; auto.
    + apply list.Forall_forall. intros q Hq. pose proof (ri_positive _ Hi) as Hpos. rewrite list.Forall_forall in Hpos.
      rewrite Hold; [by apply Hpos|]. apply seq_list in Hq. lia.
    + unfold getRemaining, getReward, remaining_value, reward_value. cbn [brDb brRemaining brReward brHeap].
      rewrite stored_put_same by done. rewrite stored_put, decide_False by done. rewrite stored_put_same by lia.
      by rewrite (Hold p), Hnew by lia.
  - unfold allotments. cbn [brHeap brRewardList]. rewrite (ri_list _ Hi). apply list_fmap_ext. intros i q Hq.
    apply Hold. apply list_elem_of_lookup_2, seq_list in Hq. lia.
  - unfold payable, reward_value, remaining_value. cbn [brReward brHeap brRemaining]. rewrite (Hold p), Hnew by lia. exact Hr.
Qed.

Lemma GetReward_inv t e br br' : is_u64 t -> reward_inv br -> 0 <= reward_value br -> GetReward t e br = Ok br' ->
  reward_inv br' /\ allotments br' = allotments br /\ payable br'.
Proof.
  intros Ht Hi Hr0. unfold GetReward.
  assert (forall b, reward_inv b -> allotments b = allotments br -> payable b ->
    (if reward_value b =? 0 then
       let reward := getReward b in
       if 0 <? reward then Ok (set_reward reward b) else calcEpochTotal t e b
     else Ok b) = Ok br' -> reward_inv br' /\ allotments br' = allotments br /\ payable br') as Hrest.
  { intros b Hb Ha Hp. destruct (Z.eqb_spec (reward_value b) 0) as [E|E]; [|by intros [= <-]].
    cbn zeta. rewrite (proj2 (ri_stored _ Hb)), E. cbn [Z.ltb Z.compare]. intros Hc.
    destruct (calcEpochTotal_inv t e b br' Ht Hb Hc) as (? & Ea & ?). split; [done|]. split; [congruence|done]. }
  destruct (Z.ltb_spec (getRemaining br) (reward_value br)) as [Hlt|Hge].
  - destruct (calcEpochTotal t e br) as [b| |] eqn:Ec; [|done..]. cbn [obind].
    destruct (calcEpochTotal_inv t e br b Ht Hi Ec) as (Hb & Ha & Hp). by apply Hrest.
  - cbn [obind]. apply Hrest; [done|done|]. rewrite (proj1 (ri_stored _ Hi)) in Hge. by split.
Qed.

(** The two parts of [settlementReward]. *)
Definition reload (br : BlockReward) : BlockReward :=
  if remaining_value br =? 0 then
    let (p, h) := big_new (getRemaining br) (brHeap br) in
    mkBlockReward (brDb br) h (brReward br) (brEpochTotal br) p (brRewardList br)
  else br.
Definition take_reward (br : BlockReward) : BlockReward :=
  let h := big_set (brRemaining br) (remaining_value br - reward_value br) (brHeap br) in
  mkBlockReward (ldb_Put remainingKey (big_Bytes (big_get (brRemaining br) h)) (brDb br)) h
    (brReward br) (brEpochTotal br) (brRemaining br) (brRewardList br).

Lemma reload_inv br : reward_inv br -> payable br ->
  reward_inv (reload br) /\ payable (reload br) /\ reward_value (reload br) = reward_value br /\
  allotments (reload br) = allotments br.
Proof.
  intros Hi Hp. unfold reload. destruct (Z.eqb_spec (remaining_value br) 0) as [E|E]; [|done]. unfold big_new.
  pose proof (ri_heap _ Hi) as Hh. destruct (ri_stored _ Hi) as [Es1 Es2].
  set (br' := mkBlockReward _ _ _ _ _ _).
  assert (forall q, (q < length (brHeap br))%nat -> big_get q (brHeap br') = big_get q (brHeap br)) as Hold
    by (intros q Hq; by apply big_get_app).
  assert (length (brHeap br') = S (length (brHeap br))) as Hlen by (cbn; rewrite length_app; cbn; lia).
  assert (remaining_value br' = 0) as Er by (unfold remaining_value; cbn; by rewrite big_get_new, Es1).
  destruct (ri_reward _ Hi) as [Hlw Hnw]. destruct (ri_epoch _ Hi) as [Hle He].
  assert (reward_value br' = reward_value br) as Ew by (unfold reward_value; cbn [brReward br']; by apply Hold).
  split; [|split; [|split; [done|]]].
  - split; try (apply Hi || lia).
    + cbn [brReward br']. split; [lia|done].
    + cbn [brEpochTotal br']. split; [lia|]. by rewrite Hold.
    + split; [cbn [brRemaining br']; lia|by right].
    + apply list.Forall_forall. intros q Hq. pose proof (ri_positive _ Hi) as Hpos. rewrite list.Forall_forall in Hpos.
      rewrite Hold; [by apply Hpos|]. apply seq_list in Hq. lia.
    + rewrite Er, Ew. split; [|exact Es2]. unfold getRemaining in *. cbn [brDb br']. congruence.
  - unfold payable in *. rewrite Er, Ew. lia.
  - unfold allotments. cbn [brRewardList br']. rewrite (ri_list _ Hi). apply list_fmap_ext. intros j q Hq.
    apply Hold. apply list_elem_of_lookup_2, seq_list in Hq. lia.
Qed.

Lemma take_reward_inv br : reward_inv br -> payable br ->
  reward_inv (take_reward br) /\ reward_value (take_reward br) = reward_value br /\
  sum_Z (allotments (take_reward br)) = sum_Z (allotments br) - reward_value br.
Proof.
  intros Hi [Hr0 Hr]. pose proof (ri_heap _ Hi) as Hh. destruct (ri_remaining _ Hi) as [Hlr Hcase].
  destruct (ri_reward _ Hi) as [Hlw Hnw]. destruct (ri_epoch _ Hi) as [Hle He]. destruct (ri_stored _ Hi) as [Es1 Es2].
  set (br' := take_reward br). set (p := brRemaining br) in *.
  assert (forall q, big_get q (brHeap br') =
    if decide (p = q) then remaining_value br - reward_value br else big_get q (brHeap br)) as Hget
    by (intros q; by apply big_get_set).
  assert (length (brHeap br') = length (brHeap br)) as Hlen by (cbn; unfold big_set; by rewrite length_insert).
  assert (remaining_value br' = remaining_value br - reward_value br) as Er
    by (unfold remaining_value at 1; rewrite Hget; by rewrite decide_True).
  assert (reward_value br' = reward_value br) as Ew.
  { unfold reward_value at 1. rewrite Hget. case_decide as E; [|done].
    destruct Hcase as [Hin|Hz]; [by rewrite E in Hin|]. unfold remaining_value in Hz. fold p in Hz.
    change (brReward br') with (brReward br) in E. unfold reward_value in *. rewrite <- E in *. unfold remaining_value. fold p. lia. }
  split; [|split; [done|]].
  - split; try (apply Hi || lia).
    + rewrite Hlen. by split.
    + rewrite Hlen. change (brEpochTotal br') with (brEpochTotal br). split; [done|].
      destruct He as [|[Hz He]]; [by left|right]. split; [|done]. rewrite Hget. case_decide as E; [|done].
      unfold remaining_value in *. fold p in Hr, Hcase |- *. rewrite E in *. lia.
    + rewrite Hlen. split; [done|]. destruct Hcase as [|Hz]; [by left|right]. lia.
    + apply list.Forall_forall. intros q Hq. rewrite Hget. case_decide; [lia|].
      pose proof (ri_positive _ Hi) as Hpos. rewrite list.Forall_forall in Hpos. by apply Hpos.
    + rewrite Er, Ew. unfold getRemaining, getReward, br', take_reward. cbn [brDb].
      rewrite (stored_put rewardKey), decide_False by done. split; [|exact Es2].
      rewrite big_get_set, decide_True by done. apply stored_put_same. lia.
  - unfold allotments. change (brRewardList br') with (brRewardList br). rewrite (ri_list _ Hi).
    destruct (decide (p ∈ seq 3 10)) as [Hin|Hin].
    + unfold br', take_reward. cbn [brHeap]. rewrite sum_set; [|apply NoDup_seq| |done].
      * unfold remaining_value. fold p. lia.
      * intros q Hq. apply seq_list in Hq. lia.
    + destruct Hcase as [|Hz]; [done|]. assert (reward_value br = 0) as -> by lia. rewrite Z.sub_0_r. f_equal.
      apply list_fmap_ext. intros j q Hq. rewrite Hget. case_decide as E; [|done]. subst q. destruct Hin.
      by eapply list_elem_of_lookup_2.
Qed.

Lemma settlementReward_inv br : reward_inv br -> payable br ->
  reward_inv (settlementReward br) /\ reward_value (settlementReward br) = reward_value br /\
  sum_Z (allotments (settlementReward br)) = sum_Z (allotments br) - reward_value br.
Proof.
  intros Hi Hp. change (settlementReward br) with (take_reward (reload br)).
  destruct (reload_inv br Hi Hp) as (Hi' & Hp' & Ew & Ea). destruct (take_reward_inv _ Hi' Hp') as (? & ? & Es).
  split; [done|]. rewrite Es, Ea, Ew. split; [congruence|done].
Qed.

(** Without restarts, what is paid is taken from the allotments. *)
Lemma paid_inv br z : paid br z ->
  reward_inv br /\ 0 <= reward_value br /\ sum_Z (allotments br) + z = supply.
Proof.
  induction 1 as [db Hdb|br z t e settled v br' _ (Hi & Hr & Hs) Ht Hstep].
  - destruct (reward_start db Hdb) as [Hi Hs]. split; [done|]. split; [vm_compute; discriminate|lia].
  - unfold reward_step in Hstep. destruct (GetReward t e br) as [b| |] eqn:Eg; [|discriminate Hstep..]. cbn [obind] in Hstep.
    destruct (GetReward_inv t e br b Ht Hi Hr Eg) as (Hb & Ea & Hp).
    destruct settled; injection Hstep as <- <-.
    + destruct (settlementReward_inv b Hb Hp) as (Hi' & Ew & Es). split; [done|]. rewrite Ew, Es, Ea.
      split; [apply Hp|lia].
    + split; [done|]. split; [apply Hp|]. rewrite Ea. lia.
Qed.

Lemma sum_Z_nonneg l : Forall (fun v => 0 <= v) l -> 0 <= sum_Z l.
Proof. induction 1; cbn; [done|]. unfold sum_Z in *. lia. Qed.

Lemma paid_bounded br z : paid br z -> z <= supply.
Proof.
  intros (Hi & _ & Hs)%paid_inv. assert (0 <= sum_Z (allotments br)); [|lia]. apply sum_Z_nonneg.
  unfold allotments. apply Forall_fmap. rewrite (ri_list _ Hi). exact (ri_positive _ Hi).
Qed.

(** *** After a restart *)

(** [n] blocks whose rewards are settled: what they pay together. *)
Fixpoint pay_all (n : nat) (blockTime epoch : Z) (br : BlockReward) : outcome (Z * BlockReward) :=
  match n with
  | O => Ok (0, br)
  | S n =>
    obind (reward_step blockTime epoch true br) (fun '(v, br) =>
    obind (pay_all n blockTime epoch br) (fun '(w, br) => Ok (v + w, br)))
  end.

(** Rewards [R] are paid beyond the allotment: [remaining] is negative, and what is
    stored is its absolute value. *)
Record overdrawn (R : Z) (br : BlockReward) : Prop := {
  od_reward : reward_value br = R;
  od_pointers : (brReward br < length (brHeap br))%nat /\ (brRemaining br < length (brHeap br))%nat /\
    brReward br <> brRemaining br;
  od_remaining : remaining_value br <= - R;
  od_stored : getRemaining br = - remaining_value br
}.

Lemma take_overdraws R br : 0 < R -> reward_value br = R ->
  (brReward br < length (brHeap br))%nat /\ (brRemaining br < length (brHeap br))%nat /\ brReward br <> brRemaining br ->
  remaining_value br <= 0 -> overdrawn R (take_reward br).
Proof.
  intros HR Ew (Hl1 & Hl2 & Hne) Hr.
  assert (remaining_value (take_reward br) = remaining_value br - R) as Er.
  { unfold remaining_value at 1, take_reward. cbn [brRemaining brHeap]. rewrite big_get_set, decide_True by done. by rewrite Ew. }
  split.
  - unfold reward_value, take_reward. cbn [brReward brHeap]. by rewrite big_get_set, decide_False by done.
  - unfold take_reward. cbn [brReward brRemaining brHeap]. unfold big_set. by rewrite length_insert.
  - lia.
  - rewrite Er. unfold getRemaining, take_reward. cbn [brDb]. rewrite stored_put, decide_True by done.
    rewrite be_decode_big_Bytes, big_get_set, decide_True by done. lia.
Qed.

Lemma overdrawn_pays n R t e br : 0 < R -> overdrawn R br -> exists br', pay_all n t e br = Ok (Z.of_nat n * R, br').
Proof.
  intros HR. revert br. induction n as [|n IH]; intros br Ho; [by exists br|]. cbn [pay_all].
  destruct (Ho) as [Ew Hl Hr Hs]. unfold reward_step, GetReward. rewrite Hs, Ew.
  replace (- remaining_value br <? R) with false by lia. cbn [obind]. rewrite Ew.
  replace (R =? 0) with false by lia. cbn [obind].
  assert (overdrawn R (settlementReward br)) as Ho'.
  { change (settlementReward br) with (take_reward (reload br)). unfold reload.
    replace (remaining_value br =? 0) with false by lia. apply take_overdraws; [done..|lia]. }
  destruct (IH _ Ho') as (br' & ->). cbn [obind]. exists br'. rewrite Ew. f_equal. f_equal. lia.
Qed.

(** A node that restarts with a reward stored and nothing remaining pays without
    bound. *)
Lemma restart_pays n R t e db : 0 < R -> stored_number rewardKey db = R -> stored_number remainingKey db = 0 ->
  exists br', pay_all n t e (newBlockReward db) = Ok (Z.of_nat n * R, br').
Proof.
  intros HR Er Em. destruct n as [|n]; [by eexists|]. cbn [pay_all].
  assert (getRemaining (newBlockReward db) = 0) as E1.
  { unfold getRemaining, newBlockReward, initReward. cbn [brDb]. by rewrite stored_put, decide_False by done. }
  assert (getReward (newBlockReward db) = R) as E2.
  { unfold getReward, newBlockReward, initReward. cbn [brDb]. by rewrite stored_put, decide_False by done. }
  assert (reward_value (newBlockReward db) = 0) as E3 by reflexivity.
  unfold reward_step, GetReward. rewrite E1, E3. cbn [Z.ltb Z.compare obind]. rewrite E3. cbn [Z.eqb]. rewrite E2.
  replace (0 <? R) with true by lia. cbn [obind].
  set (br := set_reward R (newBlockReward db)).
  assert (reward_value br = R) as Ew by reflexivity.
  assert (overdrawn R (settlementReward br)) as Ho.
  { change (settlementReward br) with (take_reward (reload br)). apply take_overdraws; [done| | |].
    - reflexivity.
    - vm_compute. lia.
    - change (remaining_value (reload br)) with (getRemaining br). change (getRemaining br) with (getRemaining (newBlockReward db)). lia. }
  destruct (overdrawn_pays n R t e _ HR Ho) as (br' & ->). cbn [obind]. exists br'. rewrite Ew. f_equal. f_equal. lia.
Qed.

End facts.
