(* ===== verification/TrieHistory.v ===== *)
(** Commits on top of one another: every state that was committed can be read
    again after a restart, under the root that the commit returned. *)

From Stdlib Require Import ZArith Lia.
From stdpp Require Import base gmap list numbers.
From S2P Require Import Prelude Types Chain Rlp Nibbles Txn Trie TrieRep TrieOps TrieHash TrieMap TrieState.

Open Scope Z_scope.
Open Scope outcome_scope.

(** The maps, of accounts and of storages, under their roots. *)
Abbreviation maps := (gmap Hash bmap).

Section history.
Context `{FastRLP} `{Runtime} `{!FastRLPOk} `{!NodeRLP} `{!NodeRLPOk}.
Context `{TrieStorage} `{!TrieStorageOk} `{LRU} `{!LRUOk}.

(** ** Blocks *)

(** The root of the parent state, and the objects that the block commits. *)
Definition block : Type := Hash * list Object.

(** As the executor does for a block: a snapshot at the parent's root, and a
    commit on it.  The roots that the commits return are collected. *)
Fixpoint run_commits (blocks : list block) (st : State) : outcome (State * list (list Z)) :=
  match blocks with
  | [] => Ok (st, [])
  | (parent, objs) :: blocks =>
    let^ (t, st) := State_NewSnapshotAt parent st in
    let^ t := of_option t in
    let^ (st, _, root) := Trie_Commit objs t st in
    let^ (st, roots) := run_commits blocks st in
    Ok (st, root :: roots)
  end.

(** ** The maps *)

Definition map_at (H : maps) (root : Hash) : bmap := default ∅ (H !! root).

Definition live (objs : list Object) : list Object := base.filter (fun obj => oDeleted obj = false) objs.

Definition block_accounts (M : maps) (b : block) : bmap := accounts_map (map_at M) (map_at M b.1) b.2.
Definition block_maps (M : maps) (b : block) : list bmap :=
  block_accounts M b :: map (object_map (map_at M)) (live b.2).

Definition add_maps (ms : list bmap) (M : maps) : maps := foldr (fun m M => <[map_root m := m]> M) M ms.

(** The blocks build on states that are there. *)
Definition block_ok (M : maps) (b : block) : Prop :=
  is_Some (M !! b.1) /\ Forall object_ok b.2 /\ Forall (fun obj => is_Some (M !! oRoot obj)) (live b.2).

Fixpoint blocks_ok (M : maps) (blocks : list block) : Prop :=
  match blocks with
  | [] => True
  | b :: blocks => block_ok M b /\ blocks_ok (add_maps (block_maps M b) M) blocks
  end.

Fixpoint history (M : maps) (blocks : list block) : list bmap :=
  match blocks with
  | [] => []
  | b :: blocks => block_maps M b ++ history (add_maps (block_maps M b) M) blocks
  end.

Fixpoint spec_roots (M : maps) (blocks : list block) : list (list Z) :=
  match blocks with
  | [] => []
  | b :: blocks =>
    Hash_Bytes (map_root (block_accounts M b)) :: spec_roots (add_maps (block_maps M b) M) blocks
  end.

Definition spec_maps (M : maps) (blocks : list block) : maps :=
  foldl (fun M b => add_maps (block_maps M b) M) M blocks.

(** The commits and objects, which bound the epochs. *)
Definition work (blocks : list block) : Z := foldr (fun b n => len b.2 + 1 + n) 0 blocks.

Lemma work_nonneg blocks : 0 <= work blocks.
Proof. unfold work, len. induction blocks as [|b blocks IH]; cbn [foldr]; lia. Qed.

(** ** The invariant *)

Definition no_store : store := fun _ => None.

Definition maps_ok (V : store) (M : maps) : Prop :=
  forall root m, M !! root = Some m -> is_word root /\ holds_at (stored_in V) root m.

Lemma known_free V V' ms ms' : (forall k d, known V ms k d -> known V' ms' k d) ->
  collision_free V' ms' -> collision_free V ms.
Proof. intros Hk [H1' H2']. split; intros; [eapply H1'|eapply H2']; eauto. Qed.

Lemma map_at_ok V M root : maps_ok V M -> is_Some (M !! root) ->
  is_word root /\ holds_at (stored_in V) root (map_at M root).
Proof. intros HM [m E]. unfold map_at. rewrite E. by apply HM. Qed.

Lemma add_maps_ok V ms M : maps_ok V M -> Forall (fun m => holds_at (stored_in V) (map_root m) m) ms ->
  maps_ok V (add_maps ms M).
Proof.
  intros HM. induction 1 as [|m ms Hm Hms IH]; [done|]. cbn. intros root m'.
  intros [[<- <-]|[_ E]]%lookup_insert_Some; [|by apply IH]. split; [|done].
  eapply (map_root_ok 32). by eapply holds_at_ok.
Qed.

Lemma maps_ok_mono V V' M : (forall k d, stored_in V k d -> stored_in V' k d) -> maps_ok V M -> maps_ok V' M.
Proof. intros HV HM root m E. destruct (HM root m E). split; [done|]. by eapply holds_at_mono. Qed.

(** One block. *)
Lemma run_block_ok all V M b B st : V = nodes (sStorage st) ->
  collision_free no_store all -> (forall k d, stored_in V k d -> known no_store all k d) ->
  state_ok V [] B st -> maps_ok V M -> 0 <= B -> B + len b.2 + 1 < 2 ^ 32 -> block_ok M b ->
  (forall m, m ∈ block_maps M b -> m ∈ all) ->
  exists st0 t st' t', State_NewSnapshotAt b.1 st = Ok (Some t, st0) /\
    Trie_Commit b.2 t st0 = Ok (st', t', Hash_Bytes (map_root (block_accounts M b))) /\
    let V' := nodes (sStorage st') in
    (forall k d, stored_in V' k d -> known no_store all k d) /\ state_ok V' [] (B + len b.2 + 1) st' /\
    maps_ok V' (add_maps (block_maps M b) M) /\
    (forall k d, stored_in V k d -> stored_in V' k d) /\
    Forall (fun m => holds_at (stored_in V') (map_root m) m) (block_maps M b) /\
    forall h, is_word h -> codes (sStorage st') h = foldl codes_after (codes (sStorage st)) b.2 h.
Proof.
  intros EV Hfree HV Hst HM HB HB' (Hp & Hok & Hlive) Hall. set (ms := block_maps M b).
  assert (forall k d, known V ms k d -> known no_store all k d) as Hknown.
  { intros k d [Hs|(m & Hm & Hn)]; [by apply HV|]. right. exists m. split; [by apply Hall|done]. }
  pose proof (known_free _ _ _ _ Hknown Hfree) as Hf. destruct (map_at_ok V M b.1 HM Hp) as [Hw Hat].
  destruct (snapshot_holds V ms Hf [] B st b.1 (map_at M b.1)) as (t & st0 & E & He & Ht & Hst0 & Es);
    [by intros k d ?%elem_of_nil|done|done|done|done|].
  assert (forall obj, obj ∈ b.2 -> oDeleted obj = false -> obj ∈ live b.2) as Hin.
  { intros obj Hobj Hd. by apply list_elem_of_filter. }
  destruct (Trie_Commit_ok V ms Hf (map_at M) b.2 st0 B t (map_at M b.1))
    as (st' & t' & root & E' & Hc & Hkeep & Hkn & Hobjs & Hcodes); [done| | | |done|done| |by apply list_elem_of_here|].
  { eapply trie_holds_mono; [done| |done]. intros k d [Hs|?%elem_of_nil]; done. }
  { by eapply map_ok_keys, holds_at_ok. }
  { destruct Ht. lia. }
  { apply List.Forall_forall. intros obj Hobj%list_elem_of_In Hd. split.
    - apply map_at_ok; [done|]. rewrite List.Forall_forall in Hlive. by apply Hlive, list_elem_of_In, Hin.
    - apply list_elem_of_further, list_elem_of_fmap_2, Hin; done. }
  destruct Hc as (-> & Hst' & _ & _ & Hroot).
  exists st0, t, st', t'. split; [done|]. split; [done|]. cbn zeta. split; [by intros; apply Hknown, Hkn|].
  split; [done|]. assert (Forall (fun m => holds_at (stored_in (nodes (sStorage st'))) (map_root m) m) (block_maps M b)) as Hms.
  { constructor; [done|]. apply List.Forall_map, List.Forall_forall.
    intros obj [Hd Hobj]%list_elem_of_In%list_elem_of_filter. by apply Hobjs. }
  split; [apply add_maps_ok; [by eapply maps_ok_mono|done]|]. split; [done|]. split; [done|].
  intros. by rewrite Hcodes, Es.
Qed.

Lemma codes_ext blocks : forall c c', (forall h, is_word h -> c h = c' h) -> forall h, is_word h ->
  foldl (fun c (b : block) => foldl codes_after c b.2) c blocks h =
  foldl (fun c (b : block) => foldl codes_after c b.2) c' blocks h.
Proof.
  induction blocks as [|b blocks IH]; intros c c' Hcc; [done|]. apply IH. intros h. by apply codes_after_ext.
Qed.

(** Any number of them. *)
Lemma run_commits_ok all blocks : forall M B st, let V := nodes (sStorage st) in
  collision_free no_store all -> (forall k d, stored_in V k d -> known no_store all k d) ->
  state_ok V [] B st -> maps_ok V M -> 0 <= B -> B + work blocks < 2 ^ 32 -> blocks_ok M blocks ->
  (forall m, m ∈ history M blocks -> m ∈ all) ->
  exists st', run_commits blocks st = Ok (st', spec_roots M blocks) /\
    let V' := nodes (sStorage st') in
    (forall k d, stored_in V' k d -> known no_store all k d) /\ state_ok V' [] (B + work blocks) st' /\
    maps_ok V' (spec_maps M blocks) /\
    (forall k d, stored_in V k d -> stored_in V' k d) /\
    (forall m, m ∈ history M blocks -> holds_at (stored_in V') (map_root m) m) /\
    forall h, is_word h -> codes (sStorage st') h = foldl (fun c (b : block) => foldl codes_after c b.2) (codes (sStorage st)) blocks h.
Proof.
  induction blocks as [|b blocks IH]; intros M B st V Hfree HV Hst HM HB HB' Hok Hall.
  { exists st. rewrite Z.add_0_r. repeat (split; [done|]). split; [by intros m ?%elem_of_nil|done]. }
  destruct Hok as [Hb Hok]. cbn [work foldr] in HB'. fold (work blocks) in HB'.
  pose proof (work_nonneg blocks). assert (0 <= len b.2) by (unfold len; lia).
  destruct (run_block_ok all V M b B st) as (st0 & t & st1 & t1 & E & E' & HV1 & Hst1 & HM1 & Hk1 & Hms & Hc1);
    [done|done|done|done|done|done|lia|done| |].
  { intros m Hm. apply Hall. cbn [history]. apply elem_of_app. by left. }
  destruct (IH _ _ _ Hfree HV1 Hst1 HM1) as (st' & E2 & HV' & Hst' & HM' & Hk' & Hms' & Hc'); [lia|lia|done| |].
  { intros m Hm. apply Hall. cbn [history]. apply elem_of_app. by right. }
  exists st'. destruct b as [parent objs]. cbn [run_commits]. cbn in E, E'. rewrite E. cbn [obind of_option]. rewrite E'. cbn [obind].
  rewrite E2. cbn [obind]. split; [done|]. split; [done|]. split; [|split; [done|split; [by auto|split]]].
  - eapply state_later; [|exact Hst']. unfold work. cbn [foldr snd]. lia.
  - intros m [Hm|Hm]%elem_of_app; [|by apply Hms'].
    rewrite List.Forall_forall in Hms. eapply holds_at_mono; [|by apply Hms, list_elem_of_In]. auto.
  - intros h Hh. rewrite Hc' by done. cbn [foldl]. apply codes_ext; [|done]. by apply Hc1.
Qed.

(** ** Reading after a restart *)

(** A snapshot at the root reads the map. *)
Definition reads (st : State) (root : Hash) (m : bmap) : Prop :=
  exists t st', State_NewSnapshotAt root st = Ok (Some t, st') /\
    forall k, Forall is_byte k -> exists t', Trie_Get (Some (sStorage st')) k t = Ok (m !! k, t').

Lemma restart_reads ms s root m : collision_free (nodes s) ms -> is_word root ->
  holds_at (stored_in (nodes s)) root m -> reads (NewState s) root m.
Proof.
  intros Hfree Hw Hat. assert (state_ok (nodes s) [] 0 (NewState s)) as Hst.
  { split; [apply writing_new|]. intros r t Hin. by apply in_new in Hin. }
  assert (batch_ok ms []) as Hb by (by intros k d ?%elem_of_nil).
  destruct (snapshot_holds (nodes s) ms Hfree [] 0 (NewState s) root m Hb Hst) as (t & st' & E & He & Ht & Hst' & Es); [done..|].
  exists t, st'. split; [done|]. intros k Hk. unfold Trie_Get.
  destruct (Lookup_ok (Some (sStorage st')) (stored_in (nodes s)) (written_in (nodes s) [])
    (state_readable _ _ Hfree _ _ _ Hb Hst') (Trie_Txn t) m k) as (tx & -> & _); [by apply Trie_Txn_holds; [|lia]|done|].
  by eexists.
Qed.

(** ** The root says what the map is *)

Lemma all_nodes_subtrees (W : list Z -> list Z -> Prop) t :
  (forall u, subtree u t -> W (tkey u) (data u)) -> all_nodes W t.
Proof.
  induction t as [v|k t IH|ts IH] using mpt_ind'; intros Hu.
  - constructor.
  - constructor; [intros _; apply Hu, sub_refl|]. apply IH. intros u Hs. by apply Hu, sub_short.
  - constructor; [intros _; apply Hu, sub_refl|]. intros i t Ht. eapply IH; [done|]. intros u Hs. apply Hu. by eapply sub_full.
Qed.

Lemma is_root_binds m m' root : is_root m root -> is_root m' root -> collision_free no_store [m; m'] -> m = m'.
Proof.
  intros (ot & Hc & Ht & ->) (ot' & Hc' & Ht' & Er') [Hfun Hkn]. set (W := known no_store [m; m']).
  assert (forall m0 t, m0 ∈ [m; m'] -> canon t -> contents (Some t) m0 -> forall u, subtree u t -> W (tkey u) (data u)) as HW.
  { intros m0 t Hin Hct Hmt u Hu. right. exists m0. split; [done|]. by exists t, u. }
  assert (m ∈ [m; m']) as Hi by apply list_elem_of_here.
  assert (m' ∈ [m; m']) as Hi' by apply list_elem_of_further, list_elem_of_here.
  assert (ot = ot') as <-; [|by eapply contents_fun].
  destruct ot as [t|], ot' as [t'|]; cbn [mpt_root ocanon] in *; [|..|done].
  - pose proof (HW m t Hi Hc Ht) as Hu. pose proof (HW m' t' Hi' Hc' Ht') as Hu'. f_equal.
    apply (root_tree W); first [done|by apply all_nodes_subtrees|by apply Hu, sub_refl|by apply Hu', sub_refl|idtac].
    intros k d Hkd. by destruct (Hkn k d Hkd).
  - destruct (Hkn (tkey t) (data t)) as [_ []]; [by apply (HW m t Hi Hc Ht), sub_refl|done].
  - destruct (Hkn (tkey t') (data t')) as [_ []]; [by apply (HW m' t' Hi' Hc' Ht'), sub_refl|done].
Qed.

End history.
