(* ===== verification/MockTrie.v ===== *)
(** Values for the trie: the size, kind and elements of the trees of RlpTree.v,
    and a check that the nodes of given maps have different hashes. *)

From Stdlib Require Import ZArith Lia.
From stdpp Require Import base gmap list numbers.
From S2P Require Import Prelude Types Chain Rlp RlpTree Nibbles Txn Trie TrieRep TrieOps TrieHash TrieMap TrieState TrieHistory.

Open Scope Z_scope.
Open Scope outcome_scope.

(** A runtime whose hash is a residue modulo 2^256 - 189. *)
Definition hash_modulus : Z := Eval vm_compute in 2 ^ 256 - 189.

Definition residue_runtime : Runtime.
Proof.
  refine {| append_cap := fun _ n => n; Keccak256 := fun b => be_encode 32 (be_decode (1 :: b) mod hash_modulus);
            rlp_address_nonce := fun a n => a ++ [n] |}; [done| |].
  - intros b. apply be_encode_length.
  - intros b. apply be_encode_bytes.
Defined.

(** ** The trees of RlpTree.v *)

#[export] Instance tree_nodes `{Runtime} : NodeRLP := {|
  Value_Len v := match v with RBytes b => len b | RArray _ => len (encode v) end;
  IsBytes v := match v with RBytes _ => true | RArray _ => false end;
  IsArray v := match v with RBytes _ => false | RArray _ => true end;
  Raw v := match v with RBytes b => b | RArray _ => [] end;
  Elems v := match v with RBytes _ => 0%nat | RArray vs => length vs end;
  Value_Get v i := match v with RBytes _ => None | RArray vs => vs !! i end
|}.

Lemma prefix_bytes base n : 0 <= base <= 192 -> 0 <= n < 2 ^ 63 -> Forall is_byte (prefix base n).
Proof.
  intros Hb Hn. unfold prefix. destruct (Z.leb_spec n 55); [repeat constructor; unfold is_byte; lia|].
  assert (length (big_Bytes n) <= 8)%nat by (apply big_Bytes_length; lia).
  constructor; [unfold is_byte, len; lia|apply big_Bytes_bytes].
Qed.

Lemma encode_bytes v : bytes_in v -> len (encode v) < 2 ^ 63 -> Forall is_byte (encode v).
Proof.
  assert (forall base n p, 0 <= base <= 192 -> 0 <= n -> n <= len p -> Forall is_byte p -> len (prefix base n ++ p) < 2 ^ 63 ->
    Forall is_byte (prefix base n ++ p)) as Hp.
  { intros base n p Hb Hn Hnp Hpb Hl. apply Forall_app. split; [|done]. apply prefix_bytes; [done|].
    unfold len in *. rewrite length_app in Hl. lia. }
  induction v as [b|vs IH] using tree_ind'; intros Hb Hl.
  - destruct b as [|x [|y b]]; cbn [encode] in *; [by apply Hp; unfold len; cbn; try lia| |].
    + case_match; [done|]. apply Hp; unfold len; cbn; try lia; done.
    + apply Hp; try (unfold len; cbn; lia); done.
  - cbn [encode] in *. apply Hp; try (unfold len; lia); [|done]. apply Forall_concat.
    apply List.Forall_map, List.Forall_forall. intros v Hv. apply bytes_in_elems in Hb. rewrite List.Forall_forall in IH, Hb.
    apply IH; [done|by apply Hb|]. pose proof (encode_elem_length v vs Hv) as Hlt. cbn [encode] in Hlt. unfold len in *. lia.
Qed.

#[export] Instance tree_nodes_ok `{Runtime} : NodeRLPOk.
Proof.
  constructor.
  - by intros [|x [|y b]].
  - intros n. cbn. by destruct (big_Bytes n) as [|x [|y b]].
  - intros n. cbn. by destruct (big_Bytes n) as [|x [|y b]].
  - done.
  - done.
  - intros v. apply encode_bytes.
  - done.
  - done.
  - done.
  - done.
  - by intros b v <-.
  - by intros v <-.
  - intros vs v Hd. change (NewArray vs = v) in Hd. subst v. repeat (split; [done|]). intros i w E. exists w. split; [exact E|reflexivity].
Defined.

(** ** The nodes of a map *)

Section nodes.
Context `{FastRLP} `{Runtime} `{!FastRLPOk} `{!NodeRLP} `{!NodeRLPOk} `{TrieStorage}.

Fixpoint node_tree (n : Node) : mpt :=
  match n with
  | ValueNode _ v => Leaf v
  | ShortNode _ k (Some c) => Short k (node_tree c)
  | ShortNode _ k None => Leaf []
  | FullNode _ _ ns => Full (map (fun o => match o with Some n => Some (node_tree n) | None => None end) ns)
  end.

Lemma rep_node_tree W Q t : forall n, rep (fun _ _ => False) W Q n t -> node_tree n = t.
Proof.
  assert (forall t, canon t -> big t -> all_nodes (fun _ _ => False) t -> False) as Hno.
  { intros u Hc Hb Ha. by apply (all_nodes_here _ u Hc Ha). }
  induction t as [v|k t IH|ts IH] using mpt_ind'; intros n Hn; inversion Hn; subst; try (by exfalso; eapply Hno); [done| |].
  - cbn. f_equal. by apply IH.
  - cbn [node_tree]. f_equal. match goal with Hf : Forall2 _ _ ts |- _ => rename Hf into HF end.
    apply list_eq. intros i. rewrite list_lookup_fmap.
    destruct (ns !! i) as [o|] eqn:Eo; cbn.
    + destruct (Forall2_lookup_l _ _ _ _ _ HF Eo) as (o' & Eo' & Ho). rewrite Eo'. f_equal.
      inversion Ho; subst; [|done]. f_equal. by eapply IH.
    + symmetry. apply lookup_ge_None. rewrite <- (Forall2_length HF). by apply lookup_ge_None.
Qed.

Fixpoint subs (t : mpt) : list mpt :=
  t :: match t with
       | Leaf _ => []
       | Short _ t => subs t
       | Full ts => concat (map (fun o => match o with Some t => subs t | None => [] end) ts)
       end.

Lemma subtree_subs u t : subtree u t -> u ∈ subs t.
Proof.
  induction 1 as [|k t Hs IH|ts i t Ht Hs IH]; [destruct u; apply list_elem_of_here|by apply list_elem_of_further|].
  cbn [subs]. apply list_elem_of_further. apply list_elem_of_In, in_concat. exists (subs t).
  split; [|by apply list_elem_of_In]. apply in_map_iff. exists (Some t). split; [done|].
  apply list_elem_of_In. by eapply list_elem_of_lookup_2.
Qed.

Definition map_nodes (m : bmap) : list (list Z * list Z) :=
  match run_ops None (build m) (Trie_Txn NewTrie) with
  | Ok tx => match tRoot tx with
             | Some n => map (fun u => (tkey u, data u)) (subs (node_tree n))
             | None => []
             end
  | _ => []
  end.

Lemma node_of_nodes n m k d : map_ok n m -> node_of m k d -> (k, d) ∈ map_nodes m.
Proof.
  intros Hm (t & u & Hc & Ht & Hu & -> & ->). unfold map_nodes.
  destruct (run_ops_ok None (fun _ _ => False) (fun _ _ => False) ltac:(by intros k d []) n (build m) (Trie_Txn NewTrie) ∅)
    as (tx & -> & (_ & ot & [Hr Hc'] & Hm') & _); [by apply Trie_Txn_holds; [apply NewTrie_holds|]|by intros k v; rewrite lookup_empty|by apply build_ok|].
  rewrite build_map in Hm'. pose proof (contents_unique _ (Some t) m Hc' Hc Hm' Ht) as ->.
  inversion Hr as [nd t' Hn En Et|]; subst. rewrite (rep_node_tree _ _ _ _ Hn).
  apply list_elem_of_fmap. exists u. split; [done|]. by apply subtree_subs.
Qed.

(** ** The check *)

Definition map_okb (n : nat) (m : bmap) : bool :=
  forallb (fun '(k, v) => forallb (fun x => (0 <=? x) && (x <? 256)) k && (length k =? n)%nat &&
    forallb (fun x => (0 <=? x) && (x <? 256)) v && negb (len v =? 0)) (map_to_list m).

Lemma map_okb_ok n m : map_okb n m = true -> map_ok n m.
Proof.
  assert (forall b, forallb (fun x => (0 <=? x) && (x <? 256)) b = true -> Forall is_byte b) as Hbytes.
  { intros b Hb. apply List.Forall_forall. intros x Hx. rewrite forallb_forall in Hb. specialize (Hb x Hx).
    apply andb_true_iff in Hb as [?%Z.leb_le ?%Z.ltb_lt]. unfold is_byte. lia. }
  unfold map_okb. rewrite forallb_forall. intros Hm k v E.
  specialize (Hm (k, v) ltac:(by apply list_elem_of_In, elem_of_map_to_list)). cbn in Hm.
  apply andb_true_iff in Hm as [[[Hk Hl%Nat.eqb_eq]%andb_true_iff Hv]%andb_true_iff Hn%negb_true_iff%Z.eqb_neq].
  repeat split; auto. intros ->. by apply Hn.
Qed.

Definition free_check (ms : list bmap) : bool :=
  let l := concat (map map_nodes ms) in
  forallb (fun '(k, d) => (len d <? 2 ^ 63) && negb (bool_decide (k = Hash_Bytes EmptyRootHash)) &&
    forallb (fun '(k', d') => negb (bool_decide (k = k')) || bool_decide (d = d')) l) l.

Lemma free_check_ok n ms : forallb (map_okb n) ms = true -> free_check ms = true -> collision_free no_store ms.
Proof.
  unfold free_check. set (l := concat (map map_nodes ms)). intros Hms Hl. rewrite forallb_forall in Hms, Hl.
  assert (forall k d, known no_store ms k d -> In (k, d) l) as Hin.
  { intros k d [(_ & E & _)|(m & Hm & Hn)]; [done|]. apply in_concat. exists (map_nodes m).
    apply list_elem_of_In in Hm. split; [by apply in_map|]. apply list_elem_of_In.
    eapply (node_of_nodes n); [by apply map_okb_ok, Hms|done]. }
  split.
  - intros k d d' Hd Hd'. apply Hin in Hd. apply Hin in Hd'. specialize (Hl _ Hd). cbn in Hl.
    apply andb_true_iff in Hl as [_ Hl]. rewrite forallb_forall in Hl. specialize (Hl _ Hd'). cbn in Hl.
    rewrite bool_decide_true in Hl by done. by apply bool_decide_eq_true in Hl.
  - intros k d Hd. apply Hin in Hd. specialize (Hl _ Hd). cbn [fst snd] in Hl.
    apply andb_true_iff in Hl as [[Hlen%Z.ltb_lt Hk]%andb_true_iff _]. split; [done|].
    intros ->. by rewrite bool_decide_true in Hk.
Qed.

End nodes.
