(* ===== verification/TrieMain.v ===== *)
(** What the state trie promises: it is a map, its root is that of the map, and
    what was committed is read back. *)

From Stdlib Require Import ZArith Lia.
From stdpp Require Import base gmap list numbers.
From S2P Require Import Prelude Types Chain Rlp RlpTree Nibbles Txn Trie TrieRep TrieOps TrieHash TrieMap TrieState TrieDB TrieHistory MockTrie.

Open Scope Z_scope.
Open Scope outcome_scope.

Section main.
Context `{FastRLP} `{Runtime} `{!FastRLPOk} `{!NodeRLP} `{!NodeRLPOk}.

(** ** A trie is a map *)

Lemma fresh_run `{TrieStorage} n ops : Forall (op_ok n) ops ->
  exists tx, run_ops None ops (Trie_Txn NewTrie) = Ok tx /\
    txn_holds (fun _ _ => False) (fun _ _ => False) tx (foldl spec_op ∅ ops).
Proof.
  intros Hops.
  destruct (run_ops_ok None (fun _ _ => False) (fun _ _ => False) ltac:(by intros k d []) n ops (Trie_Txn NewTrie) ∅)
    as (tx & E & Htx & _); [by apply Trie_Txn_holds; [apply NewTrie_holds|]|by intros k v; rewrite lookup_empty|done|].
  by exists tx.
Qed.

(** C10: any sequence of insertions and deletions of keys of one length on a new
    trie succeeds, a lookup of any key finds what the sequence leaves for it, and
    any other sequence that leaves the same map gives the same root hash. *)
Theorem trie_refines_map `{TrieStorage} n ops k : Forall (op_ok n) ops -> Forall is_byte k ->
  exists tx, run_ops None ops (Trie_Txn NewTrie) = Ok tx /\
    (exists tx', Lookup None k tx = Ok (foldl spec_op ∅ ops !! k, tx')) /\
    exists root tx' puts, Txn_Hash tx = Ok (root, tx', puts) /\
      forall ops' tx2, Forall (op_ok n) ops' -> foldl spec_op ∅ ops' = foldl spec_op ∅ ops ->
        run_ops None ops' (Trie_Txn NewTrie) = Ok tx2 ->
        exists tx2' puts', Txn_Hash tx2 = Ok (root, tx2', puts').
Proof.
  intros Hops Hk. destruct (fresh_run n ops Hops) as (tx & E & Htx). exists tx. split; [done|]. split.
  { destruct (Lookup_ok None (fun _ _ => False) (fun _ _ => False) ltac:(by intros ? ? []) tx _ k Htx Hk) as (tx' & E' & _).
    by exists tx'. }
  destruct (Txn_Hash_root _ _ tx _ ltac:(done) Htx) as (root & tx' & puts & Eh & Hr). exists root, tx', puts.
  split; [done|]. intros ops' tx2 Hops' Em E2. destruct (fresh_run n ops' Hops') as (tx3 & E3 & Htx3).
  assert (tx3 = tx2) as -> by congruence.
  destruct (Txn_Hash_root _ _ tx2 _ ltac:(done) Htx3) as (root2 & tx2' & puts' & Eh2 & Hr2). rewrite Em in Hr2.
  exists tx2', puts'. by rewrite (is_root_unique _ _ _ Hr Hr2).
Qed.

(** ** The root says what the map is *)

(** C26: two states with the same root hash are the same, unless two of their
    trie nodes have the same hash. *)
Theorem root_binds_contents `{TrieStorage} n m m' : map_ok n m -> map_ok n m' ->
  collision_free no_store [m; m'] -> map_root m = map_root m' -> m = m'.
Proof.
  intros Hm Hm' Hfree E. destruct (map_root_ok n m Hm) as [Hr _]. destruct (map_root_ok n m' Hm') as [Hr' _].
  rewrite E in Hr. by eapply is_root_binds.
Qed.

(** ** Committed states *)

Context `{TrieStorage} `{!TrieStorageOk} `{LRU} `{!LRUOk}.

(** The empty state. *)
Definition genesis : maps := {[ EmptyRootHash := ∅ ]}.

Lemma genesis_ok V : maps_ok V genesis.
Proof.
  intros root m E. unfold genesis in E. apply lookup_singleton_Some in E as [<- <-]. split; [done|]. exists None. split; [done|].
  split; [apply contents_empty|]. split; [by intros k v; rewrite lookup_empty|done].
Qed.

(** C4: commits on an empty storage, each on the state of any earlier root, return
    the roots of the maps they leave; after a restart, which loses the caches, a
    snapshot at the root of any state or account storage of the history reads
    exactly its map, and every code that was stored is found. *)
Theorem history_readable s0 blocks : (forall k, nodes s0 k = None) ->
  blocks_ok genesis blocks -> collision_free no_store (history genesis blocks) -> work blocks < 2 ^ 32 ->
  exists st, run_commits blocks (NewState s0) = Ok (st, spec_roots genesis blocks) /\
    (forall m, m ∈ history genesis blocks -> reads (NewState (sStorage st)) (map_root m) m) /\
    forall h, is_word h -> st_GetCode (sStorage st) h =
      Ok (foldl (fun c (b : block) => foldl codes_after c b.2) (codes s0) blocks h).
Proof.
  intros Hs0 Hok Hfree HB.
  assert (forall k d, ~ stored_in (nodes s0) k d) as Hno by (intros k d (_ & E & _); by rewrite Hs0 in E).
  destruct (run_commits_ok (history genesis blocks) blocks genesis 0 (NewState s0)) as (st & E & Hkn & _ & _ & _ & Hh & Hc);
    [done|by intros k d ?%Hno| |apply genesis_ok|done|lia|done|done|].
  { split; [apply writing_new|]. intros r t Hin. by apply in_new in Hin. }
  exists st. split; [done|]. split.
  - intros m Hm. pose proof (Hh m Hm) as Hat. apply (restart_reads []).
    + eapply known_free; [|exact Hfree]. intros k d [Hs|(m' & ?%elem_of_nil & _)]; [by apply Hkn|done].
    + eapply (map_root_ok 32). by eapply holds_at_ok.
    + done.
  - intros h Hw. rewrite codes_get. f_equal. by apply Hc.
Qed.


End main.

(** ** Examples *)

#[local] Existing Instances residue_runtime Mem.storage Mem.storage_ok map_lru map_lru_ok.

Definition example_ops : list trie_op :=
  [OpInsert [17] [5]; OpInsert [18] [6]; OpInsert [33] [7]; OpDelete [18]; OpInsert [17] [8]].

Lemma trie_refines_map_witness : exists tx, run_ops None example_ops (Trie_Txn NewTrie) = Ok tx /\
  (exists tx', Lookup None [17] tx = Ok (Some [8], tx')) /\ exists root tx' puts, Txn_Hash tx = Ok (root, tx', puts).
Proof.
  destruct (trie_refines_map 1 example_ops [17]) as (tx & E & El & root & tx' & puts & Eh & _).
  - repeat constructor; done.
  - by repeat constructor.
  - exists tx. split; [exact E|]. split; [exact El|]. by exists root, tx', puts.
Defined.

Definition example_map : bmap := <[[17; 1] := [5]]> {[ [18; 2] := [6] ]}.

Lemma root_binds_contents_witness : example_map = <[[18; 2] := [6]]> {[ [17; 1] := [5] ]}.
Proof.
  apply (root_binds_contents 2).
  - apply map_okb_ok. by vm_compute.
  - apply map_okb_ok. by vm_compute.
  - apply (free_check_ok 2); by vm_compute.
  - by vm_compute.
Defined.

(** An account with code and a storage slot, and the block after it, which changes
    the nonce, clears the slot and sets two others. *)
Definition example_slot (deleted : bool) (k v : Z) : StorageObject :=
  mkStorageObject deleted (Hash_Bytes k) (Hash_Bytes v).

Definition block1 : block :=
  (EmptyRootHash, [mkObject 7 77 100 EmptyRootHash 1 false true [96; 0] [example_slot false 1 5]]).

Definition maps1 : maps := add_maps (block_maps genesis block1) genesis.
Definition root1 : Hash := Eval vm_compute in map_root (block_accounts genesis block1).
Definition storage1 : Hash := Eval vm_compute in map_root (object_map (map_at genesis) (mkObject 7 77 100 EmptyRootHash 1 false true [96; 0] [example_slot false 1 5])).

Definition block2 : block :=
  (root1, [mkObject 7 77 90 storage1 2 false false [] [example_slot true 1 0; example_slot false 2 6; example_slot false 17 300]]).

Lemma example_object_ok root a h bal n d dirty code es : is_word root -> is_u64 n -> is_word bal -> is_word h ->
  object_ok (mkObject a h bal root n d dirty code (map (fun '(d, k, v) => example_slot d k v) es)).
Proof.
  intros. split; try done. cbn. apply List.Forall_map, List.Forall_forall. intros [[d' k] v] _. split; [apply be_encode_bytes|done].
Qed.

Lemma example_blocks_ok : blocks_ok genesis [block1; block2].
Proof.
  split; [|split; [|done]]; (split; [|split]).
  - apply (bool_decide_unpack _). by vm_compute.
  - constructor; [|done]. by apply (example_object_ok _ _ _ _ _ _ _ _ [(false, 1, 5)]).
  - constructor; [|done]. apply (bool_decide_unpack _). by vm_compute.
  - apply (bool_decide_unpack _). by vm_compute.
  - constructor; [|done]. by apply (example_object_ok _ _ _ _ _ _ _ _ [(true, 1, 0); (false, 2, 6); (false, 17, 300)]).
  - constructor; [|done]. apply (bool_decide_unpack _). by vm_compute.
Qed.

Lemma history_readable_witness : exists st,
  run_commits [block1; block2] (NewState Mem.NewMemoryStorage) = Ok (st, spec_roots genesis [block1; block2]) /\
  (forall m, m ∈ history genesis [block1; block2] -> reads (NewState (sStorage st)) (map_root m) m) /\
  st_GetCode (sStorage st) 77 = Ok (Some [96; 0]).
Proof.
  destruct (history_readable (Mem.NewMemoryStorage : @stor Mem.storage) [block1; block2]) as (st & E & Hr & Hc).
  - done.
  - apply example_blocks_ok.
  - apply (free_check_ok 32); by vm_compute.
  - done.
  - exists st. split; [exact E|]. split; [exact Hr|]. rewrite (Hc 77) by (clear; done). clear. by vm_compute.
Defined.


(** ** Where the operations are not those of a map *)

Definition sequence (ops : list trie_op) (k : list Z) : outcome (option (list Z)) :=
  let^ tx := run_ops None ops (Trie_Txn NewTrie) in
  let^ (v, _) := Lookup None k tx in
  Ok v.

(** with keys of different lengths, deleting a key that is not in the trie can
    remove another one: [delete] goes on below a short node when only a part of
    its key has matched. *)
Theorem delete_removes_other_key : exists ops k k' v, k <> k' /\ v <> None /\
  sequence ops k' = Ok v /\ sequence (ops ++ [OpDelete k]) k' = Ok None.
Proof.
  exists [OpInsert [18; 19] [5]; OpInsert [18; 20] [6]], [19], [18; 19], (Some [5]).
  split; [done|]. split; [done|]. split; by vm_compute.
Qed.

(** The root after two runs of operations, each with a hash at its end, on one
    transaction. *)
Definition rehashed (ops ops' : list trie_op) : outcome (list Z) :=
  let^ tx := run_ops None ops (Trie_Txn NewTrie) in
  let^ (_, tx, _) := Txn_Hash tx in
  let^ tx := run_ops None ops' tx in
  let^ (root, _, _) := Txn_Hash tx in
  Ok root.

(** A transaction that is hashed keeps the hashes of its full nodes: what is
    inserted below them afterwards does not change the root. *)
Lemma rehash_is_stale : exists ops ops', ops' <> [] /\ rehashed ops ops' = rehashed ops [] /\
  foldl spec_op ∅ (ops ++ ops') <> foldl spec_op ∅ ops.
Proof.
  exists [OpInsert [18] (replicate 33 5); OpInsert [35] (replicate 33 6)], [OpInsert [52] (replicate 33 7)].
  split; [done|]. split; [by vm_compute|]. intros E. by apply (f_equal (fun m : bmap => m !! [52])) in E.
Qed.
