(* ===== verification/TxnFacts.v ===== *)
(** Facts about the state transaction: reads after writes, rollback, and how
    each operation changes the sum of all balances. *)

From Stdlib Require Import ZArith Lia.
From stdpp Require Import base gmap list numbers sorting.
From S2P Require Import Prelude Types Chain Txn.

Open Scope Z_scope.

(** ** Sums over finite sets of addresses *)

Definition sum_over (D : gset Z) (f : Z -> Z) : Z := foldr Z.add 0 (f <$> elements D).

Lemma sum_list_perm (l1 l2 : list Z) : l1 ≡ₚ l2 -> foldr Z.add 0 l1 = foldr Z.add 0 l2.
Proof. induction 1; simpl; lia. Qed.

Lemma sum_empty f : sum_over ∅ f = 0.
Proof. unfold sum_over. by rewrite elements_empty. Qed.

Lemma sum_insert a D f : a ∉ D -> sum_over ({[a]} ∪ D) f = f a + sum_over D f.
Proof.
  intros Ha. unfold sum_over. erewrite sum_list_perm; [|apply fmap_Permutation, elements_union_singleton, Ha].
  done.
Qed.

(** Two functions that agree outside [D] have the same difference over every
    larger set. *)
Lemma sum_diff D E f g :
  D ⊆ E -> (forall a, a ∉ D -> g a = f a) ->
  sum_over E g - sum_over E f = sum_over D g - sum_over D f.
Proof.
  intros HDE Hout. rewrite (union_difference_L D E HDE), union_comm_L.
  assert (Hd : E ∖ D ## D) by set_solver. revert Hd. generalize (E ∖ D). clear HDE.
  intros X. induction X as [|a X Ha IH] using set_ind_L; intros Hd.
  - by rewrite union_empty_l_L.
  - rewrite <- union_assoc_L. rewrite !sum_insert by set_solver.
    rewrite Hout by set_solver. specialize (IH ltac:(set_solver)). lia.
Qed.

Lemma sum_singleton a f : sum_over {[a]} f = f a.
Proof.
  rewrite <- (union_empty_r_L {[a]}), sum_insert by set_solver. rewrite sum_empty. lia.
Qed.

Lemma sum_nonneg D f : (forall a, 0 <= f a) -> 0 <= sum_over D f.
Proof.
  intros Hf. induction D as [|a D Ha IH] using set_ind_L; [by rewrite sum_empty|].
  rewrite sum_insert by done. specialize (Hf a). lia.
Qed.

Lemma sum_subset D E f : D ⊆ E -> (forall a, 0 <= f a) -> sum_over D f <= sum_over E f.
Proof.
  intros HDE Hf. rewrite (union_difference_L D E HDE), union_comm_L.
  assert (Hd : E ∖ D ## D) by set_solver. revert Hd. generalize (E ∖ D). clear HDE.
  intros X. induction X as [|a X Ha IH] using set_ind_L; intros Hd.
  - by rewrite union_empty_l_L.
  - rewrite <- union_assoc_L, sum_insert by set_solver. specialize (Hf a).
    specialize (IH ltac:(set_solver)). lia.
Qed.

(** ** Changes of the sum of all balances *)

(** [delta k f g]: going from balances [f] to [g] adds at most [k] to their sum. *)
Definition delta (k : Z) (f g : Z -> Z) : Prop :=
  exists D : gset Z, (forall a, a ∉ D -> g a = f a) /\ sum_over D g <= sum_over D f + k.

Lemma delta_refl f : delta 0 f f.
Proof. exists ∅. split; [done|lia]. Qed.

Lemma delta_trans k1 k2 f g h : delta k1 f g -> delta k2 g h -> delta (k1 + k2) f h.
Proof.
  intros (D1 & Ho1 & Hs1) (D2 & Ho2 & Hs2). exists (D1 ∪ D2). split.
  { intros a Ha. rewrite Ho2, Ho1; set_solver. }
  pose proof (sum_diff D1 (D1 ∪ D2) f g ltac:(set_solver) Ho1).
  pose proof (sum_diff D2 (D1 ∪ D2) g h ltac:(set_solver) Ho2). lia.
Qed.

Lemma delta_weaken k1 k2 f g : delta k1 f g -> k1 <= k2 -> delta k2 f g.
Proof. intros (D & ? & ?) ?. exists D. split; [done|lia]. Qed.

(** A change at one address. *)
Lemma delta_at a k f g : (forall b, b <> a -> g b = f b) -> g a <= f a + k -> delta k f g.
Proof.
  intros Ho Ha. exists {[a]}. split; [set_solver|]. rewrite !sum_singleton. lia.
Qed.

Lemma delta_ext f g : (forall a, g a = f a) -> delta 0 f g.
Proof. intros Hg. exists ∅. split; [done|]. rewrite !sum_empty. lia. Qed.

(** The sum of all balances is below 2^256. *)
Definition bounded (f : Z -> Z) : Prop :=
  (forall a, 0 <= f a) /\ forall D, sum_over D f < 2 ^ 256.

Lemma bounded_word f a : bounded f -> is_word (f a).
Proof. intros [Hn Hb]. split; [done|]. rewrite <- (sum_singleton a f). apply Hb. Qed.

Lemma delta_bounded f g : bounded f -> (forall a, 0 <= g a) -> delta 0 f g -> bounded g.
Proof.
  intros [Hn Hb] Hg (D & Ho & Hs). split; [done|]. intros E.
  pose proof (sum_subset E (D ∪ E) g ltac:(set_solver) Hg).
  pose proof (sum_diff D (D ∪ E) f g ltac:(set_solver) Ho). specialize (Hb (D ∪ E)). lia.
Qed.

(** ** Reads after writes *)

Section facts.
Context `{Runtime} `{StateDB}.
Implicit Types (t : Tx.Txn) (o : Tx.StateObject) (a b : Address).

Abbreviation bal t := (Tx.GetBalance t).

Lemma get_insert a o t b :
  Tx.getStateObject (Tx.insert_obj a o t) b =
  if decide (a = b) then if Tx.Deleted o then None else Some (Tx.StateObject_Copy o)
  else Tx.getStateObject t b.
Proof.
  unfold Tx.getStateObject. cbn [Tx.insert_obj Tx.set_txn Tx.txn Tx.objs Tx.snap Tx.state].
  destruct (decide (a = b)) as [->|Hne]; [by rewrite lookup_insert_eq|by rewrite lookup_insert_ne].
Qed.

Lemma get_not_deleted t a o : Tx.getStateObject t a = Some o -> Tx.Deleted o = false.
Proof.
  unfold Tx.getStateObject. destruct (Tx.objs (Tx.txn t) !! a) as [x|].
  - destruct (Tx.Deleted x) eqn:E; [done|]. intros [= <-]. done.
  - repeat case_match; intros ?; by simplify_eq.
Qed.

Lemma decode_abs z : be_decode (big_Bytes z) = Z.abs z.
Proof. apply be_decode_big_Bytes. Qed.

Lemma get_balance_nonneg t a o : Tx.getStateObject t a = Some o -> 0 <= Tx.Balance (Tx.account o).
Proof.
  unfold Tx.getStateObject. destruct (Tx.objs (Tx.txn t) !! a) as [x|].
  - destruct (Tx.Deleted x); [done|]. intros [= <-]. simpl. rewrite decode_abs. lia.
  - repeat case_match; intros ?; simplify_eq; simpl; rewrite decode_abs; lia.
Qed.

Lemma bal_nonneg t a : 0 <= bal t a.
Proof.
  unfold Tx.GetBalance. destruct (Tx.getStateObject t a) eqn:E; [|done].
  by eapply get_balance_nonneg.
Qed.

(** The object an update starts from. *)
Definition object_or_new t a : Tx.StateObject :=
  match Tx.getStateObject t a with Some o => o | None => Tx.newStateObject t end.

Lemma upsert_eq a f t : Tx.upsertAccount a true f t = Tx.insert_obj a (f (object_or_new t a)) t.
Proof. unfold Tx.upsertAccount, object_or_new. by destruct (Tx.getStateObject t a). Qed.

Lemma object_or_new_live t a : Tx.Deleted (object_or_new t a) = false.
Proof.
  unfold object_or_new. destruct (Tx.getStateObject t a) eqn:E; [|done]. by eapply get_not_deleted.
Qed.

Lemma object_or_new_bal t a : Tx.Balance (Tx.account (object_or_new t a)) = bal t a.
Proof. unfold object_or_new, Tx.GetBalance. by destruct (Tx.getStateObject t a). Qed.

(** An update that keeps the object alive. *)
Lemma get_upsert a f t b :
  (forall o, Tx.Deleted (f o) = Tx.Deleted o) ->
  Tx.getStateObject (Tx.upsertAccount a true f t) b =
  if decide (a = b) then Some (Tx.StateObject_Copy (f (object_or_new t a)))
  else Tx.getStateObject t b.
Proof.
  intros Hf. rewrite upsert_eq, get_insert. by rewrite Hf, object_or_new_live.
Qed.

Lemma bal_upsert a f t b :
  (forall o, Tx.Deleted (f o) = Tx.Deleted o) ->
  bal (Tx.upsertAccount a true f t) b =
  if decide (a = b) then Z.abs (Tx.Balance (Tx.account (f (object_or_new t a)))) else bal t b.
Proof.
  intros Hf. unfold Tx.GetBalance at 1. rewrite get_upsert by done.
  destruct (decide (a = b)); [|done]. simpl. apply decode_abs.
Qed.

(** An update that does not touch the balance. *)
Lemma bal_upsert_same a f t b :
  (forall o, Tx.Deleted (f o) = Tx.Deleted o) ->
  (forall o, Tx.Balance (Tx.account (f o)) = Tx.Balance (Tx.account o)) ->
  bal (Tx.upsertAccount a true f t) b = bal t b.
Proof.
  intros Hd Hb. rewrite bal_upsert by done. destruct (decide (a = b)) as [->|]; [|done].
  rewrite Hb, object_or_new_bal. apply Z.abs_eq, bal_nonneg.
Qed.

Lemma bal_AddBalance a v t b : 0 <= v ->
  bal (Tx.AddBalance a v t) b = if decide (a = b) then bal t a + v else bal t b.
Proof.
  intros Hv. unfold Tx.AddBalance. rewrite bal_upsert by done. destruct (decide (a = b)); [|done].
  simpl. rewrite object_or_new_bal. pose proof (bal_nonneg t a). lia.
Qed.

Lemma SubBalance_spec a v t t' : 0 <= v -> Tx.SubBalance a v t = Some t' ->
  v <= bal t a /\ forall b, bal t' b = if decide (a = b) then bal t a - v else bal t b.
Proof.
  intros Hv. unfold Tx.SubBalance. pose proof (bal_nonneg t a) as Hn.
  destruct (Z.eqb_spec (Z.sgn v) 0) as [Hz|Hz].
  { intros [= <-]. assert (v = 0) as -> by lia. split; [done|]. intros b.
    destruct (decide (a = b)) as [->|]; lia. }
  destruct (Z.ltb_spec (bal t a) v); [done|]. intros [= <-]. split; [done|]. intros b.
  rewrite bal_upsert by done. destruct (decide (a = b)); [|done]. simpl.
  rewrite object_or_new_bal. lia.
Qed.

Lemma bal_IncrNonce a t b : bal (Tx.IncrNonce a t) b = bal t b.
Proof. by apply bal_upsert_same. Qed.
Lemma bal_TouchAccount a t b : bal (Tx.TouchAccount a t) b = bal t b.
Proof. by apply bal_upsert_same. Qed.
Lemma bal_SetCode a c t b : bal (Tx.SetCode a c t) b = bal t b.
Proof. by apply bal_upsert_same. Qed.
Lemma bal_SetState a k v t b : bal (Tx.SetState a k v t) b = bal t b.
Proof. by apply bal_upsert_same. Qed.

(** Operations that leave the accounts alone. *)
Lemma get_objs t t' a :
  Tx.objs (Tx.txn t') = Tx.objs (Tx.txn t) -> Tx.snap t' = Tx.snap t -> Tx.state t' = Tx.state t ->
  Tx.getStateObject t' a = Tx.getStateObject t a.
Proof. intros E1 E2 E3. unfold Tx.getStateObject. by rewrite E1, E2, E3. Qed.

Lemma bal_objs t t' a :
  Tx.objs (Tx.txn t') = Tx.objs (Tx.txn t) -> Tx.snap t' = Tx.snap t -> Tx.state t' = Tx.state t ->
  bal t' a = bal t a.
Proof. intros. unfold Tx.GetBalance. by rewrite (get_objs t t'). Qed.

Lemma bal_put_refund r t b : bal (Tx.put_refund r t) b = bal t b.
Proof. by apply bal_objs. Qed.
Lemma bal_AddLog l t b : bal (Tx.AddLog l t) b = bal t b.
Proof. by apply bal_objs. Qed.

Lemma bal_SetStorage t a k v f b : bal (snd (Tx.SetStorage t a k v f)) b = bal t b.
Proof.
  unfold Tx.SetStorage, Tx.AddRefund, Tx.SubRefund.
  repeat case_match; cbn [snd]; by rewrite ?bal_put_refund, ?bal_SetState.
Qed.

Lemma bal_CreateAccount a t b : bal (Tx.CreateAccount a t) b = bal t b.
Proof.
  unfold Tx.GetBalance at 1. unfold Tx.CreateAccount. rewrite get_insert.
  destruct (decide (a = b)) as [->|]; [|done].
  unfold Tx.GetBalance. destruct (Tx.getStateObject t b) as [p|] eqn:E; simpl; rewrite !decode_abs; [|done].
  apply get_balance_nonneg in E. lia.
Qed.

Lemma bal_Suicide a t b :
  bal (snd (Tx.Suicide_op a t)) b = if decide (a = b) then 0 else bal t b.
Proof.
  unfold Tx.Suicide_op, Tx.upsertAccount. cbn [snd].
  destruct (Tx.getStateObject t a) as [o|] eqn:E.
  - unfold Tx.GetBalance at 1. rewrite get_insert. destruct (decide (a = b)); [|done].
    simpl. by rewrite (get_not_deleted _ _ _ E).
  - destruct (decide (a = b)) as [<-|]; [|done]. unfold Tx.GetBalance. by rewrite E.
Qed.

Lemma bal_GetCode t a b : bal (snd (Tx.GetCode t a)) b = bal t b.
Proof.
  unfold Tx.GetCode. repeat case_match; cbn [snd]; try done; by apply bal_objs.
Qed.

End facts.
