(* ===== verification/Bloom.v ===== *)
(** The logs bloom filter of src/types/receipt.go. *)

From Stdlib Require Import ZArith Lia.
From stdpp Require Import base list numbers.
From S2P Require Import Prelude Types Chain Slice VM Txn.

Open Scope Z_scope.

Module Bloom.
Section bloom.
Context `{Runtime}.

Definition BloomByteLength : nat := 256.

Definition zero_bloom : list Z := replicate BloomByteLength 0.

(** The bit number taken from two bytes of the hash; [nth_byte] is an index of
    the 32-byte hash, always in range. *)
Definition nth_byte (buf : list Z) (i : nat) : Z := default 0 (buf !! i).
Definition bit_at (buf : list Z) (i : nat) : Z :=
  Z.land (nth_byte buf (i + 1) + Z.shiftl (nth_byte buf i) 8) 2047.

Definition byteLocation (bit : Z) : nat := Z.to_nat (256 - 1 - bit / 8).

Definition set_bit (b : list Z) (bit : Z) : list Z :=
  alter (fun v => Z.lor v (Z.shiftl 1 (bit mod 8))) (byteLocation bit) b.

Definition setEncode (h b : list Z) : list Z :=
  let buf := Keccak256 h in
  foldl (fun b i => set_bit b (bit_at buf i)) b [0; 2; 4]%nat.

Definition bloom_log (b : list Z) (l : Log) : list Z :=
  foldl (fun b topic => setEncode (Hash_Bytes topic) b)
    (setEncode (Address_Bytes (lAddress l)) b) (lTopics l).

(** The logs of every receipt. *)
Definition CreateBloom (receipts : list (list Log)) : list Z :=
  foldl (foldl bloom_log) zero_bloom receipts.

(** [1 << (bitLocation - 1)] in unsigned arithmetic: nothing when [bitLocation]
    is 0, because the shift count wraps. *)
Definition probe (b : list Z) (bit : Z) : bool :=
  let referenceByte := default 0 (b !! byteLocation bit) in
  let shift := uint64 (bit mod 8 - 1) in
  let mask := byte_of (Z.shiftl 1 (if shift <? 64 then shift else 64)) in
  negb (Z.land referenceByte mask =? 0).

Definition isByteArrPresent (b data : list Z) : bool :=
  let buf := Keccak256 data in
  forallb (fun i => probe b (bit_at buf i)) [0; 2; 4]%nat.

Definition IsLogInBloom (b : list Z) (l : Log) : bool :=
  isByteArrPresent b (Address_Bytes (lAddress l)) &&
  forallb (fun topic => isByteArrPresent b (Hash_Bytes topic)) (lTopics l).

(** ** What the filter holds *)

(** Bit [n] of the filter, numbered from the least significant bit of its last
    byte. *)
Definition has_bit (b : list Z) (n : Z) : bool :=
  Z.testbit (default 0 (b !! byteLocation n)) (n mod 8).

Definition bloom_ok (b : list Z) : Prop := length b = BloomByteLength.

Lemma bit_at_range buf i : 0 <= bit_at buf i < 2048.
Proof.
  unfold bit_at. change 2047 with (Z.ones 11). rewrite Z.land_ones by lia.
  apply Z.mod_pos_bound. lia.
Qed.

Lemma byteLocation_range n : 0 <= n < 2048 -> (byteLocation n < 256)%nat.
Proof. intros. unfold byteLocation. Z.div_mod_to_equations; lia. Qed.

Lemma byteLocation_inj n m :
  0 <= n < 2048 -> 0 <= m < 2048 -> byteLocation n = byteLocation m -> n / 8 = m / 8.
Proof. intros Hn Hm. unfold byteLocation. Z.div_mod_to_equations; lia. Qed.

Lemma set_bit_ok b n : bloom_ok b -> bloom_ok (set_bit b n).
Proof. unfold bloom_ok, set_bit. by rewrite length_alter. Qed.

Lemma has_bit_set b n m :
  bloom_ok b -> 0 <= n < 2048 -> 0 <= m < 2048 ->
  has_bit (set_bit b n) m = (m =? n) || has_bit b m.
Proof.
  intros Hb Hn Hm. unfold has_bit, set_bit.
  destruct (decide (byteLocation n = byteLocation m)) as [E|Hne].
  - pose proof (byteLocation_inj n m Hn Hm E) as Hd. rewrite <- E, list_lookup_alter_eq.
    destruct (lookup_lt_is_Some_2 b (byteLocation n)) as [v ->].
    { rewrite Hb. by apply byteLocation_range. }
    cbn. rewrite Z.lor_spec, Z.shiftl_1_l.
    rewrite Z.pow2_bits_eqb by (Z.div_mod_to_equations; lia). rewrite orb_comm. f_equal.
    destruct (Z.eqb_spec (n mod 8) (m mod 8)), (Z.eqb_spec m n); try done; Z.div_mod_to_equations; lia.
  - rewrite list_lookup_alter_ne by done.
    destruct (Z.eqb_spec m n) as [->|]; [done|]. done.
Qed.

(** The three bits of [data] are set. *)
Definition present (b data : list Z) : Prop :=
  Forall (fun i => has_bit b (bit_at (Keccak256 data) i) = true) [0; 2; 4]%nat.

Definition log_present (b : list Z) (l : Log) : Prop :=
  present b (Address_Bytes (lAddress l)) /\ Forall (fun x => present b (Hash_Bytes x)) (lTopics l).

(** [b'] is a filter with the bits of [b]. *)
Definition extends (b b' : list Z) : Prop :=
  bloom_ok b' /\ forall n, 0 <= n < 2048 -> has_bit b n = true -> has_bit b' n = true.

Lemma extends_trans b1 b2 b3 : extends b1 b2 -> extends b2 b3 -> extends b1 b3.
Proof. intros [_ H1] [Hb H2]. split; [done|]. auto. Qed.

Lemma extends_present b b' d : extends b b' -> present b d -> present b' d.
Proof.
  intros [_ He] Hp. eapply Forall_impl; [|exact Hp]. intros i Hi. apply He; [apply bit_at_range|done].
Qed.

Lemma extends_log b b' l : extends b b' -> log_present b l -> log_present b' l.
Proof.
  intros He [Ha Ht]. split; [by eapply extends_present|].
  eapply Forall_impl; [|exact Ht]. intros x. by apply extends_present.
Qed.

Lemma set_bit_extends b n : bloom_ok b -> 0 <= n < 2048 -> extends b (set_bit b n).
Proof.
  intros Hb Hn. split; [by apply set_bit_ok|]. intros m Hm Hh.
  rewrite has_bit_set, Hh by done. by rewrite orb_true_r.
Qed.

Lemma setEncode_spec h b : bloom_ok b -> extends b (setEncode h b) /\ present (setEncode h b) h.
Proof.
  intros Hb. unfold setEncode, present. cbn [foldl]. set (k := bit_at (Keccak256 h)).
  assert (Hk : forall i, 0 <= k i < 2048) by (intros; apply bit_at_range).
  set (b1 := set_bit b (k 0%nat)). set (b2 := set_bit b1 (k 2%nat)).
  assert (Hb1 : bloom_ok b1) by (by apply set_bit_ok). assert (Hb2 : bloom_ok b2) by (by apply set_bit_ok).
  split.
  - do 2 (eapply extends_trans; [|by apply set_bit_extends]). by apply set_bit_extends.
  - subst b2 b1. repeat apply Forall_cons_2; try apply Forall_nil_2;
      rewrite !has_bit_set by done; rewrite Z.eqb_refl, ?orb_true_r; done.
Qed.

Lemma bloom_log_spec b l : bloom_ok b -> extends b (bloom_log b l) /\ log_present (bloom_log b l) l.
Proof.
  intros Hb. unfold bloom_log, log_present.
  destruct (setEncode_spec (Address_Bytes (lAddress l)) b Hb) as [He Hp].
  set (b0 := setEncode _ b) in *. clearbody b0.
  induction (lTopics l) as [|x ts IH] using rev_ind.
  { split; [done|]. by split. }
  rewrite foldl_snoc. destruct IH as [IHe [IHa IHt]]. set (b1 := foldl _ b0 ts) in *.
  destruct (setEncode_spec (Hash_Bytes x) b1 (proj1 IHe)) as [He1 Hp1].
  split; [by eapply extends_trans|]. split; [by eapply extends_present|].
  apply Forall_app. split; [|by apply Forall_singleton].
  eapply Forall_impl; [|exact IHt]. intros y. by apply extends_present.
Qed.

Lemma bloom_logs_spec b ls :
  bloom_ok b -> extends b (foldl bloom_log b ls) /\ Forall (log_present (foldl bloom_log b ls)) ls.
Proof.
  intros Hb. induction ls as [|l ls IH] using rev_ind; [by split; [split|]|].
  rewrite foldl_snoc. destruct IH as [IHe IHl].
  destruct (bloom_log_spec (foldl bloom_log b ls) l (proj1 IHe)) as [He Hp].
  split; [by eapply extends_trans|]. apply Forall_app. split; [|by apply Forall_singleton].
  eapply Forall_impl; [|exact IHl]. intros y. by apply extends_log.
Qed.

Lemma CreateBloom_spec rs :
  bloom_ok (CreateBloom rs) /\ Forall (Forall (log_present (CreateBloom rs))) rs.
Proof.
  unfold CreateBloom. induction rs as [|r rs IH] using rev_ind; [done|].
  rewrite foldl_snoc. destruct IH as [IHb IHl].
  destruct (bloom_logs_spec (foldl (foldl bloom_log) zero_bloom rs) r IHb) as [He Hp].
  split; [apply He|]. apply Forall_app. split; [|by apply Forall_singleton].
  eapply Forall_impl; [|exact IHl]. intros ls. intros Hl. eapply Forall_impl; [|exact Hl].
  intros l. by apply extends_log.
Qed.

(** The bit [probe] looks at: the one before, or none. *)
Lemma probe_reads b n :
  0 <= n < 2048 -> probe b n = negb (n mod 8 =? 0) && has_bit b (n - 1).
Proof.
  intros Hn. unfold probe, has_bit. destruct (Z.eqb_spec (n mod 8) 0) as [->|Hne].
  { change (byte_of (Z.shiftl 1 (if uint64 (0 - 1) <? 64 then uint64 (0 - 1) else 64))) with 0.
    by rewrite Z.land_0_r. }
  assert (H8 : 0 < n mod 8 < 8) by (pose proof (Z.mod_pos_bound n 8); lia).
  rewrite uint64_small by (unfold is_u64; lia).
  rewrite (proj2 (Z.ltb_lt (n mod 8 - 1) 64)) by lia.
  assert (Hloc : byteLocation (n - 1) = byteLocation n)
    by (unfold byteLocation; f_equal; Z.div_mod_to_equations; lia).
  assert (Hmod : (n - 1) mod 8 = n mod 8 - 1) by (Z.div_mod_to_equations; lia).
  rewrite Hloc, Hmod. set (j := n mod 8 - 1) in *. cbn [negb andb].
  unfold byte_of. rewrite Z.mod_small; [by apply Bitmap.land_bit; lia|].
  rewrite Z.shiftl_1_l. split; [apply Z.pow_nonneg; lia|].
  change 256 with (2 ^ 8). apply Z.pow_lt_mono_r; lia.
Qed.

End bloom.
End Bloom.
