(* ===== verification/Executor.v ===== *)
(** Block execution, src/state/executor.go with src/state/fee_pool.go and
    src/state/reward_lock.go: the transition that applies transactions, which is
    also the host of the virtual machine, and the precompiled runtime's entry
    points of src/tievm/evm/precompiled/precompiled.go. *)

From Stdlib Require Import ZArith Lia.
From stdpp Require Import base gmap list numbers.
From S2P Require Import Prelude Types Chain Slice VM Opcodes Instructions Interp Txn Bloom.

Open Scope Z_scope.

(** ** The fee pool and the reward lock *)

Definition FeePool : Address := 0x89055606E4DD8F04C3014903C202AfF35691D2BA.

Record ValidatorFee := mkValidatorFee { taximeter : Z; feePool : gmap Z Z }.

Definition SetValidatorFee (validator : Address) (amount : Z) (v : ValidatorFee) : ValidatorFee :=
  let temp := default 0 (feePool v !! validator) in
  mkValidatorFee (taximeter v + amount) (<[validator := temp + amount]> (feePool v)).

Definition IsHaveReward (validator : Address) (v : ValidatorFee) : bool :=
  match feePool v !! validator with None => false | Some x => 0 <? x end.

Definition SubTaximeter (amount : Z) (v : ValidatorFee) : ValidatorFee :=
  mkValidatorFee (taximeter v - amount) (feePool v).

(** [GetFeeReward]; nil for an unknown validator. *)
Definition GetFeeReward (validator : Address) (v : ValidatorFee) : option Z := feePool v !! validator.

Record RewardLock := mkRewardLock { fixedLock : gmap Z Z; rewardHash : gmap Z Hash }.

Definition SetHash (block : Z) (hash : Hash) (r : RewardLock) : RewardLock :=
  mkRewardLock (fixedLock r) (<[block := hash]> (rewardHash r)).
Definition GetHash (block : Z) (r : RewardLock) : Hash := default 0 (rewardHash r !! block).
Definition DelHash (block : Z) (r : RewardLock) : RewardLock :=
  mkRewardLock (fixedLock r) (delete block (rewardHash r)).
Definition Tag (block : Z) (r : RewardLock) : Z := default 0 (fixedLock r !! block).
Definition TagCount (block : Z) (r : RewardLock) : RewardLock :=
  mkRewardLock (<[block := Tag block r + 1]> (fixedLock r)) (rewardHash r).
Definition CleanTag (block : Z) (r : RewardLock) : RewardLock :=
  mkRewardLock (delete block (fixedLock r)) (rewardHash r).

(** ** Errors *)

Inductive txerror :=
| ErrNonceIncorrect
| ErrNotEnoughFundsForGas
| ErrBlockLimitReached
| ErrIntrinsicGasOverflow
| ErrNotEnoughIntrinsicGas
| ErrNotEnoughFundsForTransfer
| errRewardIsZero
| errNotFeePoolAddress
| errInsufficientReward
| errInvalidTransaction
| errTransfer (e : vmerror)
| errSender
| errNoSnapshot.

(** [TransitionApplicationError] with its recoverable flag, the error of a full
    gas pool (recoverable), and errors returned as they are. *)
Inductive apply_error :=
| TransitionApplicationError (e : txerror) (recoverable : bool)
| GasLimitReachedError (e : txerror)
| PlainError (e : txerror).

(** ** Code that is not modelled here

    The nine precompiled contracts (their gas and run functions) and the
    recovery of a transaction's sender from its signature. *)
Class Precompiles := {
  pre_gas : Address -> list Z -> ForksInTime -> Z;
  pre_run : Address -> list Z -> outcome (list Z * option vmerror)
}.

Class Signer := { Sender : Z -> Transaction -> outcome (option Address) }.

(** ** The precompiled runtime *)

Definition Precompiled_CanRun (c : Contract) (f : ForksInTime) : bool :=
  if negb ((1 <=? cCodeAddress c) && (cCodeAddress c <=? 9)) then false
  else if (5 <=? cCodeAddress c) && (cCodeAddress c <=? 8) then Byzantium f
  else if cCodeAddress c =? 9 then Istanbul f
  else true.

Definition Precompiled_Run `{Precompiles} (c : Contract) (f : ForksInTime) : outcome ExecutionResult :=
  let gasCost := pre_gas (cCodeAddress c) (cInput c) f in
  if cGas c <? gasCost then Ok (mkResult [] 0 0 (Some ErrOutOfGas))
  else
    let g := uint64 (cGas c - gasCost) in
    obind (pre_run (cCodeAddress c) (cInput c)) (fun r =>
    let '(returnValue, err) := r in
    match err with
    | Some e => Ok (mkResult [] 0 0 (Some e))
    | None => Ok (mkResult returnValue g 0 None)
    end).

(** ** The transition *)

Definition spuriousDragonMaxCodeSize : Z := 24576.
Definition TxGas : Z := 21000.
Definition TxGasContractCreation : Z := 53000.

Section executor.
Context `{Runtime} `{StateDB} `{Precompiles} `{Signer}.

(** The state a run of the virtual machine takes from the pool. *)
Context (acquireState : Contract -> VM.state).

Record Transition := mkTransition {
  tConfig : ForksInTime;
  tState : Tx.Txn;
  tGetHash : Z -> Hash;
  tCtx : TxContext;
  tGasPool : Z;
  tReceipts : list Receipt;
  tTotalGas : Z;
  tChainID : Z;
  tFees : ValidatorFee;
  tLock : RewardLock
}.

Definition set_state (s : Tx.Txn) (t : Transition) : Transition :=
  mkTransition (tConfig t) s (tGetHash t) (tCtx t) (tGasPool t) (tReceipts t) (tTotalGas t)
    (tChainID t) (tFees t) (tLock t).
Definition set_gasPool (g : Z) (t : Transition) : Transition :=
  mkTransition (tConfig t) (tState t) (tGetHash t) (tCtx t) g (tReceipts t) (tTotalGas t)
    (tChainID t) (tFees t) (tLock t).
Definition set_ctx (x : TxContext) (t : Transition) : Transition :=
  mkTransition (tConfig t) (tState t) (tGetHash t) x (tGasPool t) (tReceipts t) (tTotalGas t)
    (tChainID t) (tFees t) (tLock t).
Definition set_totalGas (g : Z) (t : Transition) : Transition :=
  mkTransition (tConfig t) (tState t) (tGetHash t) (tCtx t) (tGasPool t) (tReceipts t) g
    (tChainID t) (tFees t) (tLock t).
Definition add_receipt (r : Receipt) (t : Transition) : Transition :=
  mkTransition (tConfig t) (tState t) (tGetHash t) (tCtx t) (tGasPool t) (tReceipts t ++ [r])
    (tTotalGas t) (tChainID t) (tFees t) (tLock t).
Definition set_fees (v : ValidatorFee) (t : Transition) : Transition :=
  mkTransition (tConfig t) (tState t) (tGetHash t) (tCtx t) (tGasPool t) (tReceipts t)
    (tTotalGas t) (tChainID t) v (tLock t).
Definition set_lock (l : RewardLock) (t : Transition) : Transition :=
  mkTransition (tConfig t) (tState t) (tGetHash t) (tCtx t) (tGasPool t) (tReceipts t)
    (tTotalGas t) (tChainID t) (tFees t) l.

(** An update of the state transaction. *)
Definition on_state (f : Tx.Txn -> Tx.Txn) (t : Transition) : Transition :=
  set_state (f (tState t)) t.

Definition Transition_Selfdestruct (t : Transition) (addr beneficiary : Address) : Transition :=
  let t := if negb (Tx.HasSuicided (tState t) addr) then on_state (Tx.AddRefund 24000) t else t in
  let t := on_state (Tx.AddBalance beneficiary (Tx.GetBalance (tState t) addr)) t in
  on_state (fun s => snd (Tx.Suicide_op addr s)) t.

(** The host the transition is, given what [Callx] does. *)
Definition transition_host
    (callx : Transition -> Contract -> outcome (ExecutionResult * Transition))
    : Host Transition := {|
  AccountExists t a := Tx.Exist (tState t) a;
  GetStorage t a k := Tx.GetState (tState t) a k;
  SetStorage t a k v f :=
    let (st, s) := Tx.SetStorage (tState t) a k v f in (st, set_state s t);
  GetBalance t a := Tx.GetBalance (tState t) a;
  GetCodeSize t a := let (n, s) := Tx.GetCodeSize (tState t) a in (n, set_state s t);
  GetCodeHash t a := Tx.GetCodeHash (tState t) a;
  GetCode t a := let (b, s) := Tx.GetCode (tState t) a in (b, set_state s t);
  Selfdestruct t a b := Transition_Selfdestruct t a b;
  GetTxContext t := tCtx t;
  GetBlockHash t n := tGetHash t (uint64 n);
  EmitLog t a ts d := on_state (Tx.EmitLog a ts d) t;
  Callx t k := callx t k;
  Types.Empty t a := Tx.Empty (tState t) a;
  GetNonce t a := Tx.GetNonce (tState t) a
|}.

(** [run]: the precompiled runtime, else the virtual machine (the order the
    server registers them in). *)
Definition run (callx : Transition -> Contract -> outcome (ExecutionResult * Transition))
    (t : Transition) (c : Contract) : outcome (ExecutionResult * Transition) :=
  if Precompiled_CanRun c (tConfig t) then obind (Precompiled_Run c (tConfig t)) (fun r => Ok (r, t))
  else
    match EVM_Run (H0 := transition_host callx) (acquireState c) c (tConfig t) t with
    | Ok (r, _, t') => Ok (r, t')
    | Panic => Panic
    | OutOfFuel => OutOfFuel
    end.

(** [None] and the error; a nil amount transfers nothing. *)
Definition transfer (from to : Address) (amount : option Z) (t : Transition)
    : Transition + vmerror :=
  match amount with
  | None => inl t
  | Some v =>
    match Tx.SubBalance from v (tState t) with
    | None => inr ErrInsufficientBalance
    | Some s => inl (set_state (Tx.AddBalance to v s) t)
    end
  end.

Definition revert (id : nat) (t : Transition) : outcome Transition :=
  match Tx.RevertToSnapshot id (tState t) with
  | Ok s => Ok (set_state s t)
  | Panic => Panic
  | OutOfFuel => OutOfFuel
  end.

Definition take_snapshot (t : Transition) : nat * Transition :=
  let (id, s) := Tx.Snapshot (tState t) in (id, set_state s t).

Definition applyCall (callx : Transition -> Contract -> outcome (ExecutionResult * Transition))
    (c : Contract) (callType : CallType) (t : Transition) : outcome (ExecutionResult * Transition) :=
  if 1024 + 1 <? cDepth c then Ok (mkResult [] (cGas c) 0 (Some ErrDepth), t)
  else
    let (snapshot, t) := take_snapshot t in
    let t := on_state (Tx.TouchAccount (cAddress c)) t in
    match (if bool_decide (callType = Call)
           then transfer (cCaller c) (cAddress c) (cValue c) t else inl t) with
    | inr e => Ok (mkResult [] (cGas c) 0 (Some e), t)
    | inl t =>
      match run callx t c with
      | Panic => Panic
      | OutOfFuel => OutOfFuel
      | Ok (result, t) =>
        if Failed result then obind (revert snapshot t) (fun t => Ok (result, t))
        else Ok (result, t)
      end
    end.

Definition hasCodeOrNonce (t : Transition) (addr : Address) : bool :=
  if negb (Tx.GetNonce (tState t) addr =? 0) then true
  else
    let codeHash := Tx.GetCodeHash (tState t) addr in
    negb (codeHash =? BytesToHash (Keccak256 [])) && negb (codeHash =? 0).

Definition applyCreate (callx : Transition -> Contract -> outcome (ExecutionResult * Transition))
    (c : Contract) (t : Transition) : outcome (ExecutionResult * Transition) :=
  let gasLimit := cGas c in
  if 1024 + 1 <? cDepth c then Ok (mkResult [] gasLimit 0 (Some ErrDepth), t)
  else
    let t := on_state (Tx.IncrNonce (cCaller c)) t in
    if hasCodeOrNonce t (cAddress c)
    then Ok (mkResult [] 0 0 (Some ErrContractAddressCollision), t)
    else
      let (snapshot, t) := take_snapshot t in
      let t :=
        if EIP158 (tConfig t)
        then on_state (Tx.IncrNonce (cAddress c)) (on_state (Tx.CreateAccount (cAddress c)) t)
        else t in
      match transfer (cCaller c) (cAddress c) (cValue c) t with
      | inr e => Ok (mkResult [] gasLimit 0 (Some e), t)
      | inl t =>
        match run callx t c with
        | Panic => Panic
        | OutOfFuel => OutOfFuel
        | Ok (result, t) =>
          if Failed result then obind (revert snapshot t) (fun t => Ok (result, t))
          else if EIP158 (tConfig t) && (spuriousDragonMaxCodeSize <? len (ReturnValue result))
          then obind (revert snapshot t) (fun t =>
                 Ok (mkResult [] 0 0 (Some ErrMaxCodeSizeExceeded), t))
          else
            let gasCost := uint64 (len (ReturnValue result) * 200) in
            if GasLeft result <? gasCost then
              if Homestead (tConfig t)
              then obind (revert snapshot t) (fun t =>
                     Ok (mkResult [] 0 (GasUsed result) (Some ErrCodeStoreOutOfGas), t))
              else Ok (mkResult [] (GasLeft result) (GasUsed result) (Some ErrCodeStoreOutOfGas), t)
            else
              let result' := mkResult (ReturnValue result) (uint64 (GasLeft result - gasCost))
                               (GasUsed result) (Err result) in
              Ok (result', on_state (Tx.SetCode (cAddress c) (ReturnValue result)) t)
        end
      end.

(** [Callx].  [fuel] bounds the depth of nested calls. *)
Fixpoint callx (fuel : nat) (t : Transition) (c : Contract) : outcome (ExecutionResult * Transition) :=
  match fuel with
  | O => OutOfFuel
  | S n =>
    if bool_decide (cType c = Create) then applyCreate (callx n) c t
    else applyCall (callx n) c (cType c) t
  end.

(** Calls of depth above 1025 return at once. *)
Definition call_fuel : nat := 1026.

Definition Create2 (caller : Address) (code : list Z) (value gas : Z) (t : Transition)
    : outcome (ExecutionResult * Transition) :=
  let address := CreateAddress caller (Tx.GetNonce (tState t) caller) in
  let contract := NewContractCreation 1 caller caller address (Some value) gas code in
  applyCreate (callx call_fuel) contract t.

Definition Call2 (caller to : Address) (input : list Z) (value gas : Z) (t : Transition)
    : outcome (ExecutionResult * Transition) :=
  let (code, s) := Tx.GetCode (tState t) to in
  let c := NewContractCall 1 caller caller to (Some value) gas code input in
  applyCall (callx call_fuel) c Call (set_state s t).

(** A nil reward is dereferenced by [Cmp] only if [IsHaveReward] saw it. *)
Definition WithdrawTxFee (caller to : Address) (value : Z) (t : Transition)
    : (ExecutionResult * Transition) + txerror :=
  if negb (IsHaveReward caller (tFees t)) then inr errRewardIsZero
  else if negb (to =? FeePool) then inr errNotFeePoolAddress
  else if default 0 (GetFeeReward caller (tFees t)) <? value then inr errInsufficientReward
  else
    match transfer FeePool caller (Some value) t with
    | inr e => inr (errTransfer e)
    | inl t => inl (mkResult [] 0 0 None, set_fees (SubTaximeter value (tFees t)) t)
    end.

Definition SendFixedReward (caller to : Address) (value : Z) (t : Transition)
    : (ExecutionResult * Transition) + txerror :=
  let number := uint64 (txNumber (tCtx t)) in
  if 1 <? Tag number (tLock t) then inr errInvalidTransaction
  else
    match transfer to caller (Some value) t with
    | inr e => inr (errTransfer e)
    | inl t => inl (mkResult [] 0 0 None, set_lock (TagCount number (tLock t)) t)
    end.

(** ** Applying a transaction *)

Definition subGasPool (amount : Z) (t : Transition) : option Transition :=
  if tGasPool t <? amount then None else Some (set_gasPool (uint64 (tGasPool t - amount)) t).

Definition addGasPool (amount : Z) (t : Transition) : Transition :=
  set_gasPool (uint64 (tGasPool t + amount)) t.

Definition nonceCheck (msg : Transaction) (t : Transition) : bool :=
  Tx.GetNonce (tState t) (tFrom msg) =? tNonce msg.

Definition subGasLimitPrice (msg : Transaction) (t : Transition) : option Transition :=
  let upfrontGasCost := tGasPrice msg * tGas msg in
  match Tx.SubBalance (tFrom msg) upfrontGasCost (tState t) with
  | None => None
  | Some s => Some (set_state s t)
  end.

Definition MaxUint64 : Z := 2 ^ 64 - 1.

(** [TransactionGasCost]; [None] is the overflow error. *)
Definition TransactionGasCost (msg : Transaction) (isHomestead isIstanbul : bool) : option Z :=
  let cost := if IsContractCreation msg && isHomestead then TxGasContractCreation else TxGas in
  let payload := tInput msg in
  if 0 <? len payload then
    let zeros := Z.of_nat (length (filter (fun b => b = 0) payload)) in
    let nonZeros := uint64 (len payload - zeros) in
    let nonZeroCost := if isIstanbul then 16 else 68 in
    if (MaxUint64 - cost) / nonZeroCost <? nonZeros then None
    else
      let cost := uint64 (cost + uint64 (nonZeros * nonZeroCost)) in
      if (MaxUint64 - cost) / 4 <? zeros then None
      else Some (uint64 (cost + uint64 (zeros * 4)))
  else Some cost.

Definition with_price_origin (price : Hash) (origin : Address) (x : TxContext) : TxContext :=
  mkTxContext price origin (txCoinbase x) (txNumber x) (txTimestamp x) (txGasLimit x)
    (txChainID x) (txDifficulty x).

(** The end of [apply]: the sender gets the gas left back at the gas price, the
    fee pool the gas used, and the block's pool the gas left. *)
Definition settle (msg : Transaction) (result : ExecutionResult) (t : Transition)
    : ExecutionResult * Transition :=
  let result := UpdateGasUsed result (tGas msg) (Tx.GetRefund (tState t)) in
  let t := on_state (Tx.AddBalance (tFrom msg) (GasLeft result * tGasPrice msg)) t in
  let t := on_state (Tx.AddBalance FeePool (GasUsed result * tGasPrice msg)) t in
  (result, addGasPool (GasLeft result) t).

(** The execution step of [apply], by the kind of the transaction. *)
Definition execute (msg : Transaction) (gasLeft : Z) (t : Transition)
    : outcome ((ExecutionResult * Transition) + apply_error) :=
  match tTo msg with
  | None =>
    obind (Create2 (tFrom msg) (tInput msg) (tValue msg) gasLeft t) (fun r => Ok (inl r))
  | Some to =>
    if IsWithdrawFee msg then
      match WithdrawTxFee (tFrom msg) to (tValue msg) t with
      | inr e => Ok (inr (PlainError e))
      | inl (r, t) => Ok (inl (r, on_state (Tx.IncrNonce (tFrom msg)) t))
      end
    else if IsFixedRewardTx msg then
      match SendFixedReward (tFrom msg) to (tValue msg) t with
      | inr e => Ok (inr (PlainError e))
      | inl (r, t) => Ok (inl (r, on_state (Tx.IncrNonce (tFrom msg)) t))
      end
    else
      obind (Call2 (tFrom msg) to (tInput msg) (tValue msg) gasLeft
               (on_state (Tx.IncrNonce (tFrom msg)) t))
        (fun r => Ok (inl r))
  end.

(** [apply] returns the transition too when it fails: its gas pool and its state
    have changed by then. *)
Definition apply (msg : Transaction) (t : Transition)
    : outcome ((ExecutionResult + apply_error) * Transition) :=
  if negb (nonceCheck msg t)
  then Ok (inr (TransitionApplicationError ErrNonceIncorrect true), t)
  else
    match subGasLimitPrice msg t with
    | None => Ok (inr (TransitionApplicationError ErrNotEnoughFundsForGas true), t)
    | Some t =>
      match subGasPool (tGas msg) t with
      | None => Ok (inr (GasLimitReachedError ErrBlockLimitReached), t)
      | Some t =>
        match TransactionGasCost msg (Homestead (tConfig t)) (Istanbul (tConfig t)) with
        | None => Ok (inr (TransitionApplicationError ErrIntrinsicGasOverflow false), t)
        | Some intrinsicGasCost =>
          let gasLeft := uint64 (tGas msg - intrinsicGasCost) in
          if negb (IsFixedRewardTx msg) && (tGas msg <? gasLeft)
          then Ok (inr (TransitionApplicationError ErrNotEnoughIntrinsicGas false), t)
          else if negb (IsFixedRewardTx msg) &&
                  (Tx.GetBalance (tState t) (tFrom msg) <? tValue msg)
          then Ok (inr (TransitionApplicationError ErrNotEnoughFundsForTransfer true), t)
          else
            let t := set_ctx (with_price_origin (BytesToHash (big_Bytes (tGasPrice msg)))
                                (tFrom msg) (tCtx t)) t in
            obind (execute msg gasLeft t) (fun r =>
            match r with
            | inr e => Ok (inr e, t)
            | inl (result, t) =>
              let (result, t) := settle msg result t in
              Ok (inl result, t)
            end)
        end
      end
    end.

(** [Apply]; no code sets [PostHook]. *)
Definition Apply (msg : Transaction) (t : Transition)
    : outcome ((ExecutionResult + apply_error) * Transition) :=
  let (s, t) := take_snapshot t in
  obind (apply msg t) (fun r =>
  match r with
  | (inr e, t) => obind (revert s t) (fun t => Ok (inr e, t))
  | (inl result, t) => Ok (inl result, t)
  end).

(** ** Receipts and blocks *)

(** The sender, recovered when the transaction does not carry it. *)
Definition sender_of (x : Transaction) (t : Transition) : outcome (option Address) :=
  if tFrom x =? 0 then Sender (uint64 (tChainID t)) x else Ok (Some (tFrom x)).

Definition take_logs (t : Transition) : list Log * Transition :=
  let (ls, s) := Tx.Logs (tState t) in (ls, set_state s t).

Definition WriteFailedReceipt (x : Transaction) (t : Transition)
    : outcome (Transition + apply_error) :=
  obind (sender_of x t) (fun sender =>
  match sender with
  | None => Ok (inr (TransitionApplicationError errSender false))
  | Some from =>
    let (ls, t) := take_logs t in
    let address := match tTo x with None => CreateAddress from (tNonce x) | Some _ => 0 end in
    Ok (inl (add_receipt (mkReceipt 0 (tTotalGas t) (Bloom.CreateBloom [ls]) ls
                            (Some ReceiptFailed) 0 address (tHash x)) t))
  end).

Definition Write (x : Transaction) (t : Transition) : outcome (Transition + apply_error) :=
  obind (sender_of x t) (fun sender =>
  match sender with
  | None => Ok (inr (TransitionApplicationError errSender false))
  | Some from =>
    let msg := with_from from x in
    obind (Apply msg t) (fun r =>
    match r with
    | (inr e, _) => Ok (inr e)
    | (inl result, t) =>
      let t := set_totalGas (uint64 (tTotalGas t + GasUsed result)) t in
      let (logs, t) := take_logs t in
      let address := match tTo msg with None => CreateAddress (tFrom msg) (tNonce x) | Some _ => 0 end in
      if Byzantium (tConfig t) then
        let t := on_state (Tx.CleanDeleteObjects true) t in
        let status := if Failed result then ReceiptFailed else ReceiptSuccess in
        Ok (inl (add_receipt (mkReceipt 0 (tTotalGas t) (Bloom.CreateBloom [logs]) logs
                                (Some status) (GasUsed result) address (tHash x)) t))
      else
        let '(ss, root, s) := Tx.Commit (EIP155 (tConfig t)) (tState t) in
        let t := set_state (Tx.newTxn (Tx.state s) ss) t in
        Ok (inl (add_receipt (mkReceipt (BytesToHash root) (tTotalGas t) (Bloom.CreateBloom [logs])
                                logs None (GasUsed result) address (tHash x)) t))
    end)
  end).

Definition Transition_Commit (t : Transition) : snapshot * Hash * Transition :=
  let '(s2, root, s) := Tx.Commit (EIP155 (tConfig t)) (tState t) in
  (s2, BytesToHash root, set_state s t).

(** The executor's configuration and the singletons. *)
Record Executor := mkExecutor {
  eForks : Forks;
  eChainID : Z;
  eState : db;
  eGetHash : Header -> Z -> Hash;
  eFees : ValidatorFee;
  eLock : RewardLock
}.

Definition BeginTxn (parentRoot : Hash) (header : Header) (coinbaseReceiver : Address)
    (e : Executor) : Transition + txerror :=
  let config := Forks_At (eForks e) (hNumber header) in
  match NewSnapshotAt (eState e) parentRoot with
  | None => inr errNoSnapshot
  | Some auxSnap2 =>
    let env2 := mkTxContext 0 0 coinbaseReceiver (int64 (hNumber header))
                  (int64 (hTimestamp header)) (int64 (hGasLimit header)) (int64 (eChainID e))
                  (BytesToHash (big_Bytes (hDifficulty header))) in
    inl (mkTransition config (Tx.newTxn (eState e) auxSnap2) (eGetHash e header) env2
           (uint64 (txGasLimit env2)) [] 0 (eChainID e) (eFees e) (eLock e))
  end.

(** The loop of [ProcessBlock]. *)
Fixpoint process_txs (gasLimit : Z) (xs : list Transaction) (t : Transition)
    : outcome (Transition + apply_error) :=
  match xs with
  | [] => Ok (inl t)
  | x :: xs' =>
    let r := if ExceedsBlockGasLimit x gasLimit then WriteFailedReceipt x t else Write x t in
    obind r (fun r =>
    match r with
    | inr e => Ok (inr e)
    | inl t => process_txs gasLimit xs' t
    end)
  end.

Record BlockResult := mkBlockResult { bRoot : Hash; bReceipts : list Receipt; bTotalGas : Z }.

Definition ProcessBlock (parentRoot : Hash) (header : Header) (xs : list Transaction)
    (blockCreator : Address) (e : Executor) : outcome (BlockResult + apply_error) :=
  match BeginTxn parentRoot header blockCreator e with
  | inr err => Ok (inr (PlainError err))
  | inl t =>
    obind (process_txs (hGasLimit header) xs t) (fun r =>
    match r with
    | inr err => Ok (inr err)
    | inl t =>
      let t := set_lock (CleanTag (hNumber header) (tLock t)) t in
      let '(_, root, t) := Transition_Commit t in
      Ok (inl (mkBlockResult root (tReceipts t) (tTotalGas t)))
    end)
  end.

(** ** Genesis *)

Record GenesisAccount := mkGenesisAccount {
  gBalance : option Z;
  gNonce : Z;
  gCode : list Z;
  gStorage : list (Hash * Hash)
}.

Definition write_account (s : Tx.Txn) (e : Address * GenesisAccount) : Tx.Txn :=
  let (addr, account) := e in
  let s := match gBalance account with Some b => Tx.AddBalance addr b s | None => s end in
  let s := if gNonce account =? 0 then s else Tx.SetNonce addr (gNonce account) s in
  let s := if len (gCode account) =? 0 then s else Tx.SetCode addr (gCode account) s in
  foldl (fun s kv => Tx.SetState addr (fst kv) (snd kv) s) s (gStorage account).

(** [alloc] in the order the Go map is iterated in. *)
Definition WriteGenesis (d : db) (alloc : list (Address * GenesisAccount)) : Hash :=
  let s := foldl write_account (Tx.newTxn d (NewSnapshot d)) alloc in
  let '(_, root, _) := Tx.Commit false s in
  BytesToHash root.

End executor.
