(* ===== verification/Blockchain.v ===== *)
(** The chain of blocks, src/core/blockchain.go, with the events of
    subscription.go. *)

From Stdlib Require Import ZArith Lia.
From stdpp Require Import base gmap list numbers.
From S2P Require Import Prelude Types Text Chain Rlp Storage Executor.

Open Scope Z_scope.

Definition BlockGasTargetDivisor : Z := 1024.

(** ** Roots *)

(** The roots of the lists of a block; CalcRoot.v has those of package
    calcroot. *)
Class Roots := {
  CalculateUncleRoot : list Header -> Hash;
  CalculateTransactionsRoot : list Transaction -> Hash;
  CalculateReceiptsRoot : list Receipt -> Hash
}.

(** [BuildBlock] of src/consensus/utils.go. *)
Definition BuildBlock `{Roots} (HeaderHash : Header -> Hash)
    (header : Header) (txs : list Transaction) (receipts : list Receipt) : Block :=
  let txRoot := if len txs =? 0 then EmptyRootHash else CalculateTransactionsRoot txs in
  let receiptsRoot := if len receipts =? 0 then EmptyRootHash else CalculateReceiptsRoot receipts in
  let header :=
    mkHeader (hParentHash header) EmptyUncleHash (hMiner header) (hStateRoot header) txRoot receiptsRoot
      (hLogsBloom header) (hDifficulty header) (hNumber header) (hGasLimit header) (hGasUsed header)
      (hTimestamp header) (hExtraData header) (hMixHash header) (hNonce header) (hHash header) in
  mkBlock (Header_ComputeHash HeaderHash header) txs [].

(** ** Interfaces *)

(** The interface [Verifier] of the consensus, over its state; [VerifyHeader]
    gives whether there is no error. *)
Class Verifier := {
  Consensus : Type;
  VerifyHeader : Header -> Header -> Consensus -> outcome (bool * Consensus);
  GetBlockCreator : Header -> outcome (option Address)
}.

(** The interface [Executor], over its state. *)
Class BlockExecutor := {
  ExecState : Type;
  exec_ProcessBlock : Hash -> Block -> Address -> ExecState -> outcome (option BlockResult * ExecState)
}.

(** ** Events *)

Inductive EventType := EventHead | EventReorg | EventFork.

Record Event := mkEvent {
  evOldChain : list Header;
  evNewChain : list Header;
  evDifficulty : option Z;
  evType : EventType
}.

Definition zero_event : Event := mkEvent [] [] None EventHead.

Definition SetDifficulty (b : Z) (e : Event) : Event :=
  mkEvent (evOldChain e) (evNewChain e) (Some b) (evType e).
Definition AddNewHeader (h : Header) (e : Event) : Event :=
  mkEvent (evOldChain e) (evNewChain e ++ [h]) (evDifficulty e) (evType e).
Definition AddOldHeader (h : Header) (e : Event) : Event :=
  mkEvent (evOldChain e ++ [h]) (evNewChain e) (evDifficulty e) (evType e).
Definition SetType (t : EventType) (e : Event) : Event :=
  mkEvent (evOldChain e) (evNewChain e) (evDifficulty e) t.

(** ** Gas limits *)

(** [calculateGasLimit], for a block gas target. *)
Definition calculateGasLimit (blockGasTarget parentGasLimit : Z) : Z :=
  if blockGasTarget =? 0 then parentGasLimit
  else if parentGasLimit =? blockGasTarget then blockGasTarget
  else
    let delta := uint64 (parentGasLimit * 1) / BlockGasTargetDivisor in
    if parentGasLimit <? blockGasTarget then Z.min blockGasTarget (uint64 (parentGasLimit + delta))
    else Z.max blockGasTarget (Z.max (uint64 (parentGasLimit - delta)) 0).

(** The comparison of [verifyGasLimit] with the parent's limit. *)
Definition gas_limit_close (parentGasLimit gasLimit : Z) : bool :=
  let diff := int64 (int64 parentGasLimit - int64 gasLimit) in
  let diff := if diff <? 0 then int64 (diff * -1) else diff in
  let limit := parentGasLimit / BlockGasTargetDivisor in
  negb (limit <? uint64 diff).

Section chain.
Context `{FastRLP} `{Runtime} `{KV} `{LRU} `{Roots} `{Verifier} `{BlockExecutor}.
Context (HeaderHash : Header -> Hash).

Record Blockchain := mkBlockchain {
  bDb : DB;
  bGenesis : Hash;
  bBlockGasTarget : Z;
  bHeadersCache : lru Header;
  bDifficultyCache : lru Z;
  bCurrentHeader : option Header;
  bCurrentDifficulty : option Z;
  bStream : list Event;
  bAverageGasPrice : Z;
  bAverageGasPriceCount : Z;
  bConsensus : Consensus;
  bExecutor : ExecState
}.

Definition set_db (x : DB) (b : Blockchain) : Blockchain :=
  mkBlockchain x (bGenesis b) (bBlockGasTarget b) (bHeadersCache b) (bDifficultyCache b) (bCurrentHeader b)
    (bCurrentDifficulty b) (bStream b) (bAverageGasPrice b) (bAverageGasPriceCount b) (bConsensus b) (bExecutor b).
Definition set_genesis (x : Hash) (b : Blockchain) : Blockchain :=
  mkBlockchain (bDb b) x (bBlockGasTarget b) (bHeadersCache b) (bDifficultyCache b) (bCurrentHeader b)
    (bCurrentDifficulty b) (bStream b) (bAverageGasPrice b) (bAverageGasPriceCount b) (bConsensus b) (bExecutor b).
Definition set_caches (x : lru Header) (y : lru Z) (b : Blockchain) : Blockchain :=
  mkBlockchain (bDb b) (bGenesis b) (bBlockGasTarget b) x y (bCurrentHeader b)
    (bCurrentDifficulty b) (bStream b) (bAverageGasPrice b) (bAverageGasPriceCount b) (bConsensus b) (bExecutor b).
Definition setCurrentHeader (h : Header) (diff : Z) (b : Blockchain) : Blockchain :=
  mkBlockchain (bDb b) (bGenesis b) (bBlockGasTarget b) (bHeadersCache b) (bDifficultyCache b) (Some h)
    (Some diff) (bStream b) (bAverageGasPrice b) (bAverageGasPriceCount b) (bConsensus b) (bExecutor b).
Definition dispatchEvent (e : Event) (b : Blockchain) : Blockchain :=
  mkBlockchain (bDb b) (bGenesis b) (bBlockGasTarget b) (bHeadersCache b) (bDifficultyCache b) (bCurrentHeader b)
    (bCurrentDifficulty b) (bStream b ++ [e]) (bAverageGasPrice b) (bAverageGasPriceCount b) (bConsensus b) (bExecutor b).
Definition set_consensus (x : Consensus) (b : Blockchain) : Blockchain :=
  mkBlockchain (bDb b) (bGenesis b) (bBlockGasTarget b) (bHeadersCache b) (bDifficultyCache b) (bCurrentHeader b)
    (bCurrentDifficulty b) (bStream b) (bAverageGasPrice b) (bAverageGasPriceCount b) x (bExecutor b).
Definition set_executor (x : ExecState) (b : Blockchain) : Blockchain :=
  mkBlockchain (bDb b) (bGenesis b) (bBlockGasTarget b) (bHeadersCache b) (bDifficultyCache b) (bCurrentHeader b)
    (bCurrentDifficulty b) (bStream b) (bAverageGasPrice b) (bAverageGasPriceCount b) (bConsensus b) x.

(** [UpdateGasPriceAvg]; [Div] is the Euclidean division. *)
Definition UpdateGasPriceAvg (newValue : Z) (b : Blockchain) : Blockchain :=
  let count := bAverageGasPriceCount b + 1 in
  let differential := (newValue - bAverageGasPrice b) / count in
  mkBlockchain (bDb b) (bGenesis b) (bBlockGasTarget b) (bHeadersCache b) (bDifficultyCache b) (bCurrentHeader b)
    (bCurrentDifficulty b) (bStream b) (bAverageGasPrice b + differential) count (bConsensus b) (bExecutor b).

(** ** Steps of the chain: a result or an error, and the chain after it *)

Definition C (A : Type) : Type := Blockchain -> outcome (option A * Blockchain).

Definition cret {A} (a : A) : C A := fun b => Ok (Some a, b).
Definition cfail {A} : C A := fun b => Ok (None, b).
Definition cpanic {A} : C A := fun _ => Panic.
Definition cbind {A B} (m : C A) (k : A -> C B) : C B := fun b =>
  obind (m b) (fun '(r, b) => match r with None => Ok (None, b) | Some a => k a b end).
Definition cget : C Blockchain := fun b => Ok (Some b, b).
Definition cmod (f : Blockchain -> Blockchain) : C unit := fun b => Ok (Some tt, f b).
Definition cwrite (w : DB -> bool * DB) : C unit := fun b =>
  let (ok, db) := w (bDb b) in Ok (if ok then Some tt else None, set_db db b).
(** The results of [m], with the error kept as a value. *)
Definition ctry {A} (m : C A) : C (option A) := fun b => obind (m b) (fun '(r, b) => Ok (Some r, b)).

End chain.

Declare Scope chain_scope.
Notation "'let?' p := m 'in' k" := (cbind m (fun x => match x with p => k end))
  (at level 10, p pattern, m at level 100, k at level 200) : chain_scope.
Notation "m '>>' k" := (cbind m (fun _ => k)) (at level 100, right associativity) : chain_scope.
Open Scope chain_scope.

Section operations.
Context `{FastRLP} `{Runtime} `{KV} `{LRU} `{Roots} `{Verifier} `{BlockExecutor}.
Context (HeaderHash : Header -> Hash).

(** [Header]; the current header of a chain without genesis is nil, and its
    users dereference it. *)
Definition current_header : C Header := fun b => obind (of_option (bCurrentHeader b)) (fun h => Ok (Some h, b)).

(** *** Reads *)

Definition readHeader (hash : Hash) : C Header := fun b =>
  let (h, cache) := lru_Get hash (bHeadersCache b) in
  let b := set_caches cache (bDifficultyCache b) b in
  match h with
  | Some h => Ok (Some h, b)
  | None =>
    match ReadHeader HeaderHash hash (bDb b) with
    | Found hh =>
      let hh := Header_ComputeHash HeaderHash hh in
      Ok (Some hh, set_caches (lru_Add hash hh (bHeadersCache b)) (bDifficultyCache b) b)
    | _ => Ok (None, b)
    end
  end.

Definition readBody (hash : Hash) : C Body := fun b =>
  Ok (match ReadBody HeaderHash hash (bDb b) with Found body => Some body | _ => None end, b).

Definition readTotalDifficulty (headerHash : Hash) : C Z := fun b =>
  let (d, cache) := lru_Get headerHash (bDifficultyCache b) in
  let b := set_caches (bHeadersCache b) cache b in
  match d with
  | Some d => Ok (Some d, b)
  | None =>
    match ReadTotalDifficulty headerHash (bDb b) with
    | Some d => Ok (Some d, set_caches (bHeadersCache b) (lru_Add headerHash d (bDifficultyCache b)) b)
    | None => Ok (None, b)
    end
  end.

Definition GetTD (hash : Hash) : C Z := readTotalDifficulty hash.
Definition GetHeaderByHash (hash : Hash) : C Header := readHeader hash.

Definition GetHeaderByNumber (n : Z) : C Header := fun b =>
  match ReadCanonicalHash n (bDb b) with
  | None => Ok (None, b)
  | Some hash => readHeader hash b
  end.

(** [GetBlockByHash]: the block, and whether it is found. *)
Definition GetBlockByHash (hash : Hash) (full : bool) : C Block :=
  let? header := readHeader hash in
  if negb full then cret (mkBlock header [] [])
  else
    let? body := readBody hash in
    cret (mkBlock header (bodyTransactions body) (bodyUncles body)).

Definition GetBlockByNumber (blockNumber : Z) (full : bool) : C Block :=
  let? b := cget in
  match ReadCanonicalHash blockNumber (bDb b) with
  | None => cfail
  | Some blockHash => GetBlockByHash blockHash (if blockNumber =? 0 then false else full)
  end.

Definition GetHashByNumber (blockNumber : Z) : C Hash :=
  let? r := ctry (GetBlockByNumber blockNumber false) in
  cret (match r with Some block => hHash (bkHeader block) | None => 0 end).

(** The closure of [GetHashHelper]: the loop goes back one header at a time and
    ends at number 0, so [num] + 1 turns are enough. *)
Fixpoint hash_helper_loop (turns : nat) (num : Z) (hash : Hash) (i : Z) : C Hash :=
  match turns with
  | O => fun _ => OutOfFuel
  | S turns =>
    if num =? i then cret hash
    else
      let? h := ctry (GetHeaderByHash hash) in
      match h with
      | None => cret 0
      | Some h => if num =? 0 then cret 0 else hash_helper_loop turns (num - 1) (hParentHash h) i
      end
  end.

Definition GetHashHelper (header : Header) (i : Z) : C Hash :=
  let num := uint64 (hNumber header - 1) in
  hash_helper_loop (S (Z.to_nat num)) num (hParentHash header) i.

Definition CalculateGasLimit (number : Z) : C Z :=
  let? parent := GetHeaderByNumber (uint64 (number - 1)) in
  let? b := cget in
  cret (calculateGasLimit (bBlockGasTarget b) (hGasLimit parent)).

(** *** Writes *)

Definition writeCanonicalHeader (event : Event) (h : Header) : C Event :=
  let? parentTD := readTotalDifficulty (hParentHash h) in
  let newTD := parentTD + hDifficulty h in
  cwrite (WriteCanonicalHeader h newTD) >>
  cmod (setCurrentHeader h newTD) >>
  cret (SetDifficulty newTD (AddNewHeader h (SetType EventHead event))).

Definition advanceHead (newHeader : Header) : C Z :=
  cwrite (WriteHeadHash (hHash newHeader)) >>
  cwrite (WriteHeadNumber (hNumber newHeader)) >>
  cwrite (WriteCanonicalHash (hNumber newHeader) (hHash newHeader)) >>
  let? parentTD :=
    if hParentHash newHeader =? StringToHash [] then cret 0
    else readTotalDifficulty (hParentHash newHeader) in
  let newTD := parentTD + hDifficulty newHeader in
  cwrite (WriteTotalDifficulty (hHash newHeader) newTD) >>
  cmod (setCurrentHeader newHeader newTD) >>
  cret newTD.

Definition writeGenesisImpl (header : Header) : C unit :=
  cmod (set_genesis (hHash header)) >>
  cwrite (WriteHeader header) >>
  cmod (UpdateGasPriceAvg (hGasUsed header)) >>
  let? _ := advanceHead header in
  cmod (dispatchEvent (AddNewHeader header zero_event)).

(** [ComputeGenesis], for a genesis header with its hash. *)
Definition ComputeGenesis (genesis : Header) : C unit :=
  let? b := cget in
  match ReadHeadHash (bDb b) with
  | Some head =>
    match ReadCanonicalHash 0 (bDb b) with
    | None => cfail
    | Some g =>
      cmod (set_genesis g) >>
      if negb (g =? hHash genesis) then cfail
      else
        let? header := GetHeaderByHash head in
        let? diff := GetTD head in
        cmod (setCurrentHeader header diff)
    end
  | None => writeGenesisImpl genesis
  end.

Definition writeFork (header : Header) : C unit :=
  let? b := cget in
  let? forks :=
    match ReadForks (bDb b) with
    | Found forks => cret forks
    | ErrNotFound => cret []
    | ReadErr => cfail
    end in
  cwrite (WriteForks (filter (fun fork => fork <> hParentHash header) forks ++ [hHash header])).

(** The loops of [handleReorg] go back from a header to its parent; a parent that
    is not found is a nil dereference in the error message.  [turns] bounds the
    loops: numbers decrease along them. *)
Definition parent_of (h : Header) : C Header :=
  let? r := ctry (readHeader (hParentHash h)) in
  match r with None => cpanic | Some p => cret p end.

(** Back to the number [n]: the header reached, and those on the way. *)
Fixpoint back_to (turns : nat) (n : Z) (h : Header) (acc : list Header) : C (Header * list Header) :=
  if negb (n <? hNumber h) then cret (h, acc)
  else
    match turns with
    | O => fun _ => OutOfFuel
    | S turns => let? p := parent_of h in back_to turns n p (acc ++ [p])
    end.

(** Back on both sides to the common ancestor: the headers of the old side. *)
Fixpoint common_ancestor (turns : nat) (old new : Header) (oldChain : list Header) : C (list Header) :=
  if hHash old =? hHash new then cret oldChain
  else
    match turns with
    | O => fun _ => OutOfFuel
    | S turns =>
      let? old := parent_of old in
      let? new := parent_of new in
      common_ancestor turns old new (oldChain ++ [old])
    end.

Fixpoint write_canonicals (hs : list Header) : C unit :=
  match hs with
  | [] => cret tt
  | h :: hs => cwrite (WriteCanonicalHash (hNumber h) (hHash h)) >> write_canonicals hs
  end.

(** An empty list of old headers is a slice out of range. *)
Definition handleReorg (turns : nat) (evnt : Event) (oldHeader newHeader : Header) : C Event :=
  let newChainHead := newHeader in
  let oldChainHead := oldHeader in
  let? (oldHeader, oldChain) := back_to turns (hNumber newHeader) oldHeader [] in
  let? (newHeader, newChain) := back_to turns (hNumber oldHeader) newHeader [] in
  let? oldChain := common_ancestor turns oldHeader newHeader oldChain in
  match oldChain with
  | [] => cpanic
  | _ =>
    let evnt := foldl (fun e h => AddOldHeader h e) evnt (removelast oldChain) in
    let evnt := AddNewHeader newChainHead (AddOldHeader oldChainHead evnt) in
    let evnt := foldl (fun e h => AddNewHeader h e) evnt newChain in
    writeFork oldChainHead >>
    write_canonicals newChain >>
    let? diff := advanceHead newChainHead in
    cret (SetDifficulty diff (SetType EventReorg evnt))
  end.

Definition writeHeaderImpl (turns : nat) (evnt : Event) (header : Header) : C Event :=
  let? currentHeader := current_header in
  if hParentHash header =? hHash currentHeader then writeCanonicalHeader evnt header
  else
    cwrite (WriteHeader header) >>
    let? currentTD := ctry (readTotalDifficulty (hHash currentHeader)) in
    match currentTD with
    | None => cpanic
    | Some currentTD =>
      let? parentTD := readTotalDifficulty (hParentHash header) in
      cwrite (WriteTotalDifficulty (hHash header) (parentTD + hDifficulty header)) >>
      cmod (fun b => set_caches (lru_Add (hHash header) header (bHeadersCache b)) (bDifficultyCache b) b) >>
      if currentTD <? parentTD + hDifficulty header then handleReorg turns evnt currentHeader header
      else
        writeFork header >>
        cret (SetType EventFork (AddOldHeader header evnt))
    end.

(** [WriteHeadersWithBodies]: the headers are a chain. *)
Fixpoint headers_linked (prev : Header) (hs : list Header) : bool :=
  match hs with
  | [] => true
  | h :: hs =>
    (uint64 (hNumber h - 1) =? hNumber prev) && (hParentHash h =? hHash prev) && headers_linked h hs
  end.

Fixpoint write_headers (turns : nat) (hs : list Header) : C unit :=
  match hs with
  | [] => cret tt
  | h :: hs =>
    let? event := writeHeaderImpl turns zero_event h in
    cmod (dispatchEvent event) >> write_headers turns hs
  end.

Definition WriteHeadersWithBodies (turns : nat) (headers : list Header) : C unit :=
  match headers with
  | [] => cfail
  | h :: hs => if headers_linked h hs then write_headers turns headers else cfail
  end.

(** *** Blocks *)

Definition verifyGasLimit (header : Header) : C unit :=
  if hGasLimit header <? hGasUsed header then cfail
  else if hNumber header =? 0 then cret tt
  else
    let? parent := GetHeaderByNumber (uint64 (hNumber header - 1)) in
    if gas_limit_close (hGasLimit parent) (hGasLimit header) then cret tt else cfail.

Definition verify_header (parent header : Header) : C unit := fun b =>
  obind (VerifyHeader parent header (bConsensus b)) (fun '(ok, c) =>
  Ok (if ok then Some tt else None, set_consensus c b)).

Definition block_creator (header : Header) : C Address := fun b =>
  obind (GetBlockCreator header) (fun r => Ok (r, b)).

Definition run_block (parentRoot : Hash) (block : Block) (creator : Address) : C BlockResult := fun b =>
  obind (exec_ProcessBlock parentRoot block creator (bExecutor b)) (fun '(r, x) =>
  Ok (r, set_executor x b)).

Definition processBlock (block : Block) : C BlockResult :=
  let header := bkHeader block in
  let? parent := readHeader (hParentHash header) in
  let? blockCreator := block_creator header in
  let? result := run_block (hStateRoot parent) block blockCreator in
  if negb (len (bReceipts result) =? len (bkTransactions block)) then cfail
  else if negb (bRoot result =? hStateRoot header) then cfail
  else if negb (bTotalGas result =? hGasUsed header) then cfail
  else if negb (CalculateReceiptsRoot (bReceipts result) =? hReceiptsRoot header) then cfail
  else verifyGasLimit header >> cret result.

Fixpoint write_lookups (txs : list Transaction) (blockHash : Hash) : C unit :=
  match txs with
  | [] => cret tt
  | tx :: txs => cwrite (WriteTxLookup (tHash tx) blockHash) >> write_lookups txs blockHash
  end.

Definition writeBody (block : Block) : C unit :=
  cwrite (WriteBody (hHash (bkHeader block)) (Block_Body block)) >>
  write_lookups (bkTransactions block) (hHash (bkHeader block)).

Definition WriteBlock (turns : nat) (block : Block) : C unit :=
  let header := bkHeader block in
  let? parent := readHeader (hParentHash header) in
  if hHash parent =? 0 then cfail
  else if negb (uint64 (hNumber header - 1) =? hNumber parent) then cfail
  else if negb (hParentHash header =? hHash parent) then cfail
  else
    verify_header parent header >>
    if negb (CalculateUncleRoot (bkUncles block) =? hSha3Uncles header) then cfail
    else if negb (CalculateTransactionsRoot (bkTransactions block) =? hTxRoot header) then cfail
    else
      let? res := processBlock block in
      writeBody block >>
      let? evnt := writeHeaderImpl turns zero_event header in
      cwrite (WriteReceipts (hHash header) (bReceipts res)) >>
      cmod (dispatchEvent evnt) >>
      cmod (UpdateGasPriceAvg (hGasUsed header)) >>
      let? _ := ctry (GetHeaderByNumber (uint64 (hNumber header - 1))) in
      cret tt.

End operations.
