(* ===== verification/CalcRoot.v ===== *)
(** The roots of lists of transactions, receipts and uncles,
    src/types/calcroot: the trie of the elements under their encoded indices
    (calcroot.go), and the hasher that writes the nodes of that trie directly for
    up to 128 elements (calcroot_fast.go).

    The buffers of a [FastHasher] are empty when it is acquired, since [release]
    resets them; the functions take and return what they append to. *)


From Stdlib Require Import ZArith Lia.
From stdpp Require Import base list numbers.
From S2P Require Import Prelude Types Chain Rlp RlpTree Nibbles Txn Trie TrieDB MockTrie Blockchain.

Open Scope Z_scope.
Open Scope outcome_scope.

Section calcroot.
Context `{FastRLP} `{Runtime} `{!NodeRLP} `{TrieStorage}.

(** ** Sizes *)

Definition intsize (val : Z) : Z :=
  if val <? 2 ^ 8 then 1
  else if val <? 2 ^ 16 then 2
  else if val <? 2 ^ 24 then 3
  else if val <? 2 ^ 32 then 4
  else if val <? 2 ^ 40 then 5
  else if val <? 2 ^ 48 then 6
  else if val <? 2 ^ 56 then 7
  else 8.

Definition getRlpSize (size : Z) : Z := if size <? 56 then 1 else intsize size + 1.

(** [short] and [long] are bytes, and so are the sums. *)
Definition marshalRlpSize (dst : list Z) (size short long : Z) : list Z :=
  if size <? 56 then dst ++ [(short + size) mod 256]
  else
    let intSize := intsize size in
    let buf := be_encode 8 size in
    dst ++ [(long + intSize) mod 256] ++ drop (Z.to_nat (8 - intSize)) buf.

Definition marshalItemRlpSize (dst : list Z) (size : Z) : list Z := marshalRlpSize dst size 128 183.
Definition marshalListRlpSize (dst : list Z) (size : Z) : list Z := marshalRlpSize dst size 192 247.

(** ** The fast hasher *)

Definition leafVal : list Z := [32].
Definition rlpEmptyValue : list Z := [128].
Definition rlpHashPrefix : list Z := [160].
Definition zeroKey : list Z := [48].
Definition oneKey : list Z := [49].
Definition singleKey : list Z := [130; 32; 128].

Section hasher.
Context (num : Z) (cb : Z -> list Z).

Definition getCb (i : Z) : option (list Z) :=
  if num <? i then None
  else
    let val := cb i in
    if len val <? 32 then None else Some val.

(** [hash] *)
Definition fast_hash (dst b : list Z) : list Z := dst ++ Keccak256 b.

Definition encodeOneItem : option (list Z) :=
  val ← getCb 0;
  let n := getRlpSize (len val) in
  let buf2 := marshalListRlpSize [] (n + len val + len singleKey) in
  let buf2 := buf2 ++ singleKey in
  let buf2 := marshalItemRlpSize buf2 (len val) in
  let buf2 := buf2 ++ val in
  Some (fast_hash [] buf2).

Definition encodeSingle (dst v : list Z) (b : bool) : list Z :=
  let num := len v in
  let n := getRlpSize num in
  let buf2 := marshalListRlpSize [] (n + num + 1) in
  let buf2 := buf2 ++ (if b then oneKey else zeroKey) in
  let buf2 := marshalItemRlpSize buf2 num in
  let buf2 := buf2 ++ v in
  fast_hash dst buf2.

(** The loop of [deriveGroup] over the [n] elements from [i] on. *)
Fixpoint group_items (buf : list Z) (i : Z) (n : nat) : option (list Z) :=
  match n with
  | O => Some buf
  | S n =>
    val ← getCb i;
    let buf := buf ++ rlpHashPrefix in
    let buf2 := marshalListRlpSize [] (getRlpSize (len val) + 1 + len val) in
    let buf2 := buf2 ++ leafVal in
    let buf2 := marshalItemRlpSize buf2 (len val) in
    let buf2 := buf2 ++ val in
    group_items (fast_hash buf buf2) (i + 1) n
  end.

(** Empty values, for [i] from [from] up to [to]. *)
Definition empties (from to : Z) : list Z := concat (replicate (Z.to_nat (to - from)) rlpEmptyValue).

Definition deriveGroup (dst : list Z) (from to : Z) : option (list Z) :=
  let n := to - from in
  if n =? 1 then
    val ← getCb from;
    Some (encodeSingle dst val (from =? 1))
  else
    let buf := if from =? 1 then rlpEmptyValue else [] in
    buf ← group_items buf from (Z.to_nat n);
    let buf :=
      if n <? 16 then buf ++ empties n (if negb (from =? 1) then 16 else 15) else buf in
    let buf := buf ++ rlpEmptyValue in
    let buf2 := marshalListRlpSize [] (len buf) in
    let buf2 := buf2 ++ buf in
    Some (fast_hash dst buf2).

(** The loop over the groups from [i] on; [fuel] bounds their number. *)
Fixpoint fill_groups (fuel : nat) (dst : list Z) (step1 i : Z) : outcome (option (list Z)) :=
  if i <? step1 then
    match fuel with
    | O => OutOfFuel
    | S fuel =>
      let ini := if i =? 0 then 1 else i in
      let dst := dst ++ rlpHashPrefix in
      match deriveGroup dst ini (Z.min step1 (i + 16)) with
      | None => Ok None
      | Some dst => fill_groups fuel dst step1 (i + 16)
      end
    end
  else Ok (Some dst).

(** [Hash]; there are at most 8 groups. *)
Definition FastHasher_Hash : outcome (option (list Z)) :=
  if num =? 1 then Ok encodeOneItem
  else
    let step1 := Z.min num 128 in
    let^ dst := fill_groups 8 [] step1 0 in
    match dst with
    | None => Ok None
    | Some dst =>
      let dst := dst ++ empties 0 (Z.quot (128 - step1) 16) in
      let dst := dst ++ rlpHashPrefix in
      match getCb 0 with
      | None => Ok None
      | Some val =>
        let dst := encodeSingle dst val false in
        let dst := dst ++ empties 9 17 in
        let buf2 := marshalListRlpSize [] (len dst) in
        let buf2 := buf2 ++ dst in
        Ok (Some (fast_hash [] buf2))
      end
    end.

End hasher.

(** ** Roots *)

(** The trie of a root has no storage. *)
Fixpoint derive_inserts (h : Z -> list Z) (i : Z) (n : nat) (txn : Txn) : outcome Txn :=
  match n with
  | O => Ok txn
  | S n =>
    let^ txn := Insert None (MarshalTo (NewUint i)) (h i) txn in
    derive_inserts h (i + 1) n txn
  end.

Definition deriveSlow (num : Z) (h : Z -> list Z) : outcome (list Z) :=
  let^ txn := derive_inserts h 0 (Z.to_nat num) (Trie_Txn NewTrie) in
  let^ (x, _, _) := Txn_Hash txn in
  Ok x.

Definition CalculateRoot (num : Z) (h : Z -> list Z) : outcome Hash :=
  if num =? 0 then Ok EmptyRootHash
  else
    let^ fast := (if num <=? 128 then FastHasher_Hash num h else Ok None) in
    match fast with
    | Some dst => Ok (BytesToHash dst)
    | None => let^ x := deriveSlow num h in Ok (BytesToHash x)
    end.

Definition calculateRootWithRlp (num : Z) (h : Z -> Value) : outcome Hash :=
  CalculateRoot num (fun i => MarshalTo (h i)).

(** An index out of range would panic; the callbacks are called with indices of
    the list only. *)
Definition CalculateReceiptsRoot (receipts : list Receipt) : outcome Hash :=
  calculateRootWithRlp (len receipts)
    (fun i => match receipts !! Z.to_nat i with Some r => Receipt_MarshalRLPWith r | None => NewNull end).

Definition CalculateTransactionsRoot (transactions : list Transaction) : outcome Hash :=
  calculateRootWithRlp (len transactions)
    (fun i => match transactions !! Z.to_nat i with Some t => Transaction_MarshalRLPWith t | None => NewNull end).

Definition CalculateUncleRoot (uncles : list Header) : Hash :=
  if len uncles =? 0 then EmptyUncleHash
  else BytesToHash (Keccak256Rlp (NewArray (Header_MarshalRLPWith <$> uncles))).

End calcroot.

(** The roots that the chain uses are those of package calcroot. *)

Definition root_of (r : outcome Hash) : Hash := match r with Ok root => root | _ => 0 end.

Definition calc_roots `{FastRLP} `{Runtime} `{!NodeRLP} `{TrieStorage} : Roots := {|
  Blockchain.CalculateUncleRoot := CalcRoot.CalculateUncleRoot;
  Blockchain.CalculateTransactionsRoot txs := root_of (CalcRoot.CalculateTransactionsRoot txs);
  Blockchain.CalculateReceiptsRoot rs := root_of (CalcRoot.CalculateReceiptsRoot rs)
|}.

(** With the trees of RlpTree.v. *)
Definition mem_roots `{Runtime} : Roots := @calc_roots tree_rlp _ tree_nodes Mem.storage.
