(* ===== verification/Syncer.v ===== *)
(** The synchronisation of blocks between nodes (src/syncer): the service a node
    offers its peers, the queue of blocks that a peer announced, and the bulk
    synchronisation, which finds the common ancestor with a peer and writes the
    peer's blocks from there.

    A step is a function of the local chain and of the peer's state; it returns,
    fails with one of the errors of the source, or panics.  gRPC carries
    requests and responses: the client is a class, and [service_client] is the
    client of a peer that runs the service of this file. *)

From Stdlib Require Import ZArith Lia.
From stdpp Require Import base list numbers.
From S2P Require Import Prelude Types Text Chain Rlp Storage Seals Blockchain.

Open Scope Z_scope.

(** ** Numbers *)

(** [big.Int.String]; nil prints as [<nil>]. *)
Definition big_String (x : option Z) : list Z :=
  match x with
  | None => [60; 110; 105; 108; 62]
  | Some x => if x <? 0 then 45 :: nat_digits (- x) else nat_digits x
  end.

(** [big.Int.SetString] in base 10: an optional sign and at least one digit, to
    the end of the text. *)
Fixpoint scan_digits (s : list Z) (acc : Z) : option Z :=
  match s with
  | [] => Some acc
  | c :: s => if (48 <=? c) && (c <=? 57) then scan_digits s (acc * 10 + (c - 48)) else None
  end.
Definition scan_nat (s : list Z) : option Z := match s with [] => None | _ => scan_digits s 0 end.
Definition SetString10 (s : list Z) : option Z :=
  match s with
  | [] => None
  | c :: s' =>
    if c =? 45 then Z.opp <$> scan_nat s' else if c =? 43 then scan_nat s' else scan_nat s
  end.

(** The conversion of a uint64 to float64: 53 bits, rounded to even.  The result
    is an integer; [half_floor] halves it, which is exact, and takes the floor. *)
Definition float64 (x : Z) : Z :=
  let e := Z.log2 x - 52 in
  if e <=? 0 then x
  else
    let q := x / 2 ^ e in
    let r := x mod 2 ^ e in
    let half := 2 ^ (e - 1) in
    let up := (half <? r) || (half =? r) && Z.odd q in
    (if up then q + 1 else q) * 2 ^ e.
Definition half_floor (x : Z) : Z := uint64 (float64 x / 2).

(** ** Messages of the protocol *)

Record GetHeadersRequest := mkGetHeaders { grNumber : Z; grHash : list Z; grSkip : Z; grAmount : Z }.

Inductive HashType := UNKNOWN | BODIES | RECEIPTS.
Record HashRequest := mkHashRequest { hrHash : list (list Z); hrType : HashType }.

(** A component is the value of its field [Spec], which may be missing; an empty
    value and a missing one are the same on the wire. *)
Definition Response : Type := list (option (list Z)).

Record V1Status := mkV1Status { v1Difficulty : list Z; v1Hash : list Z; v1Number : Z }.
Record NotifyReq := mkNotifyReq { nrStatus : option V1Status; nrRaw : option (list Z) }.

(** [DecodeHashes]; [UnmarshalText] of a hash does not fail. *)
Definition DecodeHashes (r : HashRequest) : list Hash := Hash_UnmarshalText <$> hrHash r.

(** ** The status of a peer *)

Record Status := mkStatus { stDifficulty : option Z; stHash : Hash; stNumber : Z }.

(** [Copy]; [Set] of a nil number is a nil dereference. *)
Definition Status_Copy (s : Status) : outcome Status :=
  obind (of_option (stDifficulty s)) (fun d => Ok (mkStatus (Some d) (stHash s) (stNumber s))).

Definition toProto (s : Status) : V1Status :=
  mkV1Status (big_String (stDifficulty s)) (Hash_String (stHash s)) (stNumber s).

Definition fromProto (p : V1Status) : option Status :=
  match SetString10 (v1Difficulty p) with
  | None => None
  | Some diff => Some (mkStatus (Some diff) (StringToHash (v1Hash p)) (v1Number p))
  end.

Definition statusFromProto (p : V1Status) : option Status :=
  let hash := Hash_UnmarshalText (v1Hash p) in
  match SetString10 (v1Difficulty p) with
  | None => None
  | Some diff => Some (mkStatus (Some diff) hash (v1Number p))
  end.

(** ** The chain, as the syncer sees it: the interface [blockchainShim]

    A read may change the chain: it fills its caches. *)
Class Shim := {
  Node : Type;
  sh_Header : Node -> option Header;
  sh_CurrentTD : Node -> option Z;
  sh_GetTD : Hash -> Node -> outcome (option Z * Node);
  sh_GetReceiptsByHash : Hash -> Node -> outcome (option (list Receipt) * Node);
  sh_GetBodyByHash : Hash -> Node -> outcome (option Body * Node);
  sh_GetHeaderByHash : Hash -> Node -> outcome (option Header * Node);
  sh_GetHeaderByNumber : Z -> Node -> outcome (option Header * Node);
  sh_WriteBlock : option Block -> Node -> outcome (option unit * Node)
}.

(** The chain of src/core implements it. *)
Section shim.
Context `{FastRLP} `{Runtime} `{KV} `{LRU} `{Roots} `{Verifier} `{BlockExecutor}.
Context (HeaderHash : Header -> Hash) (turns : nat).

Definition GetReceiptsByHash (hash : Hash) : C (list Receipt) := fun b =>
  Ok (match ReadReceipts hash (bDb b) with Found rs => Some rs | _ => None end, b).

Definition chain_shim : Shim := {|
  Node := Blockchain;
  sh_Header := bCurrentHeader;
  sh_CurrentTD := bCurrentDifficulty;
  sh_GetTD := GetTD;
  sh_GetReceiptsByHash := GetReceiptsByHash;
  sh_GetBodyByHash := readBody HeaderHash;
  sh_GetHeaderByHash := GetHeaderByHash HeaderHash;
  sh_GetHeaderByNumber := GetHeaderByNumber HeaderHash;
  sh_WriteBlock block := match block with None => cfail | Some block => WriteBlock HeaderHash turns block end
|}.
End shim.

(** ** The service *)

Definition maxHeadersAmount : Z := 190.

Section service.
Context `{FastRLP} `{Runtime} `{Shim}.
Context (HeaderHash : Header -> Hash).
Open Scope outcome_scope.

(** The loop of [GetHeaders]; it ends because [count] grows up to [amount]. *)
Fixpoint headers_loop (turns : nat) (skip : Z) (origin : Header) (acc : Response) (s : Node)
    : outcome (Response * Node) :=
  match turns with
  | O => Ok (acc, s)
  | S turns =>
    let block := int64 (int64 (hNumber origin) + skip) in
    if block <? 0 then Ok (acc, s)
    else
      let^ (h, s) := sh_GetHeaderByNumber (uint64 block) s in
      match h with
      | None => Ok (acc, s)
      | Some h => headers_loop turns skip h (acc ++ [Some (MarshalTo (Header_MarshalRLPWith h))]) s
      end
  end.

(** [GetHeaders]; [None] is the error.  The loop runs while [count], which is 1 at
    first, is less than the amount. *)
Definition GetHeaders (req : GetHeadersRequest) (s : Node) : outcome (option Response * Node) :=
  if negb (grNumber req =? 0) && negb (bool_decide (grHash req = [])) then Ok (None, s)
  else
    let amount := if maxHeadersAmount <? grAmount req then maxHeadersAmount else grAmount req in
    let^ (origin, s) :=
      if negb (grNumber req =? 0) then sh_GetHeaderByNumber (uint64 (grNumber req)) s
      else sh_GetHeaderByHash (Hash_UnmarshalText (grHash req)) s in
    match origin with
    | None => Ok (Some [], s)
    | Some origin =>
      let skip := int64 (grSkip req + 1) in
      let^ (objs, s) :=
        headers_loop (Z.to_nat (amount - 1)) skip origin [Some (MarshalTo (Header_MarshalRLPWith origin))] s in
      Ok (Some objs, s)
    end.

(** The objects of [GetObjectsByHash].  A body that is not found is a nil pointer
    in an interface that is not nil, so that its method is called. *)
Fixpoint objects_loop (type : HashType) (hashes : list Hash) (acc : Response) (s : Node)
    : outcome (option Response * Node) :=
  match hashes with
  | [] => Ok (Some acc, s)
  | hash :: hashes =>
    match type with
    | BODIES =>
      let^ (obj, s) := sh_GetBodyByHash hash s in
      match obj with
      | None => Panic
      | Some body => objects_loop type hashes (acc ++ [Some (MarshalTo (Body_MarshalRLPWith body))]) s
      end
    | RECEIPTS =>
      let^ (raw, s) := sh_GetReceiptsByHash hash s in
      match raw with
      | None => Ok (None, s)
      | Some rs => objects_loop type hashes (acc ++ [Some (MarshalTo (Receipts_MarshalRLPWith rs))]) s
      end
    | UNKNOWN => objects_loop type hashes (acc ++ [Some []]) s
    end
  end.

Definition GetObjectsByHash (req : HashRequest) (s : Node) : outcome (option Response * Node) :=
  objects_loop (hrType req) (DecodeHashes req) [] s.

End service.

(** ** Peers *)

Definition maxEnqueueSize : Z := 50.

Definition PeerID : Type := list Z.

(** [SyncPeer]: [spClosed] says that the connection is shut down. *)
Record SyncPeer := mkSyncPeer { spStatus : Status; spEnqueue : list Block; spClosed : bool }.

Definition set_queue (q : list Block) (p : SyncPeer) : SyncPeer := mkSyncPeer (spStatus p) q (spClosed p).
Definition updateStatus (s : Status) (p : SyncPeer) : SyncPeer := mkSyncPeer s (spEnqueue p) (spClosed p).

Definition Block_Hash (b : Block) : Hash := hHash (bkHeader b).

(** [purgeBlocks]: the index of the last block with the hash, -1 at first. *)
Fixpoint last_index (lastSeen : Hash) (i : Z) (q : list Block) (indx : Z) : Z :=
  match q with
  | [] => indx
  | b :: q => last_index lastSeen (i + 1) q (if Block_Hash b =? lastSeen then i else indx)
  end.
Definition purgeBlocks (lastSeen : Hash) (p : SyncPeer) : SyncPeer :=
  let indx := last_index lastSeen 0 (spEnqueue p) (-1) in
  if negb (indx =? -1) then set_queue (drop (Z.to_nat (indx + 1)) (spEnqueue p)) p else p.

Definition appendBlock (b : Block) (p : SyncPeer) : SyncPeer :=
  let q := if len (spEnqueue p) =? maxEnqueueSize then drop 1 (spEnqueue p) else spEnqueue p in
  set_queue (q ++ [b]) p.

(** The errors of the syncer, with those the source builds in place. *)
Inductive SyncError :=
| ErrLoadLocalGenesisFailed
| ErrMismatchGenesis
| ErrCommonAncestorNotFound
| ErrForkNotFound
| ErrPopTimeout
| ErrConnectionClosed
| ErrRpc               (* the error of a call to the peer *)
| ErrMoreThanOne       (* unexpected more than 1 result *)
| ErrDecode            (* an object of the peer that is not an encoding *)
| ErrNoLocalHeader     (* cannot find the header in local chain *)
| ErrGetFork           (* failed to get fork *)
| ErrBodySize          (* not correct size *)
| ErrBuildSkeleton     (* failed to build skeleton *)
| ErrWriteBlock.       (* failed to write block *)

Inductive res (A : Type) : Type := Good (a : A) | Err (e : SyncError).
Arguments Good {A} a.
Arguments Err {A} e.

(** What happens while [popBlock] waits: blocks are appended to the queue by the
    service, and the connection may be shut down, or the time is out. *)
Inductive Wait := Woken (bs : list Block) (closed : bool) | TimedOut.

(** [popBlock], with what each wait ends with. *)
Fixpoint popBlock (waits : list Wait) (p : SyncPeer) : outcome (res Block * SyncPeer * list Wait) :=
  if spClosed p then Ok (Err ErrConnectionClosed, p, waits)
  else
    match spEnqueue p with
    | b :: q => Ok (Good b, set_queue q p, waits)
    | [] =>
      match waits with
      | [] => OutOfFuel
      | TimedOut :: waits => Ok (Err ErrPopTimeout, p, waits)
      | Woken bs closed :: waits =>
        let p := foldl (fun p b => appendBlock b p) p bs in
        popBlock waits (mkSyncPeer (spStatus p) (spEnqueue p) closed)
      end
    end.

(** ** The syncer

    The peers are the entries of a [sync.Map]; the list is in the order in which
    [Range] visits them. *)
Record Syncer := mkSyncer { syPeers : list (PeerID * SyncPeer); syStatus : option Status }.

Definition NewSyncer : Syncer := mkSyncer [] None.

Definition set_peers (ps : list (PeerID * SyncPeer)) (s : Syncer) : Syncer := mkSyncer ps (syStatus s).

Definition peer_load (id : PeerID) (s : Syncer) : option SyncPeer :=
  snd <$> List.find (fun p => bool_decide (p.1 = id)) (syPeers s).
Definition peer_update (id : PeerID) (f : SyncPeer -> SyncPeer) (s : Syncer) : Syncer :=
  set_peers ((fun p => if bool_decide (p.1 = id) then (p.1, f p.2) else p) <$> syPeers s) s.

(** [enqueueBlock] and [updatePeerStatus]: a peer that is not known is ignored. *)
Definition enqueueBlock (id : PeerID) (b : Block) (s : Syncer) : Syncer := peer_update id (appendBlock b) s.
Definition updatePeerStatus (id : PeerID) (st : Status) (s : Syncer) : Syncer := peer_update id (updateStatus st) s.

(** [syncCurrentStatus]: the status after an event of the chain. *)
Definition syncCurrentStatus (e : Event) (s : Syncer) : Syncer :=
  match evType e with
  | EventFork => s
  | _ =>
    match evNewChain e with
    | [] => s
    | h :: _ => mkSyncer (syPeers s) (Some (mkStatus (evDifficulty e) (hHash h) (hNumber h)))
    end
  end.

Section syncer.
Context `{FastRLP} `{Runtime} `{Shim}.
Context (HeaderHash : Header -> Hash).
Open Scope outcome_scope.

(** The status that [Start] sets; a nil header is dereferenced. *)
Definition Start (s : Syncer) (c : Node) : outcome (Syncer * Node) :=
  let^ currentHeader := of_option (sh_Header c) in
  let^ (diff, c) := sh_GetTD (hHash currentHeader) c in
  Ok (mkSyncer (syPeers s) (Some (mkStatus diff (hHash currentHeader) (hNumber currentHeader))), c).

(** [GetCurrent]. *)
Definition GetCurrent (s : Syncer) : outcome V1Status :=
  let^ st := of_option (syStatus s) in Ok (toProto st).

(** [Notify]; [id] is [None] when the context is not one of a peer.  The result
    says whether the call succeeds. *)
Definition Notify (id : option PeerID) (req : NotifyReq) (s : Syncer) : outcome (bool * Syncer) :=
  match id with
  | None => Ok (true, s)
  | Some id =>
    let^ raw := of_option (nrRaw req) in
    match Block_UnmarshalRLP HeaderHash (mkBlock zero_header [] []) raw with
    | None => Ok (false, s)
    | Some b =>
      let^ p := of_option (nrStatus req) in
      match fromProto p with
      | None => Ok (false, s)
      | Some status => Ok (true, updatePeerStatus id status (enqueueBlock id b s))
      end
    end
  end.

(** [Broadcast]: the requests that are sent, one per peer; [None] when the
    difficulty of the block is not known.  Errors of the calls are only logged. *)
Definition Broadcast (b : Block) (s : Syncer) (c : Node) : outcome (option (list (PeerID * NotifyReq)) * Node) :=
  let^ (td, c) := sh_GetTD (Block_Hash b) c in
  match td with
  | None => Ok (None, c)
  | Some td =>
    let req := mkNotifyReq
      (Some (mkV1Status (big_String (Some td)) (Hash_String (Block_Hash b)) (hNumber (bkHeader b))))
      (Some (Block_MarshalRLP b)) in
    Ok (Some ((fun p => (p.1, req)) <$> syPeers s), c)
  end.

(** [AddPeer]: [stream] says whether a stream opens, [current] is the answer to
    [GetCurrent]; the peer is the last one that [Range] visits. *)
Definition AddPeer (stream : bool) (current : option V1Status) (id : PeerID) (s : Syncer) : bool * Syncer :=
  match peer_load id s with
  | Some _ => (true, s)
  | None =>
    if negb stream then (false, s)
    else
      match current with
      | None => (false, s)
      | Some raw =>
        match statusFromProto raw with
        | None => (false, s)
        | Some status => (true, set_peers (syPeers s ++ [(id, mkSyncPeer status [] false)]) s)
        end
      end
  end.

(** [DeletePeer]: [close] says whether the connection closes without error. *)
Definition DeletePeer (close : bool) (id : PeerID) (s : Syncer) : bool * Syncer :=
  let s' := set_peers (filter (fun p => p.1 <> id) (syPeers s)) s in
  match peer_load id s with None => (true, s') | Some _ => (close, s') end.

(** [setupPeers] and [handlePeerEvent]: errors are only logged. *)
Fixpoint setupPeers (peers : list (PeerID * bool * option V1Status)) (s : Syncer) : Syncer :=
  match peers with
  | [] => s
  | (id, stream, current) :: peers => setupPeers peers (AddPeer stream current id s).2
  end.
Inductive PeerEvent :=
| PeerConnected (id : PeerID) (stream : bool) (current : option V1Status)
| PeerDisconnected (id : PeerID) (close : bool)
| PeerOther.
Definition handlePeerEvent (e : PeerEvent) (s : Syncer) : Syncer :=
  match e with
  | PeerConnected id stream current => (AddPeer stream current id s).2
  | PeerDisconnected id close => (DeletePeer close id s).2
  | PeerOther => s
  end.

(** [Cmp] of two pointers to numbers. *)
Definition Cmp (x y : option Z) : outcome comparison :=
  let^ a := of_option x in let^ b := of_option y in Ok (a ?= b).

Fixpoint best_loop (ps : list (PeerID * SyncPeer)) (best : option (PeerID * SyncPeer)) (bestTd : option Z)
    : outcome (option (PeerID * SyncPeer) * option Z) :=
  match ps with
  | [] => Ok (best, bestTd)
  | p :: ps =>
    let td := stDifficulty (spStatus p.2) in
    let^ better := match best with None => Ok Gt | Some _ => Cmp td bestTd end in
    match better with
    | Gt => best_loop ps (Some p) td
    | _ => best_loop ps best bestTd
    end
  end.

Definition BestPeer (s : Syncer) (c : Node) : outcome (option (PeerID * SyncPeer)) :=
  let^ (best, bestTd) := best_loop (syPeers s) None None in
  match best with
  | None => Ok None
  | Some p =>
    let^ o := Cmp bestTd (sh_CurrentTD c) in
    match o with Gt => Ok (Some p) | _ => Ok None end
  end.

End syncer.

(** ** Synchronising with a peer *)

(** The client of a peer's service; [None] is the error of a call. *)
Class V1Client := {
  Remote : Type;
  clt_GetHeaders : GetHeadersRequest -> Remote -> option Response * Remote;
  clt_GetObjectsByHash : HashRequest -> Remote -> option Response * Remote
}.

(** The client of a peer that runs the service on its chain; a peer that panics
    does not answer. *)
Definition served {A S} (s : S) (o : outcome (option A * S)) : option A * S :=
  match o with Ok r => r | _ => (None, s) end.

Definition service_client `{FastRLP} `{Runtime} (peer : Shim) : V1Client := {|
  Remote := @Node peer;
  clt_GetHeaders req s := served s (GetHeaders req s);
  clt_GetObjectsByHash req s := served s (GetObjectsByHash req s)
|}.

(** *** Progress (src/common/progress/chain.go)

    The wrapper's pointer to the progress of the synchronisation that is under
    way; updating a nil pointer is a nil dereference. *)
Inductive ChainSyncType := ChainSyncRestore | ChainSyncBulk.
Record Progression := mkProgression {
  pgSyncType : ChainSyncType;
  pgStartingBlock : Z;
  pgCurrentBlock : Z;
  pgHighestBlock : Z
}.

Definition StartProgression (type : ChainSyncType) (startingBlock : Z) : Progression :=
  mkProgression type startingBlock 0 0.
Definition UpdateCurrentProgression (currentBlock : Z) (p : option Progression) : outcome (option Progression) :=
  obind (of_option p) (fun p =>
  Ok (Some (mkProgression (pgSyncType p) (pgStartingBlock p) currentBlock (pgHighestBlock p)))).
Definition UpdateHighestProgression (highestBlock : Z) (p : option Progression) : outcome (option Progression) :=
  obind (of_option p) (fun p =>
  Ok (Some (mkProgression (pgSyncType p) (pgStartingBlock p) (pgCurrentBlock p) highestBlock))).

(** [RunUpdateLoop], which runs beside the synchronisation: an event of the chain. *)
Definition RunUpdateLoop (e : Event) (p : option Progression) : outcome (option Progression) :=
  match evType e with
  | EventFork => Ok p
  | _ =>
    match list.last (evNewChain e) with
    | None => Ok p
    | Some lastBlock => UpdateCurrentProgression (hNumber lastBlock) p
    end
  end.

(** The state of a synchronisation: the local chain, the peer, the blocks given to
    the handler of new blocks, and the progress. *)
Record sync `{Shim} `{V1Client} := mkSync {
  sChain : Node;
  sPeer : Remote;
  sHandled : list Block;
  sProgress : option Progression
}.

Definition M `{Shim} `{V1Client} (A : Type) : Type := sync -> outcome (res A * sync).

Section monad.
Context `{Shim} `{V1Client}.

Definition sret {A} (a : A) : M A := fun s => Ok (Good a, s).
Definition serr {A} (e : SyncError) : M A := fun s => Ok (Err e, s).
Definition spanic {A} : M A := fun _ => Panic.
Definition sbind {A B} (m : M A) (k : A -> M B) : M B := fun s =>
  obind (m s) (fun '(r, s) => match r with Good a => k a s | Err e => Ok (Err e, s) end).
(** The error as a value. *)
Definition stry {A} (m : M A) : M (res A) := fun s => obind (m s) (fun '(r, s) => Ok (Good r, s)).
Definition sopt {A} (o : option A) : M A := match o with Some a => sret a | None => spanic end.

Definition local {A} (f : Node -> outcome (A * Node)) : M A := fun s =>
  obind (f (sChain s)) (fun '(a, c) => Ok (Good a, mkSync _ _ c (sPeer s) (sHandled s) (sProgress s))).
Definition call {A} (f : Remote -> option A * Remote) : M A := fun s =>
  let (r, p) := f (sPeer s) in
  Ok (match r with Some a => Good a | None => Err ErrRpc end, mkSync _ _ (sChain s) p (sHandled s) (sProgress s)).
Definition handle (b : option Block) : M unit := fun s =>
  Ok (Good tt, mkSync _ _ (sChain s) (sPeer s) (sHandled s ++ option_list b) (sProgress s)).
Definition progress (f : option Progression -> outcome (option Progression)) : M unit := fun s =>
  obind (f (sProgress s)) (fun g => Ok (Good tt, mkSync _ _ (sChain s) (sPeer s) (sHandled s) g)).
Definition sheader : M Header := fun s => sopt (sh_Header (sChain s)) s.

End monad.

Declare Scope sync_scope.
Notation "'let*' p := m 'in' k" := (sbind m (fun x => match x with p => k end))
  (at level 10, p pattern, m at level 100, k at level 200) : sync_scope.

Section client.
Context `{FastRLP} `{Runtime} `{Shim} `{V1Client}.
Context (HeaderHash : Header -> Hash).
Open Scope sync_scope.

(** [header.UnmarshalRLP(obj.Spec.Value)] and that of a body, a missing [Spec]
    being a nil dereference. *)
Definition decode_header (obj : option (list Z)) : M Header :=
  let* v := sopt obj in
  match Header_UnmarshalRLP HeaderHash zero_header v with Some h => sret h | None => serr ErrDecode end.
Definition decode_body (obj : option (list Z)) : M Body :=
  let* v := sopt obj in
  match v with
  | [] => sret (mkBody [] [])
  | _ => match Body_UnmarshalRLP HeaderHash (mkBody [] []) v with Some b => sret b | None => serr ErrDecode end
  end.

Fixpoint decode_all {A} (f : option (list Z) -> M A) (objs : Response) : M (list A) :=
  match objs with
  | [] => sret []
  | o :: objs => let* x := f o in let* xs := decode_all f objs in sret (x :: xs)
  end.

(** [getHeader] with a number. *)
Definition getHeader (num : Z) : M (option Header) :=
  let* objs := call (clt_GetHeaders (mkGetHeaders (int64 num) [] 0 0)) in
  match objs with
  | [] => sret None
  | [o] => let* h := decode_header o in sret (Some h)
  | _ => serr ErrMoreThanOne
  end.

Definition getHeaders (req : GetHeadersRequest) : M (list Header) :=
  let* objs := call (clt_GetHeaders req) in decode_all decode_header objs.

Definition getBodies (hashes : list Hash) : M (list Body) :=
  let* objs := call (clt_GetObjectsByHash (mkHashRequest (Hash_String <$> hashes) BODIES)) in
  let* bodies := decode_all decode_body objs in
  if negb (len bodies =? len hashes) then serr ErrBodySize else sret bodies.

(** The loop of [findCommonAncestor]. *)
Fixpoint ancestor_loop (turns : nat) (min max : Z) (header : option Header) : M (option Header) :=
  if max <? min then sret header
  else
    match turns with
    | O => fun _ => OutOfFuel
    | S turns =>
      let m := half_floor (uint64 (min + max)) in
      if m =? 0 then
        let* genesis := local (sh_GetHeaderByNumber 0) in
        match genesis with
        | None => serr ErrLoadLocalGenesisFailed
        | Some genesis => sret (Some genesis)
        end
      else
        let* found := getHeader m in
        match found with
        | None => ancestor_loop turns min (uint64 (m - 1)) header
        | Some found =>
          let* expectedHeader := local (sh_GetHeaderByNumber m) in
          match expectedHeader with
          | None => serr ErrNoLocalHeader
          | Some expectedHeader =>
            if hHash expectedHeader =? hHash found then ancestor_loop turns (uint64 (m + 1)) max (Some found)
            else if m =? 0 then serr ErrMismatchGenesis
            else ancestor_loop turns min (uint64 (m - 1)) header
          end
        end
    end.

(** [findCommonAncestor]; the interval halves at each turn, so that 65 turns are
    enough for 64 bits. *)
Definition findCommonAncestor (status : Status) : M (Header * Header) :=
  let* h := sheader in
  let max := if stNumber status <? hNumber h then stNumber status else hNumber h in
  let* header := ancestor_loop 65 0 max None in
  match header with
  | None => serr ErrCommonAncestorNotFound
  | Some header =>
    let* fork := stry (getHeader (uint64 (hNumber header + 1))) in
    match fork with
    | Err _ => serr ErrGetFork
    | Good None => serr ErrForkNotFound
    | Good (Some fork) => sret (header, fork)
    end
  end.

(** *** Skeletons *)

Record slot := mkSlot { slHash : Hash; slNumber : Z; slBlocks : list (option Block) }.
Record skeleton := mkSkeleton { skSlots : list slot; skSpan : Z; skNum : Z }.

Definition set_slots (x : list slot) (sk : skeleton) : skeleton := mkSkeleton x (skSpan sk) (skNum sk).

(** [LastHeader]: an empty list is an index out of range, a nil block a nil
    dereference. *)
Definition LastHeader (sk : skeleton) : outcome Header :=
  obind (of_option (list.last (skSlots sk))) (fun slot =>
  obind (of_option (list.last (slBlocks slot))) (fun b =>
  obind (of_option b) (fun b => Ok (bkHeader b)))).

(** The difference of the numbers in [addSkeleton]; [None] is the error. *)
Fixpoint same_diff (prev : Header) (hs : list Header) (diff : Z) : option Z :=
  match hs with
  | [] => Some diff
  | h :: hs =>
    let elemDiff := uint64 (hNumber h - hNumber prev) in
    if diff =? 0 then same_diff h hs elemDiff
    else if negb (elemDiff =? diff) then None
    else same_diff h hs diff
  end.

(** [make] of a slice of pointers panics above the largest allocation. *)
Definition maxAlloc : Z := 2 ^ 48.
Definition make_blocks (n : Z) : outcome (list (option Block)) :=
  if maxAlloc <? 8 * n then Panic else Ok (replicate (Z.to_nat n) None).

(** [addSkeleton]: whether it succeeds, and the skeleton. *)
Definition addSkeleton (headers : list Header) (sk : skeleton) : outcome (bool * skeleton) :=
  let diff := match headers with [] => Some 0 | h :: hs => same_diff h hs 0 end in
  match diff with
  | None => Ok (false, sk)
  | Some diff =>
    match headers with
    | [] => Ok (true, set_slots [] sk)
    | _ =>
      obind (make_blocks diff) (fun blocks =>
      Ok (true, set_slots ((fun h => mkSlot (hHash h) (hNumber h) blocks) <$> headers) sk))
    end
  end.

(** [build]; the error of [addSkeleton] is ignored. *)
Definition build (ancestor : Hash) (sk : skeleton) : M skeleton :=
  let* headers := getHeaders (mkGetHeaders 0 (Hash_String ancestor) (int64 (skSpan sk - 1)) (skNum sk)) in
  fun s => obind (addSkeleton headers sk) (fun '(_, sk) => Ok (Good sk, s)).

(** The headers whose body is requested, with their index. *)
Definition with_body (resp : list Header) : list (nat * Header) :=
  filter (fun p => hTxRoot p.2 <> EmptyRootHash) (imap pair resp).

(** [slot.blocks[bodyIndex[indx]].Transactions = body.Transactions]. *)
Definition set_txs (body : Body) (b : option Block) : option Block :=
  (fun b => mkBlock (bkHeader b) (bodyTransactions body) (bkUncles b)) <$> b.
Fixpoint put_bodies (index : list nat) (bodies : list Body) (blocks : list (option Block)) : list (option Block) :=
  match index, bodies with
  | i :: index, body :: bodies => put_bodies index bodies (alter (set_txs body) i blocks)
  | _, _ => blocks
  end.

Definition set_blocks (indx : nat) (blocks : list (option Block)) (sk : skeleton) : skeleton :=
  set_slots (alter (fun sl => mkSlot (slHash sl) (slNumber sl) blocks) indx (skSlots sk)) sk.

(** [fillSlot]: the error, and the skeleton as it is left. *)
Definition fillSlot (indx : nat) (sk : skeleton) : M (option SyncError * skeleton) :=
  let* slot := sopt (skSlots sk !! indx) in
  let* resp := stry (getHeaders (mkGetHeaders 0 (Hash_String (slHash slot)) 0 (skSpan sk))) in
  match resp with
  | Err e => sret (Some e, sk)
  | Good resp =>
    let blocks := (fun h => Some (mkBlock h [] [])) <$> resp in
    match with_body resp with
    | [] => sret (None, set_blocks indx blocks sk)
    | wanted =>
      let* bodies := stry (getBodies (hHash ∘ snd <$> wanted)) in
      match bodies with
      | Err e => sret (Some e, set_blocks indx blocks sk)
      | Good bodies => sret (None, set_blocks indx (put_bodies wanted.*1 bodies blocks) sk)
      end
    end
  end.

(** *** [BulkSyncWithPeer] *)

(** The errors of [fillSlot] are ignored. *)
Fixpoint fill_slots (indxs : list nat) (sk : skeleton) : M skeleton :=
  match indxs with
  | [] => sret sk
  | i :: indxs => let* (_, sk) := fillSlot i sk in fill_slots indxs sk
  end.

Fixpoint write_synced (blocks : list (option Block)) : M unit :=
  match blocks with
  | [] => sret tt
  | b :: blocks =>
    let* ok := local (sh_WriteBlock b) in
    match ok with
    | None => serr ErrWriteBlock
    | Some _ => let* _ := handle b in write_synced blocks
    end
  end.

(** One turn of the inner loop: the header that the next one starts at. *)
Definition sync_batch (startBlock : Header) : M Header :=
  let* sk := stry (build (hHash startBlock) (mkSkeleton [] 10 5)) in
  match sk with
  | Err _ => serr ErrBuildSkeleton
  | Good sk =>
    let* sk := fill_slots (seq 0 (length (skSlots sk))) sk in
    let* _ := write_synced (concat (slBlocks <$> skSlots sk)) in
    fun s => obind (LastHeader sk) (fun h => Ok (Good h, s))
  end.

Fixpoint sync_to (turns : nat) (target : Z) (startBlock : Header) : M Header :=
  match turns with
  | O => fun _ => OutOfFuel
  | S turns =>
    let* startBlock := sync_batch startBlock in
    if target <=? hNumber startBlock then sret startBlock else sync_to turns target startBlock
  end.

(** The outer loop; [targets] are the numbers it reads from the status of the
    peer, which the service updates, at each turn. *)
Fixpoint sync_targets (turns : nat) (targets : list Z) (lastTarget : Z) (startBlock : Header) : M unit :=
  match targets with
  | [] => fun _ => OutOfFuel
  | target :: targets =>
    let* _ := progress (UpdateHighestProgression target) in
    if target =? lastTarget then sret tt
    else let* startBlock := sync_to turns target startBlock in sync_targets turns targets target startBlock
  end.

(** The deferred [StopProgression]. *)
Definition stop_progress {A} (m : M A) : M A := fun s =>
  obind (m s) (fun '(r, s) => Ok (r, mkSync _ _ (sChain s) (sPeer s) (sHandled s) None)).

Definition BulkSyncWithPeer (turns : nat) (status : Status) (targets : list Z) : M unit :=
  let* (_, fork) := findCommonAncestor status in
  let* _ := progress (fun _ => Ok (Some (StartProgression ChainSyncBulk (hNumber fork)))) in
  stop_progress (sync_targets turns targets 0 fork).

(** *** [WatchSyncWithPeer] *)

(** The loop; [stop] is the answer of the handler. *)
Fixpoint watch_loop (turns : nat) (stop : Block -> bool) (waits : list Wait) (p : SyncPeer) : M SyncPeer :=
  if spClosed p then sret p
  else
    match turns with
    | O => fun _ => OutOfFuel
    | S turns => fun s =>
      obind (popBlock waits p) (fun '(r, p, waits) =>
      match r with
      | Err _ => Ok (Good p, s)
      | Good b =>
        (let* ok := local (sh_WriteBlock (Some b)) in
         match ok with
         | None => sret p
         | Some _ => let* _ := handle (Some b) in if stop b then sret p else watch_loop turns stop waits p
         end) s
      end)
    end.

Definition WatchSyncWithPeer (turns : nat) (stop : Block -> bool) (waits : list Wait) (p : SyncPeer) : M SyncPeer :=
  let* header := sheader in watch_loop turns stop waits (purgeBlocks (hHash header) p).

End client.
