(* ===== verification/SyncFacts.v ===== *)
(** What the syncer does: statuses survive the wire, the queue of a peer, the
    best peer, the search of the common ancestor, and the bulk synchronisation
    with a peer that runs the same service. *)

From Stdlib Require Import ZArith Lia.
From stdpp Require Import base list numbers.
From S2P Require Import Prelude Types Text Chain Rlp RlpFacts Storage Seals Blockchain Syncer.

Open Scope Z_scope.

(** ** Numbers *)

Lemma scan_dec_loop fuel n acc : 0 <= n < 2 ^ Z.of_nat fuel ->
  scan_digits (dec_loop fuel n acc) 0 = scan_digits acc n.
Proof.
  revert n acc. induction fuel as [|fuel IH]; intros n acc Hn; cbn [dec_loop].
  - replace n with 0 by (cbn in Hn; lia). done.
  - rewrite Nat2Z.inj_succ, Z.pow_succ_r in Hn by lia. destruct (Z.ltb_spec n 10).
    + cbn [scan_digits]. replace ((48 <=? 48 + n) && (48 + n <=? 57)) with true by lia. f_equal. lia.
    + rewrite IH by (Z.div_mod_to_equations; lia). cbn [scan_digits].
      replace ((48 <=? 48 + n mod 10) && (48 + n mod 10 <=? 57)) with true
        by (pose proof (Z.mod_pos_bound n 10 ltac:(lia)); lia).
      f_equal. pose proof (Z.div_mod n 10 ltac:(lia)). lia.
Qed.

Lemma dec_loop_head fuel n c acc : 0 <= n -> 48 <= c <= 57 ->
  exists c' acc', dec_loop fuel n (c :: acc) = c' :: acc' /\ 48 <= c' <= 57.
Proof.
  revert n c acc. induction fuel as [|fuel IH]; intros n c acc Hn Hc; cbn [dec_loop]; [by eauto|].
  destruct (Z.ltb_spec n 10); [do 2 eexists; split; [done|lia]|].
  apply IH; [apply Z.div_pos; lia|]. pose proof (Z.mod_pos_bound n 10 ltac:(lia)). lia.
Qed.

Lemma nat_digits_scan n : 0 <= n -> exists c s, nat_digits n = c :: s /\ 48 <= c <= 57 /\ scan_nat (c :: s) = Some n.
Proof.
  intros Hn.
  assert (n < 2 ^ Z.of_nat (S (Z.to_nat (Z.log2 n)))) as Hl.
  { rewrite Nat2Z.inj_succ, Z2Nat.id by apply Z.log2_nonneg.
    destruct (Z.eq_dec n 0) as [->|]; [by cbn|]. apply Z.log2_spec. lia. }
  assert (exists c s, nat_digits n = c :: s /\ 48 <= c <= 57) as (c & s & E & Hc).
  { unfold nat_digits. cbn [dec_loop]. destruct (Z.ltb_spec n 10); [do 2 eexists; split; [done|lia]|].
    apply dec_loop_head; [apply Z.div_pos; lia|]. pose proof (Z.mod_pos_bound n 10 ltac:(lia)). lia. }
  exists c, s. split; [done|]. split; [done|]. unfold scan_nat. rewrite <- E.
  unfold nat_digits. by rewrite scan_dec_loop.
Qed.

(** A number that is printed and read again. *)
Lemma SetString_String x : SetString10 (big_String (Some x)) = Some x.
Proof.
  unfold big_String. destruct (Z.ltb_spec x 0).
  - destruct (nat_digits_scan (- x)) as (c & s & E & Hc & Hs); [lia|]. unfold SetString10. cbn [Z.eqb Pos.eqb].
    rewrite E, Hs. cbn. f_equal. lia.
  - destruct (nat_digits_scan x) as (c & s & E & Hc & Hs); [done|]. unfold SetString10. rewrite E.
    replace (c =? 45) with false by lia. by replace (c =? 43) with false by lia.
Qed.

Lemma float64_exact x : 0 <= x < 2 ^ 53 -> float64 x = x.
Proof.
  intros Hx. unfold float64.
  assert (Z.log2 x <= 52) by (destruct (Z.eq_dec x 0) as [->|]; [done|]; apply Z.lt_succ_r, Z.log2_lt_pow2; lia).
  by replace (Z.log2 x - 52 <=? 0) with true by lia.
Qed.

Lemma half_floor_exact a b : 0 <= a -> 0 <= b -> a + b < 2 ^ 53 ->
  half_floor (uint64 (a + b)) = (a + b) / 2.
Proof.
  intros Ha Hb Hs. unfold half_floor. rewrite (uint64_small (a + b)) by (unfold is_u64; lia).
  rewrite float64_exact by lia. apply uint64_small. unfold is_u64. Z.div_mod_to_equations; lia.
Qed.

(** ** Statuses *)

Lemma StringToHash_String h : is_word h -> StringToHash (Hash_String h) = h.
Proof.
  intros Hh. unfold StringToHash, Hash_String, EncodeToHex.
  rewrite (stringToBytes_spells _ (Hash_Bytes h)) by apply EncodeToString_spells, be_encode_bytes.
  unfold BytesToHash, Hash_Bytes. rewrite be_encode_length. change (Nat.min _ _) with 32%nat.
  rewrite !Nat.sub_diag. by apply be_decode_encode_small.
Qed.

Lemma Hash_text_roundtrip h : is_word h -> Hash_UnmarshalText (Hash_String h) = h.
Proof. apply StringToHash_String. Qed.

Lemma statusFromProto_same p : statusFromProto p = fromProto p.
Proof. done. Qed.

Lemma status_text td h n : is_word h ->
  fromProto (mkV1Status (big_String (Some td)) (Hash_String h) n) = Some (mkStatus (Some td) h n).
Proof. intros Hh. unfold fromProto. cbn [v1Difficulty v1Hash v1Number]. by rewrite SetString_String, StringToHash_String. Qed.

(** ** The queue of a peer *)

(** The last [n] elements. *)
Definition lastn {A} (n : nat) (l : list A) : list A := drop (length l - n) l.

Lemma appendBlock_queue b p : (length (spEnqueue p) <= 50)%nat ->
  spEnqueue (appendBlock b p) = lastn 50 (spEnqueue p ++ [b]).
Proof.
  intros Hl. unfold appendBlock, lastn, maxEnqueueSize, len. cbn [spEnqueue set_queue]. rewrite length_app. cbn [length].
  destruct (Z.eqb_spec (Z.of_nat (length (spEnqueue p))) 50) as [E|E].
  - replace (length (spEnqueue p) + 1 - 50)%nat with 1%nat by lia. rewrite drop_app_le by lia. done.
  - replace (length (spEnqueue p) + 1 - 50)%nat with 0%nat by lia. done.
Qed.

Lemma lastn_length {A} n (l : list A) : (length (lastn n l) <= n)%nat.
Proof. unfold lastn. rewrite length_drop. lia. Qed.

Lemma lastn_lastn {A} n (l k : list A) : lastn n (lastn n l ++ k) = lastn n (l ++ k).
Proof.
  unfold lastn. rewrite !length_app, length_drop. destruct (decide (n <= length l)%nat).
  - replace (length l + length k - n)%nat with (length l - n + (length l - (length l - n) + length k - n))%nat by lia.
    rewrite <- drop_drop. f_equal. by rewrite drop_app_le by lia.
  - replace (length l - n)%nat with 0%nat by lia. rewrite drop_0. f_equal. lia.
Qed.

(** The queue holds the last fifty blocks announced. *)
Lemma appended_queue bs p : (length (spEnqueue p) <= 50)%nat ->
  spEnqueue (foldl (fun p b => appendBlock b p) p bs) = lastn 50 (spEnqueue p ++ bs).
Proof.
  revert p. induction bs as [|b bs IH]; intros p Hp; cbn [foldl].
  - rewrite app_nil_r. unfold lastn. replace (length (spEnqueue p) - 50)%nat with 0%nat by lia. done.
  - rewrite IH; rewrite appendBlock_queue by done; [|apply lastn_length].
    rewrite lastn_lastn. by rewrite <- app_assoc.
Qed.

Lemma last_index_snoc h b q i indx : last_index h i (q ++ [b]) indx =
  if Block_Hash b =? h then i + len q else last_index h i q indx.
Proof.
  unfold len. revert i indx. induction q as [|b' q IH]; intros i indx; cbn [last_index app length].
  - by replace (i + Z.of_nat 0) with i by lia.
  - rewrite IH. destruct (Block_Hash b =? h); [lia|done].
Qed.

Lemma last_index_spec h q :
  (last_index h 0 q (-1) = -1 /\ Forall (fun b => Block_Hash b <> h) q) \/
  exists pre b suf, q = pre ++ b :: suf /\ Block_Hash b = h /\ Forall (fun b => Block_Hash b <> h) suf /\
    last_index h 0 q (-1) = len pre.
Proof.
  induction q as [|b q IH] using rev_ind; [by left|]. rewrite last_index_snoc.
  destruct (Z.eqb_spec (Block_Hash b) h) as [E|E]; [right; by exists q, b, []|].
  destruct IH as [[E' Hq]|(pre & b' & suf & -> & Hb & Hs & E')].
  - left. split; [done|]. apply Forall_app. by split; [|constructor].
  - right. exists pre, b', (suf ++ [b]). rewrite <- app_assoc. split; [done|]. split; [done|]. split; [|done].
    apply Forall_app. by split; [|constructor].
Qed.

(** [purgeBlocks] keeps what comes after the last block with the hash. *)
Lemma purgeBlocks_spec h p :
  (purgeBlocks h p = p /\ Forall (fun b => Block_Hash b <> h) (spEnqueue p)) \/
  exists pre b, spEnqueue p = pre ++ b :: spEnqueue (purgeBlocks h p) /\ Block_Hash b = h /\
    Forall (fun b => Block_Hash b <> h) (spEnqueue (purgeBlocks h p)).
Proof.
  unfold purgeBlocks. destruct (last_index_spec h (spEnqueue p)) as [[-> Hq]|(pre & b & suf & E & Hb & Hs & ->)]; [by left|].
  right. exists pre, b. unfold len.
  destruct (Z.eqb_spec (Z.of_nat (length pre)) (-1)) as [F|_]; [exfalso; clear -F; lia|]. cbn [negb spEnqueue set_queue]. rewrite E.
  replace (Z.to_nat (Z.of_nat (length pre) + 1)) with (length (pre ++ [b])) by (rewrite length_app; cbn; lia).
  rewrite (cons_middle b pre suf), app_assoc, drop_app_length. by rewrite <- app_assoc.
Qed.

(** ** The best peer *)

Section best.
Context `{Shim}.

(** What is known of the peers visited so far. *)
Definition best_of (seen : list (PeerID * SyncPeer)) (best : option (PeerID * SyncPeer)) : Prop :=
  match best with
  | None => seen = []
  | Some p => p ∈ seen /\ exists d, stDifficulty (spStatus p.2) = Some d /\
      Forall (fun q => exists e, stDifficulty (spStatus q.2) = Some e /\ e <= d) seen
  end.

Lemma best_loop_ok ps seen best : Forall (fun q => is_Some (stDifficulty (spStatus q.2))) ps ->
  best_of seen best ->
  exists best', best_loop ps best (best ≫= fun p => stDifficulty (spStatus p.2)) =
    Ok (best', best' ≫= fun p => stDifficulty (spStatus p.2)) /\ best_of (seen ++ ps) best'.
Proof.
  revert seen best. induction ps as [|p ps IH]; intros seen best Hps Hb.
  { exists best. by rewrite app_nil_r. }
  apply list.Forall_cons in Hps as [[e He] Hps].
  assert (seen ++ p :: ps = (seen ++ [p]) ++ ps) as -> by by rewrite <- app_assoc.
  assert (forall d, stDifficulty (spStatus p.2) = Some d ->
    Forall (fun q => exists e, stDifficulty (spStatus q.2) = Some e /\ e <= d) seen -> best_of (seen ++ [p]) (Some p)) as Hnew.
  { intros d Hd Hs. split; [apply elem_of_app; right; by apply list_elem_of_singleton|]. exists d. split; [done|].
    apply Forall_app. split; [done|]. constructor; [by exists d|constructor]. }
  destruct best as [b|]; cbn [best_loop option_bind mbind].
  - destruct Hb as (Hin & d & Hd & Hs). rewrite He, Hd. cbn [Cmp obind of_option].
    destruct (Z.compare_spec e d); try (specialize (IH (seen ++ [p]) (Some b) Hps); cbn in IH; rewrite Hd in IH;
      apply IH; split; [apply elem_of_app; by left|]; exists d; split; [done|]; apply Forall_app; split; [done|];
      constructor; [by exists e; split; [|lia]|constructor]).
    pose proof (IH (seen ++ [p]) (Some p) Hps) as IH'. cbn [option_bind mbind] in IH'. rewrite He in IH'. apply IH'.
    apply (Hnew e He). eapply Forall_weaken; [exact Hs|]. intros q (e' & ? & ?). exists e'. split; [done|lia].
  - cbn [obind]. pose proof (IH (seen ++ [p]) (Some p) Hps) as IH'. cbn [option_bind mbind] in IH'. rewrite He in IH' |- *. apply IH'.
    apply (Hnew e He). rewrite Hb. constructor.
Qed.

(** The peer chosen has the largest difficulty, which is more than the chain's;
    none is chosen when no peer has more. *)
Lemma BestPeer_ok s c cur : Forall (fun q => is_Some (stDifficulty (spStatus q.2))) (syPeers s) ->
  sh_CurrentTD c = Some cur ->
  exists r, BestPeer s c = Ok r /\
    match r with
    | Some p => p ∈ syPeers s /\ exists d, stDifficulty (spStatus p.2) = Some d /\ cur < d /\
        Forall (fun q => exists e, stDifficulty (spStatus q.2) = Some e /\ e <= d) (syPeers s)
    | None => Forall (fun q => exists e, stDifficulty (spStatus q.2) = Some e /\ e <= cur) (syPeers s)
    end.
Proof.
  intros Hps Hcur. unfold BestPeer. destruct (best_loop_ok (syPeers s) [] None Hps eq_refl) as (best & E & Hb).
  cbn in E, Hb. rewrite E. cbn [obind]. destruct best as [p|].
  - destruct Hb as (Hin & d & Hd & Hs). cbn. rewrite Hd, Hcur. cbn. destruct (Z.compare_spec d cur); eexists; (split; [done|]).
    + eapply Forall_weaken; [exact Hs|]. intros q (e & ? & ?). exists e. split; [done|lia].
    + eapply Forall_weaken; [exact Hs|]. intros q (e & ? & ?). exists e. split; [done|lia].
    + split; [done|]. by exists d.
  - exists None. split; [done|]. cbn in Hb. rewrite Hb. constructor.
Qed.

End best.

(** ** What a peer that runs the service answers *)

(** [n] blocks from the number [s] on, one every [k]. *)
Fixpoint stride {A} (P : list A) (s k n : nat) : list A :=
  match n with
  | O => []
  | S n => match P !! s with None => [] | Some b => b :: stride P (s + k) k n end
  end.

Lemma stride_one {A} (P : list A) s n : stride P s 1 n = take n (drop s P).
Proof.
  revert s. induction n as [|n IH]; intros s; [done|]. cbn [stride]. destruct (P !! s) as [b|] eqn:E.
  - rewrite (drop_S _ _ _ E). cbn [take]. f_equal. rewrite IH. by replace (s + 1)%nat with (S s) by lia.
  - rewrite drop_ge by (by apply lookup_ge_None). done.
Qed.

Lemma alter_middle {A} (f : A -> A) (l k : list A) x : alter f (length l) (l ++ x :: k) = l ++ f x :: k.
Proof. pose proof (list.alter_app_r f l (x :: k) 0) as E. by rewrite Nat.add_0_r in E. Qed.

(** A stride and the blocks between. *)
Lemma stride_fill {A} (P : list A) (f : A -> nat) k n s : (forall i b, P !! i = Some b -> f b = i) ->
  concat ((fun b => take k (drop (f b) P)) <$> stride P s k n) = take (n * k) (drop s P).
Proof.
  intros Hf. revert s. induction n as [|n IH]; intros s; [done|]. cbn [stride]. destruct (P !! s) as [b|] eqn:E.
  - cbn [fmap list_fmap concat]. rewrite (Hf _ _ E). fold (fmap (M := list) (fun b => take k (drop (f b) P))).
    rewrite IH, <- drop_drop. cbn [Nat.mul]. apply take_take_drop.
  - rewrite drop_ge by (by apply lookup_ge_None). by rewrite take_nil.
Qed.

Section blocks.
Context `{FastRLP} `{Runtime} `{!FastRLPOk}.
Context (HeaderHash : Header -> Hash).

(** A block of a chain that travels: with its number, a hash, and transactions
    only if the header says so. *)
Record travels (n : nat) (b : Block) : Prop := {
  tr_number : hNumber (bkHeader b) = Z.of_nat n;
  tr_hash : is_word (hHash (bkHeader b));
  tr_header : header_complete HeaderHash (bkHeader b);
  tr_size : len (MarshalTo (Header_MarshalRLPWith (bkHeader b))) < 2 ^ 63;
  tr_uncles : bkUncles b = [];
  tr_empty : hTxRoot (bkHeader b) = EmptyRootHash -> bkTransactions b = [];
  tr_txs : Forall (fun t => tx_complete t /\ is_addr (tFrom t)) (bkTransactions b);
  tr_body : 0 < len (MarshalTo (Body_MarshalRLPWith (Block_Body b))) < 2 ^ 63
}.

(** The blocks of a peer, by number. *)
Definition chain_of_blocks (P : list Block) : Prop :=
  len P < 2 ^ 52 /\ forall n b, P !! n = Some b -> travels n b.

Definition enc_header (h : Header) : option (list Z) := Some (MarshalTo (Header_MarshalRLPWith h)).
Definition enc_body (b : Block) : option (list Z) := Some (MarshalTo (Body_MarshalRLPWith (Block_Body b))).

(** What the service promises the client, while the peer's state is in [I]. *)
Class Honest `{V1Client} (I : Remote -> Prop) (P : list Block) : Prop := {
  hon_number n p : I p -> (0 < n)%nat -> Z.of_nat n < 2 ^ 53 -> (n <= length P)%nat ->
    exists p', clt_GetHeaders (mkGetHeaders (Z.of_nat n) [] 0 0) p =
      (Some (option_list (enc_header ∘ bkHeader <$> P !! n)), p') /\ I p';
  hon_headers s b k a p : I p -> P !! s = Some b -> (0 < k <= 10)%nat -> (0 < a <= 190)%nat ->
    exists p', clt_GetHeaders (mkGetHeaders 0 (Hash_String (hHash (bkHeader b))) (Z.of_nat k - 1) (Z.of_nat a)) p =
      (Some (enc_header ∘ bkHeader <$> stride P s k a), p') /\ I p';
  hon_bodies bs p : I p -> Forall (fun b => b ∈ P /\ hTxRoot (bkHeader b) <> EmptyRootHash) bs ->
    exists p', clt_GetObjectsByHash (mkHashRequest (Hash_String ∘ hHash ∘ bkHeader <$> bs) BODIES) p =
      (Some (enc_body <$> bs), p') /\ I p'
}.

End blocks.

(** ** The service keeps the promise *)

Section service.
Context `{FastRLP} `{Runtime} `{!FastRLPOk} `{Shim}.
Context (HeaderHash : Header -> Hash).

(** The chain reads as the blocks [P], and keeps doing so: reads only change its
    caches.  A request asks for at most ten numbers past the head. *)
Record reads_as (I : Node -> Prop) (P : list Block) : Prop := {
  ra_number n s : I s -> (n < length P + 10)%nat ->
    exists s', sh_GetHeaderByNumber (Z.of_nat n) s = Ok (bkHeader <$> P !! n, s') /\ I s';
  ra_hash b s : I s -> b ∈ P ->
    exists s', sh_GetHeaderByHash (hHash (bkHeader b)) s = Ok (Some (bkHeader b), s') /\ I s';
  ra_body b s : I s -> b ∈ P -> hTxRoot (bkHeader b) <> EmptyRootHash ->
    exists s', sh_GetBodyByHash (hHash (bkHeader b)) s = Ok (Some (Block_Body b), s') /\ I s'
}.

Context (I : Node -> Prop) (P : list Block).
Context (HP : chain_of_blocks HeaderHash P) (HR : reads_as I P).

Lemma headers_loop_ok turns k s b acc st : I st -> P !! s = Some b -> (0 < k <= 10)%nat ->
  exists st', headers_loop turns (Z.of_nat k) (bkHeader b) acc st =
    Ok (acc ++ (enc_header ∘ bkHeader <$> stride P (s + k) k turns), st') /\ I st'.
Proof.
  destruct HP as [Hlen Hwf]. unfold len in Hlen.
  revert s b acc st. induction turns as [|turns IH]; intros s b acc st HI Hb Hk; cbn [headers_loop stride].
  { exists st. by rewrite app_nil_r. }
  pose proof (lookup_lt_Some _ _ _ Hb) as Hs. rewrite (tr_number _ _ _ (Hwf _ _ Hb)).
  rewrite (int64_small (Z.of_nat s)) by lia. rewrite int64_small by lia.
  replace (Z.of_nat s + Z.of_nat k <? 0) with false by lia.
  rewrite uint64_small by (unfold is_u64; lia).
  destruct (ra_number _ _ HR (s + k)%nat st HI ltac:(lia)) as (st1 & E1 & HI1).
  rewrite Nat2Z.inj_add in E1. rewrite E1. cbn [obind]. destruct (P !! (s + k)%nat) as [b1|] eqn:Eb1; cbn [fmap option_fmap option_map].
  - destruct (IH (s + k)%nat b1 (acc ++ [enc_header (bkHeader b1)]) st1 HI1 Eb1 Hk) as (st2 & E2 & HI2).
    exists st2. unfold enc_header in *. rewrite E2. split; [|done]. by rewrite <- app_assoc.
  - exists st1. by rewrite app_nil_r.
Qed.

Lemma service_number n st : I st -> (0 < n)%nat -> Z.of_nat n < 2 ^ 53 -> (n <= length P)%nat ->
  exists st', GetHeaders (mkGetHeaders (Z.of_nat n) [] 0 0) st =
    Ok (Some (option_list (enc_header ∘ bkHeader <$> P !! n)), st') /\ I st'.
Proof.
  intros HI Hn Hb Hle. unfold GetHeaders. cbn [grNumber grHash grSkip grAmount].
  replace (Z.of_nat n =? 0) with false by lia. cbn [negb andb bool_decide]. rewrite bool_decide_eq_true_2 by done. cbn [negb].
  rewrite uint64_small by (unfold is_u64; lia).
  destruct (ra_number _ _ HR n st HI ltac:(lia)) as (st1 & -> & HI1). cbn [obind].
  destruct (P !! n) as [b|] eqn:Eb; cbn; by eexists.
Qed.

Lemma service_headers s b k a st : I st -> P !! s = Some b -> (0 < k <= 10)%nat -> (0 < a <= 190)%nat ->
  exists st', GetHeaders (mkGetHeaders 0 (Hash_String (hHash (bkHeader b))) (Z.of_nat k - 1) (Z.of_nat a)) st =
    Ok (Some (enc_header ∘ bkHeader <$> stride P s k a), st') /\ I st'.
Proof.
  intros HI Hb Hk Ha. unfold GetHeaders. cbn [grNumber grHash grSkip grAmount Z.eqb negb andb].
  unfold maxHeadersAmount. replace (190 <? Z.of_nat a) with false by lia.
  rewrite Hash_text_roundtrip by apply (tr_hash _ _ _ (proj2 HP _ _ Hb)).
  destruct (ra_hash _ _ HR b st HI (list_elem_of_lookup_2 _ _ _ Hb)) as (st1 & -> & HI1). cbn [obind].
  replace (int64 (Z.of_nat k - 1 + 1)) with (Z.of_nat k) by (rewrite int64_small; lia).
  destruct (headers_loop_ok (Z.to_nat (Z.of_nat a - 1)) k s b [enc_header (bkHeader b)] st1 HI1 Hb Hk) as (st2 & E & HI2).
  unfold enc_header in *. rewrite E. exists st2. split; [|done]. cbn [obind].
  destruct a as [|a]; [lia|]. replace (Z.to_nat (Z.of_nat (S a) - 1)) with a by lia. cbn [stride]. by rewrite Hb.
Qed.

Lemma objects_loop_ok bs acc st : I st -> Forall (fun b => b ∈ P /\ hTxRoot (bkHeader b) <> EmptyRootHash) bs ->
  exists st', objects_loop BODIES (hHash ∘ bkHeader <$> bs) acc st = Ok (Some (acc ++ (enc_body <$> bs)), st') /\ I st'.
Proof.
  intros HI Hbs. revert acc st HI. induction Hbs as [|b bs [Hin Ht] _ IH]; intros acc st HI.
  { exists st. cbn. by rewrite app_nil_r. }
  cbn [fmap list_fmap objects_loop]. cbn [compose]. destruct (ra_body _ _ HR b st HI Hin Ht) as (st1 & -> & HI1). cbn [obind].
  destruct (IH (acc ++ [enc_body b]) st1 HI1) as (st2 & E & HI2). unfold enc_body in *. cbn [fmap] in E. rewrite E.
  exists st2. split; [|done]. by rewrite <- app_assoc.
Qed.

#[export] Instance service_honest : @Honest _ (service_client _) I P.
Proof.
  split; intros.
  - destruct (service_number n p) as (p' & E & Hp'); [done..|]. exists p'. split; [|done].
    cbn [clt_GetHeaders service_client]. by rewrite E.
  - destruct (service_headers s b k a p) as (p' & E & Hp'); [done..|]. exists p'. split; [|done].
    cbn [clt_GetHeaders service_client]. by rewrite E.
  - destruct (objects_loop_ok bs [] p) as (p' & E & Hp'); [done..|]. exists p'. split; [|done].
    cbn [clt_GetObjectsByHash service_client]. unfold GetObjectsByHash, DecodeHashes. cbn [hrHash hrType].
    rewrite <- list_fmap_compose. rewrite (list_fmap_ext _ (hHash ∘ bkHeader)); [by rewrite E|].
    intros i b Hb. cbn. apply Hash_text_roundtrip.
    assert (b ∈ bs) as Hin by (by eapply list_elem_of_lookup_2). 
    match goal with Hf : Forall _ bs |- _ => rewrite list.Forall_forall in Hf; destruct (Hf b Hin) as [HbP _] end. apply list_elem_of_lookup_1 in HbP as (j & Hj). apply (tr_hash _ _ _ (proj2 HP _ _ Hj)).
Qed.

End service.

(** ** Steps that only read *)

Section client.
Context `{FastRLP} `{Runtime} `{!FastRLPOk} `{Shim} `{V1Client}.
Context (HeaderHash : Header -> Hash).
Context (hash_pure : forall x h, HeaderHash (with_header_hash x h) = HeaderHash h).
Context (I : Remote -> Prop) (P : list Block).
Context (HP : chain_of_blocks HeaderHash P) (HO : Honest I P).

(** The step ends with [r]; it leaves the chain in [J], the peer in [I] and has
    given no block to the handler. *)
Definition quiet {A} (J : Node -> Prop) (m : M A) (r : res A) : Prop :=
  forall s, J (sChain s) -> I (sPeer s) ->
  exists c p, m s = Ok (r, mkSync _ _ c p (sHandled s) (sProgress s)) /\ J c /\ I p.

Lemma sync_quiet_ret {A} J (a : A) : quiet J (sret a) (Good a).
Proof. intros [c p l g] Hc Hp. by exists c, p. Qed.

Lemma quiet_err {A} J e : quiet J (serr (A := A) e) (Err e).
Proof. intros [c p l g] Hc Hp. by exists c, p. Qed.

Lemma sync_quiet_bind {A B} J (m : M A) (k : A -> M B) a r :
  quiet J m (Good a) -> quiet J (k a) r -> quiet J (sbind m k) r.
Proof.
  intros Hm Hk s Hc Hp. destruct (Hm s Hc Hp) as (c1 & p1 & E1 & Hc1 & Hp1).
  destruct (Hk (mkSync _ _ c1 p1 (sHandled s) (sProgress s)) Hc1 Hp1) as (c2 & p2 & E2 & Hc2 & Hp2).
  exists c2, p2. unfold sbind. rewrite E1. cbn [obind]. by rewrite E2.
Qed.

Lemma quiet_try {A} J (m : M A) r : quiet J m r -> quiet J (stry m) (Good r).
Proof.
  intros Hm s Hc Hp. destruct (Hm s Hc Hp) as (c1 & p1 & E1 & Hc1 & Hp1).
  exists c1, p1. unfold stry. by rewrite E1.
Qed.

Lemma quiet_call {A} J (f : Remote -> option A * Remote) a :
  (forall p, I p -> exists p', f p = (Some a, p') /\ I p') -> quiet J (call f) (Good a).
Proof.
  intros Hf [c p l] Hc Hp. destruct (Hf p Hp) as (p' & E & Hp'). exists c, p'. unfold call. cbn [sPeer].
  by rewrite E.
Qed.

Lemma quiet_local {A} (J : Node -> Prop) (f : Node -> outcome (A * Node)) a :
  (forall c, J c -> exists c', f c = Ok (a, c') /\ J c') -> quiet J (local f) (Good a).
Proof.
  intros Hf [c p l] Hc Hp. destruct (Hf c Hc) as (c' & E & Hc'). exists c', p. unfold local. cbn [sChain].
  by rewrite E.
Qed.

(** *** Objects of the peer *)

Lemma decode_header_ok J n b : P !! n = Some b ->
  quiet J (decode_header HeaderHash (enc_header (bkHeader b))) (Good (bkHeader b)).
Proof.
  intros Hb. destruct (proj2 HP _ _ Hb) as [_ _ Hh Hs _ _ _ _]. unfold decode_header.
  eapply sync_quiet_bind; [apply sync_quiet_ret|]. unfold Header_UnmarshalRLP.
  rewrite (unmarshal_ok _ _ (bkHeader b)); [apply sync_quiet_ret| |done|].
  - apply header_rlp_wf, Hh.
  - intros v Hd. rewrite (decoded_header HeaderHash hash_pure _ (bkHeader b)) by (apply Hh || done).
    by rewrite header_same.
Qed.

Lemma decode_body_ok J n b : P !! n = Some b -> quiet J (decode_body HeaderHash (enc_body b)) (Good (Block_Body b)).
Proof.
  intros Hb. destruct (proj2 HP _ _ Hb) as [_ _ _ _ Hu _ Ht Hl]. unfold decode_body.
  eapply sync_quiet_bind; [apply sync_quiet_ret|].
  assert (Body_UnmarshalRLP HeaderHash (mkBody [] []) (MarshalTo (Body_MarshalRLPWith (Block_Body b))) = Some (Block_Body b)) as E.
  { apply body_roundtrip; [done| |done|lia]. cbn. by rewrite Hu. }
  destruct (MarshalTo _); [unfold len in Hl; cbn in Hl; lia|]. rewrite E. apply sync_quiet_ret.
Qed.

Lemma decode_all_ok {A B} J (f : option (list Z) -> M A) (g : B -> option (list Z)) (h : B -> A) bs :
  Forall (fun b => quiet J (f (g b)) (Good (h b))) bs -> quiet J (decode_all f (g <$> bs)) (Good (h <$> bs)).
Proof.
  induction 1 as [|b bs Hb _ IH]; [apply sync_quiet_ret|]. cbn [fmap list_fmap decode_all].
  eapply sync_quiet_bind; [exact Hb|]. eapply sync_quiet_bind; [exact IH|]. apply sync_quiet_ret.
Qed.

Lemma getHeader_ok J n : (0 < n <= length P)%nat -> quiet J (getHeader HeaderHash (Z.of_nat n)) (Good (bkHeader <$> P !! n)).
Proof.
  intros Hn. pose proof (proj1 HP) as Hl. unfold len in Hl. unfold getHeader. rewrite int64_small by lia.
  eapply sync_quiet_bind. { apply quiet_call. intros p Hp. apply (hon_number n p Hp); lia. }
  destruct (P !! n) as [b|] eqn:Eb; cbn; [|apply sync_quiet_ret].
  eapply sync_quiet_bind; [by eapply decode_header_ok|]. apply sync_quiet_ret.
Qed.

Lemma stride_in {A} (Q : list A) s k n : Forall (fun b => b ∈ Q) (stride Q s k n).
Proof.
  revert s. induction n as [|n IH]; intros s; cbn [stride]; [constructor|].
  destruct (Q !! s) as [b|] eqn:E; constructor; [by eapply list_elem_of_lookup_2|done].
Qed.

Lemma getHeaders_ok J s b k a : P !! s = Some b -> (0 < k <= 10)%nat -> (0 < a <= 190)%nat ->
  quiet J (getHeaders HeaderHash (mkGetHeaders 0 (Hash_String (hHash (bkHeader b))) (Z.of_nat k - 1) (Z.of_nat a)))
    (Good (bkHeader <$> stride P s k a)).
Proof.
  intros Hb Hk Ha. eapply sync_quiet_bind. { apply quiet_call. intros p Hp. by apply (hon_headers s b k a p Hp). }
  apply decode_all_ok. eapply Forall_weaken; [apply stride_in|].
  intros b' (n & Hn)%list_elem_of_lookup_1. by eapply decode_header_ok.
Qed.

Lemma getBodies_ok J bs : Forall (fun b => b ∈ P /\ hTxRoot (bkHeader b) <> EmptyRootHash) bs ->
  quiet J (getBodies HeaderHash (hHash ∘ bkHeader <$> bs)) (Good (Block_Body <$> bs)).
Proof.
  intros Hbs. unfold getBodies. rewrite <- list_fmap_compose.
  eapply sync_quiet_bind. { apply quiet_call. intros p Hp. by apply (hon_bodies bs p Hp). }
  eapply sync_quiet_bind.
  { apply decode_all_ok. eapply Forall_weaken; [exact Hbs|].
    intros b' [(n & Hn)%list_elem_of_lookup_1 _]. by eapply decode_body_ok. }
  unfold len. rewrite !length_fmap, Z.eqb_refl. apply sync_quiet_ret.
Qed.

(** *** The common ancestor *)

(** The local chain in [J]: its head and its headers by number. *)
Record local_chain (J : Node -> Prop) (head : Header) (loc : nat -> Header) : Prop := {
  lc_head c : J c -> sh_Header c = Some head;
  lc_number n c : J c -> Z.of_nat n <= hNumber head ->
    exists c', sh_GetHeaderByNumber (Z.of_nat n) c = Ok (Some (loc n), c') /\ J c';
  lc_genesis : hNumber (loc 0%nat) = 0;
  lc_height : 0 <= hNumber head < 2 ^ 52
}.

(** The chains agree up to the number [k], of those up to [top]. *)
Definition agree_to (loc : nat -> Header) (top k : nat) : Prop :=
  (k <= top < length P)%nat /\
  forall n b, (n <= top)%nat -> P !! n = Some b -> hHash (loc n) = hHash (bkHeader b) <-> (n <= k)%nat.

Section ancestor.
Context (J : Node -> Prop) (head : Header) (loc : nat -> Header) (top k : nat).
Context (HL : local_chain J head loc) (HA : agree_to loc top k) (Htop : Z.of_nat top <= hNumber head).

(** What the search keeps: the agreement ends in the interval, and the header
    found is the block below it. *)
Record search_inv (min max : Z) (header : option Header) : Prop := {
  si_bounds : 0 <= min /\ Z.of_nat k <= max <= Z.of_nat top /\ min <= Z.of_nat k + 1;
  si_header : if min =? 0 then header = None
    else exists b, P !! Z.to_nat (min - 1) = Some b /\ header = Some (bkHeader b)
}.

(** The header that the search returns, with its number: the last block on which
    the chains agree, or the genesis if that is the first block. *)
Definition found_at (a : nat) (h : Header) : Prop :=
  (a = k \/ (a = 0%nat /\ k = 1%nat)) /\ hNumber h = Z.of_nat a /\
  exists b, P !! a = Some b /\ hHash h = hHash (bkHeader b).

Lemma search_end min max header : search_inv min max header -> max < min ->
  exists h, header = Some h /\ found_at k h.
Proof.
  intros [Hb Hh] Hlt. destruct (Z.eqb_spec min 0); [lia|]. destruct Hh as (b & E & ->).
  exists (bkHeader b). split; [done|]. replace (Z.to_nat (min - 1)) with k in E by lia.
  split; [by left|]. split; [apply (tr_number _ _ _ (proj2 HP _ _ E))|by exists b].
Qed.

Lemma ancestor_loop_ok turns min max header : search_inv min max header -> max - min + 1 < 2 ^ Z.of_nat turns ->
  exists a h, quiet J (ancestor_loop HeaderHash turns min max header) (Good (Some h)) /\ found_at a h.
Proof.
  destruct HA as [[Hk Htl] Hag]. pose proof (proj1 HP) as HlenP. unfold len in HlenP.
  revert min max header. induction turns as [|turns IH]; intros min max header Hi Hs;
    pose proof (si_bounds _ _ _ Hi) as Hb; cbn [ancestor_loop]; destruct (Z.ltb_spec max min) as [Hlt|Hge].
  1,3: destruct (search_end _ _ _ Hi Hlt) as (h & -> & Hf); exists k, h; (split; [apply sync_quiet_ret|done]).
  { cbn in Hs. lia. }
  rewrite Nat2Z.inj_succ, Z.pow_succ_r in Hs by lia.
  rewrite half_floor_exact by lia. set (m := (min + max) / 2).
  assert (min <= m <= max /\ m - min < 2 ^ Z.of_nat turns /\ max - m < 2 ^ Z.of_nat turns) as (Hm & Hs1 & Hs2)
    by (subst m; Z.div_mod_to_equations; lia).
  destruct (Z.eqb_spec m 0) as [E0|E0].
  - exists 0%nat, (loc 0%nat). split.
    + eapply sync_quiet_bind; [apply quiet_local; intros c Hc; apply (lc_number _ _ _ HL 0%nat c Hc); apply (lc_height _ _ _ HL)|].
      apply sync_quiet_ret.
    + assert (min = 0 /\ max <= 1) as [-> Hmax] by (subst m; Z.div_mod_to_equations; lia).
      split; [assert (k = 0 \/ k = 1)%nat as [|] by lia; auto|]. split; [apply (lc_genesis _ _ _ HL)|].
      destruct (lookup_lt_is_Some_2 P 0%nat ltac:(lia)) as [b Eb]. exists b. split; [done|]. apply (Hag 0%nat b ltac:(lia) Eb). lia.
  - assert (Z.of_nat (Z.to_nat m) = m) as Em by lia.
    destruct (lookup_lt_is_Some_2 P (Z.to_nat m) ltac:(lia)) as [b Eb].
    assert (quiet J (getHeader HeaderHash m) (Good (Some (bkHeader b)))) as Hg.
    { pose proof (getHeader_ok J (Z.to_nat m) ltac:(lia)) as Hg. by rewrite Em, Eb in Hg. }
    assert (quiet J (local (sh_GetHeaderByNumber m)) (Good (Some (loc (Z.to_nat m))))) as Hloc.
    { apply quiet_local. intros c Hc. pose proof (lc_number _ _ _ HL (Z.to_nat m) c Hc ltac:(lia)) as Hn. by rewrite Em in Hn. }
    specialize (Hag (Z.to_nat m) b ltac:(lia) Eb).
    rewrite !uint64_small by (unfold is_u64; lia).
    destruct (Z.eqb_spec (hHash (loc (Z.to_nat m))) (hHash (bkHeader b))) as [Eh|Eh].
    + destruct (IH (m + 1) max (Some (bkHeader b))) as (a & h & Hq & Hf); [|lia|].
      { split; [lia|]. replace (m + 1 =? 0) with false by lia. exists b. by replace (m + 1 - 1) with m by lia. }
      exists a, h. split; [|done]. eapply sync_quiet_bind; [exact Hg|]. eapply sync_quiet_bind; [exact Hloc|].
      cbv beta iota. by rewrite (proj2 (Z.eqb_eq _ _) Eh).
    + destruct (IH min (m - 1) header) as (a & h & Hq & Hf); [|lia|].
      { split; [lia|]. apply (si_header _ _ _ Hi). }
      exists a, h. split; [|done]. eapply sync_quiet_bind; [exact Hg|]. eapply sync_quiet_bind; [exact Hloc|].
      cbv beta iota. by rewrite (proj2 (Z.eqb_neq _ _) Eh).
Qed.

(** The ancestor and the peer's next block. *)
Lemma findCommonAncestor_ok status : Z.min (stNumber status) (hNumber head) = Z.of_nat top ->
  exists a h, found_at a h /\
  quiet J (findCommonAncestor HeaderHash status)
    (match P !! S a with Some b => Good (h, bkHeader b) | None => Err ErrForkNotFound end).
Proof.
  intros Hst. pose proof (proj1 HP) as HlenP. unfold len in HlenP. destruct HA as [[Hk Htl] _].
  destruct (ancestor_loop_ok 65 0 (Z.of_nat top) None) as (a & h & Hq & Hf).
  { split; [lia|done]. }
  { pose proof (lc_height _ _ _ HL). change (2 ^ Z.of_nat 65) with (2 ^ 52 * 2 ^ 13). lia. }
  exists a, h. split; [done|]. destruct Hf as (Ha & Hn & _). unfold findCommonAncestor.
  eapply sync_quiet_bind.
  { intros [c p l g] Hc Hp. exists c, p. cbn in Hc |- *. unfold sheader. cbn. by rewrite (lc_head _ _ _ HL c Hc). }
  cbv beta iota zeta.
  replace (if stNumber status <? hNumber head then stNumber status else hNumber head) with (Z.of_nat top)
    by (destruct (Z.ltb_spec (stNumber status) (hNumber head)); lia).
  eapply sync_quiet_bind; [exact Hq|]. cbv beta iota. rewrite Hn.
  rewrite uint64_small by (unfold is_u64; lia). replace (Z.of_nat a + 1) with (Z.of_nat (S a)) by lia.
  eapply sync_quiet_bind; [apply quiet_try, (getHeader_ok J (S a)); lia|]. cbv beta iota.
  destruct (P !! S a) as [b|]; cbn; [apply sync_quiet_ret|apply quiet_err].
Qed.

End ancestor.

(** *** Filling a skeleton *)

(** A block as it comes without its body. *)
Definition bare (b : Block) : option Block := Some (mkBlock (bkHeader b) [] []).

Lemma put_bodies_ok pre bs : Forall (fun b => bkUncles b = [] /\ (hTxRoot (bkHeader b) = EmptyRootHash -> bkTransactions b = [])) bs ->
  put_bodies (filter (fun p => hTxRoot (bkHeader p.2) <> EmptyRootHash) (imap (fun i b => (length pre + i, b)%nat) bs)).*1
    (Block_Body <$> filter (fun b => hTxRoot (bkHeader b) <> EmptyRootHash) bs) (pre ++ (bare <$> bs)) = pre ++ (Some <$> bs).
Proof.
  intros Hbs. revert pre. induction Hbs as [|b bs [Hu He] _ IH]; intros pre; [done|].
  rewrite imap_cons, !filter_cons. cbn [snd].
  assert (forall y : option Block, pre ++ y :: (bare <$> bs) = (pre ++ [y]) ++ (bare <$> bs)) as Hy
    by (intros y; by rewrite <- app_assoc).
  assert (imap ((fun i b0 => (length pre + i, b0)%nat) ∘ S) bs =
    imap (fun i b0 => (length (pre ++ [Some b]) + i, b0)%nat) bs) as ->.
  { apply imap_ext. intros i x _. cbn. rewrite length_app. cbn. f_equal. lia. }
  case_decide as Ht; cbn [fmap list_fmap put_bodies fst].
  - rewrite Nat.add_0_r, alter_middle.
    replace (set_txs (Block_Body b) (bare b)) with (Some b) by (destruct b; cbn in *; by subst).
    fold (fmap (M := list) bare) (fmap (M := list) Block_Body) (fmap (M := list) (@Some Block)).
    rewrite Hy, IH. by rewrite <- app_assoc.
  - fold (fmap (M := list) bare) (fmap (M := list) (@Some Block)).
    replace (bare b) with (Some b). 2:{ destruct (decide (hTxRoot (bkHeader b) = EmptyRootHash)) as [E|]; [|done].
      specialize (He E). destruct b; cbn in *; by subst. }
    rewrite Hy, IH. by rewrite <- app_assoc.
Qed.

Lemma with_body_from (g : nat -> nat) bs :
  let wanted := filter (fun p => hTxRoot (bkHeader p.2) <> EmptyRootHash) (imap (fun i b => (g i, b)) bs) in
  filter (fun p => hTxRoot p.2 <> EmptyRootHash) (imap (fun i h => (g i, h)) (bkHeader <$> bs)) =
    (fun p => (p.1, bkHeader p.2)) <$> wanted /\
  wanted.*2 = filter (fun b => hTxRoot (bkHeader b) <> EmptyRootHash) bs.
Proof.
  revert g. induction bs as [|b bs IH]; intros g; [done|]. cbn zeta in *.
  specialize (IH (g ∘ S)). destruct IH as [IH1 IH2]. unfold compose in IH1, IH2.
  rewrite fmap_cons, !imap_cons, !filter_cons. unfold compose. cbn [snd].
  case_decide; cbn [fmap list_fmap snd fst]; split; try (f_equal; done); done.
Qed.

Lemma with_body_blocks bs :
  let wanted := filter (fun p => hTxRoot (bkHeader p.2) <> EmptyRootHash) (imap (fun i b => (0 + i, b)%nat) bs) in
  with_body (bkHeader <$> bs) = (fun p => (p.1, bkHeader p.2)) <$> wanted /\
  wanted.*2 = filter (fun b => hTxRoot (bkHeader b) <> EmptyRootHash) bs.
Proof. apply (with_body_from (fun i => i)). Qed.

(** The slot of a block, with the blocks from it on. *)
Definition slot_of (blocks : list (option Block)) (b : Block) : slot :=
  mkSlot (hHash (bkHeader b)) (hNumber (bkHeader b)) blocks.
Definition segment (b : Block) : list Block := take 10 (drop (Z.to_nat (hNumber (bkHeader b))) P).
Definition full_slot (b : Block) : slot := slot_of (Some <$> segment b) b.

Lemma number_index n b : P !! n = Some b -> Z.to_nat (hNumber (bkHeader b)) = n.
Proof. intros Hb. rewrite (tr_number _ _ _ (proj2 HP _ _ Hb)). lia. Qed.

Lemma segment_in b : Forall (fun b' => b' ∈ P) (segment b).
Proof. unfold segment. rewrite <- stride_one. apply stride_in. Qed.

Lemma fillSlot_ok J i sk n b X : P !! n = Some b -> skSpan sk = 10 -> skSlots sk !! i = Some (slot_of X b) ->
  quiet J (fillSlot HeaderHash i sk) (Good (None, set_blocks i (Some <$> segment b) sk)).
Proof.
  intros Hb Hsp Hi. unfold fillSlot. rewrite Hi, Hsp. eapply sync_quiet_bind; [apply sync_quiet_ret|]. cbv beta iota.
  cbn [slHash slot_of]. change (mkGetHeaders 0 (Hash_String (hHash (bkHeader b))) 0 10)
    with (mkGetHeaders 0 (Hash_String (hHash (bkHeader b))) (Z.of_nat 1 - 1) (Z.of_nat 10)).
  eapply sync_quiet_bind; [apply quiet_try, (getHeaders_ok J n b 1 10 Hb); lia|]. cbv beta iota zeta.
  replace (stride P n 1 10) with (segment b) by (unfold segment; by rewrite stride_one, (number_index n b Hb)).
  assert (put_bodies (filter (fun p => hTxRoot (bkHeader p.2) <> EmptyRootHash) (imap (fun i b => (0 + i, b)%nat) (segment b))).*1
    (Block_Body <$> filter (fun b => hTxRoot (bkHeader b) <> EmptyRootHash) (segment b)) (bare <$> segment b) = Some <$> segment b) as Hput.
  { apply (put_bodies_ok []). eapply Forall_weaken; [apply segment_in|].
    intros b' (n' & Hn')%list_elem_of_lookup_1. destruct (proj2 HP _ _ Hn'). by split. }
  destruct (with_body_blocks (segment b)) as [-> Hw]. cbn zeta in Hw.
  rewrite <- list_fmap_compose. change ((fun h => Some (mkBlock h [] [])) ∘ bkHeader) with bare.
  set (wanted := filter _ (imap _ _)) in *. destruct wanted as [|w ws] eqn:Ew.
  { cbn [fmap list_fmap] in Hw, Hput |- *. rewrite <- Hw in Hput. cbn in Hput. rewrite <- Hput. apply sync_quiet_ret. }
  set (f := fun p : nat * Block => (p.1, bkHeader p.2)).
  assert (hHash ∘ snd <$> (f <$> w :: ws) = hHash ∘ bkHeader <$> (w :: ws).*2) as E1 by by rewrite <- !list_fmap_compose.
  assert ((f <$> w :: ws).*1 = (w :: ws).*1) as E2 by by rewrite <- list_fmap_compose.
  rewrite Hw in E1. cbn [fmap list_fmap] in E1, E2 |- *. rewrite E1, E2.
  eapply sync_quiet_bind; [apply quiet_try, getBodies_ok|].
  { apply list.Forall_forall. intros b' [Ht Hin]%list_elem_of_filter. split; [|done].
    pose proof (segment_in b) as Hs. rewrite list.Forall_forall in Hs. by apply Hs. }
  cbv beta iota. cbn [fmap list_fmap] in Hput. rewrite Hput. apply sync_quiet_ret.
Qed.

Lemma fill_slots_ok J pre bs X : Forall (fun b => b ∈ P) bs ->
  quiet J (fill_slots HeaderHash (seq (length pre) (length bs)) (mkSkeleton (pre ++ (slot_of X <$> bs)) 10 5))
    (Good (mkSkeleton (pre ++ (full_slot <$> bs)) 10 5)).
Proof.
  intros Hbs. revert pre. induction Hbs as [|b bs (n & Hn)%list_elem_of_lookup_1 _ IH]; intros pre; [apply sync_quiet_ret|].
  cbn [length seq fill_slots fmap list_fmap]. fold (fmap (M := list) (slot_of X)) (fmap (M := list) full_slot).
  eapply sync_quiet_bind; [eapply (fillSlot_ok J _ _ n b X Hn); [done|]; cbn [skSlots]; by apply list_lookup_middle|].
  cbv beta iota. unfold set_blocks. cbn [skSlots].
  rewrite alter_middle.
  unfold set_slots. cbn [skSpan skNum slot_of slHash slNumber].
  specialize (IH (pre ++ [full_slot b])). rewrite length_app, <- !app_assoc in IH. cbn [length app] in IH.
  by rewrite Nat.add_1_r in IH.
Qed.

Lemma same_diff_ok n s b d : P !! s = Some b -> d = 0 \/ d = 10 ->
  exists d', same_diff (bkHeader b) (bkHeader <$> stride P (s + 10) 10 n) d = Some d' /\ 0 <= d' <= 10.
Proof.
  pose proof (proj1 HP) as HlenP. unfold len in HlenP.
  revert s b d. induction n as [|n IH]; intros s b d Hb Hd; cbn [stride]; [exists d; split; [done|lia]|].
  destruct (P !! (s + 10)%nat) as [b'|] eqn:E; cbn [fmap list_fmap same_diff]; [|exists d; split; [done|lia]].
  fold (fmap (M := list) bkHeader).
  pose proof (lookup_lt_Some _ _ _ E).
  rewrite (tr_number _ _ _ (proj2 HP _ _ Hb)), (tr_number _ _ _ (proj2 HP _ _ E)).
  replace (uint64 (Z.of_nat (s + 10) - Z.of_nat s)) with 10 by (rewrite uint64_small; [lia|unfold is_u64; lia]).
  destruct Hd as [-> | ->]; cbn [Z.eqb Pos.eqb negb]; apply (IH (s + 10)%nat b' 10 E); by right.
Qed.

Lemma skeleton_build_ok s b : P !! s = Some b ->
  exists X, forall J, quiet J (build HeaderHash (hHash (bkHeader b)) (mkSkeleton [] 10 5))
    (Good (mkSkeleton (slot_of X <$> stride P s 10 5) 10 5)).
Proof.
  intros Hb. unfold build. cbn [skSpan skNum].
  change (mkGetHeaders 0 (Hash_String (hHash (bkHeader b))) (int64 (10 - 1)) 5)
    with (mkGetHeaders 0 (Hash_String (hHash (bkHeader b))) (Z.of_nat 10 - 1) (Z.of_nat 5)).
  destruct (same_diff_ok 4 s b 0 Hb) as (d & Ed & Hd); [by left|].
  exists (replicate (Z.to_nat d) None). intros J. eapply sync_quiet_bind; [apply (getHeaders_ok J s b 10 5 Hb); lia|].
  cbv beta iota. assert (stride P s 10 5 = b :: stride P (s + 10) 10 4) as -> by (cbn [stride]; by rewrite Hb).
  intros [c p l g] Hc Hp. exists c, p. unfold addSkeleton. cbn [fmap list_fmap].
  fold (fmap (M := list) bkHeader). fold (fmap (M := list) (slot_of (replicate (Z.to_nat d) None))).
  rewrite Ed. unfold make_blocks, maxAlloc. replace (2 ^ 48 <? 8 * d) with false by lia. cbn [obind].
  unfold set_slots. cbn [skSpan skNum]. split; [|done]. do 5 f_equal. rewrite <- list_fmap_compose. done.
Qed.

(** *** Writing blocks *)

(** The blocks written one after the other, each given to the handler: the
    result, the chain and what the handler was given. *)
Fixpoint apply_blocks (bs : list Block) (c : Node) (l : list Block) : outcome (res unit * Node * list Block) :=
  match bs with
  | [] => Ok (Good tt, c, l)
  | b :: bs =>
    obind (sh_WriteBlock (Some b) c) (fun '(ok, c) =>
    match ok with
    | None => Ok (Err ErrWriteBlock, c, l)
    | Some _ => apply_blocks bs c (l ++ [b])
    end)
  end.

(** The step ends as the writing of [bs] does, with [a] if it succeeds, and with a
    progress in [G]. *)
Definition ends_as {A} (G : option Progression -> Prop) (o : outcome (res A * sync))
    (w : outcome (res unit * Node * list Block)) (a : A) : Prop :=
  match w with
  | Ok (r, c, l) => exists p g, I p /\ G g /\
      o = Ok (match r with Good _ => Good a | Err e => Err e end, mkSync _ _ c p l g)
  | Panic => o = Panic
  | OutOfFuel => o = OutOfFuel
  end.
Definition copies {A} (m : M A) (bs : list Block) (a : A) : Prop :=
  forall s, I (sPeer s) -> is_Some (sProgress s) ->
  ends_as is_Some (m s) (apply_blocks bs (sChain s) (sHandled s)) a.

Lemma apply_app bs bs' c l : apply_blocks (bs ++ bs') c l =
  obind (apply_blocks bs c l) (fun '(r, c, l) =>
    match r with Good _ => apply_blocks bs' c l | Err e => Ok (Err e, c, l) end).
Proof.
  revert c l. induction bs as [|b bs IH]; intros c l; [done|]. cbn [app apply_blocks].
  destruct (sh_WriteBlock (Some b) c) as [[[u|] c']| |]; cbn [obind]; [apply IH|done..].
Qed.

Lemma copies_quiet {A} (m : M A) a : (forall J, quiet J m (Good a)) -> copies m [] a.
Proof.
  intros Hm s Hs Hg. destruct (Hm (eq (sChain s)) s eq_refl Hs) as (c & p & -> & <- & Hp). by exists p, (sProgress s).
Qed.

Lemma copies_bind {A B} (m : M A) (k : A -> M B) bs bs' a b :
  copies m bs a -> copies (k a) bs' b -> copies (sbind m k) (bs ++ bs') b.
Proof.
  intros Hm Hk s Hs Hg. specialize (Hm s Hs Hg). rewrite apply_app. unfold sbind.
  destruct (apply_blocks bs (sChain s) (sHandled s)) as [[[[u|e] c] l]| |]; cbn [obind ends_as] in *.
  - destruct Hm as (p & g & Hp & Hg' & ->). cbn [obind]. apply (Hk (mkSync _ _ c p l g) Hp Hg').
  - destruct Hm as (p & g & Hp & Hg' & ->). by exists p, g.
  - by rewrite Hm.
  - by rewrite Hm.
Qed.

Lemma quiet_copies {A B} (m : M A) (k : A -> M B) bs a b :
  (forall J, quiet J m (Good a)) -> copies (k a) bs b -> copies (sbind m k) bs b.
Proof. intros Hm Hk. apply (copies_bind m k [] bs a b); [by apply copies_quiet|done]. Qed.

Lemma write_synced_ok bs : copies (write_synced (Some <$> bs)) bs tt.
Proof.
  induction bs as [|b bs IH]; [apply copies_quiet; intros J; apply sync_quiet_ret|].
  intros [c p l g] Hp Hg. cbn [fmap list_fmap write_synced apply_blocks]. cbn [sChain sHandled sPeer sProgress] in *.
  fold (fmap (M := list) (@Some Block)). unfold sbind, local. cbn [sChain sPeer sHandled sProgress].
  destruct (sh_WriteBlock (Some b) c) as [[[u|] c']| |]; cbn [obind ends_as]; [|by exists p, g|done|done].
  cbn [handle option_list sChain sPeer sHandled sProgress obind]. apply (IH (mkSync _ _ c' p (l ++ [b]) g) Hp Hg).
Qed.

Lemma copies_progress t : copies (progress (UpdateHighestProgression t)) [] tt.
Proof.
  intros [c p l g] Hp [x Hx]. cbn [sProgress] in Hx. subst g. unfold progress. cbn [sProgress UpdateHighestProgression obind of_option].
  by eexists p, _.
Qed.

(** *** A batch *)

Lemma last_segment {A} (Q : list A) n s b : Q !! s = Some b -> (0 < n)%nat ->
  exists e b', (e = s + n - 1 \/ S e = length Q)%nat /\ (s <= e < s + n)%nat /\ Q !! e = Some b' /\
    list.last (take n (drop s Q)) = Some b'.
Proof.
  intros Hb Hn. pose proof (lookup_lt_Some _ _ _ Hb) as Hs.
  remember (s + Nat.min n (length Q - s) - 1)%nat as e eqn:Ee.
  destruct (lookup_lt_is_Some_2 Q e ltac:(lia)) as [b' Hb']. exists e, b'. split; [lia|]. split; [lia|]. split; [done|].
  rewrite last_lookup, length_take, length_drop.
  rewrite lookup_take_lt by lia. rewrite lookup_drop. by replace (s + pred (Nat.min n (length Q - s)))%nat with e by lia.
Qed.

(** The last header of the slots is that of the last block in them. *)
Lemma last_header x y n s b : P !! s = Some b ->
  exists e b', (e = s + S n * 10 - 1 \/ S e = length P)%nat /\ (s <= e < s + S n * 10)%nat /\ P !! e = Some b' /\
    LastHeader (mkSkeleton (full_slot <$> stride P s 10 (S n)) x y) = Ok (bkHeader b').
Proof.
  revert s b. induction n as [|n IH]; intros s b Hb;
    destruct (last_segment P 10 s b Hb ltac:(lia)) as (e & b' & He & Hse & Hb' & El);
    unfold LastHeader in *; cbn [skSlots] in *.
  - exists e, b'. split; [lia|]. split; [lia|]. split; [done|].
    cbn [stride]. rewrite Hb. cbn [fmap list_fmap list.last obind of_option full_slot slot_of slBlocks].
    unfold segment. by rewrite (number_index s b Hb), fmap_last, El.
  - remember (S n) as m eqn:Em. cbn [stride]. rewrite Hb. destruct (P !! (s + 10)%nat) as [b1|] eqn:E1.
    + destruct (IH (s + 10)%nat b1 E1) as (e1 & b2 & He1 & Hs1 & Hb2 & El2). exists e1, b2.
      split; [lia|]. split; [lia|]. split; [done|]. rewrite <- El2. subst m. cbn [stride]. by rewrite E1.
    + exists e, b'. apply lookup_ge_None in E1. pose proof (lookup_lt_Some _ _ _ Hb'). split; [lia|]. split; [lia|]. split; [done|].
      subst m. cbn [stride]. replace (P !! (s + 10)%nat) with (@None Block) by (symmetry; by apply lookup_ge_None).
      cbn [fmap list_fmap list.last obind of_option full_slot slot_of slBlocks].
      unfold segment. by rewrite (number_index s b Hb), fmap_last, El.
Qed.

Lemma sync_batch_ok s b : P !! s = Some b ->
  exists e b', (e = s + 49 \/ S e = length P)%nat /\ (s <= e <= s + 49)%nat /\ P !! e = Some b' /\
    copies (sync_batch HeaderHash (bkHeader b)) (take 50 (drop s P)) (bkHeader b').
Proof.
  intros Hb. destruct (last_header 10 5 4 s b Hb) as (e & b' & He & Hse & Hb' & El).
  exists e, b'. split; [lia|]. split; [lia|]. split; [done|]. unfold sync_batch.
  destruct (skeleton_build_ok s b Hb) as (X & HX).
  eapply quiet_copies; [intros J; apply quiet_try, HX|]. cbv beta iota.
  eapply quiet_copies.
  { intros J. pose proof (fill_slots_ok J [] (stride P s 10 5) X (stride_in _ _ _ _)) as Hf. cbn [app length] in Hf.
    cbn [skSlots]. rewrite length_fmap. exact Hf. }
  cbv beta iota. cbn [skSlots]. rewrite <- (app_nil_r (take 50 (drop s P))).
  eapply copies_bind.
  - rewrite <- list_fmap_compose. replace (concat _) with (Some <$> take 50 (drop s P)); [apply write_synced_ok|].
    change 50%nat with (5 * 10)%nat. rewrite <- (stride_fill P (fun b => Z.to_nat (hNumber (bkHeader b))) 10 5 s) by apply number_index.
    etrans; [apply List.concat_map|]. f_equal. by apply List.map_map.
  - apply copies_quiet. intros J [c p l] Hc Hp. exists c, p. cbv beta iota. by rewrite El.
Qed.

(** *** The whole synchronisation *)

(** Blocks of the peer without gaps, from a number to another: each is the one
    after the block before it, or that block again. *)
Inductive follows : nat -> list Block -> nat -> Prop :=
| follows_one n b : P !! n = Some b -> follows n [b] n
| follows_next n b bs e : P !! n = Some b -> follows (S n) bs e -> follows n (b :: bs) e
| follows_again n b bs e : P !! n = Some b -> follows n bs e -> follows n (b :: bs) e.

Lemma follows_app n bs e bs' e' : follows n bs e -> follows e bs' e' -> follows n (bs ++ bs') e'.
Proof. induction 1; intros Hw; cbn [app]; eauto using follows. Qed.

Lemma follows_segment k n b e : P !! n = Some b -> (n <= e < length P)%nat -> (0 < k)%nat ->
  e = (n + k - 1)%nat \/ (S e = length P /\ (e < n + k)%nat) -> follows n (take k (drop n P)) e.
Proof.
  revert n b. induction k as [|k IH]; intros n b Hb He Hk Hc; [lia|]. rewrite (drop_S _ _ _ Hb). cbn [take].
  destruct (decide (e = n)) as [->|Hne].
  - replace (take k (drop (S n) P)) with (@nil Block); [by constructor|].
    destruct Hc as [|[Hl _]]; [by replace k with 0%nat by lia|]. rewrite drop_ge by lia. by rewrite take_nil.
  - eapply follows_next; [done|]. destruct (lookup_lt_is_Some_2 P (S n)) as [b' Hb']; [lia|]. apply (IH _ b'); [done|lia..].
Qed.

Lemma sync_to_ok turns target s b : P !! s = Some b -> 0 <= target < len P -> (Z.to_nat target - s < turns)%nat ->
  exists bs e b', follows s bs e /\ target <= Z.of_nat e /\ P !! e = Some b' /\
    copies (sync_to HeaderHash turns target (bkHeader b)) bs (bkHeader b').
Proof.
  unfold len. revert s b. induction turns as [|turns IH]; intros s b Hb Ht Hf; [lia|]. cbn [sync_to].
  destruct (sync_batch_ok s b Hb) as (e & b' & He & Hse & Hb' & Hc).
  assert (follows s (take 50 (drop s P)) e) as Hw.
  { apply (follows_segment _ _ b); [done|apply lookup_lt_Some in Hb'; lia|lia|lia]. }
  destruct (Z.leb_spec target (Z.of_nat e)) as [Hle|Hgt].
  - exists (take 50 (drop s P)), e, b'. split; [done|]. split; [done|]. split; [done|].
    rewrite <- (app_nil_r (take 50 (drop s P))). eapply copies_bind; [exact Hc|].
    rewrite (tr_number _ _ _ (proj2 HP _ _ Hb')), (proj2 (Z.leb_le _ _) Hle).
    apply copies_quiet. intros J. apply sync_quiet_ret.
  - destruct (IH e b' Hb') as (bs & e2 & b2 & Hw2 & Hle2 & Hb2 & Hc2); [lia|lia|].
    exists (take 50 (drop s P) ++ bs), e2, b2. split; [by eapply follows_app|]. split; [done|]. split; [done|].
    eapply copies_bind; [exact Hc|].
    by rewrite (tr_number _ _ _ (proj2 HP _ _ Hb')), (proj2 (Z.leb_gt _ _) Hgt).
Qed.

(** The numbers that the status shows: the last one is read twice. *)
Inductive settles : Z -> list Z -> Z -> Prop :=
| settled t ts : settles t (t :: ts) t
| settles_next last t ts r : t <> last -> 0 <= t < len P -> settles t ts r -> settles last (t :: ts) r.

Lemma follows_le n bs e : follows n bs e -> (n <= e)%nat.
Proof. induction 1; lia. Qed.

Lemma sync_targets_ok turns last ts r s b : settles last ts r -> P !! s = Some b -> (length P <= turns)%nat ->
  exists bs e, (bs = [] /\ e = s /\ r = last \/ follows s bs e) /\ (r = last \/ r <= Z.of_nat e) /\
    copies (sync_targets HeaderHash turns ts last (bkHeader b)) bs tt.
Proof.
  intros Hs Hb Hl. revert s b Hb. induction Hs as [t ts|last t ts r Hne Ht Hs IH]; intros s b Hb; cbn [sync_targets].
  { exists [], s. split; [by left|]. split; [by left|]. apply (copies_bind _ _ [] [] tt tt); [apply copies_progress|].
    rewrite Z.eqb_refl. apply copies_quiet. intros J. apply sync_quiet_ret. }
  rewrite (proj2 (Z.eqb_neq t last) Hne). pose proof (lookup_lt_Some _ _ _ Hb).
  destruct (sync_to_ok turns t s b Hb Ht) as (bs & e & b' & Hw & Hle & Hb' & Hc); [unfold len in Ht; lia|].
  destruct (IH e b' Hb') as (bs2 & e2 & Hw2 & Hle2 & Hc2). exists (bs ++ bs2), e2.
  assert (e <= e2)%nat by (destruct Hw2 as [(_ & -> & _)|Hw2%follows_le]; lia).
  split; [right; destruct Hw2 as [(-> & -> & _)|Hw2]; [by rewrite app_nil_r|by eapply follows_app]|].
  split; [right; lia|]. apply (copies_bind _ _ [] (bs ++ bs2) tt tt); [apply copies_progress|]. by eapply copies_bind.
Qed.

(** The synchronisation writes the peer's blocks from the one after the common
    ancestor on, up to the number that the peer's status shows. *)
Lemma BulkSync_ok (J : Node -> Prop) head loc top k status turns ts r st :
  local_chain J head loc -> agree_to loc top k -> Z.min (stNumber status) (hNumber head) = Z.of_nat top ->
  settles 0 ts r -> 0 < r -> (length P <= turns)%nat -> (S k < length P)%nat ->
  J (sChain st) -> I (sPeer st) ->
  exists a c bs e, (a = k \/ a = 0%nat /\ k = 1%nat) /\ J c /\ follows (S a) bs e /\ r <= Z.of_nat e /\
    ends_as (eq None) (BulkSyncWithPeer HeaderHash turns status ts st) (apply_blocks bs c (sHandled st)) tt.
Proof.
  intros HL HA Htop Hs Hr Ht Hk HJ HI.
  destruct (findCommonAncestor_ok J head loc top k HL HA ltac:(lia) status Htop) as (a & h & (Ha & _) & Hq).
  destruct (lookup_lt_is_Some_2 P (S a)) as [b Hb]; [lia|]. rewrite Hb in Hq.
  destruct (Hq st HJ HI) as (c & p & E & HJ' & HI').
  destruct (sync_targets_ok turns 0 ts r (S a) b Hs Hb Ht) as (bs & e & Hw & Hle & Hc).
  exists a, c, bs, e. split; [done|]. split; [done|]. split.
  { destruct Hw as [(_ & _ & ->)|Hw]; [lia|done]. }
  split; [lia|]. unfold BulkSyncWithPeer, sbind at 1. rewrite E. cbn [obind]. unfold sbind, progress. cbn [obind].
  cbn [sChain sPeer sHandled]. set (g := StartProgression _ _).
  specialize (Hc (mkSync _ _ c p (sHandled st) (Some g)) HI' ltac:(by exists g)). cbn [sChain sHandled] in Hc.
  unfold stop_progress. destruct (apply_blocks bs c (sHandled st)) as [[[x c2] l]| |]; cbn [ends_as] in *.
  - destruct Hc as (p2 & g2 & Hp2 & _ & ->). by exists p2, None.
  - by rewrite Hc.
  - by rewrite Hc.
Qed.

End client.

(** ** The chain of src/core *)

Section core.
Context `{FastRLP} `{Runtime} `{!FastRLPOk} `{KV} `{LRU} `{!LRUOk}.
Context `{Roots} `{Verifier} `{BlockExecutor}.
Context (HeaderHash : Header -> Hash) (turns : nat).

(** The header that is stored under a hash. *)
Definition db_header (k : Hash) (db : DB) : option Header :=
  match ReadHeader HeaderHash k db with Found h => Some (Header_ComputeHash HeaderHash h) | _ => None end.

(** A chain that reads from [db]: its cache holds headers of [db]. *)
Definition reads_from (db : DB) (head : option Header) (b : Blockchain) : Prop :=
  bDb b = db /\ bCurrentHeader b = head /\
  forall k h, lru_in k h (bHeadersCache b) -> db_header k db = Some h.

Lemma readHeader_view db head k b : reads_from db head b ->
  exists b', readHeader HeaderHash k b = Ok (db_header k db, b') /\ reads_from db head b'.
Proof.
  intros (<- & <- & Hc). unfold readHeader. destruct (lru_Get k (bHeadersCache b)) as [[h|] c] eqn:E.
  - exists (set_caches c (bDifficultyCache b) b). rewrite (Hc k h) by (by eapply get_in). split; [done|].
    split; [done|]. split; [done|]. intros k' h' Hin. eapply Hc, get_keeps; eauto.
  - cbn [bDb set_caches]. unfold db_header. destruct (ReadHeader HeaderHash k (bDb b)) as [h| |] eqn:Er;
      eexists; (split; [done|]); (split; [done|]); (split; [done|]); cbn; intros k' h' Hin.
    + apply in_add in Hin as [[-> ->]|[_ Hin]]; [unfold db_header; by rewrite Er|]. eapply Hc, get_keeps; eauto.
    + eapply Hc, get_keeps; eauto.
    + eapply Hc, get_keeps; eauto.
Qed.

(** The header with a number in the database. *)
Definition db_number (n : Z) (db : DB) : option Header := ReadCanonicalHash n db ≫= fun k => db_header k db.

Lemma GetHeaderByNumber_view db head n b : reads_from db head b ->
  exists b', GetHeaderByNumber HeaderHash n b = Ok (db_number n db, b') /\ reads_from db head b'.
Proof.
  intros Hb. unfold GetHeaderByNumber, db_number. rewrite (proj1 Hb).
  destruct (ReadCanonicalHash n db) as [k|]; cbn; [by apply readHeader_view|by exists b].
Qed.

(** The database holds the blocks [P] as its canonical chain. *)
Record stores (db : DB) (P : list Block) : Prop := {
  st_number n : (n < length P + 10)%nat -> db_number (Z.of_nat n) db = bkHeader <$> P !! n;
  st_hash b : b ∈ P -> db_header (hHash (bkHeader b)) db = Some (bkHeader b);
  st_body b : b ∈ P -> hTxRoot (bkHeader b) <> EmptyRootHash ->
    ReadBody HeaderHash (hHash (bkHeader b)) db = Found (Block_Body b)
}.

#[local] Instance core_shim : Shim := chain_shim HeaderHash turns.

Lemma core_reads db head P : stores db P -> reads_as (reads_from db head) P.
Proof.
  intros Hs. split.
  - intros n b Hb Hn. destruct (GetHeaderByNumber_view db head (Z.of_nat n) b Hb) as (b' & E & Hb').
    exists b'. split; [|done]. etrans; [exact E|]. by rewrite (st_number _ _ Hs n Hn).
  - intros x b Hb Hx. destruct (readHeader_view db head (hHash (bkHeader x)) b Hb) as (b' & E & Hb').
    exists b'. split; [|done]. etrans; [exact E|]. by rewrite (st_hash _ _ Hs x Hx).
  - intros x b Hb Hx Ht. exists b. split; [|done]. cbn. unfold readBody. by rewrite (proj1 Hb), (st_body _ _ Hs x Hx Ht).
Qed.

Lemma core_local db head P : stores db P -> chain_of_blocks HeaderHash P ->
  list.last P = Some head -> local_chain (reads_from db (Some (bkHeader head))) (bkHeader head)
    (fun n => from_option bkHeader (bkHeader head) (P !! n)).
Proof.
  intros Hs [Hlen Hwf] Hl. unfold len in Hlen. rewrite last_lookup in Hl. pose proof (lookup_lt_Some _ _ _ Hl) as Hlt.
  pose proof (tr_number _ _ _ (Hwf _ _ Hl)) as Hn. split.
  - intros c (_ & Hh & _). exact Hh.
  - intros n c Hc Hle. destruct (GetHeaderByNumber_view _ _ (Z.of_nat n) c Hc) as (c' & E & Hc').
    exists c'. split; [|done]. etrans; [exact E|]. rewrite (st_number _ _ Hs n ltac:(lia)).
    destruct (lookup_lt_is_Some_2 P n) as [b ->]; [lia|]. done.
  - destruct (lookup_lt_is_Some_2 P 0%nat) as [b Hb]; [lia|]. rewrite Hb. apply (tr_number _ _ _ (Hwf _ _ Hb)).
  - lia.
Qed.

(** *** Bodies *)

Lemma objects_bodies hashes acc b :
  if existsb (fun k => match ReadBody HeaderHash k (bDb b) with Found _ => false | _ => true end) hashes
  then objects_loop BODIES hashes acc b = Panic
  else exists objs, objects_loop BODIES hashes acc b = Ok (Some (acc ++ objs), b) /\ length objs = length hashes.
Proof.
  revert acc. induction hashes as [|k hashes IH]; intros acc; cbn [existsb objects_loop].
  { exists []. by rewrite app_nil_r. }
  cbn [sh_GetBodyByHash core_shim chain_shim]. unfold readBody.
  destruct (ReadBody HeaderHash k (bDb b)) as [body| |]; cbn [obind orb]; [|done|done].
  specialize (IH (acc ++ [Some (MarshalTo (Body_MarshalRLPWith body))])). destruct (existsb _ hashes); [done|].
  destruct IH as (objs & -> & Hl). eexists (_ :: objs). rewrite <- app_assoc. split; [done|]. cbn. by rewrite Hl.
Qed.

End core.

(** ** Announcing a block *)

Section announce.
Context `{FastRLP} `{Runtime} `{!FastRLPOk} `{Shim}.
Context (HeaderHash : Header -> Hash).
Context (hash_pure : forall x h, HeaderHash (with_header_hash x h) = HeaderHash h).

Lemma peer_load_update id id' f s :
  peer_load id (peer_update id' f s) =
  (fun p => if bool_decide (id = id') then f p else p) <$> peer_load id s.
Proof.
  unfold peer_load, peer_update. cbn [syPeers set_peers].
  induction (syPeers s) as [|[i p] ps IH]; [done|]. cbn [fmap list_fmap List.find fst snd].
  destruct (decide (i = id')) as [->|Hne].
  - rewrite (bool_decide_eq_true_2 (id' = id')) by done. cbn [fst]. destruct (decide (id' = id)) as [->|Hn].
    + by rewrite (bool_decide_eq_true_2 (id = id)) by done.
    + rewrite (bool_decide_eq_false_2 (id' = id)) by done. exact IH.
  - rewrite (bool_decide_eq_false_2 (i = id')) by done. cbn [fst]. destruct (decide (i = id)) as [->|Hn].
    + rewrite !(bool_decide_eq_true_2 (id = id)) by done. cbn. by rewrite (bool_decide_eq_false_2 (id = id')) by done.
    + rewrite !(bool_decide_eq_false_2 (i = id)) by done. exact IH.
Qed.

(** The block that a node broadcasts is the last of its queue at the peers. *)
Lemma Notify_broadcast b td id p s :
  header_complete HeaderHash (bkHeader b) -> Forall (header_complete HeaderHash) (bkUncles b) ->
  Forall tx_complete (bkTransactions b) -> len (Block_MarshalRLP b) < 2 ^ 63 -> is_word (Block_Hash b) ->
  peer_load id s = Some p ->
  exists s', Notify HeaderHash (Some id)
    (mkNotifyReq (Some (mkV1Status (big_String (Some td)) (Hash_String (Block_Hash b)) (hNumber (bkHeader b))))
       (Some (Block_MarshalRLP b))) s = Ok (true, s') /\
  peer_load id s' = Some (updateStatus (mkStatus (Some td) (Block_Hash b) (hNumber (bkHeader b)))
    (appendBlock (mkBlock (bkHeader b) (with_from 0 <$> bkTransactions b) (bkUncles b)) p)) /\
  forall id', id' <> id -> peer_load id' s' = peer_load id' s.
Proof.
  intros Hh Hu Ht Hl Hw Hp. unfold Notify. cbn [nrRaw nrStatus of_option obind].
  rewrite (block_roundtrip HeaderHash hash_pure) by done. rewrite status_text by done. eexists. split; [done|].
  unfold updatePeerStatus, enqueueBlock. split.
  - rewrite !peer_load_update, Hp. cbn. by rewrite !bool_decide_eq_true_2 by done.
  - intros id' Hne. rewrite !peer_load_update. rewrite !bool_decide_eq_false_2 by done.
    by destruct (peer_load id' s).
Qed.

End announce.
