(* ===== verification/CalcFacts.v ===== *)
(** The fast hasher writes the nodes of the trie of the elements: its root is that
    of the trie, node by node. *)

From Stdlib Require Import ZArith Lia.
From stdpp Require Import base gmap list numbers.
From S2P Require Import Prelude Types Chain Rlp Nibbles Txn Trie TrieRep TrieOps TrieHash TrieMap CalcRoot.

Open Scope Z_scope.
Open Scope outcome_scope.

Section facts.
Context `{FastRLP} `{Runtime} `{!FastRLPOk} `{!NodeRLP} `{!NodeRLPOk} `{TrieStorage}.

(** ** Sizes *)

Lemma intsize_length n : 0 < n < 2 ^ 64 -> len (big_Bytes n) = intsize n /\ intsize n <= 8.
Proof.
  intros Hn. unfold intsize, len. repeat match goal with
  | |- context [n <? ?b] => destruct (Z.ltb_spec n b)
  end.
  all: (split; [|lia]). all: match goal with |- Z.of_nat _ = ?k => let m := eval vm_compute in (Z.to_nat (k - 1)) in rewrite (big_Bytes_full n m) by lia; lia end.
Qed.

Lemma marshalRlpSize_prefix dst n short : short = 128 \/ short = 192 -> 0 <= n < 2 ^ 63 ->
  marshalRlpSize dst n short (short + 55) = dst ++ rlp_prefix short n.
Proof.
  intros Hs Hn. unfold marshalRlpSize, rlp_prefix. destruct (Z.ltb_spec n 56), (Z.leb_spec n 55); try lia.
  - rewrite Z.mod_small by lia. done.
  - destruct (intsize_length n) as [El Hle]; [lia|]. rewrite <- El in *. rewrite Z.mod_small by (unfold len in *; lia).
    f_equal. cbn [app]. f_equal. rewrite <- (big_Bytes_pad 8 n) by lia.
    unfold len. replace (Z.to_nat (8 - Z.of_nat (length (big_Bytes n)))) with (8 - length (big_Bytes n))%nat by lia.
    apply drop_app_length'. by rewrite length_replicate.
Qed.

Lemma getRlpSize_prefix short n : 0 <= n < 2 ^ 63 -> getRlpSize n = len (rlp_prefix short n).
Proof.
  intros Hn. unfold getRlpSize, rlp_prefix. destruct (Z.ltb_spec n 56), (Z.leb_spec n 55); try lia; [done|].
  destruct (intsize_length n) as [<- _]; [lia|]. unfold len. cbn [length]. lia.
Qed.

(** ** Leaves *)

Lemma rlp_string_long v : 32 <= len v -> rlp_string v = rlp_prefix 128 (len v) ++ v.
Proof. unfold len. destruct v as [|x [|y v]]; cbn [length]; [lia|lia|done]. Qed.

(** The key of a leaf is written as [key], which is its encoding. *)
Lemma leaf_data k v key : 32 <= len v < 2 ^ 62 -> rlp_string (encodeCompact k) = key -> len key <= 3 ->
  marshalItemRlpSize (marshalListRlpSize [] (getRlpSize (len v) + len v + len key) ++ key) (len v) ++ v = data (Short k (Leaf v)).
Proof.
  intros Hv <- Hk. unfold data, marshalItemRlpSize, marshalListRlpSize. cbn [tnode tref]. rewrite marshal_array. cbn [fmap list_fmap].
  rewrite !marshal_bytes. rewrite (rlp_string_long v) by lia. unfold rlp_list. cbn [concat]. rewrite app_nil_r.
  assert (0 <= len v < 2 ^ 63) as Hv' by lia. pose proof (rlp_prefix_length 128 (len v) Hv').
  rewrite (getRlpSize_prefix 128 (len v) Hv').
  rewrite (marshalRlpSize_prefix _ (len v) 128), (marshalRlpSize_prefix _ _ 192); [|by right|unfold len in *; lia|by left|done].
  rewrite app_nil_l, <- !app_assoc. f_equal. f_equal. unfold len. rewrite !length_app. lia.
Qed.

Lemma leaf_big k v : 32 <= len v -> big (Short k (Leaf v)).
Proof.
  intros Hv. unfold big. cbn [tnode tref]. rewrite len_array, marshal_array. cbn [fmap list_fmap]. rewrite !marshal_bytes.
  rewrite (rlp_string_long v) by lia. unfold rlp_list, len in *. cbn [concat]. rewrite !length_app. lia.
Qed.

(** The bytes of a slot. *)
Definition slot_bytes (o : option mpt) : list Z := MarshalTo (slot_ref o).

Lemma slot_bytes_none : slot_bytes None = rlpEmptyValue.
Proof. apply marshal_null. Qed.

Lemma slot_bytes_big t : canon t -> big t -> slot_bytes (Some t) = rlpHashPrefix ++ tkey t.
Proof.
  intros Hc Hb. unfold slot_bytes, slot_ref. rewrite tref_big, marshal_bytes by done.
  assert (len (tkey t) = 32) as El by (unfold len, tkey; by rewrite Keccak256_length).
  rewrite rlp_string_long by lia. by rewrite El.
Qed.

Lemma full_data ts : len (concat (map slot_bytes ts)) < 2 ^ 63 ->
  marshalListRlpSize [] (len (concat (map slot_bytes ts))) ++ concat (map slot_bytes ts) = data (Full ts).
Proof.
  intros Hl. unfold data, marshalListRlpSize. cbn [tnode]. rewrite marshal_array.
  change (192 + 55) with 247. rewrite (marshalRlpSize_prefix _ _ 192); [|by right|unfold len in *; lia].
  unfold rlp_list. rewrite app_nil_l. by rewrite <- list_fmap_compose.
Qed.

Lemma full_big ts i t : slot ts i t -> canon t -> big t -> big (Full ts).
Proof.
  intros Hs Hc Hb. unfold big. cbn [tnode]. rewrite len_array, marshal_array. unfold rlp_list, len.
  rewrite length_app. assert (32 <= length (concat (MarshalTo <$> map slot_ref ts)))%nat; [|lia].
  rewrite <- list_fmap_compose. apply list_elem_of_split_length in Hs as (l1 & l2 & -> & _).
  rewrite fmap_app, concat_app, length_app. cbn [fmap list_fmap concat]. rewrite length_app.
  change ((MarshalTo ∘ slot_ref) (Some t)) with (slot_bytes (Some t)). rewrite slot_bytes_big by done.
  rewrite length_app. unfold tkey. rewrite Keccak256_length. lia.
Qed.

(** ** The map of a list *)

Definition index_key (i : Z) : list Z := MarshalTo (NewUint i).
Definition index_ops (num : Z) (h : Z -> list Z) : list trie_op := map (fun i => OpInsert (index_key i) (h i)) (seqZ 0 num).

(** The elements under their encoded indices. *)
Definition index_map (num : Z) (h : Z -> list Z) : bmap := foldl spec_op ∅ (index_ops num h).

Lemma index_key_small i : 0 <= i < 128 -> index_key i = if i =? 0 then [128] else [i].
Proof.
  intros Hi. unfold index_key. rewrite marshal_uint. destruct (Z.eqb_spec i 0) as [->|Hne]; [done|].
  assert (length (big_Bytes i) = 1%nat) as El by (apply (big_Bytes_full i 0); cbn; lia).
  pose proof (be_decode_big_Bytes i) as Ed. rewrite Z.abs_eq in Ed by lia.
  destruct (big_Bytes i) as [|x [|y b]]; [done| |done]. cbn in Ed. unfold rlp_string.
  assert (x = i) as -> by lia. by destruct (Z.ltb_spec i 128); [|lia].
Qed.

Lemma index_key_bytes i : 0 <= i < 2 ^ 63 -> Forall is_byte (index_key i).
Proof.
  intros Hi. assert (length (big_Bytes i) <= 8)%nat by (apply big_Bytes_length; lia).
  pose proof (rlp_string_length (big_Bytes i) ltac:(unfold len; lia)).
  apply marshal_byte; [apply wf_uint; unfold is_u64; lia|]. rewrite marshal_uint. unfold len. lia.
Qed.

Lemma index_keys num h k : k ∈ op_key <$> index_ops num h <-> exists i, k = index_key i /\ 0 <= i < num.
Proof.
  unfold index_ops. rewrite list_elem_of_fmap. split.
  - intros (op & -> & Hin). apply list_elem_of_fmap in Hin as (i & -> & Hi). exists i. split; [done|].
    apply elem_of_seqZ in Hi. lia.
  - intros (i & -> & Hi). exists (OpInsert (index_key i) (h i)). split; [done|]. apply list_elem_of_fmap. exists i.
    split; [done|]. apply elem_of_seqZ. lia.
Qed.

(** ** The trie of up to 128 elements *)

Section tree.
Context (num : Z) (h : Z -> list Z) (Hnum : 2 <= num <= 128).
Context (Hval : forall i, 0 <= i < num -> value_ok (h i) /\ 32 <= len (h i) < 2 ^ 62).

Definition leaf (k : list Z) (i : Z) : mpt := Short k (Leaf (h i)).

(** The element with the first nibble [j] and the second [y] of its index; the
    element 0 is not here. *)
Definition item (j y : Z) : option mpt :=
  let i := 16 * j + y in if (1 <=? i) && (i <? num) then Some (leaf [16] i) else None.

Definition first (j : Z) : Z := Z.max 1 (16 * j).
Definition last_of (j : Z) : Z := Z.min num (16 * j + 16).

Definition items (j : Z) : list (option mpt) := map (item j) (seqZ 0 16) ++ [None].

Definition group (j : Z) : option mpt :=
  let n := last_of j - first j in
  if n <=? 0 then None
  else if n =? 1 then Some (leaf [first j mod 16; 16] (first j))
  else Some (Full (items j)).

(** The key of the element 0 is 0x80. *)
Definition root_slots : list (option mpt) := map group (seqZ 0 8) ++ Some (leaf [0; 16] 0) :: replicate 8 None.

Lemma getCb_val i : 0 <= i < num -> getCb num h i = Some (h i).
Proof.
  intros Hi. unfold getCb. destruct (Z.ltb_spec num i); [lia|]. destruct (Hval i Hi) as [_ Hl].
  by destruct (Z.ltb_spec (len (h i)) 32); [lia|].
Qed.

Lemma leaf_canon k i : full_key k -> 0 <= i < num -> canon (leaf k i).
Proof. intros Hk Hi. apply canon_leaf; [done|by apply Hval]. Qed.

Lemma leaf_slot k i : full_key k -> 0 <= i < num -> slot_bytes (Some (leaf k i)) = rlpHashPrefix ++ tkey (leaf k i).
Proof. intros Hk Hi. apply slot_bytes_big; [by apply leaf_canon|]. by apply leaf_big, Hval. Qed.

Lemma full_16 : full_key [16].
Proof. by exists []. Qed.

Lemma full_2 x : nibble x -> full_key [x; 16].
Proof. intros Hx. exists [x]. split; [done|]. constructor; [done|constructor]. Qed.

#[local] Hint Resolve full_16 full_2 : core.

(** *** A group *)

Lemma group_items_ok n : forall buf i, 0 <= i -> i + Z.of_nat n <= num ->
  group_items num h buf i n = Some (buf ++ concat (map (fun i => slot_bytes (Some (leaf [16] i))) (seqZ i (Z.of_nat n)))).
Proof.
  induction n as [|n IH]; intros buf i Hi Hn; [by rewrite app_nil_r|].
  cbn [group_items]. rewrite getCb_val by lia. cbn [mbind option_bind]. rewrite IH by lia.
  rewrite (seqZ_cons i) by lia. cbn [map concat]. rewrite leaf_slot by (done || lia).
  replace (Z.pred (Z.of_nat (S n))) with (Z.of_nat n) by lia. f_equal. unfold fast_hash. rewrite <- !app_assoc. do 2 f_equal.
  unfold tkey, leaf. f_equal. f_equal. rewrite <- (leaf_data [16] (h i) leafVal); [|by apply Hval; lia|done|done].
  by replace (getRlpSize (len (h i)) + 1 + len (h i)) with (getRlpSize (len (h i)) + len (h i) + len leafVal) by (unfold len; cbn; lia).
Qed.

Lemma empties_slots from to : from <= to -> forall f : Z -> option mpt, (forall y, from <= y < to -> f y = None) ->
  concat (map slot_bytes (map f (seqZ from (to - from)))) = empties from to.
Proof.
  intros Hft f Hf. unfold empties. f_equal. replace (to - from) with (Z.of_nat (Z.to_nat (to - from))) at 1 by lia.
  assert (forall n i, from <= i -> i + Z.of_nat n <= to -> map slot_bytes (map f (seqZ i (Z.of_nat n))) = replicate n rlpEmptyValue) as Hn.
  { induction n as [|n IH]; intros i Hi Hn; [done|]. rewrite seqZ_cons by lia. cbn [map replicate].
    rewrite Hf by lia. rewrite slot_bytes_none. f_equal. replace (Z.pred (Z.of_nat (S n))) with (Z.of_nat n) by lia. apply IH; lia. }
  apply Hn; lia.
Qed.

Lemma empties_shift a from to : empties (from + a) (to + a) = empties from to.
Proof. unfold empties. by replace (to + a - (from + a)) with (to - from) by lia. Qed.

Lemma item_some j y : 1 <= 16 * j + y < num -> item j y = Some (leaf [16] (16 * j + y)).
Proof.
  intros Hi. unfold item. destruct (Z.leb_spec 1 (16 * j + y)); [|lia]. by destruct (Z.ltb_spec (16 * j + y) num); [|lia].
Qed.

Lemma item_none j y : ~ 1 <= 16 * j + y < num -> item j y = None.
Proof.
  intros Hi. unfold item. destruct (Z.leb_spec 1 (16 * j + y)); [|done]. by destruct (Z.ltb_spec (16 * j + y) num); [lia|].
Qed.

Lemma items_bytes j n : 0 <= j -> n = last_of j - first j -> 0 < n ->
  concat (map slot_bytes (items j)) =
  (if first j =? 1 then rlpEmptyValue else []) ++
  concat (map (fun i => slot_bytes (Some (leaf [16] i))) (seqZ (first j) n)) ++
  empties n (if negb (first j =? 1) then 16 else 15) ++ rlpEmptyValue.
Proof.
  intros Hj En Hn. unfold items. rewrite map_app, concat_app. cbn [map concat]. rewrite slot_bytes_none, app_nil_r.
  remember (first j - 16 * j) as a eqn:Da.
  assert (first j = 16 * j + a /\ (a = if first j =? 1 then 1 else 0) /\ a + n <= 16) as (Ef & Ea & Hle).
  { unfold first, last_of in *. destruct (Z.eqb_spec (Z.max 1 (16 * j)) 1); cbn; lia. }
  assert (0 <= a <= 1) by (clear -Ea; case_match; lia).
  replace (seqZ 0 16) with (seqZ 0 (a - 0) ++ seqZ a n ++ seqZ (a + n) (16 - (a + n))).
  2:{ replace (seqZ 0 16) with (seqZ 0 ((a - 0) + (n + (16 - (a + n))))) by (f_equal; lia).
      rewrite !seqZ_app by lia. by replace (0 + (a - 0)) with a by lia. }
  rewrite !map_app, !concat_app, <- !app_assoc. f_equal; [|f_equal; [|f_equal]].
  - rewrite empties_slots; [|lia|intros y Hy; apply item_none; destruct (Z.eqb_spec (first j) 1); lia].
    rewrite Ea. by case_match.
  - rewrite Ef. f_equal. rewrite <- fmap_add_seqZ, <- list_fmap_compose, <- list_fmap_compose.
    apply list_fmap_ext. intros k y Hy%lookup_seqZ. cbn. unfold last_of, first in *. by rewrite item_some by lia.
  - rewrite empties_slots.
    + rewrite <- (empties_shift a n). rewrite (Z.add_comm a n). f_equal. rewrite Ea. by case_match.
    + lia.
    + intros y Hy. apply item_none. unfold last_of in En. lia.
Qed.

Lemma items_slot j y : 0 <= y < 16 -> items j !! Z.to_nat y = Some (item j y).
Proof.
  intros Hy. unfold items. rewrite lookup_app_l by (rewrite length_fmap, length_seqZ; lia).
  rewrite list_lookup_fmap. rewrite (lookup_seqZ_lt 0 16) by lia. cbn. do 2 f_equal. lia.
Qed.

Lemma items_value j : items j !! 16%nat = Some None.
Proof.
  unfold items. rewrite lookup_app_r by (by rewrite length_fmap, length_seqZ). by rewrite length_fmap, length_seqZ.
Qed.

(** A slot of a group holds an element. *)
Lemma items_some j i t : slot (items j) i t -> exists y, i = Z.to_nat y /\ 0 <= y < 16 /\ 1 <= 16 * j + y < num /\ t = leaf [16] (16 * j + y).
Proof.
  intros Ht. assert (i < 17)%nat as Hi.
  { apply lookup_lt_Some in Ht. unfold items in Ht. rewrite length_app, length_fmap, length_seqZ in Ht. cbn in Ht. lia. }
  destruct (decide (i = 16%nat)) as [->|Hne]; [unfold slot in Ht; by rewrite items_value in Ht|].
  exists (Z.of_nat i). split; [lia|]. split; [lia|]. unfold slot in Ht.
  rewrite <- (Nat2Z.id i), items_slot in Ht by lia. unfold item in Ht. case_match eqn:Eb; [|done]. injection Ht as <-.
  apply andb_true_iff in Eb as [?%Z.leb_le ?%Z.ltb_lt]. split; [lia|done].
Qed.

Lemma items_canon j : 0 <= j -> first j + 1 < last_of j -> canon (Full (items j)) /\ big (Full (items j)).
Proof.
  intros Hj Hlt. unfold last_of, first in *.
  assert (forall i, Z.max 1 (16 * j) <= i < num -> i < 16 * j + 16 -> slot (items j) (Z.to_nat (i - 16 * j)) (leaf [16] i)) as Hs.
  { intros i Hi Hi'. unfold slot. rewrite items_slot, item_some by lia. do 3 f_equal. lia. }
  pose proof (Hs (Z.max 1 (16 * j)) ltac:(lia) ltac:(lia)) as Hs1.
  pose proof (Hs (Z.max 1 (16 * j) + 1) ltac:(lia) ltac:(lia)) as Hs2. split.
  - constructor.
    + unfold items. by rewrite length_app, length_fmap, length_seqZ.
    + intros i t Ht _. apply items_some in Ht as (y & -> & Hy & Hr & ->). apply leaf_canon; [auto|lia].
    + intros t Ht. apply items_some in Ht as (y & E & Hy & _). lia.
    + eexists _, _, _, _. split; [|split; [exact Hs1|exact Hs2]]. lia.
  - eapply full_big; [exact Hs1|apply leaf_canon; [auto|lia]|by apply leaf_big, Hval; lia].
Qed.

Lemma slots_length ts : (forall i t, slot ts i t -> canon t /\ big t) -> len (concat (map slot_bytes ts)) <= 33 * len ts.
Proof.
  intros Hts. induction ts as [|o ts IH]; [done|]. cbn [map concat]. unfold len in *. rewrite length_app. cbn [length].
  assert (Z.of_nat (length (slot_bytes o)) <= 33).
  { destruct o as [t|]; [|by rewrite slot_bytes_none]. destruct (Hts 0%nat t) as [Hc Hb]; [done|].
    rewrite slot_bytes_big by done. rewrite length_app. unfold tkey. by rewrite Keccak256_length. }
  assert (Z.of_nat (length (concat (map slot_bytes ts))) <= 33 * Z.of_nat (length ts)); [|lia].
  apply IH. intros i t Ht. by apply (Hts (S i)).
Qed.

Lemma items_data j n : 0 <= j -> n = last_of j - first j -> 1 < n ->
  (let buf := (if first j =? 1 then rlpEmptyValue else []) ++
      concat (map (fun i => slot_bytes (Some (leaf [16] i))) (seqZ (first j) n)) in
   let buf := if n <? 16 then buf ++ empties n (if negb (first j =? 1) then 16 else 15) else buf in
   let buf := buf ++ rlpEmptyValue in
   marshalListRlpSize [] (len buf) ++ buf) = data (Full (items j)).
Proof.
  intros Hj En Hn. cbn zeta.
  match goal with |- context [len ?b] => assert (b = concat (map slot_bytes (items j))) as -> end.
  { rewrite (items_bytes j n) by (done || lia). destruct (Z.ltb_spec n 16); rewrite <- !app_assoc; [done|].
    assert (n = 16 /\ first j <> 1) as [-> Hf] by (unfold first, last_of in *; lia).
    destruct (Z.eqb_spec (first j) 1); [lia|]. done. }
  apply full_data. enough (len (concat (map slot_bytes (items j))) <= 33 * len (items j)) as Hl.
  { unfold len at 2 in Hl. unfold items in Hl. rewrite length_app, length_fmap, length_seqZ in Hl. fold (items j) in Hl. cbn [length] in Hl. lia. }
  apply slots_length. intros i t Ht. apply items_some in Ht as (y & -> & Hy & Hr & ->).
  split; [apply leaf_canon; [auto|lia]|by apply leaf_big, Hval; lia].
Qed.

Lemma single_data j : 0 <= j -> first j < num ->
  marshalItemRlpSize (marshalListRlpSize [] (getRlpSize (len (h (first j))) + len (h (first j)) + 1) ++
    (if first j =? 1 then oneKey else zeroKey)) (len (h (first j))) ++ h (first j) = data (leaf [first j mod 16; 16] (first j)).
Proof.
  intros Hj Hlt. assert (0 <= first j) by (unfold first; lia). unfold leaf.
  rewrite <- (leaf_data [first j mod 16; 16] (h (first j)) (if first j =? 1 then oneKey else zeroKey)).
  - by destruct (first j =? 1).
  - by apply Hval; lia.
  - destruct (Z.eqb_spec (first j) 1) as [->|Hf]; [by vm_compute|].
    replace (first j) with (j * 16) by (unfold first in *; lia). rewrite Z.mod_mul by lia. by vm_compute.
  - by case_match.
Qed.

Lemma group_ok dst j : 0 <= j < 8 -> first j < last_of j -> exists g, group j = Some g /\ canon g /\ big g /\
  deriveGroup num h dst (first j) (last_of j) = Some (dst ++ tkey g).
Proof.
  intros Hj Hlt. unfold group, deriveGroup. remember (last_of j - first j) as n eqn:En.
  assert (1 <= first j /\ last_of j <= num) as [H1' H2'] by (unfold first, last_of in *; lia).
  destruct (Z.leb_spec n 0); [lia|]. destruct (Z.eqb_spec n 1) as [E1|Hne].
  - assert (nibble (first j mod 16)) by (apply Z.mod_pos_bound; lia).
    eexists. split; [done|]. split; [apply leaf_canon; [auto|lia]|]. split; [by apply leaf_big, Hval; lia|].
    rewrite getCb_val by lia. cbn [mbind option_bind]. unfold encodeSingle, fast_hash, tkey.
    by rewrite single_data by lia.
  - destruct (items_canon j) as [Hc Hb]; [lia|lia|]. exists (Full (items j)). repeat (split; [done|]).
    rewrite group_items_ok by lia. rewrite Z2Nat.id by lia. cbn [mbind option_bind]. unfold fast_hash, tkey.
    pose proof (items_data j n ltac:(lia) En ltac:(lia)) as E. cbn zeta in E |- *. by rewrite E.
Qed.

(** *** The root *)

Lemma group_none j : num <= 16 * j -> group j = None.
Proof.
  intros Hj. unfold group, last_of, first. destruct (Z.leb_spec (Z.min num (16 * j + 16) - Z.max 1 (16 * j)) 0); [done|lia].
Qed.

Lemma fill_groups_ok fuel : forall dst j c, c = (num + 15) / 16 -> 0 <= j <= c -> c - j <= Z.of_nat fuel ->
  fill_groups num h fuel dst num (16 * j) = Ok (Some (dst ++ concat (map slot_bytes (map group (seqZ j (c - j)))))).
Proof.
  induction fuel as [|fuel IH]; intros dst j c Hc Hj Hf.
  - replace (c - j) with 0 by lia. cbn. rewrite app_nil_r. destruct (Z.ltb_spec (16 * j) num); [|done].
    Z.div_mod_to_equations; lia.
  - cbn [fill_groups]. destruct (Z.ltb_spec (16 * j) num) as [Hlt|Hge].
    + assert (j < c /\ c <= 8) as [Hjc Hc8] by (Z.div_mod_to_equations; lia).
      assert ((if 16 * j =? 0 then 1 else 16 * j) = first j) as ->.
      { unfold first. destruct (Z.eqb_spec (16 * j) 0); lia. }
      fold (last_of j). destruct (group_ok (dst ++ rlpHashPrefix) j) as (g & Eg & Hg & Hb & ->); [lia|unfold first, last_of; lia|].
      replace (16 * j + 16) with (16 * (j + 1)) by lia. rewrite (IH _ (j + 1) c) by lia.
      rewrite (seqZ_cons j) by lia. cbn [map concat]. rewrite Eg, slot_bytes_big by done.
      replace (Z.pred (c - j)) with (c - (j + 1)) by lia. replace (Z.succ j) with (j + 1) by lia. by rewrite <- !app_assoc.
    + assert (c - j = 0) as -> by (Z.div_mod_to_equations; lia). cbn. by rewrite app_nil_r.
Qed.

Lemma root_slot x : 0 <= x < 16 -> root_slots !! Z.to_nat x =
  Some (if x <? 8 then group x else if x =? 8 then Some (leaf [0; 16] 0) else None).
Proof.
  intros Hx. unfold root_slots. destruct (Z.ltb_spec x 8).
  - rewrite lookup_app_l by (rewrite length_fmap, length_seqZ; lia). rewrite list_lookup_fmap.
    rewrite (lookup_seqZ_lt 0 8) by lia. cbn. do 2 f_equal. lia.
  - rewrite lookup_app_r by (rewrite length_fmap, length_seqZ; lia). rewrite length_fmap, length_seqZ.
    destruct (Z.eqb_spec x 8) as [->|Hne]; [done|].
    replace (Z.to_nat x - Z.to_nat 8)%nat with (S (Z.to_nat (x - 9))) by lia. cbn [lookup list_lookup].
    apply lookup_replicate_2. lia.
Qed.

Lemma root_some i t : slot root_slots i t -> (i < 16)%nat /\ canon t /\ big t.
Proof.
  intros Ht. assert (length root_slots = 17%nat) as El by (unfold root_slots; by rewrite length_app, length_fmap, length_seqZ).
  assert (i < 17)%nat as Hi by (apply lookup_lt_Some in Ht; lia). unfold slot in Ht.
  destruct (decide (i = 16%nat)) as [->|Hne].
  { unfold root_slots in Ht. rewrite lookup_app_r in Ht by (by rewrite length_fmap, length_seqZ). by rewrite length_fmap, length_seqZ in Ht. }
  split; [lia|]. rewrite <- (Nat2Z.id i), root_slot in Ht by lia. destruct (Z.ltb_spec (Z.of_nat i) 8).
  - injection Ht as Ht. destruct (decide (first (Z.of_nat i) < last_of (Z.of_nat i))) as [Hlt|Hge].
    + destruct (group_ok [] (Z.of_nat i)) as (g & Eg & Hc & Hb & _); [lia|done|]. by replace t with g by congruence.
    + unfold group in Ht. by destruct (Z.leb_spec (last_of (Z.of_nat i) - first (Z.of_nat i)) 0); [|lia].
  - destruct (Z.of_nat i =? 8); [|done]. injection Ht as <-. split; [apply leaf_canon; [apply full_2; split; lia|lia]|].
    by apply leaf_big, Hval; lia.
Qed.

Lemma root_canon : canon (Full root_slots).
Proof.
  constructor.
  - unfold root_slots. by rewrite length_app, length_fmap, length_seqZ.
  - intros i t Ht _. by apply root_some in Ht as (_ & ? & _).
  - intros t Ht. apply root_some in Ht as [? _]. lia.
  - destruct (group_ok [] 0) as (g & Eg & _); [lia|unfold first, last_of; lia|].
    exists 0%nat, 8%nat, g, (leaf [0; 16] 0). split; [done|]. split.
    + unfold slot. change 0%nat with (Z.to_nat 0). rewrite root_slot by lia. cbn. by rewrite Eg.
    + unfold slot. change 8%nat with (Z.to_nat 8). by rewrite root_slot by lia.
Qed.

Lemma root_bytes c : c = (num + 15) / 16 ->
  concat (map slot_bytes root_slots) =
  (((concat (map slot_bytes (map group (seqZ 0 (c - 0)))) ++ empties 0 (Z.quot (128 - num) 16)) ++ rlpHashPrefix) ++
    tkey (leaf [0; 16] 0)) ++ empties 9 17.
Proof.
  intros Hc. assert (0 <= c <= 8) as Hc8 by (subst c; Z.div_mod_to_equations; lia).
  unfold root_slots. rewrite map_app, concat_app. cbn [map concat].
  rewrite leaf_slot by (lia || (apply full_2; split; lia)).
  replace (seqZ 0 8) with (seqZ 0 (c - 0) ++ seqZ c (8 - c)).
  2:{ replace (seqZ 0 8) with (seqZ 0 ((c - 0) + (8 - c))) by (f_equal; lia). rewrite seqZ_app by lia. do 2 f_equal. lia. }
  rewrite !map_app, concat_app. rewrite (empties_slots c 8) by (lia || (intros y Hy; apply group_none; subst c; Z.div_mod_to_equations; lia)).
  assert (empties 0 (Z.quot (128 - num) 16) = empties c 8) as ->.
  { unfold empties. do 3 f_equal. rewrite Z.quot_div_nonneg by lia. subst c. Z.div_mod_to_equations; lia. }
  assert (map slot_bytes (replicate 8 None) = replicate 8 rlpEmptyValue) as -> by (cbn; by rewrite slot_bytes_none).
  by rewrite <- !app_assoc.
Qed.

Lemma root_length : len (concat (map slot_bytes root_slots)) < 2 ^ 63.
Proof.
  pose proof (slots_length root_slots ltac:(by intros i t (_ & Hc & Hb)%root_some)) as Hl.
  assert (len root_slots = 17) as El by (unfold root_slots, len; by rewrite length_app, length_fmap, length_seqZ). lia.
Qed.

Lemma FastHasher_Hash_ok : FastHasher_Hash num h = Ok (Some (tkey (Full root_slots))).
Proof.
  unfold FastHasher_Hash. destruct (Z.eqb_spec num 1); [lia|]. rewrite Z.min_l by lia.
  set (c := (num + 15) / 16). assert (0 <= c <= 8) as Hc by (unfold c; Z.div_mod_to_equations; lia).
  change 0 with (16 * 0) at 1. rewrite (fill_groups_ok 8 [] 0 c) by (done || lia). cbn [obind]. rewrite app_nil_l.
  rewrite getCb_val by lia. unfold encodeSingle, fast_hash, tkey.
  assert (data (leaf [0; 16] 0) =
    marshalItemRlpSize (marshalListRlpSize [] (getRlpSize (len (h 0)) + len (h 0) + 1) ++ zeroKey) (len (h 0)) ++ h 0) as <-.
  { unfold leaf. by rewrite <- (leaf_data [0; 16] (h 0) zeroKey) by (done || by apply Hval; lia). }
  fold (tkey (leaf [0; 16] 0)). rewrite <- (root_bytes c eq_refl). cbn [obind]. by rewrite full_data by apply root_length.
Qed.

(** *** Its map *)

(** The value under the key that is the byte [b]. *)
Definition value_at (b : Z) : option (list Z) :=
  if b =? 128 then Some (h 0) else if (1 <=? b) && (b <? num) then Some (h b) else None.

Lemma tget_leaf_iff k i key : tget (leaf k i) key = if decide (key = k) then Some (h i) else None.
Proof.
  unfold leaf. case_decide as E; [subst; apply tget_leaf|]. destruct (tget (Short k (Leaf (h i))) key) as [v|] eqn:Ev; [|done].
  apply tget_short_inv in Ev as (key' & -> & Ev). destruct key'; [by rewrite app_nil_r in E|done].
Qed.

Lemma tget_group j y key : 0 <= j < 8 -> full_key (y :: key) ->
  match group j with Some g => tget g (y :: key) | None => None end = if decide (key = [16]) then value_at (16 * j + y) else None.
Proof.
  intros Hj Hk. assert (y = 16 /\ key = [] \/ 0 <= y < 16) as Hy by (by apply full_key_cons in Hk as [?|[? _]]; [left|right]).
  assert (forall b, b < 128 -> value_at b = if (1 <=? b) && (b <? num) then Some (h b) else None) as Hv.
  { intros b Hb. unfold value_at. by destruct (Z.eqb_spec b 128); [lia|]. }
  unfold group. set (n := last_of j - first j).
  destruct Hy as [[-> ->]|Hy].
  { destruct (n <=? 0); [done|]. destruct (n =? 1); [rewrite tget_leaf_iff; by case_decide|].
    rewrite tget_full. unfold tget_slot. change (Z.to_nat 16) with 16%nat. by rewrite items_value. }
  destruct (Z.leb_spec n 0); [|destruct (Z.eqb_spec n 1) as [E1|Hne]].
  - case_decide; [|done]. rewrite Hv by lia. unfold n, last_of, first in *.
    destruct (Z.leb_spec 1 (16 * j + y)); [|done]. destruct (Z.ltb_spec (16 * j + y) num); [lia|done].
  - rewrite tget_leaf_iff. unfold n, last_of, first in *.
    destruct (decide (key = [16])) as [->|Hk'].
    2:{ case_decide as E; [|done]. by injection E as _ ->. }
    assert (Z.max 1 (16 * j) mod 16 = Z.max 1 (16 * j) - 16 * j) as -> by (Z.div_mod_to_equations; lia).
    rewrite Hv by lia. case_decide as E.
    + injection E as ->. replace (16 * j + (Z.max 1 (16 * j) - 16 * j)) with (Z.max 1 (16 * j)) by lia.
      destruct (Z.leb_spec 1 (Z.max 1 (16 * j))); [|lia]. by destruct (Z.ltb_spec (Z.max 1 (16 * j)) num); [|lia].
    + destruct (Z.leb_spec 1 (16 * j + y)); [|done]. destruct (Z.ltb_spec (16 * j + y) num); [|done].
      destruct E. do 2 f_equal. lia.
  - rewrite tget_full. unfold tget_slot. rewrite items_slot by lia. unfold item. rewrite Hv by lia.
    destruct ((1 <=? 16 * j + y) && (16 * j + y <? num)); [apply tget_leaf_iff|by case_decide].
Qed.

Lemma tget_root key : full_key key -> tget (Full root_slots) key =
  match key with [x; y; z] => if z =? 16 then value_at (16 * x + y) else None | _ => None end.
Proof.
  intros Hk. destruct key as [|x key]; [done|]. rewrite tget_full. unfold tget_slot.
  apply full_key_cons in Hk as [[-> ->]|[Hx Hk]].
  { destruct (root_slots !! Z.to_nat 16) as [[t|]|] eqn:E; [|done..]. apply root_some in E as [? _]. lia. }
  destruct key as [|y key]; [by apply full_key_nil in Hk|]. rewrite root_slot by done.
  assert (forall o : option (list Z), (if decide (key = [16]) then o else None) = match key with [z] => if z =? 16 then o else None | _ => None end) as Hm.
  { intros o. destruct key as [|z [|z' key]]; [by case_decide| |by case_decide]. destruct (Z.eqb_spec z 16) as [->|Hz]; [by case_decide|].
    case_decide as E; [by injection E|done]. }
  unfold nibble in Hx. etransitivity; [|apply Hm]. destruct (Z.ltb_spec x 8); [by apply tget_group; [lia|]|].
  assert (0 <= y <= 16) as Hy by (apply full_key_cons in Hk as [[-> _]|[Hy _]]; unfold nibble in *; lia).
  assert (value_at (16 * x + y) = if decide (x = 8 /\ y = 0) then Some (h 0) else None) as ->.
  { unfold value_at. destruct (Z.eqb_spec (16 * x + y) 128).
    - by rewrite decide_True by lia.
    - rewrite decide_False by lia. destruct (Z.ltb_spec (16 * x + y) num); [lia|]. by rewrite andb_false_r. }
  destruct (Z.eqb_spec x 8) as [->|Hne].
  - rewrite tget_leaf_iff. destruct (decide (key = [16])) as [->|Hk'].
    + destruct (decide (y = 0)) as [->|Hy']; [done|]. rewrite !decide_False; [done|lia|congruence].
    + rewrite decide_False; [done|congruence].
  - case_decide; [|done]. by rewrite decide_False by lia.
Qed.

Lemma index_small k : index_map num h !! k = match k with [b] => value_at b | _ => None end.
Proof.
  unfold index_map. destruct (decide (k ∈ op_key <$> index_ops num h)) as [Hin|Hout].
  - apply index_keys in Hin as (i & -> & Hi).
    assert (foldl spec_op ∅ (index_ops num h) !! index_key i = Some (h i)) as ->.
    { apply (spec_ops_in (index_ops num h) (OpInsert (index_key i) (h i))).
      - unfold index_ops. rewrite <- list_fmap_compose. apply NoDup_fmap_2_strong; [|apply NoDup_seqZ].
        intros x y Hx%elem_of_seqZ Hy%elem_of_seqZ. cbn. rewrite !index_key_small by lia.
        destruct (Z.eqb_spec x 0), (Z.eqb_spec y 0); intros [=]; lia.
      - apply list_elem_of_fmap. exists i. split; [done|]. apply elem_of_seqZ. lia. }
    rewrite index_key_small by lia. destruct (Z.eqb_spec i 0) as [->|Hne]; [done|]. unfold value_at.
    destruct (Z.eqb_spec i 128); [lia|]. destruct (Z.leb_spec 1 i); [|lia]. by destruct (Z.ltb_spec i num); [|lia].
  - rewrite spec_ops_other by done. rewrite lookup_empty. destruct k as [|b [|c k]]; [done| |done].
    unfold value_at. destruct (Z.eqb_spec b 128) as [->|Hb].
    { destruct Hout. apply index_keys. exists 0. split; [by rewrite index_key_small by lia|lia]. }
    destruct (Z.leb_spec 1 b); [|done]. destruct (Z.ltb_spec b num); [|done].
    destruct Hout. apply index_keys. exists b. split; [|lia]. rewrite index_key_small by lia. by destruct (Z.eqb_spec b 0); [lia|].
Qed.

Lemma root_contents : contents (Some (Full root_slots)) (index_map num h).
Proof.
  split.
  - intros k Hk. cbn [oget]. rewrite tget_root by (by apply nibbles_full). rewrite index_small.
    destruct k as [|b [|c k]]; [done| |by destruct k]. cbn. f_equal. Z.div_mod_to_equations; lia.
  - intros key v Hk. cbn [oget]. rewrite tget_root by done. destruct key as [|x [|y [|z [|w key]]]]; try done.
    destruct (Z.eqb_spec z 16) as [->|]; [|done]. intros _. apply full_key_cons in Hk as [[_ ?]|[Hx Hk]]; [done|].
    apply full_key_cons in Hk as [[_ ?]|[Hy Hk]]; [done|]. exists [16 * x + y]. unfold nibble in *. split; [constructor; [unfold is_byte; lia|constructor]|].
    cbn. f_equal; [Z.div_mod_to_equations; lia|f_equal; Z.div_mod_to_equations; lia].
  - intros k v. rewrite index_small. destruct k as [|b [|c k]]; [done| |done]. unfold value_at. intros E.
    constructor; [|constructor]. unfold is_byte. destruct (Z.eqb_spec b 128) as [->|]; [lia|].
    destruct (Z.leb_spec 1 b), (Z.ltb_spec b num); try done. lia.
Qed.

End tree.

(** ** One element *)

Lemma single_hash h : value_ok (h 0) -> 32 <= len (h 0) < 2 ^ 62 ->
  FastHasher_Hash 1 h = Ok (Some (tkey (Short [8; 0; 16] (Leaf (h 0))))).
Proof.
  intros Hv Hl. unfold FastHasher_Hash, encodeOneItem, getCb. cbn [Z.eqb Pos.eqb].
  destruct (Z.ltb_spec 1 0); [lia|]. destruct (Z.ltb_spec (len (h 0)) 32); [lia|]. cbn [mbind option_bind].
  unfold fast_hash, tkey. rewrite app_nil_l. by rewrite (leaf_data [8; 0; 16] (h 0) singleKey) by done.
Qed.

Lemma single_contents h : contents (Some (Short [8; 0; 16] (Leaf (h 0)))) (index_map 1 h).
Proof.
  assert (index_map 1 h = {[ [128] := h 0 ]}) as ->.
  { unfold index_map, index_ops. change (seqZ 0 1) with [0]. cbn [map foldl spec_op].
    by rewrite (index_key_small 0) by lia. }
  split.
  - intros k Hk. cbn [oget]. pose proof (tget_leaf_iff h [8; 0; 16] 0 (bytesToHexNibbles k)) as E. unfold leaf in E. rewrite E.
    case_decide as Ek.
    + change [8; 0; 16] with (bytesToHexNibbles [128]) in Ek. apply nibbles_inj in Ek as ->; [|done|by repeat constructor]. by rewrite lookup_singleton_eq.
    + rewrite lookup_singleton_ne; [done|]. by intros <-.
  - intros key v Hk. cbn [oget]. intros (key' & -> & E)%tget_short_inv. destruct key'; [|done]. exists [128].
    split; [by repeat constructor|done].
  - intros k v E. apply lookup_singleton_Some in E as [<- _]. by repeat constructor.
Qed.

(** ** Short elements *)

(** The hasher gives up on an element of less than 32 bytes, and sees them all. *)
Section short.
Context (num : Z) (h : Z -> list Z).

Lemma getCb_some i v : getCb num h i = Some v -> 32 <= len (h i).
Proof. unfold getCb. destruct (num <? i); [done|]. by destruct (Z.ltb_spec (len (h i)) 32). Qed.

Lemma group_items_some n : forall buf i b, group_items num h buf i n = Some b ->
  forall k, i <= k < i + Z.of_nat n -> 32 <= len (h k).
Proof.
  induction n as [|n IH]; intros buf i b E k Hk; [lia|]. cbn [group_items] in E.
  destruct (getCb num h i) as [v|] eqn:Ev; [|done]. cbn [mbind option_bind] in E.
  destruct (decide (k = i)) as [->|]; [by eapply getCb_some|]. eapply IH; [exact E|lia].
Qed.

Lemma deriveGroup_some dst from to b : deriveGroup num h dst from to = Some b -> forall k, from <= k < to -> 32 <= len (h k).
Proof.
  unfold deriveGroup. intros E k Hk. destruct (Z.eqb_spec (to - from) 1).
  - destruct (getCb num h from) as [v|] eqn:Ev; [|done]. replace k with from by lia. by eapply getCb_some.
  - destruct (group_items num h _ from _) as [b'|] eqn:Eb; [|done]. eapply group_items_some; [exact Eb|lia].
Qed.

Lemma fill_groups_total fuel : forall dst j, num <= 16 * (j + Z.of_nat fuel) -> exists o, fill_groups num h fuel dst num (16 * j) = Ok o.
Proof.
  induction fuel as [|fuel IH]; intros dst j Hj; cbn [fill_groups]; (destruct (Z.ltb_spec (16 * j) num); [|by eexists]); [lia|].
  case_match; [|by eexists]. replace (16 * j + 16) with (16 * (j + 1)) by lia. apply IH. lia.
Qed.

Lemma fill_groups_some fuel : forall dst j d, 0 <= j -> fill_groups num h fuel dst num (16 * j) = Ok (Some d) ->
  forall k, first j <= k < num -> 32 <= len (h k).
Proof.
  induction fuel as [|fuel IH]; intros dst j d Hj E k Hk; cbn [fill_groups] in E; unfold first in Hk;
    (destruct (Z.ltb_spec (16 * j) num); [|lia]); [done|].
  destruct (deriveGroup _ _ _ _ _) as [dst'|] eqn:Eg; [|done]. destruct (decide (k < 16 * j + 16)) as [Hlt|Hge].
  - eapply deriveGroup_some; [exact Eg|]. destruct (Z.eqb_spec (16 * j) 0); lia.
  - replace (16 * j + 16) with (16 * (j + 1)) in E by lia. eapply IH; [|exact E|unfold first]; lia.
Qed.

Lemma FastHasher_Hash_total : 1 <= num <= 128 -> exists o, FastHasher_Hash num h = Ok o /\
  (is_Some o -> forall i, 0 <= i < num -> 32 <= len (h i)).
Proof.
  intros Hnum. unfold FastHasher_Hash. destruct (Z.eqb_spec num 1) as [E1|Hne].
  - eexists. split; [done|]. intros [d Ed] i Hi. unfold encodeOneItem in Ed. replace i with 0 by lia.
    destruct (getCb num h 0) as [v|] eqn:Ev; [|done]. by eapply getCb_some.
  - rewrite Z.min_l by lia. destruct (fill_groups_total 8 [] 0) as [o Eo]; [lia|]. change (16 * 0) with 0 in Eo. rewrite Eo.
    cbn [obind]. destruct o as [d|]; [|eexists; split; [done|by intros []]].
    destruct (getCb num h 0) as [v|] eqn:Ev; [|eexists; split; [done|by intros []]].
    eexists. split; [done|]. intros _ i Hi. destruct (decide (i = 0)) as [->|]; [by eapply getCb_some|].
    eapply (fill_groups_some 8 [] 0 d); [done|exact Eo|unfold first; lia].
Qed.

End short.

(** ** The trie *)

Lemma derive_inserts_run h n : forall i tx, derive_inserts h i n tx =
  run_ops None (map (fun i => OpInsert (index_key i) (h i)) (seqZ i (Z.of_nat n))) tx.
Proof.
  induction n as [|n IH]; intros i tx; [done|]. rewrite seqZ_cons by lia.
  replace (Z.pred (Z.of_nat (S n))) with (Z.of_nat n) by lia. cbn [derive_inserts map run_ops run_op]. fold (index_key i).
  destruct (Insert None (index_key i) (h i) tx) as [tx'| |]; [|done|done]. cbn [obind].
  replace (Z.succ i) with (i + 1) by lia. apply IH.
Qed.

(** Insertions need no keys of one length. *)
Lemma run_inserts_ok s (R W : list Z -> list Z -> Prop) (HR : readable s R) (kvs : list (list Z * list Z)) :
  Forall (fun kv => Forall is_byte kv.1 /\ value_ok kv.2) kvs -> forall tx m, txn_holds R W tx m ->
  exists tx', run_ops s (map (fun kv => OpInsert kv.1 kv.2) kvs) tx = Ok tx' /\
    txn_holds R W tx' (foldl spec_op m (map (fun kv => OpInsert kv.1 kv.2) kvs)).
Proof.
  induction 1 as [|[k v] kvs [Hk Hv] Hkvs IH]; intros tx m Htx; [by exists tx|]. cbn [map run_ops run_op foldl].
  destruct (Insert_ok s R W HR tx m k v Htx Hk Hv) as (tx1 & E & Htx1 & _). cbn in E |- *. rewrite E. cbn [obind]. by apply IH.
Qed.

Lemma deriveSlow_ok num h : 0 <= num < 2 ^ 63 -> (forall i, 0 <= i < num -> value_ok (h i)) ->
  exists root, deriveSlow num h = Ok root /\ is_root (index_map num h) root.
Proof.
  intros Hnum Hv. unfold deriveSlow. rewrite derive_inserts_run, Z2Nat.id by lia.
  assert (map (fun i => OpInsert (index_key i) (h i)) (seqZ 0 num) = map (fun kv => OpInsert kv.1 kv.2) (map (fun i => (index_key i, h i)) (seqZ 0 num))) as E
    by (by rewrite map_map).
  destruct (run_inserts_ok None (fun _ _ => False) (fun _ _ => False) ltac:(by intros ? ? []) (map (fun i => (index_key i, h i)) (seqZ 0 num))
    ) with (tx := Trie_Txn NewTrie) (m := ∅ : bmap) as (tx & Er & Htx).
  { apply List.Forall_map, List.Forall_forall. intros i Hi%list_elem_of_In%elem_of_seqZ. cbn. split; [apply index_key_bytes; lia|apply Hv; lia]. }
  { by apply Trie_Txn_holds; [apply NewTrie_holds|]. }
  rewrite E, Er. cbn [obind]. rewrite <- E in Htx.
  destruct (Txn_Hash_root _ _ tx _ ltac:(done) Htx) as (root & tx' & puts & -> & Hr). by exists root.
Qed.

(** ** The fast hasher and the trie *)

Lemma FastHasher_Hash_root num h d : 1 <= num <= 128 -> (forall i, 0 <= i < num -> value_ok (h i) /\ len (h i) < 2 ^ 62) ->
  FastHasher_Hash num h = Ok (Some d) -> is_root (index_map num h) d.
Proof.
  intros Hnum Hv E. destruct (FastHasher_Hash_total num h Hnum) as (o & Eo & Hlong). rewrite Eo in E. injection E as ->.
  assert (forall i, 0 <= i < num -> value_ok (h i) /\ 32 <= len (h i) < 2 ^ 62) as Hval.
  { intros i Hi. destruct (Hv i Hi). pose proof (Hlong ltac:(done) i Hi). done. }
  destruct (decide (num = 1)) as [->|Hne].
  - rewrite single_hash in Eo by (apply Hval; lia). injection Eo as <-.
    exists (Some (Short [8; 0; 16] (Leaf (h 0)))). split; [|split; [apply single_contents|done]].
    apply canon_leaf; [|apply Hval; lia]. exists [8; 0]. split; [done|]. repeat constructor; done.
  - rewrite (FastHasher_Hash_ok num h) in Eo by (done || lia). injection Eo as <-.
    exists (Some (Full (root_slots num h))). split; [apply root_canon; [lia|done]|]. split; [apply root_contents; [lia|done]|done].
Qed.

Lemma CalculateRoot_ok num h : 0 <= num < 2 ^ 63 -> (forall i, 0 <= i < num -> value_ok (h i) /\ len (h i) < 2 ^ 62) ->
  exists root, CalculateRoot num h = Ok root /\ is_root (index_map num h) (Hash_Bytes root) /\
    deriveSlow num h = Ok (Hash_Bytes root).
Proof.
  intros Hnum Hv. destruct (deriveSlow_ok num h Hnum) as (x & Es & Hx); [by intros i Hi; apply Hv|].
  assert (Hash_Bytes (BytesToHash x) = x) as Eb.
  { destruct Hx as (ot & _ & _ & ->). apply Hash_Bytes_BytesToHash; apply mpt_root_hash. }
  unfold CalculateRoot. destruct (Z.eqb_spec num 0) as [->|Hne].
  { injection Es as <-. eexists. split; [done|]. by split. }
  assert (exists root, (let^ x := deriveSlow num h in Ok (BytesToHash x)) = Ok root /\ is_root (index_map num h) (Hash_Bytes root) /\
    deriveSlow num h = Ok (Hash_Bytes root)) as Hslow by (exists (BytesToHash x); rewrite Es, Eb; done).
  destruct (Z.leb_spec num 128); [|exact Hslow].
  destruct (FastHasher_Hash_total num h ltac:(lia)) as (o & Eo & _). rewrite Eo. cbn [obind]. destruct o as [d|]; [|exact Hslow].
  assert (is_root (index_map num h) d) as Hd by (eapply FastHasher_Hash_root; [lia|done|done]).
  rewrite (is_root_unique _ _ _ Hd Hx). exists (BytesToHash x). rewrite Eb. done.
Qed.

End facts.
