(* ===== verification/BlockchainFacts.v ===== *)
(** The gas limits a proposer computes are accepted, block hashes are those of
    the ancestors, and the canonical numbers are the ancestors of the head as
    long as the chain is extended or forked. *)

From Stdlib Require Import ZArith Lia.
From stdpp Require Import base gmap list numbers.
From S2P Require Import Prelude Types Text Chain Rlp RlpFacts Storage StorageFacts Executor Blockchain.

Open Scope Z_scope.

(** ** Gas limits *)

Lemma int64_cong z : exists k, int64 z = z + k * 2 ^ 64.
Proof.
  unfold int64. pose proof (Z_div_mod_eq_full z (2 ^ 64)).
  destruct (_ <? _); [exists (- (z / 2 ^ 64))|exists (- (z / 2 ^ 64) - 1)]; lia.
Qed.

Lemma int64_add_wrap z k : int64 (z + k * 2 ^ 64) = int64 z.
Proof. unfold int64. by rewrite Z_mod_plus_full. Qed.

Lemma int64_sub p g : int64 (int64 p - int64 g) = int64 (p - g).
Proof.
  destruct (int64_cong p) as [k ->], (int64_cong g) as [l ->].
  rewrite <- (int64_add_wrap (p - g) (k - l)). f_equal. lia.
Qed.

(** The distance the check compares is that of the 64-bit difference. *)
Lemma gas_limit_close_spec p g :
  gas_limit_close p g = (Z.abs (int64 (p - g)) <=? p / 1024).
Proof.
  unfold gas_limit_close. rewrite int64_sub. pose proof (int64_range (p - g)) as Hr.
  set (d := int64 (p - g)) in *. change BlockGasTargetDivisor with 1024.
  assert (uint64 (if d <? 0 then int64 (d * -1) else d) = Z.abs d) as ->.
  { destruct (Z.ltb_spec d 0) as [Hd|Hd].
    - destruct (Z.eq_dec d (- 2 ^ 63)) as [->|]; [reflexivity|].
      rewrite int64_small, uint64_small by (unfold is_u64; lia). lia.
    - rewrite uint64_small by (unfold is_u64; lia). lia. }
  rewrite Z.leb_antisym. reflexivity.
Qed.

(** The limit moves towards the target by at most a 1024th of the parent's. *)
Lemma calculateGasLimit_step target p :
  is_u64 target -> is_u64 p -> p + p / 1024 < 2 ^ 64 ->
  let g := calculateGasLimit target p in
  Z.abs (p - g) <= p / 1024 /\ is_u64 g /\
  (target <> 0 -> Z.abs (target - g) <= Z.abs (target - p)).
Proof.
  intros Ht Hp Ho. cbv zeta. unfold is_u64 in *. unfold calculateGasLimit.
  change BlockGasTargetDivisor with 1024. rewrite Z.mul_1_r, (uint64_small p) by done.
  assert (0 <= p / 1024 <= p) by (Z.div_mod_to_equations; lia).
  destruct (Z.eqb_spec target 0); [lia|]. destruct (Z.eqb_spec p target); [lia|].
  destruct (Z.ltb_spec p target); rewrite uint64_small by (unfold is_u64; lia); lia.
Qed.

Lemma calculateGasLimit_close target p :
  is_u64 target -> is_u64 p -> p + p / 1024 < 2 ^ 64 ->
  gas_limit_close p (calculateGasLimit target p) = true.
Proof.
  intros Ht Hp Ho. destruct (calculateGasLimit_step target p Ht Hp Ho) as (Hd & _ & _).
  rewrite gas_limit_close_spec. apply Z.leb_le. unfold is_u64 in Hp.
  assert (p / 1024 < 2 ^ 63) by (Z.div_mod_to_equations; lia).
  rewrite int64_small by lia. exact Hd.
Qed.

(** ** The chain in the database *)

(** What the header hash decides: headers with the same hash may differ in
    their seals. *)
Definition core (h : Header) : Hash * Hash * Z * Z :=
  (hHash h, hParentHash h, hNumber h, hDifficulty h).

(** [a] is the hash of the ancestor with number [n] of the block [k]. *)
Inductive ancestor (c : contents) : Hash -> Z -> Hash -> Prop :=
| anc_self k h : cHeaders c !! k = Some h -> ancestor c k (hNumber h) k
| anc_parent k h n a : cHeaders c !! k = Some h -> n < hNumber h ->
    ancestor c (hParentHash h) n a -> ancestor c k n a.

Section chain.
Context `{FastRLP} `{Runtime} `{!FastRLPOk} `{KV} `{!KVOk} `{LRU} `{!LRUOk}.
Context `{Roots} `{Verifier} `{BlockExecutor}.
Context (HeaderHash : Header -> Hash).
Context (hash_pure : forall x h, HeaderHash (with_header_hash x h) = HeaderHash h).

(** The database holds what the chain reads through its caches. *)
Record chain_ok (b : Blockchain) (c : contents) : Prop := {
  ok_db : implements HeaderHash (bDb b) c;
  ok_headers k h : cHeaders c !! k = Some h ->
    hHash h = k /\ HeaderHash h = k /\ is_word k /\ is_word (hParentHash h) /\ is_u64 (hNumber h);
  ok_linked k h : cHeaders c !! k = Some h -> hNumber h <> 0 ->
    exists p, cHeaders c !! hParentHash h = Some p /\ hNumber h = hNumber p + 1;
  ok_difficulty k d : cDifficulty c !! k = Some d -> 0 <= d;
  ok_forks : Forall is_word (default [] (cForks c));
  ok_numbers n k : cCanonical c !! n = Some k -> is_word k;
  ok_cache k h : lru_in k h (bHeadersCache b) -> exists h', cHeaders c !! k = Some h' /\ core h = core h';
  ok_cached_difficulty k d : lru_in k d (bDifficultyCache b) -> 0 <= d;
  ok_head : exists h h', bCurrentHeader b = Some h /\ cHeaders c !! hHash h = Some h' /\ core h = core h'
}.

(** The canonical numbers up to the head's are its ancestors. *)
Definition canonical_ok (b : Blockchain) (c : contents) : Prop :=
  forall h, bCurrentHeader b = Some h -> forall n, 0 <= n <= hNumber h ->
  exists a, ancestor c (hHash h) n a /\ cCanonical c !! n = Some a.

Lemma ancestor_end c k n a : ancestor c k n a -> exists h, cHeaders c !! a = Some h /\ hNumber h = n.
Proof. induction 1; eauto. Qed.

(** Only the caches changed. *)
Definition same_but_caches (b b' : Blockchain) : Prop :=
  exists hc dc, b' = set_caches hc dc b.

Lemma same_refl b : same_but_caches b b.
Proof. exists (bHeadersCache b), (bDifficultyCache b). by destruct b. Qed.

Lemma same_trans b1 b2 b3 : same_but_caches b1 b2 -> same_but_caches b2 b3 -> same_but_caches b1 b3.
Proof. intros (hc & dc & ->) (hc' & dc' & ->). by exists hc', dc'. Qed.

Lemma canonical_same b b' c : same_but_caches b b' -> canonical_ok b c -> canonical_ok b' c.
Proof. intros (hc & dc & ->). done. Qed.

(** A header that was read has the core of the one stored. *)
Lemma readHeader_ok k b c r b' : chain_ok b c -> is_word k ->
  readHeader HeaderHash k b = Ok (r, b') ->
  chain_ok b' c /\ same_but_caches b b' /\
  match r with
  | Some h => exists h', cHeaders c !! k = Some h' /\ core h = core h'
  | None => cHeaders c !! k = None
  end.
Proof.
  intros Hc Hk. unfold readHeader. destruct (lru_Get k (bHeadersCache b)) as [o cache] eqn:Eg.
  assert (chain_ok (set_caches cache (bDifficultyCache b) b) c) as Hc1.
  { destruct Hc. split; try done. cbn. intros k' h Hin. exact (ok_cache0 _ _ (get_keeps _ _ _ _ _ _ Eg Hin)). }
  destruct o as [h|].
  { intros [= <- <-]. split; [done|]. split; [by exists cache, (bDifficultyCache b)|].
    exact (ok_cache _ _ Hc _ _ (get_in _ _ _ _ Eg)). }
  cbn [bDb set_caches]. rewrite (im_headers _ _ _ (ok_db _ _ Hc) k Hk).
  destruct (cHeaders c !! k) as [h|] eqn:Eh; cbn [read_of].
  2: { intros [= <- <-]. split; [done|]. split; [by exists cache, (bDifficultyCache b)|done]. }
  intros [= <- <-]. destruct (ok_headers _ _ Hc _ _ Eh) as (E1 & E2 & _).
  assert (core (Header_ComputeHash HeaderHash h) = core h) as Hcore.
  { unfold core, Header_ComputeHash. rewrite E2, E1. done. }
  split; [|split; [eexists _, _; reflexivity|by exists h]].
  destruct Hc1. split; try done. cbn. intros k' h' [[-> ->]|[_ Hin]]%in_add; [by exists h|by apply ok_cache0].
Qed.

Lemma readTotalDifficulty_ok k b c r b' : chain_ok b c -> is_word k ->
  readTotalDifficulty k b = Ok (r, b') ->
  chain_ok b' c /\ same_but_caches b b' /\ 0 <= default 0 r.
Proof.
  intros Hc Hk. unfold readTotalDifficulty. destruct (lru_Get k (bDifficultyCache b)) as [o cache] eqn:Eg.
  assert (chain_ok (set_caches (bHeadersCache b) cache b) c) as Hc1.
  { destruct Hc. split; try done. cbn. intros k' d Hin.
    exact (ok_cached_difficulty0 _ _ (get_keeps _ _ _ _ _ _ Eg Hin)). }
  destruct o as [d|].
  { intros [= <- <-]. split; [done|]. split; [by eexists _, _|].
    exact (ok_cached_difficulty _ _ Hc _ _ (get_in _ _ _ _ Eg)). }
  cbn [bDb set_caches]. rewrite (im_difficulty _ _ _ (ok_db _ _ Hc) k Hk).
  destruct (cDifficulty c !! k) as [d|] eqn:Ed.
  2: { intros [= <- <-]. split; [done|]. split; [by eexists _, _|done]. }
  intros [= <- <-]. pose proof (ok_difficulty _ _ Hc _ _ Ed) as Hd.
  split; [|split; [by eexists _, _|done]].
  destruct Hc1. split; try done. cbn. intros k' d' [[-> ->]|[_ Hin]]%in_add; [done|eauto].
Qed.

Lemma readHeader_total k b : exists r b', readHeader HeaderHash k b = Ok (r, b').
Proof. unfold readHeader. repeat case_match; eauto. Qed.

(** ** Hashes of ancestors *)

Lemma ancestor_stored c k n a : ancestor c k n a -> is_Some (cHeaders c !! k).
Proof. destruct 1; eauto. Qed.

Lemma ancestor_number c k h n a : cHeaders c !! k = Some h -> ancestor c k n a -> n <= hNumber h.
Proof. intros E Ha. destruct Ha; simplify_eq; lia. Qed.

Lemma ancestor_det c k n a a' : ancestor c k n a -> ancestor c k n a' -> a = a'.
Proof.
  induction 1 as [k h E|k h n a E Hlt Ha IH]; intros Ha'.
  - inversion Ha'; simplify_eq; [done|lia].
  - inversion Ha'; simplify_eq; [lia|eauto].
Qed.

Lemma ancestor_exists b c k h n : chain_ok b c -> cHeaders c !! k = Some h -> 0 <= n <= hNumber h ->
  exists a, ancestor c k n a.
Proof.
  intros Hc Eh Hn. remember (Z.to_nat (hNumber h - n)) as d eqn:Ed.
  revert k h Eh Hn Ed; induction d as [|d IH]; intros k h Eh Hn Ed.
  - exists k. replace n with (hNumber h) by lia. by constructor.
  - destruct (ok_linked _ _ Hc _ _ Eh) as (p & Ep & Enp); [lia|].
    destruct (IH _ p Ep) as (a & Ha); [lia..|]. exists a. eapply anc_parent; [done|lia|done].
Qed.

Lemma hash_helper_ok turns num k i a b c h : chain_ok b c ->
  cHeaders c !! k = Some h -> hNumber h = num -> ancestor c k i a -> 0 <= i -> num < Z.of_nat turns ->
  exists b', hash_helper_loop HeaderHash turns num k i b = Ok (Some a, b') /\
    chain_ok b' c /\ same_but_caches b b'.
Proof.
  revert num k b h; induction turns as [|turns IH]; intros num k b h Hc Eh En Ha Hi Ht.
  { apply (ok_headers _ _ Hc) in Eh as (_ & _ & _ & _ & Hn). unfold is_u64 in Hn. lia. }
  cbn [hash_helper_loop]. destruct (Z.eqb_spec num i) as [->|Hne].
  { exists b. split; [|by split; [|apply same_refl]].
    inversion Ha; simplify_eq; [done|lia]. }
  pose proof (ancestor_number _ _ _ _ _ Eh Ha) as Hle.
  destruct (ok_headers _ _ Hc _ _ Eh) as (_ & _ & Hk & Hp & _).
  destruct (readHeader_total k b) as (r & b1 & Er).
  destruct (readHeader_ok _ _ _ _ _ Hc Hk Er) as (Hc1 & Hs1 & Hr).
  unfold cbind, ctry, GetHeaderByHash. rewrite Er. cbn [obind].
  destruct r as [h1|]; [|congruence]. destruct Hr as (h' & Eh' & Hcore). simplify_eq.
  unfold core in Hcore. destruct (Z.eqb_spec (hNumber h) 0); [lia|].
  destruct (ok_linked _ _ Hc _ _ Eh) as (p & Ep & Enp); [done|].
  assert (hParentHash h1 = hParentHash h) as -> by congruence.
  assert (ancestor c (hParentHash h) i a) as Ha' by (inversion Ha; by simplify_eq).
  destruct (IH (hNumber h - 1) (hParentHash h) b1 p Hc1 Ep) as (b2 & Hl & Hc2 & Hs2); try lia; [done|].
  exists b2. split; [exact Hl|]. split; [done|by eapply same_trans].
Qed.

(** The hash of a block that is not below the header is zero. *)
Lemma hash_helper_above turns num k i b : num < i -> 0 <= num < Z.of_nat turns ->
  exists b', hash_helper_loop HeaderHash turns num k i b = Ok (Some 0, b').
Proof.
  revert num k b; induction turns as [|turns IH]; intros num k b Hi Ht; [lia|].
  cbn [hash_helper_loop]. destruct (Z.eqb_spec num i); [lia|].
  destruct (readHeader_total k b) as (r & b1 & Er).
  unfold cbind, ctry, GetHeaderByHash. rewrite Er. cbn [obind].
  destruct r as [h|]; [|by exists b1]. destruct (Z.eqb_spec num 0); [by exists b1|]. apply IH; lia.
Qed.

(** For a header whose parent is stored, [GetHashHelper] is the hash of the
    ancestor with the number asked for, or zero when there is none. *)
Lemma GetHashHelper_ok header p i b c : chain_ok b c ->
  cHeaders c !! hParentHash header = Some p -> hNumber header = hNumber p + 1 ->
  is_u64 (hNumber header) -> 0 <= i ->
  exists b' a, GetHashHelper HeaderHash header i b = Ok (Some a, b') /\
    (forall a', ancestor c (hParentHash header) i a' -> a = a') /\
    (hNumber header <= i -> a = 0).
Proof.
  intros Hc Ep En Hu Hi. unfold GetHashHelper. unfold is_u64 in Hu.
  destruct (ok_headers _ _ Hc _ _ Ep) as (_ & _ & _ & _ & Hpu). unfold is_u64 in Hpu.
  assert (uint64 (hNumber header - 1) = hNumber p) as -> by (rewrite uint64_small; unfold is_u64; lia).
  assert (hNumber p < Z.of_nat (S (Z.to_nat (hNumber p)))) as Ht by lia.
  destruct (Z.lt_ge_cases (hNumber p) i) as [Hlt|Hge].
  - destruct (hash_helper_above _ _ (hParentHash header) i b Hlt (conj (proj1 Hpu) Ht)) as (b' & E).
    exists b', 0. split; [exact E|]. split; [|done].
    intros a' Ha. pose proof (ancestor_number _ _ _ _ _ Ep Ha). lia.
  - destruct (ancestor_exists _ _ _ _ i Hc Ep) as (a & Ha); [lia|].
    destruct (hash_helper_ok _ _ _ _ _ _ _ _ Hc Ep eq_refl Ha Hi Ht) as (b' & E & _ & _).
    exists b', a. split; [exact E|]. split; [|lia]. intros a' Ha'. by eapply ancestor_det.
Qed.

(** ** Extending the chain *)

Lemma cbind_inv {A B} (m : C A) (k : A -> C B) b r b' :
  cbind m k b = Ok (Some r, b') -> exists a b1, m b = Ok (Some a, b1) /\ k a b1 = Ok (Some r, b').
Proof. unfold cbind. destruct (m b) as [[[a|] b1]| |]; [|discriminate..]. cbn [obind]. eauto. Qed.

Lemma cwrite_inv w b b' : cwrite w b = Ok (Some tt, b') -> exists db, w (bDb b) = (true, db) /\ b' = set_db db b.
Proof. unfold cwrite. destruct (w (bDb b)) as [[|] db]; [|discriminate]. intros [= <-]. eauto. Qed.

(** The forks after a header is added to them. *)
Definition new_forks (header : Header) (c : contents) : list Hash :=
  filter (fun fork => fork <> hParentHash header) (default [] (cForks c)) ++ [hHash header].

(** A header that may be written: well formed, the child of a stored header, and
    not a different block with the hash of a stored one. *)
Record writable (header : Header) (c : contents) : Prop := {
  wr_wf : write_wf HeaderHash (WHeader header);
  wr_parent : exists p, cHeaders c !! hParentHash header = Some p /\ hNumber header = hNumber p + 1;
  wr_known h : cHeaders c !! hHash header = Some h -> core header = core h;
  wr_forks h : len (MarshalTo (Forks_MarshalRLPWith (new_forks h c))) < 2 ^ 63
}.

(** The contents with the header added. *)
Definition with_header (header : Header) (c : contents) : contents := spec_write (WHeader header) c.

Lemma ancestor_mono c c' k n a :
  (forall k h, cHeaders c !! k = Some h -> exists h', cHeaders c' !! k = Some h' /\ core h = core h') ->
  ancestor c k n a -> ancestor c' k n a.
Proof.
  intros Hm. induction 1 as [k h E|k h n a E Hlt Ha IH]; destruct (Hm _ _ E) as (h' & E' & Hcore);
    unfold core in Hcore.
  - replace (hNumber h) with (hNumber h') by congruence. by constructor.
  - eapply anc_parent; [exact E'|replace (hNumber h') with (hNumber h) by congruence; done|].
    by replace (hParentHash h') with (hParentHash h) by congruence.
Qed.

(** The headers stay as they are up to their seals. *)
Lemma headers_mono header c : writable header c ->
  forall k h, cHeaders c !! k = Some h ->
  exists h', cHeaders (with_header header c) !! k = Some h' /\ core h = core h'.
Proof.
  intros Hw k h E. unfold with_header. destruct c. cbn in *.
  destruct (decide (k = hHash header)) as [->|].
  - exists header. rewrite lookup_insert_eq. split; [done|]. symmetry. by apply (wr_known _ _ Hw).
  - exists h. by rewrite lookup_insert_ne.
Qed.

(** Contents with the same headers and difficulties that are not negative. *)
Lemma chain_ok_contents b c db c' :
  chain_ok b c -> implements HeaderHash db c' -> cHeaders c' = cHeaders c ->
  (forall k d, cDifficulty c' !! k = Some d -> 0 <= d) -> Forall is_word (default [] (cForks c')) ->
  (forall n k, cCanonical c' !! n = Some k -> is_word k) ->
  chain_ok (set_db db b) c'.
Proof.
  intros Hc Hi Eh Hd Hf Hn. destruct Hc. split; try done; rewrite Eh; done.
Qed.

(** A stored header is added. *)
Lemma chain_ok_header b c db header :
  chain_ok b c -> writable header c -> implements HeaderHash db (with_header header c) ->
  chain_ok (set_db db b) (with_header header c).
Proof.
  intros Hc Hw Hi. pose proof (headers_mono _ _ Hw) as Hm.
  destruct (wr_wf _ _ Hw) as (Hword & [Hwf Hhash] & _).
  assert (forall k h, cHeaders (with_header header c) !! k = Some h ->
    (k = hHash header /\ h = header) \/ cHeaders c !! k = Some h) as Hinv.
  { intros k h. unfold with_header. destruct c; cbn. intros [[<- <-]|[_ ?]]%lookup_insert_Some; auto. }
  assert (cDifficulty (with_header header c) = cDifficulty c) as Ed by (by destruct c).
  split; try done.
  - intros k h [[-> ->]|E]%Hinv; [|by apply (ok_headers _ _ Hc)].
    repeat split; try done; apply Hword || apply Hwf || (by rewrite <- Hhash).
  - intros k h [[-> ->]|E]%Hinv Hne.
    + destruct (wr_parent _ _ Hw) as (p & Ep & En). destruct (Hm _ _ Ep) as (p' & Ep' & Hcore).
      exists p'. split; [done|]. unfold core in Hcore. congruence.
    + destruct (ok_linked _ _ Hc _ _ E Hne) as (p & Ep & En). destruct (Hm _ _ Ep) as (p' & Ep' & Hcore).
      exists p'. split; [done|]. unfold core in Hcore. congruence.
  - rewrite Ed. apply (ok_difficulty _ _ Hc).
  - pose proof (ok_forks _ _ Hc) as Hf. by destruct c.
  - pose proof (ok_numbers _ _ Hc) as Hn. by destruct c.
  - intros k h Hin. destruct (ok_cache _ _ Hc _ _ Hin) as (h' & E & Hcore).
    destruct (Hm _ _ E) as (h'' & E' & Hcore'). exists h''. split; [done|congruence].
  - apply (ok_cached_difficulty _ _ Hc).
  - destruct (ok_head _ _ Hc) as (h & h' & E & Eh & Hcore). destruct (Hm _ _ Eh) as (h'' & E' & Hcore').
    exists h, h''. split; [done|]. split; [done|congruence].
Qed.

Lemma and_then_inv w1 w2 db db' : and_then w1 w2 db = (true, db') ->
  exists db1, w1 db = (true, db1) /\ w2 db1 = (true, db').
Proof. unfold and_then. destruct (w1 db) as [[|] db1]; [eauto|discriminate]. Qed.

(** A write of another entry keeps the chain. *)
Lemma chain_ok_write w b c db : chain_ok b c -> write_wf HeaderHash w ->
  match w with WHeader _ => False | _ => True end ->
  run_write w (bDb b) = (true, db) -> chain_ok (set_db db b) (spec_write w c).
Proof.
  intros Hc Hw Hno Hr. pose proof (write_refines _ hash_pure _ _ _ _ _ (ok_db _ _ Hc) Hw Hr) as Hi.
  eapply chain_ok_contents; [exact Hc|exact Hi|by destruct c, w| | |].
  3: { pose proof (ok_numbers _ _ Hc) as Hn. destruct c, w; try done. cbn.
       intros m k [[<- <-]|[_ Hk]]%lookup_insert_Some; [apply Hw|by eapply Hn]. }
  2: { pose proof (ok_forks _ _ Hc) as Hf. destruct c, w; try done; by apply Hw. }
  intros k d. destruct w; destruct c; try (by apply (ok_difficulty _ _ Hc)); cbn.
  intros [[<- <-]|[_ Hd]]%lookup_insert_Some; [apply Hw|by apply (ok_difficulty _ _ Hc) in Hd].
Qed.

Lemma chain_ok_write_header header b c db : chain_ok b c -> writable header c ->
  WriteHeader header (bDb b) = (true, db) -> chain_ok (set_db db b) (with_header header c).
Proof.
  intros Hc Hw Hr. apply chain_ok_header; [done..|].
  exact (write_refines _ hash_pure (WHeader header) _ _ _ _ (ok_db _ _ Hc) (wr_wf _ _ Hw) Hr).
Qed.

(** The contents after [WriteCanonicalHeader]. *)
Definition canonical_contents (h : Header) (diff : Z) (c : contents) : contents :=
  spec_write (WTotalDifficulty (hHash h) diff)
    (spec_write (WCanonicalHash (hNumber h) (hHash h))
      (spec_write (WHeadNumber (hNumber h))
        (spec_write (WHeadHash (hHash h)) (with_header h c)))).

Lemma WriteCanonicalHeader_ok h diff b c db : chain_ok b c -> writable h c -> 0 <= diff ->
  WriteCanonicalHeader h diff (bDb b) = (true, db) -> chain_ok (set_db db b) (canonical_contents h diff c).
Proof.
  intros Hc Hw Hd. unfold WriteCanonicalHeader.
  intros (db1 & R1 & (db2 & R2 & (db3 & R3 & (db4 & R4 & R5)%and_then_inv)%and_then_inv)%and_then_inv)%and_then_inv.
  pose proof (chain_ok_write_header _ _ _ _ Hc Hw R1) as C1.
  destruct (wr_wf _ _ Hw) as (Hword & [Hwf _] & _).
  pose proof (wf_number _ Hwf) as Hn.
  pose proof (chain_ok_write (WHeadHash (hHash h)) _ _ db2 C1 Hword I R2) as C2.
  pose proof (chain_ok_write (WHeadNumber (hNumber h)) _ _ db3 C2 Hn I R3) as C3.
  pose proof (chain_ok_write (WCanonicalHash (hNumber h) (hHash h)) _ _ db4 C3 (conj Hn Hword) I R4) as C4.
  exact (chain_ok_write (WTotalDifficulty (hHash h) diff) _ _ db C4 (conj Hword Hd) I R5).
Qed.

(** The new head of a chain whose headers include it. *)
Lemma chain_ok_head b c h diff : chain_ok b c ->
  (exists h', cHeaders c !! hHash h = Some h' /\ core h = core h') -> chain_ok (setCurrentHeader h diff b) c.
Proof. intros Hc (h' & E & Hcore). destruct Hc. split; try done. by exists h, h'. Qed.

Lemma writeCanonicalHeader_ok ev header b c ev' b' cur :
  chain_ok b c -> writable header c ->
  bCurrentHeader b = Some cur -> hParentHash header = hHash cur ->
  writeCanonicalHeader ev header b = Ok (Some ev', b') ->
  exists c', chain_ok b' c' /\ (canonical_ok b c -> canonical_ok b' c').
Proof.
  intros Hc Hw Hcur Hpar. unfold writeCanonicalHeader.
  intros (td & b1 & R1 & Hm)%cbind_inv.
  destruct (wr_wf _ _ Hw) as (Hword & [Hwf _] & _).
  destruct (readTotalDifficulty_ok _ _ _ _ _ Hc (wf_parentHash _ Hwf) R1) as (C1 & S1 & Htd).
  apply cbind_inv in Hm as ([] & b2 & (db & R2 & ->)%cwrite_inv & Hm).
  pose proof (wf_difficulty _ Hwf) as Hdiff. unfold is_u64 in Hdiff. cbn in Htd.
  pose proof (WriteCanonicalHeader_ok _ (td + hDifficulty header) _ _ _ C1 Hw ltac:(lia) R2) as C2.
  apply cbind_inv in Hm as (? & b3 & [= _ <-] & [= <- <-]).
  assert (forall k h, cHeaders c !! k = Some h ->
    exists h', cHeaders (canonical_contents header (td + hDifficulty header) c) !! k = Some h' /\ core h = core h') as Hm.
  { intros k h E. destruct (headers_mono _ _ Hw _ _ E) as (h' & E' & ?). exists h'. by destruct c. }
  assert (cHeaders (canonical_contents header (td + hDifficulty header) c) !! hHash header = Some header) as Enew.
  { destruct c; cbn. by rewrite lookup_insert_eq. }
  exists (canonical_contents header (td + hDifficulty header) c).
  split; [apply chain_ok_head; [exact C2|by exists header]|].
  intros Hcan h [= <-] n Hn. destruct (wr_parent _ _ Hw) as (p & Ep & Enp).
  assert (hNumber cur = hNumber p) as Ecur.
  { destruct (ok_head _ _ Hc) as (h1 & h2 & E1 & E2 & Hcore). unfold core in Hcore. congruence. }
  destruct (Z.eq_dec n (hNumber header)) as [->|Hne].
  - exists (hHash header). split; [by constructor|]. destruct c; cbn. by rewrite lookup_insert_eq.
  - destruct (Hcan _ Hcur n ltac:(lia)) as (a & Ha & Ea). exists a. split.
    + eapply anc_parent; [exact Enew|lia|]. rewrite Hpar. by eapply ancestor_mono.
    + destruct c; cbn in *. by rewrite lookup_insert_ne.
Qed.

(** ** Forks *)

(** A cached header that is stored. *)
Lemma chain_ok_cached b c h : chain_ok b c -> cHeaders c !! hHash h = Some h ->
  chain_ok (set_caches (lru_Add (hHash h) h (bHeadersCache b)) (bDifficultyCache b) b) c.
Proof.
  intros Hc E. destruct Hc. split; try done. cbn.
  intros k h' [[-> ->]|[_ Hin]]%in_add; [by exists h|by apply ok_cache0].
Qed.

Lemma writeFork_ok header b c b' : chain_ok b c -> is_word (hHash header) ->
  len (MarshalTo (Forks_MarshalRLPWith (new_forks header c))) < 2 ^ 63 ->
  writeFork header b = Ok (Some tt, b') ->
  exists db, b' = set_db db b /\ chain_ok b' (spec_write (WForks (new_forks header c)) c).
Proof.
  intros Hc Hword Hl. unfold writeFork. intros (b0 & b1 & [= <- <-] & Hm)%cbind_inv.
  rewrite (im_forks _ _ _ (ok_db _ _ Hc)) in Hm.
  assert (exists fs, cwrite (WriteForks (filter (fun fork => fork <> hParentHash header) fs ++ [hHash header])) b
    = Ok (Some tt, b') /\ default [] (cForks c) = fs) as (fs & Hw & <-).
  { destruct (cForks c) as [fs|]; cbn [read_of] in Hm; apply cbind_inv in Hm as (? & ? & [= <- <-] & Hm); eauto. }
  apply cwrite_inv in Hw as (db & R & ->). exists db. split; [done|].
  apply (chain_ok_write (WForks (new_forks header c))); try done. split; [|done].
  apply Forall_app_2; [|by constructor]. apply List.Forall_forall. intros x Hx.
  pose proof (ok_forks _ _ Hc) as Hf. rewrite List.Forall_forall in Hf. apply Hf.
  apply list_elem_of_In in Hx. apply list_elem_of_filter in Hx as [_ Hx]. by apply list_elem_of_In.
Qed.

(** ** Reorganisations *)

(** A header the chain read. *)
Definition stored (c : contents) (h : Header) : Prop :=
  exists h', cHeaders c !! hHash h = Some h' /\ core h = core h'.

Lemma stored_word b c h : chain_ok b c -> stored c h ->
  is_word (hHash h) /\ is_word (hParentHash h) /\ is_u64 (hNumber h).
Proof.
  intros Hc (h' & E & Hcore). destruct (ok_headers _ _ Hc _ _ E) as (_ & _ & Hk & Hp & Hn).
  unfold core in Hcore. split; [done|]. by replace (hParentHash h) with (hParentHash h') by congruence;
    replace (hNumber h) with (hNumber h') by congruence.
Qed.

Lemma parent_of_ok h b c p b' : chain_ok b c -> stored c h ->
  parent_of HeaderHash h b = Ok (Some p, b') -> chain_ok b' c /\ same_but_caches b b' /\ stored c p.
Proof.
  intros Hc Hs. unfold parent_of, cbind, ctry. destruct (stored_word _ _ _ Hc Hs) as (_ & Hw & _).
  destruct (readHeader HeaderHash (hParentHash h) b) as [[r b1]| |] eqn:R; [|discriminate..]. cbn [obind].
  destruct (readHeader_ok _ _ _ _ _ Hc Hw R) as (C1 & S1 & Hr).
  destruct r as [q|]; [|discriminate]. intros [= <- <-]. split; [done|split; [done|]].
  destruct Hr as (h' & E & Hcore). exists h'. split; [|done].
  destruct (ok_headers _ _ Hc _ _ E) as (Eh & _). unfold core in Hcore. congruence.
Qed.

Lemma back_to_ok turns n h acc b c h' acc' b' : chain_ok b c -> stored c h -> Forall (stored c) acc ->
  back_to HeaderHash turns n h acc b = Ok (Some (h', acc'), b') ->
  chain_ok b' c /\ same_but_caches b b' /\ stored c h' /\ Forall (stored c) acc'.
Proof.
  revert h acc b; induction turns as [|turns IH]; intros h acc b Hc Hs Ha; cbn [back_to];
    destruct (negb _); try discriminate; try (intros [= <- <- <-]; split; [done|split; [apply same_refl|done]]).
  intros (p & b1 & R1 & Hm)%cbind_inv. destruct (parent_of_ok _ _ _ _ _ Hc Hs R1) as (C1 & S1 & Hp).
  destruct (IH _ _ _ C1 Hp (Forall_app_2 _ _ _ Ha (List.Forall_cons _ _ _ Hp (List.Forall_nil _))) Hm)
    as (C2 & S2 & ? & ?).
  split; [done|split; [by eapply same_trans|done]].
Qed.

Lemma common_ancestor_ok turns old new acc b c acc' b' : chain_ok b c -> stored c old -> stored c new ->
  common_ancestor HeaderHash turns old new acc b = Ok (Some acc', b') -> chain_ok b' c /\ same_but_caches b b'.
Proof.
  revert old new acc b; induction turns as [|turns IH]; intros old new acc b Hc Ho Hn; cbn [common_ancestor];
    destruct (_ =? _); try discriminate; try (intros [= <- <-]; by split; [|apply same_refl]).
  intros (p & b1 & R1 & Hm)%cbind_inv. destruct (parent_of_ok _ _ _ _ _ Hc Ho R1) as (C1 & S1 & Hp).
  apply cbind_inv in Hm as (q & b2 & R2 & Hm). destruct (parent_of_ok _ _ _ _ _ C1 Hn R2) as (C2 & S2 & Hq).
  destruct (IH _ _ _ _ C2 Hp Hq Hm) as (C3 & S3). split; [done|]. eauto using same_trans.
Qed.

(** Writes that leave the headers alone. *)
Definition same_headers (c c' : contents) : Prop := cHeaders c' = cHeaders c.

Lemma stored_same c c' h : same_headers c c' -> stored c h -> stored c' h.
Proof. unfold same_headers, stored. by intros ->. Qed.

Lemma write_canonicals_ok hs b c b' : chain_ok b c -> Forall (stored c) hs ->
  write_canonicals hs b = Ok (Some tt, b') -> exists c', chain_ok b' c' /\ same_headers c c'.
Proof.
  revert b c; induction hs as [|h hs IH]; intros b c Hc Hs; cbn [write_canonicals].
  { intros [= <-]. by exists c. }
  apply List.Forall_cons_iff in Hs as [Hh Hs]. intros ([] & b1 & (db & R & ->)%cwrite_inv & Hm)%cbind_inv.
  destruct (stored_word _ _ _ Hc Hh) as (Hw & _ & Hn).
  pose proof (chain_ok_write (WCanonicalHash (hNumber h) (hHash h)) _ _ db Hc (conj Hn Hw) I R) as C1.
  assert (same_headers c (spec_write (WCanonicalHash (hNumber h) (hHash h)) c)) as Hsame by (by destruct c).
  destruct (IH _ _ C1) with (2 := Hm) as (c' & C2 & Hsame').
  { apply (Forall_weaken _ _ _ Hs). intros x. by apply stored_same. }
  exists c'. split; [done|]. unfold same_headers in *. congruence.
Qed.

Lemma advanceHead_ok h b c d b' : chain_ok b c -> stored c h -> 0 <= hDifficulty h ->
  advanceHead h b = Ok (Some d, b') -> exists c', chain_ok b' c' /\ same_headers c c'.
Proof.
  intros Hc Hs Hd. unfold advanceHead. destruct (stored_word _ _ _ Hc Hs) as (Hw & Hp & Hn).
  intros ([] & b1 & (db1 & R1 & ->)%cwrite_inv & Hm)%cbind_inv.
  pose proof (chain_ok_write (WHeadHash (hHash h)) _ _ db1 Hc Hw I R1) as C1.
  apply cbind_inv in Hm as ([] & b2 & (db2 & R2 & ->)%cwrite_inv & Hm).
  pose proof (chain_ok_write (WHeadNumber (hNumber h)) _ _ db2 C1 Hn I R2) as C2.
  apply cbind_inv in Hm as ([] & b3 & (db3 & R3 & ->)%cwrite_inv & Hm).
  pose proof (chain_ok_write (WCanonicalHash (hNumber h) (hHash h)) _ _ db3 C2 (conj Hn Hw) I R3) as C3.
  apply cbind_inv in Hm as (td & b4 & R4 & Hm).
  eassert (chain_ok b4 _ /\ 0 <= td) as [C4 Htd].
  { destruct (_ =? _); [injection R4 as <- <-; split; [exact C3|done]|].
    destruct (readTotalDifficulty_ok _ _ _ _ _ C3 Hp R4) as (C4 & _ & Htd). split; [exact C4|exact Htd]. }
  apply cbind_inv in Hm as ([] & b5 & (db5 & R5 & ->)%cwrite_inv & Hm).
  assert (0 <= td + hDifficulty h) as Hnew by lia.
  pose proof (chain_ok_write (WTotalDifficulty (hHash h) (td + hDifficulty h)) _ _ db5 C4 (conj Hw Hnew) I R5) as C5.
  apply cbind_inv in Hm as (? & b6 & [= _ <-] & [= _ <-]).
  eexists. split; [apply chain_ok_head; [exact C5|]|]; destruct c; done.
Qed.

Lemma handleReorg_ok turns ev old new b c ev' b' :
  chain_ok b c -> stored c old -> stored c new -> 0 <= hDifficulty new ->
  len (MarshalTo (Forks_MarshalRLPWith (new_forks old c))) < 2 ^ 63 ->
  handleReorg HeaderHash turns ev old new b = Ok (Some ev', b') ->
  evType ev' = EventReorg /\ exists c', chain_ok b' c' /\ same_headers c c'.
Proof.
  intros Hc Ho Hn Hd Hf. unfold handleReorg.
  intros ([old' oldChain] & b1 & R1 & Hm)%cbind_inv.
  destruct (back_to_ok _ _ _ _ _ _ _ _ _ Hc Ho (List.Forall_nil _) R1) as (C1 & _ & Ho' & _).
  apply cbind_inv in Hm as ([new' newChain] & b2 & R2 & Hm).
  destruct (back_to_ok _ _ _ _ _ _ _ _ _ C1 Hn (List.Forall_nil _) R2) as (C2 & _ & Hn' & Hnews).
  apply cbind_inv in Hm as (olds & b3 & R3 & Hm).
  destruct (common_ancestor_ok _ _ _ _ _ _ _ _ C2 Ho' Hn' R3) as (C3 & _).
  destruct olds; [discriminate|].
  destruct (stored_word _ _ _ Hc Ho) as (Hw & _ & _).
  apply cbind_inv in Hm as ([] & b4 & R4 & Hm). destruct (writeFork_ok _ _ _ _ C3 Hw Hf R4) as (db & -> & C4).
  apply cbind_inv in Hm as ([] & b5 & R5 & Hm).
  assert (same_headers c (spec_write (WForks (new_forks old c)) c)) as S4 by (by destruct c).
  destruct (write_canonicals_ok newChain _ _ b5 C4) with (2 := R5) as (c5 & C5 & S5).
  { apply (Forall_weaken _ _ _ Hnews). intros x. by apply stored_same. }
  apply cbind_inv in Hm as (d & b6 & R6 & [= <- <-]). split; [done|].
  destruct (advanceHead_ok new _ _ d b6 C5) as (c6 & C6 & S6); [|done..|].
  { eapply stored_same; [exact S5|]. by eapply stored_same. }
  exists c6. split; [done|]. unfold same_headers in *. congruence.
Qed.

(** The chain after a header is written; the canonical numbers are those of the
    new head unless there was a reorganisation. *)
Lemma writeHeaderImpl_ok turns ev header b c ev' b' :
  chain_ok b c -> writable header c ->
  writeHeaderImpl HeaderHash turns ev header b = Ok (Some ev', b') ->
  exists c', chain_ok b' c' /\ (evType ev' <> EventReorg -> canonical_ok b c -> canonical_ok b' c').
Proof.
  intros Hc Hw. unfold writeHeaderImpl. intros (cur & b1 & Hcur & Hm)%cbind_inv.
  unfold current_header in Hcur. destruct (bCurrentHeader b) as [h|] eqn:Eh; [|discriminate].
  injection Hcur as -> <-. destruct (Z.eqb_spec (hParentHash header) (hHash cur)) as [Hp|Hp].
  { destruct (writeCanonicalHeader_ok _ _ _ _ _ _ _ Hc Hw Eh Hp Hm) as (c' & ? & ?). by exists c'. }
  apply cbind_inv in Hm as ([] & b2 & (db & R2 & ->)%cwrite_inv & Hm).
  pose proof (chain_ok_write_header _ _ _ _ Hc Hw R2) as C2.
  destruct (wr_wf _ _ Hw) as (Hword & [Hwf _] & _).
  apply cbind_inv in Hm as (otd & b3 & R3 & Hm). unfold ctry in R3.
  destruct (readTotalDifficulty (hHash cur) _) as [[r b3']| |] eqn:R3'; [|discriminate..].
  injection R3 as -> ->.
  destruct (ok_head _ _ Hc) as (h1 & h2 & E1 & E2 & Hcore). assert (h1 = cur) as -> by congruence.
  destruct (ok_headers _ _ Hc _ _ E2) as (_ & _ & Hcw & _).
  destruct (readTotalDifficulty_ok _ _ _ _ _ C2 Hcw R3') as (C3 & S3 & _).
  destruct otd as [currentTD|]; [|discriminate].
  apply cbind_inv in Hm as (td & b4 & R4 & Hm).
  destruct (readTotalDifficulty_ok _ _ _ _ _ C3 (wf_parentHash _ Hwf) R4) as (C4 & S4 & Htd). cbn in Htd.
  apply cbind_inv in Hm as ([] & b5 & (db5 & R5 & ->)%cwrite_inv & Hm).
  pose proof (wf_difficulty _ Hwf) as Hdiff. unfold is_u64 in Hdiff.
  assert (chain_ok (set_db db5 b4) (spec_write (WTotalDifficulty (hHash header) (td + hDifficulty header))
    (with_header header c))) as C5.
  { apply (chain_ok_write (WTotalDifficulty (hHash header) (td + hDifficulty header))); try done.
    split; [done|lia]. }
  apply cbind_inv in Hm as (? & b6 & [= <- <-] & Hm).
  assert (cHeaders (with_header header c) !! hHash header = Some header) as Enew
    by (destruct c; cbn; by rewrite lookup_insert_eq).
  apply (chain_ok_cached _ _ header) in C5; [|by destruct c].
  destruct (currentTD <? td + hDifficulty header).
  - assert (same_headers (with_header header c) (spec_write (WTotalDifficulty (hHash header) (td + hDifficulty header))
      (with_header header c))) as Hsame by (by destruct c).
    destruct (handleReorg_ok turns ev cur header _ _ ev' b' C5) with (5 := Hm) as (Hev & c' & C' & _).
    + eapply stored_same; [exact Hsame|]. destruct (headers_mono _ _ Hw _ _ E2) as (h3 & E3 & Hcore').
      exists h3. split; [done|congruence].
    + eapply stored_same; [exact Hsame|]. by exists header.
    + lia.
    + pose proof (wr_forks _ _ Hw cur). by destruct c.
    + by exists c'.
  - apply cbind_inv in Hm as ([] & b7 & R7 & [= <- <-]).
    apply writeFork_ok with (c := spec_write (WTotalDifficulty (hHash header) (td + hDifficulty header))
      (with_header header c)) in R7 as (db7 & -> & C7); [|done..|by pose proof (wr_forks _ _ Hw header); destruct c].
    eexists; split; [exact C7|].
    intros _ Hcan h Eh' n Hn. destruct S4 as (? & ? & ->). destruct S3 as (? & ? & ->).
    cbn [set_db set_caches bCurrentHeader] in Eh'. rewrite Eh in Eh'. injection Eh' as <-.
    destruct (Hcan _ Eh n Hn) as (a & Ha & Ea). exists a. split.
    + eapply ancestor_mono; [|exact Ha]. intros k h' E.
      destruct (headers_mono _ _ Hw _ _ E) as (h'' & E' & ?). exists h''. by destruct c.
    + by destruct c.
Qed.

(** ** Blocks *)

Lemma chain_ok_frame b b' c : chain_ok b c -> bDb b' = bDb b -> bHeadersCache b' = bHeadersCache b ->
  bDifficultyCache b' = bDifficultyCache b -> bCurrentHeader b' = bCurrentHeader b -> chain_ok b' c.
Proof. intros Hc E1 E2 E3 E4. destruct Hc. split; try done; rewrite ?E1, ?E2, ?E3, ?E4; done. Qed.

Definition same_chain (b b' : Blockchain) : Prop := bCurrentHeader b' = bCurrentHeader b.

Lemma same_chain_caches b b' : same_but_caches b b' -> same_chain b b'.
Proof. intros (? & ? & ->). done. Qed.

(** A block as it comes from the network, and the receipts of its execution. *)
Record block_wf (block : Block) (c : contents) : Prop := {
  bw_header : write_wf HeaderHash (WHeader (bkHeader block));
  bw_number : hNumber (bkHeader block) <> 0;
  bw_body : write_wf HeaderHash (WBody (hHash (bkHeader block)) (Block_Body block));
  bw_lookups : Forall (fun t => write_wf HeaderHash (WTxLookup (tHash t) (hHash (bkHeader block)))) (bkTransactions block);
  bw_known h : cHeaders c !! hHash (bkHeader block) = Some h -> core (bkHeader block) = core h;
  bw_forks h : len (MarshalTo (Forks_MarshalRLPWith (new_forks h c))) < 2 ^ 63;
  bw_receipts root creator x r x' : exec_ProcessBlock root block creator x = Ok (Some r, x') ->
    write_wf HeaderHash (WReceipts (hHash (bkHeader block)) (bReceipts r))
}.

Lemma GetHeaderByNumber_ok n b c r b' : chain_ok b c -> is_u64 n ->
  GetHeaderByNumber HeaderHash n b = Ok (r, b') -> chain_ok b' c /\ same_but_caches b b'.
Proof.
  intros Hc Hn. unfold GetHeaderByNumber. rewrite (im_canonical _ _ _ (ok_db _ _ Hc) n Hn).
  destruct (cCanonical c !! n) as [k|] eqn:Ek; [|intros [= _ <-]; split; [done|apply same_refl]].
  intros Hr. destruct (readHeader_ok _ _ _ _ _ Hc (ok_numbers _ _ Hc _ _ Ek) Hr) as (? & ? & _). done.
Qed.

Lemma GetHeaderByNumber_same n b r b' :
  GetHeaderByNumber HeaderHash n b = Ok (r, b') -> same_but_caches b b'.
Proof.
  unfold GetHeaderByNumber, readHeader. repeat case_match; intros [= _ <-]; first [by eexists _, _ | apply same_refl].
Qed.

Lemma verifyGasLimit_ok header b c b' : chain_ok b c ->
  verifyGasLimit HeaderHash header b = Ok (Some tt, b') -> chain_ok b' c /\ same_but_caches b b'.
Proof.
  intros Hc. unfold verifyGasLimit. case_match; [discriminate|].
  case_match; [intros [= <-]; split; [done|apply same_refl]|].
  intros (p & b1 & R & Hm)%cbind_inv. case_match; [|discriminate]. injection Hm as <-.
  by eapply GetHeaderByNumber_ok; [|apply uint64_range|].
Qed.

Lemma same_chain_trans b1 b2 b3 : same_chain b1 b2 -> same_chain b2 b3 -> same_chain b1 b3.
Proof. unfold same_chain. congruence. Qed.

Lemma processBlock_ok block b c r b' : chain_ok b c -> block_wf block c ->
  processBlock HeaderHash block b = Ok (Some r, b') ->
  chain_ok b' c /\ same_chain b b' /\ write_wf HeaderHash (WReceipts (hHash (bkHeader block)) (bReceipts r)).
Proof.
  intros Hc Hw. unfold processBlock. destruct (bw_header _ _ Hw) as (_ & [Hwf _] & _).
  intros (p & b1 & R1 & Hm)%cbind_inv.
  destruct (readHeader_ok _ _ _ _ _ Hc (wf_parentHash _ Hwf) R1) as (C1 & S1 & _).
  apply cbind_inv in Hm as (creator & b2 & R2 & Hm). unfold block_creator in R2.
  destruct (GetBlockCreator _) as [o| |]; [|discriminate..]. injection R2 as -> <-.
  apply cbind_inv in Hm as (res & b3 & R3 & Hm). unfold run_block in R3.
  destruct (exec_ProcessBlock _ _ _ _) as [[o x]| |] eqn:Ex; [|discriminate..]. injection R3 as -> <-.
  pose proof (bw_receipts _ _ Hw _ _ _ _ _ Ex) as Hr.
  repeat (case_match; [discriminate|]).
  apply cbind_inv in Hm as ([] & b4 & R4 & [= <- <-]).
  assert (chain_ok (set_executor x b1) c) as C3 by (by eapply chain_ok_frame).
  destruct (verifyGasLimit_ok _ _ _ _ C3 R4) as (C4 & S4).
  split; [done|]. split; [|done].
  eapply same_chain_trans; [by apply same_chain_caches|].
  eapply (same_chain_trans _ (set_executor x b1)); [done|by apply same_chain_caches].
Qed.

(** Writes that leave the headers, the numbers and the difficulties alone. *)
Definition side_write (w : write) : Prop :=
  match w with WBody _ _ | WTxLookup _ _ | WReceipts _ _ => True | _ => False end.

Definition same_index (c c' : contents) : Prop :=
  cHeaders c' = cHeaders c /\ cCanonical c' = cCanonical c /\ cForks c' = cForks c.

Lemma side_write_ok w b c b' : chain_ok b c -> write_wf HeaderHash w -> side_write w ->
  cwrite (run_write w) b = Ok (Some tt, b') ->
  exists c', chain_ok b' c' /\ same_index c c' /\ same_chain b b'.
Proof.
  intros Hc Hw Hs (db & R & ->)%cwrite_inv. exists (spec_write w c). split; [|split; [|done]].
  - apply chain_ok_write; try done. by destruct w.
  - by destruct c, w.
Qed.

Lemma write_lookups_ok txs bh b c b' : chain_ok b c ->
  Forall (fun t => write_wf HeaderHash (WTxLookup (tHash t) bh)) txs ->
  write_lookups txs bh b = Ok (Some tt, b') ->
  exists c', chain_ok b' c' /\ same_index c c' /\ same_chain b b'.
Proof.
  intros Hc Hw. revert b c Hc; induction Hw as [|t txs Ht Hw IH]; intros b c Hc; cbn [write_lookups].
  { intros [= <-]. by exists c. }
  intros ([] & b1 & R & Hm)%cbind_inv.
  destruct (side_write_ok (WTxLookup (tHash t) bh) _ _ _ Hc Ht I R) as (c1 & C1 & (E1 & E2 & E3) & S1).
  destruct (IH _ _ C1 Hm) as (c2 & C2 & (E4 & E5 & E6) & S2). exists c2. split; [done|]. split.
  - split; [congruence|]. split; congruence.
  - by eapply same_chain_trans.
Qed.

Lemma ancestor_same c c' k n a : cHeaders c' = cHeaders c -> ancestor c k n a -> ancestor c' k n a.
Proof. intros E. apply ancestor_mono. intros k' h Eh. exists h. by rewrite E. Qed.

Lemma canonical_ok_same b b' c c' : same_chain b b' -> same_index c c' -> canonical_ok b c -> canonical_ok b' c'.
Proof.
  intros E (E1 & E2 & _) Hcan h Eh n Hn. rewrite E in Eh. destruct (Hcan h Eh n Hn) as (a & Ha & Ea).
  exists a. split; [by eapply ancestor_same|congruence].
Qed.

(** The checks of [WriteBlock], up to the body: the header may be written. *)
Definition write_checked (block : Block) : C BlockResult :=
  let header := bkHeader block in
  let? parent := readHeader HeaderHash (hParentHash header) in
  if hHash parent =? 0 then cfail
  else if negb (uint64 (hNumber header - 1) =? hNumber parent) then cfail
  else if negb (hParentHash header =? hHash parent) then cfail
  else
    verify_header parent header >>
    if negb (CalculateUncleRoot (bkUncles block) =? hSha3Uncles header) then cfail
    else if negb (CalculateTransactionsRoot (bkTransactions block) =? hTxRoot header) then cfail
    else let? res := processBlock HeaderHash block in writeBody block >> cret res.

(** The end of [WriteBlock]. *)
Definition write_rest (turns : nat) (block : Block) (res : BlockResult) : C unit :=
  let header := bkHeader block in
  let? evnt := writeHeaderImpl HeaderHash turns zero_event header in
  cwrite (WriteReceipts (hHash header) (bReceipts res)) >>
  cmod (dispatchEvent evnt) >>
  cmod (UpdateGasPriceAvg (hGasUsed header)) >>
  let? _ := ctry (GetHeaderByNumber HeaderHash (uint64 (hNumber header - 1))) in
  cret tt.

Lemma cbind_assoc {A B D} (m : C A) (k : A -> C B) (k' : B -> C D) b :
  cbind (cbind m k) k' b = cbind m (fun a => cbind (k a) k') b.
Proof. unfold cbind. by destruct (m b) as [[[a|] b1]| |]. Qed.

Lemma cbind_ext {A B} (m : C A) (k k' : A -> C B) b :
  (forall a b1, k a b1 = k' a b1) -> cbind m k b = cbind m k' b.
Proof. intros Hk. unfold cbind. destruct (m b) as [[[a|] b1]| |]; cbn [obind]; auto. Qed.

Lemma WriteBlock_split turns block b :
  WriteBlock HeaderHash turns block b = cbind (write_checked block) (write_rest turns block) b.
Proof.
  unfold WriteBlock, write_checked. rewrite cbind_assoc. apply cbind_ext. intros p b1.
  repeat (case_match; [done|]). rewrite cbind_assoc. apply cbind_ext. intros _ b2.
  repeat (case_match; [done|]). rewrite cbind_assoc. apply cbind_ext. intros res b3.
  rewrite cbind_assoc. by apply cbind_ext.
Qed.

Lemma write_checked_ok block b c res b' :
  chain_ok b c -> block_wf block c -> write_checked block b = Ok (Some res, b') ->
  exists c', chain_ok b' c' /\ (canonical_ok b c -> canonical_ok b' c') /\ writable (bkHeader block) c' /\
    write_wf HeaderHash (WReceipts (hHash (bkHeader block)) (bReceipts res)).
Proof.
  intros Hc Hw. unfold write_checked. destruct (bw_header _ _ Hw) as (Hword & [Hwf _] & _).
  intros (p & b1 & R1 & Hm)%cbind_inv.
  destruct (readHeader_ok _ _ _ _ _ Hc (wf_parentHash _ Hwf) R1) as (C1 & S1 & p' & Ep & Hcore).
  case_match; [discriminate|].
  destruct (Z.eqb_spec (uint64 (hNumber (bkHeader block) - 1)) (hNumber p)) as [En|]; [cbn [negb] in Hm|discriminate].
  destruct (Z.eqb_spec (hParentHash (bkHeader block)) (hHash p)); [cbn [negb] in Hm|discriminate].
  apply cbind_inv in Hm as ([] & b2 & R2 & Hm). unfold verify_header in R2.
  destruct (VerifyHeader _ _ _) as [[ok cs]| |]; [|discriminate..]. destruct ok; [|discriminate]. injection R2 as <-.
  do 2 (case_match; [discriminate|]).
  apply cbind_inv in Hm as (res' & b3 & R3 & Hm).
  assert (chain_ok (set_consensus cs b1) c) as C2 by (by eapply chain_ok_frame).
  destruct (processBlock_ok _ _ _ _ _ C2 Hw R3) as (C3 & S3 & Hrec).
  apply cbind_inv in Hm as ([] & b5 & R5 & [= -> ->]). apply cbind_inv in R5 as ([] & b4 & R4 & R5).
  destruct (side_write_ok (WBody (hHash (bkHeader block)) (Block_Body block)) _ _ _ C3 (bw_body _ _ Hw) I R4)
    as (c4 & C4 & (E1 & E2 & E3) & S4).
  destruct (write_lookups_ok _ _ _ _ _ C4 (bw_lookups _ _ Hw) R5) as (c5 & C5 & (E4 & E5 & E6) & S5).
  assert (same_index c c5) as (E7 & E8 & E9) by (split; [congruence|split; congruence]).
  exists c5. split; [done|]. split; [|split; [|done]].
  - apply (canonical_ok_same b _ c); [|done].
    eapply same_chain_trans; [by apply same_chain_caches|].
    eapply (same_chain_trans _ (set_consensus cs b1)); [done|].
    eapply same_chain_trans; [exact S3|]. by eapply same_chain_trans.
  - destruct (ok_headers _ _ Hc _ _ Ep) as (_ & _ & _ & _ & Hpu). unfold core in Hcore.
    pose proof (wf_number _ Hwf) as Hnu. split.
    + exact (bw_header _ _ Hw).
    + exists p'. rewrite E7. split; [done|]. assert (hNumber p = hNumber p') as Epn by congruence.
      pose proof (bw_number _ _ Hw). rewrite Epn, uint64_small in En by (unfold is_u64 in *; lia). lia.
    + intros h. rewrite E7. apply (bw_known _ _ Hw).
    + unfold new_forks. rewrite E9. apply (bw_forks _ _ Hw).
Qed.

Lemma WriteBlock_ok turns block b c b' :
  chain_ok b c -> block_wf block c ->
  WriteBlock HeaderHash turns block b = Ok (Some tt, b') ->
  exists ev c', list.last (bStream b') = Some ev /\ chain_ok b' c' /\
    (evType ev <> EventReorg -> canonical_ok b c -> canonical_ok b' c').
Proof.
  intros Hc Hw. rewrite WriteBlock_split. intros (res & b5 & R5 & Hm)%cbind_inv.
  destruct (write_checked_ok _ _ _ _ _ Hc Hw R5) as (c5 & C5 & Hcan5 & Hw5 & Hrec).
  apply cbind_inv in Hm as (ev & b6 & R6 & Hm).
  apply cbind_inv in Hm as ([] & b7 & R7 & Hm).
  apply cbind_inv in Hm as (? & b8 & [= <- <-] & Hm).
  apply cbind_inv in Hm as (? & b9 & [= <- <-] & Hm).
  apply cbind_inv in Hm as (? & b10 & R10 & [= <-]). unfold ctry in R10.
  destruct (GetHeaderByNumber HeaderHash _ _) as [[r b11]| |] eqn:R11; [|discriminate..]. injection R10 as _ <-.
  destruct (GetHeaderByNumber_same _ _ _ _ R11) as (hc & dc & E11).
  destruct (writeHeaderImpl_ok _ _ _ _ _ _ _ C5 Hw5 R6) as (c6 & C6 & Hcan6).
  destruct (side_write_ok (WReceipts (hHash (bkHeader block)) (bReceipts res)) _ _ _ C6 Hrec I R7)
    as (c7 & C7 & Hs7 & S7).
  assert (chain_ok (UpdateGasPriceAvg (hGasUsed (bkHeader block)) (dispatchEvent ev b7)) c7) as C9
    by (by eapply chain_ok_frame).
  destruct (GetHeaderByNumber_ok _ _ _ _ _ C9 (uint64_range _) R11) as (C11 & S11).
  exists ev, c7. split; [rewrite E11; cbn; by rewrite last_snoc|]. split; [done|]. intros Hev Hcan.
  eapply canonical_same; [exact S11|]. apply (canonical_ok_same b6 _ c6); [done|done|]. by apply Hcan6, Hcan5.
Qed.

(** ** The genesis *)

(** The contents of an empty database. *)
Definition no_contents : contents := mkContents ∅ None None None ∅ ∅ ∅ ∅ ∅ ∅.

(** The chain after the genesis is written to an empty database. *)
Lemma writeGenesisImpl_ok header b b' :
  implements HeaderHash (bDb b) no_contents -> bHeadersCache b = lru_New -> bDifficultyCache b = lru_New ->
  write_wf HeaderHash (WHeader header) -> hNumber header = 0 -> hParentHash header = 0 ->
  writeGenesisImpl header b = Ok (Some tt, b') -> exists c, chain_ok b' c /\ canonical_ok b' c.
Proof.
  intros Hi Eh Ed Hw En Ep. unfold writeGenesisImpl. destruct (Hw) as (Hword & [Hwf Hhash] & _).
  intros (? & b1 & [= _ <-] & Hm)%cbind_inv.
  apply cbind_inv in Hm as ([] & b2 & (db2 & R2 & ->)%cwrite_inv & Hm).
  pose proof (write_refines _ hash_pure (WHeader header) _ _ _ _ Hi Hw R2) as I2.
  apply cbind_inv in Hm as (? & b3 & [= _ <-] & Hm).
  apply cbind_inv in Hm as (d & b4 & R4 & [= <-]). unfold advanceHead in R4.
  apply cbind_inv in R4 as ([] & b5 & (db5 & R5 & ->)%cwrite_inv & Hm).
  pose proof (write_refines _ hash_pure (WHeadHash (hHash header)) _ _ _ _ I2 Hword R5) as I5.
  apply cbind_inv in Hm as ([] & b6 & (db6 & R6 & ->)%cwrite_inv & Hm).
  pose proof (wf_number _ Hwf) as Hu. pose proof (wf_difficulty _ Hwf) as Hdu. unfold is_u64 in Hdu.
  pose proof (write_refines _ hash_pure (WHeadNumber (hNumber header)) _ _ _ _ I5 Hu R6) as I6.
  apply cbind_inv in Hm as ([] & b7 & (db7 & R7 & ->)%cwrite_inv & Hm).
  pose proof (write_refines _ hash_pure (WCanonicalHash (hNumber header) (hHash header)) _ _ _ _ I6 (conj Hu Hword) R7) as I7.
  rewrite Ep in Hm. change (0 =? StringToHash []) with true in Hm.
  apply cbind_inv in Hm as (? & b8 & [= <- <-] & Hm).
  apply cbind_inv in Hm as ([] & b9 & (db9 & R9 & ->)%cwrite_inv & Hm).
  assert (0 <= 0 + hDifficulty header) as Hd by lia.
  pose proof (write_refines _ hash_pure (WTotalDifficulty (hHash header) (0 + hDifficulty header)) _ _ _ _ I7
    (conj Hword Hd) R9) as I9.
  apply cbind_inv in Hm as (? & b10 & [= _ <-] & [= <- <-]).
  eexists. split.
  - split; [exact I9|..]; cbn [spec_write no_contents cHeaders cDifficulty cCanonical cForks].
    + intros k h [[<- <-]|[_ E]]%lookup_insert_Some; [|by rewrite lookup_empty in E].
      repeat split; try done; apply Hword || apply Hwf || apply Hu.
    + intros k h [[<- <-]|[_ E]]%lookup_insert_Some; [done|by rewrite lookup_empty in E].
    + intros k h [[<- <-]|[_ E]]%lookup_insert_Some; [done|by rewrite lookup_empty in E].
    + constructor.
    + intros n k [[<- <-]|[_ E]]%lookup_insert_Some; [done|by rewrite lookup_empty in E].
    + cbn. rewrite Eh. by intros k h Hin%in_new.
    + cbn. rewrite Ed. by intros k h Hin%in_new.
    + exists header, header. by rewrite lookup_insert_eq.
  - intros h [= <-] n Hn. assert (n = hNumber header) as -> by lia.
    exists (hHash header). split; [constructor|]; cbn; by rewrite lookup_insert_eq.
Qed.

(** ** Chains that grew from a genesis *)

Definition is_reorg (ev : Event) : bool := match evType ev with EventReorg => true | _ => false end.

(** The chains that blocks were written to, and whether one of them made a
    reorganisation. *)
Inductive written (turns : nat) : Blockchain -> bool -> Prop :=
| written_genesis header b b' :
    implements HeaderHash (bDb b) no_contents -> bHeadersCache b = lru_New -> bDifficultyCache b = lru_New ->
    write_wf HeaderHash (WHeader header) -> hNumber header = 0 -> hParentHash header = 0 ->
    writeGenesisImpl header b = Ok (Some tt, b') -> written turns b' false
| written_block b reorg block b' :
    written turns b reorg -> (forall c, chain_ok b c -> block_wf block c) ->
    WriteBlock HeaderHash turns block b = Ok (Some tt, b') ->
    written turns b' (reorg || from_option is_reorg false (list.last (bStream b'))).

Lemma written_ok turns b reorg : written turns b reorg ->
  exists c, chain_ok b c /\ (reorg = false -> canonical_ok b c).
Proof.
  induction 1 as [header b b' Hi Eh Ed Hw En Ep Hr|b reorg block b' _ (c & Hc & Hcan) Hw Hr].
  - destruct (writeGenesisImpl_ok _ _ _ Hi Eh Ed Hw En Ep Hr) as (c & Hc & Hcan). by exists c.
  - destruct (WriteBlock_ok _ _ _ _ _ Hc (Hw _ Hc) Hr) as (ev & c' & El & Hc' & Hcan').
    exists c'. split; [done|]. rewrite El. intros [E1 E2]%orb_false_iff. apply Hcan'; [|auto].
    cbn in E2. unfold is_reorg in E2. by destruct (evType ev).
Qed.

(** The header of a number up to the head's is its ancestor of that number. *)
Lemma GetHeaderByNumber_canonical b c h n : chain_ok b c -> canonical_ok b c ->
  bCurrentHeader b = Some h -> 0 <= n <= hNumber h ->
  exists a b', GetHeaderByNumber HeaderHash n b = Ok (Some a, b') /\
    hNumber a = n /\ ancestor c (hHash h) n (hHash a).
Proof.
  intros Hc Hcan Eh Hn. destruct (Hcan h Eh n Hn) as (a & Ha & Ea).
  destruct (ok_head _ _ Hc) as (h1 & h2 & E1 & E2 & Hcore). assert (h1 = h) as -> by congruence.
  destruct (ok_headers _ _ Hc _ _ E2) as (_ & _ & _ & _ & Hu). unfold core in Hcore.
  assert (is_u64 n) as Hnu by (unfold is_u64 in *; assert (hNumber h = hNumber h2) by congruence; lia).
  destruct (ancestor_end _ _ _ _ Ha) as (h3 & E3 & E4).
  unfold GetHeaderByNumber. rewrite (im_canonical _ _ _ (ok_db _ _ Hc) n Hnu), Ea.
  destruct (readHeader_total a b) as (r & b' & Er).
  destruct (readHeader_ok _ _ _ _ _ Hc (ok_numbers _ _ Hc _ _ Ea) Er) as (_ & _ & Hr).
  destruct r as [h4|]; [|congruence]. destruct Hr as (h5 & E5 & Hcore5).
  destruct (ok_headers _ _ Hc _ _ E5) as (Eh5 & _). unfold core in Hcore5.
  exists h4, b'. split; [done|]. split; [congruence|]. by replace (hHash h4) with a by congruence.
Qed.

End chain.
