(* ===== verification/EngineChain.v ===== *)
(** The consensus engine over the chain: the engine verifies the headers the
    chain writes, and the chain is what the engine builds on. *)

From Stdlib Require Import ZArith Lia.
From stdpp Require Import base gmap list numbers.
From S2P Require Import Prelude Types Text Chain Rlp TxSigner Vrf Heap Validators MsgQueue Snapshots Extra Seals Ibft IbftFacts Storage Executor Blockchain.

Open Scope Z_scope.

Section engine_chain.
Context `{FastRLP} `{Runtime} `{Secp256k1} `{Curve} `{Protobuf} `{Sorting}.
Context `{KV} `{LRU} `{Roots} `{BlockExecutor}.

(** The engine as the chain sees it: what verifies a header, and the snapshots
    that may change. *)
#[export] Instance engine_verifier : Verifier := {|
  Consensus := (Header -> Header -> snapshotStore -> outcome (bool * snapshotStore)) * snapshotStore;
  Blockchain.VerifyHeader parent header c :=
    obind (fst c parent header (snd c)) (fun '(ok, store) => Ok (ok, (fst c, store)));
  Blockchain.GetBlockCreator := Ibft.GetBlockCreator
|}.

(** What the engine needs beside the chain: building a block, the queries of the
    staking contract, the fees and the pool. *)
Record services := mkServices {
  sv_buildBlock : Snapshot -> Header -> list Z -> Blockchain -> outcome (option Block * Blockchain);
  sv_getNextValidators : Header -> Blockchain -> option (list Address);
  sv_distributeFeeRewards : Header -> list Address -> ValidatorSet -> Blockchain -> ValidatorSet * Blockchain;
  sv_ResetWithHeaders : Header -> Blockchain -> Blockchain
}.

Context (sv : services) (turns : nat).

(** Reads leave the chain as it is: the entries they cache are dropped. *)
Definition chain_read {A} (m : C A) (b : Blockchain) : option A :=
  match m b with Ok (r, _) => r | _ => None end.

#[export] Instance chain_backend : Backend := {|
  ChainState := Blockchain;
  bc_Header b := default zero_header (bCurrentHeader b);
  bc_GetHeaderByNumber n b := chain_read (GetHeaderByNumber istanbulHeaderHash n) b;
  bc_WriteBlock verify block b store :=
    obind (WriteBlock istanbulHeaderHash turns block (set_consensus (verify, store) b)) (fun '(r, b) =>
    Ok (match r with Some _ => true | None => false end, b, snd (bConsensus b)));
  bc_buildBlock := sv_buildBlock sv;
  bc_getNextValidators := sv_getNextValidators sv;
  bc_distributeFeeRewards := sv_distributeFeeRewards sv;
  bc_ResetWithHeaders := sv_ResetWithHeaders sv
|}.

(** A header the engine verified has the seals of more than 2F validators of the
    snapshot in force at its parent. *)
Lemma VerifyHeader_certified fuel chain parent header store store' :
  Ibft.VerifyHeader fuel chain parent header store = Ok (true, store') ->
  exists snap, Store.find (hNumber parent) store = Some snap /\
    verifyCommitedFields snap header = Ok true.
Proof.
  unfold Ibft.VerifyHeader. destruct (verifyHeaderImpl _ _ _ _) as [ok| |]; [|discriminate..]. cbn [obind].
  destruct ok; [|discriminate]. cbn [negb].
  destruct (Store.find (hNumber parent) store) as [snap|]; [|discriminate]. cbn [of_option obind].
  destruct (verifyCommitedFields snap header) as [ok| |] eqn:Ev; [|discriminate..]. cbn [obind].
  destruct ok; [|discriminate]. intros _. by exists snap.
Qed.

(** Reading the parent leaves the engine alone. *)
Lemma readHeader_consensus k b r b' :
  readHeader istanbulHeaderHash k b = Ok (r, b') -> bConsensus b' = bConsensus b.
Proof. unfold readHeader. repeat case_match; by intros [= _ <-]. Qed.

Lemma bind_some {A B} (m : C A) (k : A -> C B) b r b' :
  cbind m k b = Ok (Some r, b') -> exists a b1, m b = Ok (Some a, b1) /\ k a b1 = Ok (Some r, b').
Proof. unfold cbind. destruct (m b) as [[[a|] b1]| |]; [|discriminate..]. cbn [obind]. eauto. Qed.

(** The chain only writes certified blocks. *)
Lemma WriteBlock_certified fuel chain block b store b' store' :
  bc_WriteBlock (Ibft.VerifyHeader fuel chain) block b store = Ok (true, b', store') ->
  exists number snap, number = uint64 (hNumber (bkHeader block) - 1) /\
    Store.find number store = Some snap /\ verifyCommitedFields snap (bkHeader block) = Ok true.
Proof.
  cbn [bc_WriteBlock chain_backend]. destruct (WriteBlock _ _ _ _) as [[r b1]| |] eqn:Ew; [|discriminate..].
  cbn [obind]. destruct r as [[]|]; [|discriminate]. intros _.
  unfold WriteBlock in Ew. apply bind_some in Ew as (parent & b2 & R2 & Hm).
  apply readHeader_consensus in R2. case_match; [discriminate|].
  destruct (Z.eqb_spec (uint64 (hNumber (bkHeader block) - 1)) (hNumber parent)) as [En|];
    [cbn [negb] in Hm|discriminate].
  case_match; [discriminate|]. apply bind_some in Hm as (? & b3 & R3 & _).
  unfold verify_header in R3. rewrite R2 in R3. cbn in R3.
  destruct (Ibft.VerifyHeader fuel chain parent (bkHeader block) store) as [[ok s]| |] eqn:Ev; [|discriminate..].
  cbn in R3. destruct ok; [|discriminate].
  destruct (VerifyHeader_certified _ _ _ _ _ _ Ev) as (snap & Hf & Hv).
  exists (uint64 (hNumber (bkHeader block) - 1)), snap. by rewrite En.
Qed.

(** Writing a block with the engine's verification, which reads the chain. *)
Definition engine_WriteBlock (fuel : nat) (block : Block) (b : Blockchain) (store : snapshotStore)
    : outcome (bool * Blockchain * snapshotStore) :=
  bc_WriteBlock (Ibft.VerifyHeader fuel b) block b store.

Lemma engine_WriteBlock_quorum fuel block b store b' store' :
  engine_WriteBlock fuel block b store = Ok (true, b', store') ->
  exists snap hash extra V,
    Store.find (uint64 (hNumber (bkHeader block) - 1)) store = Some snap /\
    calculateHeaderHash (bkHeader block) = Some hash /\ getIbftExtra (bkHeader block) = Some extra /\
    signers_of snap (commitMsg hash) (eCommittedSeal extra) V /\
    2 * Snap.MaxFaultyNodes snap < Z.of_nat (size V).
Proof.
  intros (? & snap & -> & Hf & Hv)%WriteBlock_certified.
  destruct (verifyCommitedFields_quorum _ _ Hv) as (hash & extra & V & Hq). by exists snap, hash, extra, V.
Qed.

End engine_chain.
