(* ===== verification/MockEngine.v ===== *)
(** A network of toy validators, used to evaluate the consensus engine on
    concrete runs. *)

From Stdlib Require Import ZArith Lia Sorting.
From stdpp Require Import base gmap list numbers sorting.
From S2P Require Import Prelude Types Text Chain Rlp RlpFacts RlpTree TxSigner CurveField Vrf Heap Validators MsgQueue Snapshots Extra Seals Ibft IbftFacts.

Open Scope Z_scope.

(** ** Toy libraries *)

(** A polynomial hash: different on the inputs of the runs below. *)
Definition poly_hash (b : list Z) : Z := foldl (fun a x => Z.land (a * 257 + x + 1) (Z.ones 160)) 0 b.

#[export] Instance poly_runtime : Runtime.
Proof.
  refine {| append_cap := fun _ n => n; Keccak256 := fun b => be_encode 32 (poly_hash b);
            rlp_address_nonce := fun a n => a ++ [n] |}; [done| |].
  - intros b. apply be_encode_length.
  - intros b. apply be_encode_bytes.
Defined.

(** The integers modulo N in the place of the points of the curve. *)
Definition toy_mul (k : Z) (p : PublicKey) : PublicKey := mkPublicKey ((k * pkX p) mod curveN) 0.

#[export] Instance toy_curve : Curve := {|
  ScalarMult p b := toy_mul (be_decode b) p;
  ScalarBaseMult b := toy_mul (be_decode b) curveG;
  curve_Add p q := mkPublicKey ((pkX p + pkX q) mod curveN) 0;
  IsOnCurve _ := true
|}.

(** The scalar of a key: one from 1 to N - 1. *)
Definition toy_D (k : Z) : Z := k mod (curveN - 1) + 1.

(** A signature is the scalar of the key and the message. *)
#[export] Instance toy_keys : Secp256k1 := {|
  PrivateKey := Z;
  public_of k := toy_mul (toy_D k) curveG;
  SignCompact k h :=
    let m := be_decode h in
    if (0 <=? m) && (m <? curveN - 1) then Some (27 :: be_encode 32 (toy_D k) ++ be_encode 32 (m + 1)) else None;
  RecoverCompact sig h :=
    let r := be_decode (take 32 (drop 1 sig)) in
    let s := be_decode (drop 33 sig) in
    if s =? be_decode h + 1 then Some (toy_mul r curveG) else None
|}.

Lemma toy_D_range k : 1 <= toy_D k < curveN.
Proof. pose proof curveN_bound. unfold toy_D. pose proof (Z.mod_pos_bound k (curveN - 1)). lia. Qed.

#[export] Instance toy_keys_ok : Secp256k1Ok.
Proof.
  assert (be_decode secp256k1N = curveN) as EN by (vm_compute; reflexivity).
  pose proof curveN_bound as HN.
  split; intros k h sig; cbn [SignCompact RecoverCompact public_of toy_keys]; pose proof (toy_D_range k) as Hk;
    (destruct (_ && _) eqn:Em; [|discriminate]);
    apply andb_true_iff in Em as [H0%Z.leb_le H1%Z.ltb_lt].
  - intros <-%(inj Some). exists 27, (toy_D k), (be_decode h + 1). rewrite EN.
    split; [reflexivity|]. split; [lia|]. split; lia.
  - set (r := be_encode 32 (toy_D k)). set (s := be_encode 32 (be_decode h + 1)). intros <-%(inj Some).
    assert (length r = 32%nat) as Hr by apply be_encode_length.
    change (drop 1 (27 :: r ++ s)) with (r ++ s). change (drop 33 (27 :: r ++ s)) with (drop 32 (r ++ s)).
    rewrite take_app_le, take_ge, drop_app_ge, Hr, Nat.sub_diag, drop_0 by lia.
    subst r s. rewrite !be_decode_encode_small by lia. by rewrite Z.eqb_refl.
Defined.

#[export] Instance toy_curve_ok : CurveOk toy_D.
Proof.
  pose proof curveN_bound as HN.
  assert (curveN < curveP) as HP by (vm_compute; reflexivity).
  refine {| mul := toy_mul |}; unfold toy_mul, toy_D.
  - intros k. pose proof (Z.mod_pos_bound k (curveN - 1)). lia.
  - done.
  - done.
  - done.
  - done.
  - done.
  - intros a b p _. cbn [curve_Add toy_curve pkX]. f_equal. by rewrite <- Zplus_mod, <- Z.mul_add_distr_r.
  - intros a b p _. cbn [pkX]. f_equal. by rewrite Zmult_mod_idemp_r, Z.mul_assoc.
  - intros a p _. f_equal. apply Zmult_mod_idemp_l.
  - intros k p _ _. cbn [pkX pkY]. pose proof (Z.mod_pos_bound (k * pkX p) curveN). split; [done|lia].
Defined.

#[export] Instance toy_proto : Protobuf := {|
  proto_Marshal m :=
    Some ([mType m] ++ mFrom m ++ mSeal m ++
          match mView m with Some v => big_Bytes (vRound v) ++ [0] ++ big_Bytes (vSequence v) | None => [] end ++
          default [] (mProposal m))
|}.

Definition number_le (s ss : Snapshot) : Prop := sNumber s <= sNumber ss.
#[local] Instance number_le_dec s ss : Decision (number_le s ss).
Proof. unfold number_le. apply _. Defined.
#[local] Instance number_le_total : Total number_le.
Proof. intros s ss. unfold number_le. lia. Qed.
#[local] Instance number_le_trans : Transitive number_le.
Proof. intros s ss sss. unfold number_le. lia. Qed.

#[export] Instance merge_sorting : Sorting.
Proof.
  refine {| sort_Sort := merge_sort number_le |}.
  - intros l. apply merge_sort_Permutation.
  - intros l. apply (StronglySorted_merge_sort number_le l).
Defined.

(** ** A chain that takes every block *)

Definition addr_of (k : Z) : Address := PubKeyToAddress (public_of k).

(** The headers, the head first, and the time. *)
Record toy_chain := mkToy { toy_headers : list Header; toy_clock : Z }.

Definition toy_head (b : toy_chain) : Header := default zero_header (head (toy_headers b)).

Definition base_header (parentHash number timestamp : Z) (validators : list Address) : Header :=
  putIbftExtraValidators
    (mkHeader parentHash EmptyUncleHash 0 1 EmptyRootHash EmptyRootHash [] number number
       1000000 0 timestamp [] IstanbulDigest [] 0)
    validators.

Definition toy_seal (h : Header) : Header :=
  match signSealImpl 1 h false, getIbftExtra h with
  | Some seal, Some extra => PutIbftExtra h (set_eSeal seal extra)
  | _, _ => h
  end.

(** A sealed block with the time as its timestamp; the clock ticks. *)
Definition toy_build (snap : Snapshot) (parent : Header) (vrfData : list Z) (b : toy_chain)
    : outcome (option Block * toy_chain) :=
  let h := toy_seal (base_header (hHash parent) (hNumber parent + 1) (toy_clock b) (sSet snap)) in
  Ok (Some (mkBlock (Header_ComputeHash istanbulHeaderHash h) [] []), mkToy (toy_headers b) (toy_clock b + 1)).

#[export] Instance toy_backend : Backend := {|
  ChainState := toy_chain;
  bc_Header := toy_head;
  bc_GetHeaderByNumber n b := find (fun h => hNumber h =? n) (toy_headers b);
  bc_WriteBlock _ block b store := Ok (true, mkToy (bkHeader block :: toy_headers b) (toy_clock b), store);
  bc_buildBlock := toy_build;
  bc_getNextValidators _ _ := None;
  bc_distributeFeeRewards _ _ vset b := (vset, b);
  bc_ResetWithHeaders _ b := b
|}.

Definition genesis (validators : list Address) : Header :=
  Header_ComputeHash istanbulHeaderHash (base_header 0 0 0 validators).

Definition initialized (n : node) (r : outcome (bool * node)) : node := match r with Ok (_, n) => n | _ => n end.

Definition toy_node (key : Z) (validators : list Address) : node :=
  let n := new_node true key 100 (mkToy [genesis validators] 1) in initialized n (Initialize n).

Definition toy_fuel : nat := 4.

(** ** Messages of the others *)

Definition signed (key : Z) (m : MessageReq) : MessageReq := default m (signMsg key m).
Definition prepare_of (key : Z) (v : View) : action :=
  AReceive (signed key (mkMessageReq MessageReq_Prepare [] [] [] (Some v) [] None)).
Definition commit_of (key : Z) (seal : list Z) (v : View) : action :=
  AReceive (signed key (mkMessageReq MessageReq_Commit [] seal [] (Some v) [] None)).
Definition round_change_of (key : Z) (v : View) : action :=
  AReceive (signed key (mkMessageReq MessageReq_RoundChange [] [] [] (Some v) [] None)).

Definition cycle : action := ARun None SyncNoPeer.
Definition next : action := ARead None.

(** ** One validator *)

Definition solo : list Address := [addr_of 1].

(** It starts, and commits two blocks. *)
Definition solo_block : list action := [cycle; cycle; next; next].
Definition solo_run : list action := cycle :: solo_block ++ solo_block.

(** The headers and the outputs at the end of a run. *)
Definition headers_of (r : outcome (node * list output)) : list Header :=
  match r with Ok (n, _) => toy_headers (iChain (nIbft n)) | _ => [] end.
Definition outputs_of (r : outcome (node * list output)) : list output :=
  match r with Ok (_, os) => os | _ => [] end.

Definition solo_headers : list Header := headers_of (node_runs toy_fuel solo_run (toy_node 1 solo)).
Definition solo_outputs : list output := outputs_of (node_runs toy_fuel solo_run (toy_node 1 solo)).

(** ** Four validators *)

(** The first is the proposer of the first block. *)
Definition four : list Address := [addr_of 1; addr_of 2; addr_of 3; addr_of 4].

Definition built (r : outcome (option Block * toy_chain)) : Header :=
  match r with Ok (Some b, _) => bkHeader b | _ => zero_header end.
Definition first_block : Header :=
  built (toy_build (mkSnapshot 0 [] [] four) (genesis four) [] (mkToy [genesis four] 1)).

(** The seal of a validator of the first block. *)
Definition good_seal (key : Z) : list Z := EncodeToHex (default [] (writeCommittedSeal key first_block)).

(** The others prepare and commit the first block; the seal of the fourth
    validator is a single byte.  The round changes and they prepare again. *)
Definition four_run : list action :=
  let v0 := mkView 0 1 in
  let v1 := mkView 1 1 in
  [cycle; cycle; cycle; prepare_of 2 v0; prepare_of 3 v0; next; next; next;
   commit_of 2 (good_seal 2) v0; commit_of 4 (EncodeToHex [0]) v0; next; next; next;
   cycle; round_change_of 2 v1; round_change_of 3 v1; next; next; next;
   cycle; cycle; prepare_of 2 v1; prepare_of 3 v1; next; next; next].

(** The seals of the outputs: the number and the hash of the header. *)
Definition seals_of (os : list output) : list (Z * Hash) :=
  omap (fun o => match o with OSeal _ h => Some (hNumber h, hHash h) | _ => None end) os.

(** The proposer locks the first block, hears no commit, and seals it again in
    the next round. *)
Definition relock_run : list action :=
  let v0 := mkView 0 1 in
  let v1 := mkView 1 1 in
  [cycle; cycle; cycle; prepare_of 2 v0; prepare_of 3 v0; next; next; next; next; next;
   cycle; round_change_of 2 v1; round_change_of 3 v1; next; next; next;
   cycle; cycle; prepare_of 2 v1; prepare_of 3 v1; next; next; next].
