(* ===== verification/ConsensusMain.v ===== *)
(** What the consensus engine guarantees, and where it does not. *)

From Stdlib Require Import ZArith Lia.
From stdpp Require Import base gmap list numbers.
From S2P Require Import Prelude Types Text Chain Rlp RlpFacts RlpTree TxSigner CurveField Vrf Heap Validators MsgQueue Snapshots Extra Seals Ibft IbftFacts MockEngine.

Open Scope Z_scope.

(** ** Runs of the toy network *)

(** The outputs up to the first seal, the seal, and the rest. *)
Fixpoint split_seal (os : list output) : option (list output * option View * Header * list output) :=
  match os with
  | [] => None
  | OSeal v h :: os => Some ([], v, h, os)
  | o :: os => '(os1, v, h, r) ← split_seal os; Some (o :: os1, v, h, r)
  end.

Lemma split_seal_spec os os1 v h r : split_seal os = Some (os1, v, h, r) -> os = os1 ++ OSeal v h :: r.
Proof.
  revert os1; induction os as [|o os IH]; intros os1; cbn [split_seal]; [done|].
  destruct o; try (destruct (split_seal os) as [[[[? ?] ?] ?]|]; [|done]; cbn;
    intros [= <- <- <- <-]; cbn; by rewrite <- (IH _ eq_refl)).
  by intros [= <- <- <- <-].
Qed.

Definition relocks (r : outcome (node * list output)) : bool :=
  match r with
  | Ok (_, os) =>
    match split_seal os with
    | Some (_, _, _, rest) =>
      match split_seal rest with Some (os2, _, _, _) => negb (existsb is_attempt os2) | None => false end
    | None => false
    end
  | _ => false
  end.

Lemma relock_run_seals : relocks (node_runs toy_fuel relock_run (toy_node 1 four)) = true.
Proof. vm_compute. reflexivity. Qed.

Lemma relocks_split r : relocks r = true ->
  exists n os1 v1 h1 os2 v2 h2 os3,
    r = Ok (n, os1 ++ OSeal v1 h1 :: os2 ++ OSeal v2 h2 :: os3) /\ existsb is_attempt os2 = false.
Proof.
  unfold relocks. destruct r as [[n os]| |]; [|done..].
  destruct (split_seal os) as [[[[os1 v1] h1] rest]|] eqn:E1; [|done].
  destruct (split_seal rest) as [[[[os2 v2] h2] os3]|] eqn:E2; [|done].
  intros Hn. apply split_seal_spec in E1, E2. subst. apply negb_true_iff in Hn. eauto 10.
Qed.

(** ** The lock *)

Section claims.
Context `{FastRLP} `{Runtime} `{Secp256k1} `{Curve} `{Protobuf} `{Sorting} `{Backend}.

(** C16: A validator's engine, run from any state through any messages, timeouts
    and synchronised blocks, gives two commit seals for different headers only if
    it tried to insert a block between them. *)
Theorem seals_of_one_block vrf_fuel acts n n' os1 v1 h1 os2 v2 h2 os3 :
  node_runs vrf_fuel acts n = Ok (n', os1 ++ OSeal v1 h1 :: os2 ++ OSeal v2 h2 :: os3) ->
  existsb is_attempt os2 = false -> h1 = h2.
Proof. apply node_seals_once. Qed.

(** C2: Two headers that pass the check of the committed seals for the same
    snapshot of 3F + 1 validators, at most F of them faulty and the seals of the
    others not forged, have the same hash, or an honest validator tried to insert
    a block between sealing the one and the other. *)
Theorem certified_headers_agree vrf_fuel outputs faulty snap h1 h2 :
  honest_runs vrf_fuel outputs faulty (sSet snap) -> unforged outputs faulty (sSet snap) [h1; h2] ->
  verifyCommitedFields snap h1 = Ok true -> verifyCommitedFields snap h2 = Ok true ->
  len (sSet snap) = 3 * Snap.MaxFaultyNodes snap + 1 ->
  Z.of_nat (size faulty) <= Snap.MaxFaultyNodes snap ->
  calculateHeaderHash h1 = calculateHeaderHash h2 \/
  exists a, a ∈ sSet snap /\ (a ∉ faulty) /\
    tried_between (calculateHeaderHash h1) (calculateHeaderHash h2) (outputs a).
Proof. apply certified_agree. Qed.

End claims.

Lemma seals_of_one_block_witness :
  exists n os1 v1 h1 os2 v2 h2 os3,
    node_runs toy_fuel relock_run (toy_node 1 four) =
      Ok (n, os1 ++ OSeal v1 h1 :: os2 ++ OSeal v2 h2 :: os3) /\ h1 = h2.
Proof.
  destruct (relocks_split _ relock_run_seals) as (n & os1 & v1 & h1 & os2 & v2 & h2 & os3 & E & Hno).
  exists n, os1, v1, h1, os2, v2, h2, os3. split; [exact E|].
  exact (seals_of_one_block toy_fuel relock_run (toy_node 1 four) n os1 v1 h1 os2 v2 h2 os3 E Hno).
Defined.

(** ** A chain of one validator *)

Definition solo_snap : Snapshot := mkSnapshot 0 [] [] solo.
Definition solo_header (k : nat) : Header := default zero_header (solo_headers !! k).

Definition sealed_hashes (os : list output) : list (option (list Z)) :=
  omap (fun o => match o with OSeal _ h => Some (calculateHeaderHash h) | _ => None end) os.

Lemma sealed_hashes_spec os m : Some m ∈ sealed_hashes os ->
  exists v g, OSeal v g ∈ os /\ calculateHeaderHash g = Some m.
Proof.
  unfold sealed_hashes. rewrite list_elem_of_omap. intros (o & Ho & Ho').
  destruct o as [|v g| |]; try discriminate. injection Ho' as Ho'. by exists v, g.
Qed.

Definition ran {A} (r : outcome A) : bool := match r with Ok _ => true | _ => false end.

Lemma solo_facts :
  ran (node_runs toy_fuel solo_run (toy_node 1 solo)) = true /\
  verifyCommitedFields solo_snap (solo_header 0) = Ok true /\
  verifyCommitedFields solo_snap (solo_header 1) = Ok true /\
  sealed_hashes solo_outputs = [calculateHeaderHash (solo_header 1); calculateHeaderHash (solo_header 0)] /\
  calculateHeaderHash (solo_header 0) <> calculateHeaderHash (solo_header 1).
Proof. vm_compute. repeat split; discriminate. Qed.

Lemma certified_headers_agree_witness :
  calculateHeaderHash (solo_header 0) <> calculateHeaderHash (solo_header 1) /\
  (calculateHeaderHash (solo_header 0) = calculateHeaderHash (solo_header 1) \/
   exists a, a ∈ solo /\ (a ∉ (∅ : gset Z)) /\
     tried_between (calculateHeaderHash (solo_header 0)) (calculateHeaderHash (solo_header 1)) solo_outputs).
Proof.
  destruct solo_facts as (Hrun & V0 & V1 & Hs & Hne). split; [exact Hne|].
  apply (certified_headers_agree toy_fuel (fun _ => solo_outputs) ∅ solo_snap (solo_header 0) (solo_header 1)).
  - intros a _ _. exists solo_run, (toy_node 1 solo). unfold solo_outputs.
    destruct (node_runs toy_fuel solo_run (toy_node 1 solo)) as [[n os]| |]; [by exists n|discriminate Hrun..].
  - intros h hash a seal Hh Hhash _ _ _. apply sealed_hashes_spec. rewrite Hs, <- Hhash.
    apply elem_of_cons in Hh as [->|Hh]; [by right; left|].
    apply list_elem_of_singleton in Hh as ->. by left.
  - exact V0.
  - exact V1.
  - reflexivity.
  - reflexivity.
Defined.

(** ** A commit seal that is no seal *)




