(* ===== verification/MockChain.v ===== *)
(** The chain in memory under the toy validators, used to evaluate it on
    concrete blocks. *)

From Stdlib Require Import ZArith Lia.
From stdpp Require Import base gmap list numbers.
From S2P Require Import Prelude Types Text Chain Rlp RlpFacts RlpTree TxSigner CurveField Vrf Heap Validators MsgQueue Snapshots Extra Seals Ibft IbftFacts Storage StorageFacts Executor Blockchain CalcRoot BlockchainFacts EngineChain MockEngine.

Open Scope Z_scope.

(** A cache that never evicts. *)
#[export] Existing Instances map_lru map_lru_ok.

(** The roots of package calcroot, of tries in memory. *)
#[export] Instance list_roots : Roots := mem_roots.

(** Blocks are empty and leave the state root as it is. *)
#[export] Instance idle_executor : BlockExecutor := {|
  ExecState := unit;
  exec_ProcessBlock root block _ x := Ok (Some (mkBlockResult root [] 0), x)
|}.

(** A chain that takes the headers as they are. *)
Definition empty_chain : Blockchain :=
  mkBlockchain (∅ : gmap (list Z) (list Z)) 0 0 (lru_New : lru Header) (lru_New : lru Z) None None [] 0 0
    ((fun _ _ s => Ok (true, s)), newSnapshotStore) tt.

Definition full_header (h : Header) : Header :=
  mkHeader (hParentHash h) (hSha3Uncles h) (hMiner h) (hStateRoot h) (hTxRoot h) (hReceiptsRoot h)
    (replicate 256 0) (hDifficulty h) (hNumber h) (hGasLimit h) (hGasUsed h) (hTimestamp h) (hExtraData h)
    (hMixHash h) (replicate 8 0) (hHash h).

(** The chain of one validator that starts at its genesis. *)
Definition chain_genesis : Header := Header_ComputeHash istanbulHeaderHash (full_header (base_header 0 0 0 solo)).

(** The chain after an operation. *)
Definition chain_of {A} (r : outcome (option A * Blockchain)) : Blockchain :=
  match r with Ok (_, b) => b | _ => empty_chain end.
Definition succeeds {A} (r : outcome (option A * Blockchain)) : bool :=
  match r with Ok (Some _, _) => true | _ => false end.

Lemma succeeds_spec (r : outcome (option unit * Blockchain)) : succeeds r = true -> r = Ok (Some tt, chain_of r).
Proof. by destruct r as [[[[]|] b]| |]. Qed.

Definition genesis_chain : Blockchain := chain_of (writeGenesisImpl chain_genesis empty_chain).

Definition genesis_store : snapshotStore := Store.add (mkSnapshot 0 [] [] solo) newSnapshotStore.

(** ** A certified block *)

(** What the proposer signs with its verifiable random function. *)
Definition vrf_message : list Z := SignVRF 1 (CalcVrfSeed chain_genesis).

(** The value and the proof of [Vrf toy_D toy_fuel 1 (be_encode 32 5) vrf_message]. *)
Definition vrf_value : list Z := be_encode 65
  57774080619350225211098063340652699730818858448245654378133846382792827005391043568837518813029046319519035787292236959529308929490907439414755118192525312.
Definition vrf_proof : list Z := be_encode 64
  2077904154650173007368747053352217204766531676907809691123999236030084672252198543348393287543550961052850032633758449480866733200024442165634728634208754.

Definition with_vrf (h : Header) : Header :=
  match getIbftExtra h with Some e => PutIbftExtra h (SetVrfInfo vrf_value vrf_proof e) | None => h end.

Definition with_commit (h : Header) : Header :=
  match writeCommittedSeal 1 h with Some seal => default h (writeCommittedSeals h [seal]) | None => h end.

Definition certified_block : Block :=
  let h := full_header (base_header (hHash chain_genesis) 1 1 solo) in
  let h := with_commit (with_vrf (toy_seal h)) in
  mkBlock (Header_ComputeHash istanbulHeaderHash h) [] [].

(** ** Blocks that are only sealed *)

Definition sealed_block (parent : Block) (timestamp : Z) : Block :=
  let h := bkHeader parent in
  let h := toy_seal (full_header (base_header (hHash h) (hNumber h + 1) timestamp solo)) in
  mkBlock (Header_ComputeHash istanbulHeaderHash h) [] [].

Definition genesis_block : Block := mkBlock chain_genesis [] [].

Fixpoint write_blocks (blocks : list Block) (b : Blockchain) : option Blockchain :=
  match blocks with
  | [] => Some b
  | block :: blocks =>
    match WriteBlock istanbulHeaderHash 4 block b with
    | Ok (Some _, b) => write_blocks blocks b
    | _ => None
    end
  end.

(** The services are idle. *)
Definition idle : services := {|
  sv_buildBlock _ _ _ b := Ok (None, b);
  sv_getNextValidators _ _ := None;
  sv_distributeFeeRewards _ _ vset b := (vset, b);
  sv_ResetWithHeaders _ b := b
|}.
#[export] Instance solo_backend : Backend := chain_backend idle 4.

(** ** An empty database *)

Lemma memory_empty HeaderHash : implements HeaderHash (∅ : DB) no_contents.
Proof.
  assert (forall k, memory_Get k ∅ = Some None) as E by (intros k; unfold memory_Get; by rewrite lookup_empty).
  split; intros;
    unfold ReadCanonicalHash, ReadHeadHash, ReadHeadNumber, ReadForks, ReadTotalDifficulty, ReadHeader, ReadBody,
      ReadSnapshot, ReadReceipts, ReadTxLookup, read2, readRLP, db_get;
    cbn [kv_Get memoryKV]; by rewrite E.
Qed.

(** ** Well-formed headers, decided *)

Definition word_b (x : Z) : bool := (0 <=? x) && (x <? 2 ^ 256).
Definition u64_b (x : Z) : bool := (0 <=? x) && (x <? 2 ^ 64).
Definition bytes_b (l : list Z) : bool := forallb (fun b => (0 <=? b) && (b <? 256)) l.

Definition header_b (h : Header) : bool :=
  forallb word_b [hParentHash h; hSha3Uncles h; hStateRoot h; hTxRoot h; hReceiptsRoot h; hMixHash h] &&
  ((0 <=? hMiner h) && (hMiner h <? 2 ^ 160)) &&
  forallb u64_b [hDifficulty h; hNumber h; hGasLimit h; hGasUsed h; hTimestamp h] &&
  forallb bytes_b [hLogsBloom h; hExtraData h; hNonce h] &&
  (length (hLogsBloom h) =? 256)%nat && (length (hNonce h) =? 8)%nat.

Lemma bytes_b_spec l : bytes_b l = true -> Forall is_byte l.
Proof.
  unfold bytes_b. rewrite forallb_forall. intros Hl. apply List.Forall_forall. intros x Hx%Hl.
  unfold is_byte. lia.
Qed.

Lemma header_b_spec h : header_b h = true -> header_wf h.
Proof.
  unfold header_b. cbn [forallb]. unfold word_b, u64_b. rewrite !andb_true_iff, !Nat.eqb_eq, !Z.leb_le, !Z.ltb_lt.
  intros Hb. decompose [and] Hb.
  split; unfold is_word, is_u64, is_addr, bytes_of; try lia; try split; try (by apply bytes_b_spec); lia || done.
Qed.

(** What the chain needs of a header to write it. *)
Definition write_b (h : Header) : bool :=
  header_b h && word_b (hHash h) && (hHash h =? istanbulHeaderHash h) &&
  (len (MarshalTo (Header_MarshalRLPWith h)) <? 2 ^ 63).

Lemma write_b_spec h : write_b h = true -> write_wf istanbulHeaderHash (WHeader h).
Proof.
  unfold write_b, word_b. rewrite !andb_true_iff, Z.eqb_eq, !Z.ltb_lt, Z.leb_le.
  intros [[[Hh Hw] E] Hl]. split; [exact Hw|]. split; [|done]. split; [by apply header_b_spec|done].
Qed.

Lemma genesis_write : write_b chain_genesis = true.
Proof. vm_compute. reflexivity. Qed.

(** A list of one fork is short. *)
Lemma fork_short (x : Hash) : len (MarshalTo (Forks_MarshalRLPWith [x])) < 2 ^ 63.
Proof.
  assert (len (MarshalTo (Forks_MarshalRLPWith [x])) = 34) as -> by (vm_compute; reflexivity). done.
Qed.

(** Two branches of the genesis. *)
Definition a1 : Block := sealed_block genesis_block 1.
Definition a2 : Block := sealed_block a1 2.
Definition b1 : Block := sealed_block genesis_block 3.
Definition b2 : Block := sealed_block b1 4.
Definition b3 : Block := sealed_block b2 5.
