(* ===== verification/ChainMain.v ===== *)
(** What the database, the chain and the engine over it guarantee. *)

From Stdlib Require Import ZArith Lia.
From stdpp Require Import base gmap list numbers.
From S2P Require Import Prelude Types Text Chain Rlp RlpFacts RlpTree TxSigner CurveField Vrf Heap Validators MsgQueue Snapshots Extra Seals Ibft IbftFacts Storage StorageFacts Executor Blockchain BlockchainFacts EngineChain MockEngine MockChain.

Open Scope Z_scope.

(** ** The database *)

(** C12: The database in its key-value layout implements a map for each kind of
    entry: after any well-formed writes, of which a write that fails stops the
    rest, every read gives what the maps hold. *)
Theorem database_refines `{FastRLP} `{Runtime} `{!FastRLPOk} `{KV} `{!KVOk} HeaderHash ws db ok db' c :
  (forall x h, HeaderHash (with_header_hash x h) = HeaderHash h) ->
  implements HeaderHash db c -> Forall (write_wf HeaderHash) ws -> run_writes ws db = (ok, db') ->
  exists c', spec_writes ws c ok c' /\ implements HeaderHash db' c'.
Proof. intros Hp. by apply writes_refine. Qed.

Definition some_writes : list write :=
  [ WHeader chain_genesis; WCanonicalHash 0 (hHash chain_genesis); WHeadHash (hHash chain_genesis);
    WTotalDifficulty (hHash chain_genesis) 300; WForks [7]; WSnapshot 9 [1; 2] ].

Lemma some_writes_wf : Forall (write_wf istanbulHeaderHash) some_writes.
Proof.
  pose proof (write_b_spec _ genesis_write) as Hg. destruct (Hg) as (Hw & _).
  unfold some_writes. repeat apply List.Forall_cons; try apply List.Forall_nil; cbn [write_wf].
  - exact Hg.
  - split; [unfold is_u64; lia|exact Hw].
  - exact Hw.
  - split; [exact Hw|lia].
  - split; [apply List.Forall_cons; [unfold is_word; lia|constructor]|apply fork_short].
  - unfold is_word. lia.
Qed.

Lemma some_writes_done :
  run_writes some_writes (bDb empty_chain) = (true, snd (run_writes some_writes (bDb empty_chain))).
Proof.
  assert (fst (run_writes some_writes (bDb empty_chain)) = true) as E by (vm_compute; reflexivity).
  by rewrite <- E, <- surjective_pairing.
Qed.

Lemma database_refines_witness :
  let db := snd (run_writes some_writes (bDb empty_chain)) in
  exists c, spec_writes some_writes no_contents true c /\ implements istanbulHeaderHash db c.
Proof.
  apply (database_refines istanbulHeaderHash some_writes (bDb empty_chain) true).
  - exact istanbul_hash_pure.
  - apply memory_empty.
  - exact some_writes_wf.
  - exact some_writes_done.
Defined.

(** ** The chain *)

(** C7: The chain that grew from its genesis by written blocks keeps its database
    and caches consistent: they hold linked headers that include the head, and,
    as long as no block made a reorganisation, the header the chain gives for a
    number up to the head's is the ancestor of the head with that number. *)
Theorem canonical_chain `{FastRLP} `{Runtime} `{!FastRLPOk} `{KV} `{!KVOk} `{LRU} `{!LRUOk}
    `{Roots} `{Verifier} `{BlockExecutor} HeaderHash turns b reorg :
  (forall x h, HeaderHash (with_header_hash x h) = HeaderHash h) -> written HeaderHash turns b reorg ->
  exists c, chain_ok HeaderHash b c /\
    (reorg = false -> forall h n, bCurrentHeader b = Some h -> 0 <= n <= hNumber h ->
     exists a b', GetHeaderByNumber HeaderHash n b = Ok (Some a, b') /\
       hNumber a = n /\ ancestor c (hHash h) n (hHash a)).
Proof.
  intros Hp Hb. destruct (written_ok _ Hp _ _ _ Hb) as (c & Hc & Hcan). exists c. split; [done|].
  intros Hr h n. by apply GetHeaderByNumber_canonical; [|apply Hcan].
Qed.

Lemma genesis_chain_done : writeGenesisImpl chain_genesis empty_chain = Ok (Some tt, genesis_chain).
Proof. apply succeeds_spec. vm_compute. reflexivity. Qed.

Lemma genesis_written : written istanbulHeaderHash 4 genesis_chain false.
Proof.
  apply (written_genesis _ 4 chain_genesis empty_chain).
  - apply memory_empty.
  - reflexivity.
  - reflexivity.
  - apply write_b_spec, genesis_write.
  - vm_compute. reflexivity.
  - vm_compute. reflexivity.
  - exact genesis_chain_done.
Qed.

(** The first block of the first branch. *)
Definition a1_chain : Blockchain := chain_of (WriteBlock istanbulHeaderHash 4 a1 genesis_chain).

Lemma a1_facts :
  write_b (bkHeader a1) = true /\ hNumber (bkHeader a1) = 1 /\
  ReadForks (bDb genesis_chain) = ErrNotFound /\
  ReadHeader istanbulHeaderHash (hHash (bkHeader a1)) (bDb genesis_chain) = ErrNotFound /\
  succeeds (WriteBlock istanbulHeaderHash 4 a1 genesis_chain) = true /\
  from_option is_reorg false (list.last (bStream a1_chain)) = false.
Proof. vm_compute. repeat split; reflexivity. Qed.

Lemma a1_wf c : chain_ok istanbulHeaderHash genesis_chain c -> block_wf istanbulHeaderHash a1 c.
Proof.
  intros Hc. destruct a1_facts as (Hw%write_b_spec & Hn & Hf & Hh & _). destruct (Hw) as (Hword & _).
  rewrite (im_forks _ _ _ (ok_db _ _ _ Hc)) in Hf. rewrite (im_headers _ _ _ (ok_db _ _ _ Hc) _ Hword) in Hh.
  split.
  - exact Hw.
  - by rewrite Hn.
  - split; [exact Hword|]. split; [constructor|]. split; [constructor|]. vm_compute. reflexivity.
  - constructor.
  - intros h E. exfalso. rewrite E in Hh. discriminate Hh.
  - intros h. unfold new_forks. destruct (cForks c); [discriminate|]. apply fork_short.
  - intros root creator x r x' [= <- _]. split; [exact Hword|]. split; [constructor|]. vm_compute. reflexivity.
Qed.

Lemma a1_written : written istanbulHeaderHash 4 a1_chain false.
Proof.
  destruct a1_facts as (_ & _ & _ & _ & E%succeeds_spec & Hr).
  pose proof (written_block _ 4 genesis_chain false a1 a1_chain genesis_written a1_wf E) as Hb. by rewrite Hr in Hb.
Qed.

Lemma canonical_chain_witness :
  exists c, chain_ok istanbulHeaderHash a1_chain c /\
    (false = false -> forall h n, bCurrentHeader a1_chain = Some h -> 0 <= n <= hNumber h ->
     exists a b', GetHeaderByNumber istanbulHeaderHash n a1_chain = Ok (Some a, b') /\
       hNumber a = n /\ ancestor c (hHash h) n (hHash a)).
Proof. exact (canonical_chain istanbulHeaderHash 4 a1_chain false istanbul_hash_pure a1_written). Defined.

(** ** Reorganisations *)




(** ** Hashes of ancestors *)

(** The closure the virtual machine gets for the hashes of blocks ends, and
    gives the hash of the ancestor of the executed block with the number, and
    the zero hash for the block's own number and above. *)
Theorem block_hashes `{FastRLP} `{Runtime} `{!FastRLPOk} `{KV} `{!KVOk} `{LRU} `{!LRUOk}
    `{Roots} `{Verifier} `{BlockExecutor} HeaderHash header p i b c :
  chain_ok HeaderHash b c -> cHeaders c !! hParentHash header = Some p -> hNumber header = hNumber p + 1 ->
  is_u64 (hNumber header) -> 0 <= i ->
  exists b' a, GetHashHelper HeaderHash header i b = Ok (Some a, b') /\
    (forall a', ancestor c (hParentHash header) i a' -> a = a') /\
    (hNumber header <= i -> a = 0).
Proof. apply GetHashHelper_ok. Qed.

Lemma a2_facts :
  hHash <$> bCurrentHeader a1_chain = Some (hParentHash (bkHeader a2)) /\
  hNumber <$> bCurrentHeader a1_chain = Some 1 /\ hNumber (bkHeader a2) = 2.
Proof. vm_compute. auto. Qed.

Lemma a2_u64 : is_u64 (hNumber (bkHeader a2)).
Proof. vm_compute. split; [discriminate|reflexivity]. Qed.

Lemma a2_parent c : chain_ok istanbulHeaderHash a1_chain c ->
  exists p, cHeaders c !! hParentHash (bkHeader a2) = Some p /\ hNumber (bkHeader a2) = hNumber p + 1.
Proof.
  intros Hc. destruct a2_facts as (E1 & E2 & ->).
  destruct (ok_head _ _ _ Hc) as (h & h' & Eh & E & Hcore). rewrite Eh in E1, E2.
  apply (inj Some) in E1, E2. rewrite <- E1. exists h'. split; [exact E|]. unfold core in Hcore.
  assert (hNumber h' = hNumber h) as -> by congruence. lia.
Qed.

Lemma block_hashes_witness :
  exists c b' a, chain_ok istanbulHeaderHash a1_chain c /\
    GetHashHelper istanbulHeaderHash (bkHeader a2) 0 a1_chain = Ok (Some a, b') /\
    (forall a', ancestor c (hParentHash (bkHeader a2)) 0 a' -> a = a') /\
    (hNumber (bkHeader a2) <= 0 -> a = 0).
Proof.
  destruct (written_ok _ istanbul_hash_pure _ _ _ a1_written) as (c & Hc & _).
  destruct (a2_parent c Hc) as (p & Ep & En).
  destruct (block_hashes istanbulHeaderHash (bkHeader a2) p 0 a1_chain c Hc Ep En a2_u64 (Z.le_refl 0)) as (b' & a & H).
  exact (ex_intro _ c (ex_intro _ b' (ex_intro _ a (conj Hc H)))).
Defined.

(** ** Gas limits *)

(** The gas limit a proposer computes for its block passes the check of the
    block by the others, whatever the target, unless the parent's limit and its
    step overflow 64 bits. *)
Theorem gas_limits_agree target p :
  is_u64 target -> is_u64 p -> p + p / 1024 < 2 ^ 64 -> gas_limit_close p (calculateGasLimit target p) = true.
Proof. apply calculateGasLimit_close. Qed.

Lemma gas_limits_agree_witness : gas_limit_close 8000000 (calculateGasLimit 20000000 8000000) = true.
Proof. apply (gas_limits_agree 20000000 8000000); [unfold is_u64; lia|unfold is_u64; lia|vm_compute; reflexivity]. Defined.

(** ** Certified blocks *)

(** C14: The chain under the consensus engine only writes certified blocks: a
    block that is written has valid seals of more than 2F validators of the
    snapshot that is in force at its parent. *)
Theorem written_blocks_certified `{FastRLP} `{Runtime} `{Secp256k1} `{Curve} `{Protobuf} `{Sorting}
    `{KV} `{LRU} `{Roots} `{BlockExecutor} sv turns fuel block b store b' store' :
  engine_WriteBlock sv turns fuel block b store = Ok (true, b', store') ->
  exists snap hash extra V,
    Store.find (uint64 (hNumber (bkHeader block) - 1)) store = Some snap /\
    calculateHeaderHash (bkHeader block) = Some hash /\ getIbftExtra (bkHeader block) = Some extra /\
    signers_of snap (commitMsg hash) (eCommittedSeal extra) V /\
    2 * Snap.MaxFaultyNodes snap < Z.of_nat (size V).
Proof. apply engine_WriteBlock_quorum. Qed.

Definition written_ok_b (r : outcome (bool * Blockchain * snapshotStore)) : bool :=
  match r with Ok (true, _, _) => true | _ => false end.

Lemma written_ok_b_spec r : written_ok_b r = true -> exists b store, r = Ok (true, b, store).
Proof. destruct r as [[[[|] b] store]| |]; [eauto|discriminate..]. Qed.

(** The block of one validator, with its verifiable random value. *)
Lemma certified_written :
  written_ok_b (engine_WriteBlock idle 4 toy_fuel certified_block genesis_chain genesis_store) = true.
Proof. vm_compute. reflexivity. Qed.

Lemma written_blocks_certified_witness :
  exists snap hash extra V,
    Store.find (uint64 (hNumber (bkHeader certified_block) - 1)) genesis_store = Some snap /\
    calculateHeaderHash (bkHeader certified_block) = Some hash /\
    getIbftExtra (bkHeader certified_block) = Some extra /\
    signers_of snap (commitMsg hash) (eCommittedSeal extra) V /\
    2 * Snap.MaxFaultyNodes snap < Z.of_nat (size V).
Proof.
  destruct (written_ok_b_spec _ certified_written) as (b & store & E).
  exact (written_blocks_certified idle 4 toy_fuel certified_block genesis_chain genesis_store b store E).
Defined.
