(* ===== verification/CodecMain.v ===== *)
(** Encodings, hashes, signatures and the contracts that compute them. *)

From Stdlib Require Import ZArith Lia.
From stdpp Require Import base gmap list numbers.
From S2P Require Import Prelude Types Text Chain Rlp RlpFacts RlpTree TxSigner Sha256 Blake2 CurveField Vrf Precompiled PrecompiledFacts Extra Seals MockEngine MockChain.

Open Scope Z_scope.

(** ** Blocks *)

(** C30: A block that is marshalled is read back as it is, but for the senders of
    its transactions, which are not encoded: header, transactions and uncles. *)
Theorem block_rlp_roundtrip `{FastRLP} `{Runtime} `{!FastRLPOk} HeaderHash b :
  (forall x h, HeaderHash (with_header_hash x h) = HeaderHash h) ->
  header_complete HeaderHash (bkHeader b) -> Forall (header_complete HeaderHash) (bkUncles b) ->
  Forall tx_complete (bkTransactions b) -> len (Block_MarshalRLP b) < 2 ^ 63 ->
  Block_UnmarshalRLP HeaderHash (mkBlock zero_header [] []) (Block_MarshalRLP b) =
  Some (mkBlock (bkHeader b) (with_from 0 <$> bkTransactions b) (bkUncles b)).
Proof. intros Hp. by apply block_roundtrip. Qed.

(** C34: Putting any seals and random values into the extra data of a header keeps
    the hash the validators sign and the hash of the block, as long as the
    validators stay the same. *)
Theorem seals_keep_hash `{FastRLP} `{Runtime} `{!FastRLPOk} h e e0 :
  extra_wf e -> getIbftExtra h = Some e0 -> eValidators e = eValidators e0 ->
  getIbftExtra (PutIbftExtra h e) = Some e /\
  calculateHeaderHash (PutIbftExtra h e) = calculateHeaderHash h /\
  istanbulHeaderHash (PutIbftExtra h e) = istanbulHeaderHash h.
Proof.
  intros He E0 Ev. split; [by apply getIbftExtra_Put|]. split; [by eapply header_hash_seal|by eapply istanbul_hash_seal].
Qed.

(** ** Signatures *)

(** C33: The sender that is recovered from a transaction signed with a key, for
    the same chain, is the address of the key. *)
Theorem signed_sender `{FastRLP} `{Runtime} `{Secp256k1} `{!Secp256k1Ok} chainID tx k v r s :
  0 <= chainID < 2 ^ 62 ->
  SignCompact k (Hash_Bytes (EIP155_Hash chainID tx)) = Some (v :: be_encode 32 r ++ be_encode 32 s) ->
  27 <= v <= 28 -> 0 <= r < 2 ^ 256 -> 0 <= s < 2 ^ 256 ->
  value_in_order r = true -> value_in_order s = true ->
  exists tx', EIP155_SignTx chainID tx k = Some tx' /\
    EIP155_Sender chainID tx' = Ok (Some (PubKeyToAddress (public_of k))).
Proof. apply sign_sender. Qed.

(** C32: The verifiable random function is complete: the value and the proof that
    a validator computes with its key, whatever the randomness of the proof, are
    accepted for its public key. *)
Theorem vrf_verifies `{Secp256k1} `{Curve} key_D `{!CurveOk key_D} fuel k r m vrf nizk :
  Forall is_byte r -> Vrf key_D fuel k r m = Ok (vrf, nizk) -> Verify fuel (public_of k) m vrf nizk = Ok true.
Proof. intros Hr Hv. by apply (vrf_complete key_D fuel k r m). Qed.

(** ** Precompiled contracts *)

(** C31: The contract blake2f computes the compression function of RFC 7693, for
    any number of rounds, counters and final flag, whatever is left in its
    buffer. *)
Theorem blake2f_is_rfc7693 rounds h m t0 t1 f :
  0 <= rounds < 2 ^ 32 -> length h = 8%nat -> length m = 16%nat ->
  Forall is_u64 h -> Forall is_u64 m -> is_u64 t0 -> is_u64 t1 ->
  returns (blake2f_run (blake2f_input rounds h m t0 t1 f))
    (flat_map le64 (RFC7693.F h m (t0 + 2 ^ 64 * t1) f (Z.to_nat rounds)), None).
Proof. apply blake2f_exact. Qed.

(** C35: The contract modexp charges the gas of EIP-198, or the largest number if
    that overflows 64 bits, and computes the power of the numbers its input
    spells, missing bytes being zero. *)
Theorem modexp_correct `{Runtime} input :
  Forall is_byte input ->
  let baseLen := number_at input 0 32 in
  let expLen := number_at input 32 32 in
  let modLen := number_at input 64 32 in
  baseLen < 2 ^ 63 -> expLen < 2 ^ 63 -> modLen < 2 ^ 63 ->
  let B := number_at input 96 baseLen in
  let E := number_at input (96 + baseLen) expLen in
  let M := number_at input (96 + baseLen + expLen) modLen in
  returns (modExp_gas input) (Z.min (eip198_gas input) (2 ^ 64 - 1)) /\
  returns (modExp_run input)
    ((if (baseLen =? 0) && (modLen =? 0) then []
      else be_encode (Z.to_nat modLen) (if M =? 0 then 0 else B ^ E mod M)), None).
Proof.
  intros Hb baseLen expLen modLen H1 H2 H3 B E M. split; [by apply modExp_gas_exact|by apply modExp_exact].
Qed.

(** ** A block with a transaction *)

Definition codec_tx : Transaction :=
  let t := mkTransaction 1 5 30000 (Some 7) 1 [1; 2] (Some 37) (Some 9) (Some 10) 0 0 in
  with_hash (be_decode (Keccak256Rlp (Transaction_MarshalRLPWith t))) t.
Definition codec_block : Block := mkBlock chain_genesis [codec_tx] [].

Lemma codec_tx_complete : tx_complete codec_tx.
Proof.
  assert (hashed codec_tx) as Hh by (vm_compute; reflexivity).
  split; [|repeat split; eexists; reflexivity|exact Hh]. split.
  - vm_compute. split; [discriminate|reflexivity].
  - vm_compute. discriminate.
  - vm_compute. split; [discriminate|reflexivity].
  - vm_compute. split; [discriminate|reflexivity].
  - vm_compute. discriminate.
  - apply bytes_b_spec. reflexivity.
  - vm_compute. discriminate.
  - vm_compute. discriminate.
  - vm_compute. discriminate.
Qed.

Lemma block_rlp_roundtrip_witness :
  Block_UnmarshalRLP istanbulHeaderHash (mkBlock zero_header [] []) (Block_MarshalRLP codec_block) =
  Some (mkBlock chain_genesis [with_from 0 codec_tx] []).
Proof.
  destruct (write_b_spec _ genesis_write) as (_ & Hc & _).
  apply (block_rlp_roundtrip istanbulHeaderHash codec_block).
  - exact istanbul_hash_pure.
  - exact Hc.
  - apply List.Forall_nil.
  - apply List.Forall_cons; [exact codec_tx_complete|apply List.Forall_nil].
  - vm_compute. reflexivity.
Defined.

(** The genesis with a seal and a committed seal. *)
Definition seal_extra : IstanbulExtra := mkExtra solo [1; 2; 3] [[4; 5]; [6]] [7] [8; 9].

Lemma seal_extra_wf : extra_wf seal_extra.
Proof.
  split; cbn [seal_extra eValidators eSeal eCommittedSeal eVrfValue eVrfProof].
  - apply List.Forall_cons; [|apply List.Forall_nil]. vm_compute. split; [discriminate|reflexivity].
  - apply bytes_b_spec. reflexivity.
  - apply List.Forall_cons; [|apply List.Forall_cons; [|apply List.Forall_nil]];
      (split; [apply bytes_b_spec; reflexivity|discriminate]).
  - apply bytes_b_spec. reflexivity.
  - apply bytes_b_spec. reflexivity.
  - vm_compute. reflexivity.
Qed.

Lemma genesis_extra : getIbftExtra chain_genesis = Some (mkExtra solo [] [] [] []).
Proof. vm_compute. reflexivity. Qed.

Lemma seals_keep_hash_witness :
  getIbftExtra (PutIbftExtra chain_genesis seal_extra) = Some seal_extra /\
  calculateHeaderHash (PutIbftExtra chain_genesis seal_extra) = calculateHeaderHash chain_genesis /\
  istanbulHeaderHash (PutIbftExtra chain_genesis seal_extra) = istanbulHeaderHash chain_genesis.
Proof. exact (seals_keep_hash chain_genesis seal_extra _ seal_extra_wf genesis_extra eq_refl). Defined.

(** ** A signed transaction *)

Definition codec_s : Z := be_decode (Hash_Bytes (EIP155_Hash 1 codec_tx)) + 1.

Lemma codec_signature :
  SignCompact 5 (Hash_Bytes (EIP155_Hash 1 codec_tx)) = Some (27 :: be_encode 32 6 ++ be_encode 32 codec_s) /\
  0 <= codec_s < 2 ^ 256 /\ value_in_order 6 = true /\ value_in_order codec_s = true.
Proof. vm_compute. repeat split; reflexivity || discriminate. Qed.

Lemma signed_sender_witness :
  exists tx', EIP155_SignTx 1 codec_tx 5 = Some tx' /\
    EIP155_Sender 1 tx' = Ok (Some (PubKeyToAddress (public_of 5))).
Proof.
  assert (0 <= 1 < 2 ^ 62 /\ 27 <= 27 <= 28 /\ 0 <= 6 < 2 ^ 256) as (Hc & Hv & Hr) by lia.
  destruct codec_signature as (Hs & Hb & H6 & Ho).
  exact (signed_sender (H1 := toy_keys) 1 codec_tx 5 27 6 codec_s Hc Hs Hv Hr Hb H6 Ho).
Defined.

(** ** A random value *)

Definition vrf_pair (r : outcome (list Z * list Z)) : list Z * list Z :=
  match r with Ok p => p | _ => ([], []) end.
Definition vrf_ran (r : outcome (list Z * list Z)) : bool := match r with Ok _ => true | _ => false end.

Lemma vrf_ran_spec r : vrf_ran r = true -> r = Ok ((vrf_pair r).1, (vrf_pair r).2).
Proof. by destruct r as [[v p]| |]. Qed.

Lemma vrf_evaluated : vrf_ran (Vrf toy_D toy_fuel 1 [5] [1; 2; 3]) = true.
Proof. vm_compute. reflexivity. Qed.

Lemma five_byte : Forall is_byte [5].
Proof. apply bytes_b_spec. reflexivity. Qed.

Lemma vrf_verifies_witness :
  Verify toy_fuel (public_of 1) [1; 2; 3] (vrf_pair (Vrf toy_D toy_fuel 1 [5] [1; 2; 3])).1
    (vrf_pair (Vrf toy_D toy_fuel 1 [5] [1; 2; 3])).2 = Ok true.
Proof.
  exact (vrf_verifies (H := toy_keys) toy_D toy_fuel 1 [5] [1; 2; 3] _ _ five_byte (vrf_ran_spec _ vrf_evaluated)).
Defined.

(** ** Inputs of the contracts *)

Definition blake_h : list Z :=
  [0x6a09e667f2bdc948; 0xbb67ae8584caa73b; 0x3c6ef372fe94f82b; 0xa54ff53a5f1d36f1;
   0x510e527fade682d1; 0x9b05688c2b3e6c1f; 0x1f83d9abfb41bd6b; 0x5be0cd19137e2179].
Definition blake_m : list Z := 0x636261 :: replicate 15 0.

Lemma u64s_b l : forallb u64_b l = true -> Forall is_u64 l.
Proof. rewrite forallb_forall. intros Hl. apply List.Forall_forall. intros x Hx%Hl. unfold u64_b in Hx. unfold is_u64. lia. Qed.

Lemma blake2f_is_rfc7693_witness :
  returns (blake2f_run (blake2f_input 12 blake_h blake_m 3 0 true))
    (flat_map le64 (RFC7693.F blake_h blake_m (3 + 2 ^ 64 * 0) true (Z.to_nat 12)), None).
Proof.
  apply (blake2f_is_rfc7693 12 blake_h blake_m 3 0 true).
  - lia.
  - reflexivity.
  - reflexivity.
  - apply u64s_b. reflexivity.
  - apply u64s_b. reflexivity.
  - unfold is_u64. lia.
  - unfold is_u64. lia.
Defined.

(** 3 to the fifth modulo 7. *)
Definition modexp_input : list Z := be_encode 32 1 ++ be_encode 32 1 ++ be_encode 32 1 ++ [3; 5; 7].

Lemma modexp_input_bytes : Forall is_byte modexp_input.
Proof. apply bytes_b_spec. vm_compute. reflexivity. Qed.

Lemma modexp_correct_witness :
  returns (modExp_gas modexp_input) (Z.min (eip198_gas modexp_input) (2 ^ 64 - 1)) /\
  returns (modExp_run modexp_input) ([5], None).
Proof.
  assert (number_at modexp_input 0 32 < 2 ^ 63 /\ number_at modexp_input 32 32 < 2 ^ 63 /\
    number_at modexp_input 64 32 < 2 ^ 63) as (H1 & H2 & H3) by (vm_compute; auto).
  exact (modexp_correct modexp_input modexp_input_bytes H1 H2 H3).
Defined.
