(* ===== verification/CalcMain.v ===== *)
(** The roots of the lists of a block: the fast hasher and the trie agree, and the
    header of a block determines its transactions. *)

From Stdlib Require Import ZArith Lia.
From stdpp Require Import base gmap list numbers.
From S2P Require Import Prelude Types Chain Rlp RlpFacts RlpTree Nibbles Storage Txn Trie TrieRep TrieOps TrieHash TrieMap TrieState TrieDB TrieHistory MockTrie CalcRoot CalcFacts Executor Blockchain BlockchainFacts.

Open Scope Z_scope.
Open Scope outcome_scope.

Section main.
Context `{FastRLP} `{Runtime} `{!FastRLPOk} `{!NodeRLP} `{!NodeRLPOk} `{TrieStorage}.

(** ** The fast hasher *)

(** C25: for any number of elements of any size, the root that [CalculateRoot]
    returns, with the fast hasher for up to 128 elements of at least 32 bytes, is
    the one that the trie of the elements under their encoded indices has. *)
Theorem calculate_root_is_trie_root num h : 0 <= num < 2 ^ 63 ->
  (forall i, 0 <= i < num -> value_ok (h i) /\ len (h i) < 2 ^ 62) ->
  exists root, CalculateRoot num h = Ok root /\ deriveSlow num h = Ok (Hash_Bytes root) /\
    is_root (index_map num h) (Hash_Bytes root).
Proof.
  intros Hnum Hv. destruct (CalculateRoot_ok num h Hnum Hv) as (root & E & Hr & Es). by exists root.
Qed.

(** ** Lists *)

Lemma index_key_inj i j : 0 <= i < 2 ^ 63 -> 0 <= j < 2 ^ 63 -> index_key i = index_key j -> i = j.
Proof.
  assert (forall n, 0 <= n < 2 ^ 63 -> exists v, Parse (index_key n) = Some v /\ GetUint64 v = Some n) as Hp.
  { intros n Hn. assert (is_u64 n) by (unfold is_u64; lia).
    assert (length (big_Bytes n) <= 8)%nat by (apply big_Bytes_length; lia).
    pose proof (rlp_string_length (big_Bytes n) ltac:(unfold len; lia)).
    destruct (parse_marshal (NewUint n)) as (v & E & Hd); [by apply wf_uint|rewrite marshal_uint; unfold len; lia|].
    exists v. split; [done|]. by apply decoded_uint in Hd as [? _]. }
  intros Hi Hj E. destruct (Hp i Hi) as (v & Ev & Ei). destruct (Hp j Hj) as (v' & Ev' & Ej).
  rewrite E in Ev. congruence.
Qed.

Lemma index_map_lookup num h i : 0 <= num < 2 ^ 63 -> 0 <= i < 2 ^ 63 ->
  index_map num h !! index_key i = if decide (i < num) then Some (h i) else None.
Proof.
  intros Hnum Hi. unfold index_map. case_decide as Hlt.
  - apply (spec_ops_in (index_ops num h) (OpInsert (index_key i) (h i))).
    + unfold index_ops. rewrite <- list_fmap_compose. apply NoDup_fmap_2_strong; [|apply NoDup_seqZ].
      intros x y Hx%elem_of_seqZ Hy%elem_of_seqZ. cbn. apply index_key_inj; lia.
    + apply list_elem_of_fmap. exists i. split; [done|]. apply elem_of_seqZ. lia.
  - rewrite spec_ops_other, lookup_empty; [done|]. intros (j & E & Hj)%index_keys. apply index_key_inj in E; lia.
Qed.

(** Elements and their encodings. *)
Definition at_index {A} (f : A -> list Z) (d : list Z) (l : list A) (i : Z) : list Z :=
  match l !! Z.to_nat i with Some x => f x | None => d end.

Lemma index_map_list {A} (f : A -> list Z) d l l' : len l < 2 ^ 63 -> len l' < 2 ^ 63 ->
  index_map (len l) (at_index f d l) = index_map (len l') (at_index f d l') -> f <$> l = f <$> l'.
Proof.
  intros Hl Hl' E. unfold len in *. apply list_eq. intros i. rewrite !list_lookup_fmap.
  assert (forall l1 : list A, Z.of_nat (length l1) < 2 ^ 63 -> Z.of_nat i < 2 ^ 63 ->
    index_map (Z.of_nat (length l1)) (at_index f d l1) !! index_key (Z.of_nat i) = f <$> l1 !! i) as Hlook.
  { intros l1 Hl1 Hi. rewrite index_map_lookup by lia. unfold at_index. rewrite Nat2Z.id. case_decide as Hlt.
    - destruct (lookup_lt_is_Some_2 l1 i) as [x Ex]; [lia|]. by rewrite Ex.
    - rewrite lookup_ge_None_2 by lia. done. }
  destruct (decide (Z.of_nat i < 2 ^ 63)) as [Hi|Hi]; [by rewrite <- !Hlook, E by done|].
  rewrite !lookup_ge_None_2 by lia. done.
Qed.

Definition tx_data (txs : list Transaction) : bmap := index_map (len txs) (at_index Transaction_MarshalRLP [128] txs).

Lemma transactions_root txs : len txs < 2 ^ 63 -> Forall tx_complete txs ->
  Forall (fun t => len (Transaction_MarshalRLP t) < 2 ^ 62) txs ->
  exists root, CalcRoot.CalculateTransactionsRoot txs = Ok root /\ is_root (tx_data txs) (Hash_Bytes root).
Proof.
  intros Hl Hc Hlen. unfold CalcRoot.CalculateTransactionsRoot, calculateRootWithRlp.
  set (h := fun i : Z => MarshalTo _).
  assert (forall i, h i = at_index Transaction_MarshalRLP [128] txs i) as Eh.
  { intros i. unfold h, at_index. destruct (txs !! Z.to_nat i); [done|apply marshal_null]. }
  destruct (CalculateRoot_ok (len txs) h) as (root & E & Hr & _); [unfold len in *; lia| |].
  { intros i Hi. rewrite Eh. unfold at_index, len in *.
    destruct (lookup_lt_is_Some_2 txs (Z.to_nat i)) as [t Et]; [lia|]. rewrite Et.
    apply list_elem_of_lookup_2, list_elem_of_In in Et. rewrite List.Forall_forall in Hc, Hlen.
    split; [|by apply Hlen]. split.
    - apply marshal_byte; [apply tx_rlp_wf, Hc, Et|]. specialize (Hlen t Et). cbn in Hlen. unfold len in *. unfold Transaction_MarshalRLP in Hlen. lia.
    - unfold Transaction_MarshalRLP, Transaction_MarshalRLPWith. rewrite marshal_array. unfold rlp_list.
      intros [E _]%app_nil. revert E. unfold rlp_prefix. by case_match. }
  exists root. split; [done|]. unfold tx_data.
  assert (index_map (len txs) (at_index Transaction_MarshalRLP [128] txs) = index_map (len txs) h) as ->; [|done].
  unfold index_map, index_ops. f_equal. apply map_ext. intros i. by rewrite Eh.
Qed.

End main.

(** ** The transactions of a block *)

Section body.
Context `{FastRLP} `{Runtime} `{!FastRLPOk} `{!NodeRLP} `{!NodeRLPOk} `{TrieStorage}.
Context `{KV} `{LRU} `{Verifier} `{BlockExecutor} (HeaderHash : Header -> Hash).

#[local] Existing Instance calc_roots.

Lemma WriteBlock_checks turns block b b' : WriteBlock HeaderHash turns block b = Ok (Some tt, b') ->
  CalculateTransactionsRoot (bkTransactions block) = hTxRoot (bkHeader block).
Proof.
  unfold WriteBlock. intros (p & b1 & _ & E)%cbind_inv. revert E. do 3 (case_match; [done|]).
  intros (u & b2 & _ & E)%cbind_inv. revert E. case_match; [done|].
  destruct (Z.eqb_spec (CalculateTransactionsRoot (bkTransactions block)) (hTxRoot (bkHeader block))) as [Et|]; [done|done].
Qed.

Definition txs_ok (txs : list Transaction) : Prop :=
  len txs < 2 ^ 63 /\ Forall tx_complete txs /\ Forall (fun t => len (Transaction_MarshalRLP t) < 2 ^ 62) txs.

Lemma encodings_eq txs : forall txs', Forall tx_complete txs -> Forall tx_complete txs' ->
  Forall (fun t => len (Transaction_MarshalRLP t) < 2 ^ 62) txs -> Forall (fun t => len (Transaction_MarshalRLP t) < 2 ^ 62) txs' ->
  Transaction_MarshalRLP <$> txs = Transaction_MarshalRLP <$> txs' -> with_from 0 <$> txs = with_from 0 <$> txs'.
Proof.
  induction txs as [|t txs IH]; intros [|t' txs']; try done. cbn. intros Hc Hc' Hlen Hlen' E.
  apply List.Forall_cons_iff in Hc as [Ht Hc], Hc' as [Ht' Hc'], Hlen as [Hl Hlen], Hlen' as [Hl' Hlen'].
  injection E as E Es. f_equal; [|by apply IH].
  pose proof (transaction_roundtrip t Ht ltac:(lia)) as R. pose proof (transaction_roundtrip t' Ht' ltac:(lia)) as R'.
  rewrite E in R. congruence.
Qed.

Lemma roots_bind txs txs' : txs_ok txs -> txs_ok txs' -> collision_free no_store [tx_data txs; tx_data txs'] ->
  CalculateTransactionsRoot txs = CalculateTransactionsRoot txs' -> with_from 0 <$> txs = with_from 0 <$> txs'.
Proof.
  intros (Hl & Hc & Hlen) (Hl' & Hc' & Hlen') Hfree. cbn [CalculateTransactionsRoot calc_roots].
  destruct (transactions_root txs Hl Hc Hlen) as (root & -> & Hr). destruct (transactions_root txs' Hl' Hc' Hlen') as (root' & -> & Hr').
  cbn [root_of]. intros <-. pose proof (is_root_binds _ _ _ Hr Hr' Hfree) as E. apply index_map_list in E; [|done|done].
  by apply encodings_eq.
Qed.

(** C11: two blocks with the same transactions root that the chain has accepted have
    the same transactions, up to the cached senders, unless two nodes of their
    tries have the same hash. *)
Theorem header_binds_transactions turns turns' block block' b b1 b' b1' :
  WriteBlock HeaderHash turns block b = Ok (Some tt, b1) ->
  WriteBlock HeaderHash turns' block' b' = Ok (Some tt, b1') ->
  hTxRoot (bkHeader block) = hTxRoot (bkHeader block') ->
  txs_ok (bkTransactions block) -> txs_ok (bkTransactions block') ->
  collision_free no_store [tx_data (bkTransactions block); tx_data (bkTransactions block')] ->
  with_from 0 <$> bkTransactions block = with_from 0 <$> bkTransactions block'.
Proof.
  intros E%WriteBlock_checks E'%WriteBlock_checks Eh Ht Ht' Hfree. apply roots_bind; [done|done|done|]. congruence.
Qed.

End body.

(** ** Examples *)

Section example.

#[local] Existing Instances residue_runtime Mem.storage map_lru.
#[local] Existing Instance mem_roots.

Lemma calculate_root_is_trie_root_witness :
  exists root, CalculateRoot 20 (fun i => replicate 40 (i mod 256)) = Ok root /\
    deriveSlow 20 (fun i => replicate 40 (i mod 256)) = Ok (Hash_Bytes root).
Proof.
  destruct (calculate_root_is_trie_root 20 (fun i => replicate 40 (i mod 256)))
    as (root & E & Es & _).
  - done.
  - intros i _. split; [|done]. split; [|done]. apply Forall_replicate. apply Z.mod_pos_bound. lia.
  - exists root. split; [exact E|exact Es].
Defined.

(** A consensus that accepts every header, and an executor that gives a receipt
    for every transaction. *)
#[local] Instance any_header : Verifier := {|
  Consensus := unit;
  VerifyHeader _ _ c := Ok (true, c);
  GetBlockCreator _ := Ok (Some 0)
|}.

Definition example_receipt : Receipt := mkReceipt 0 21000 (replicate 256 0) [] (Some 1) 21000 0 5.

#[local] Instance receipts : BlockExecutor := {|
  ExecState := unit;
  exec_ProcessBlock root block _ x := Ok (Some (mkBlockResult root ((fun _ => example_receipt) <$> bkTransactions block) 21000), x)
|}.

Definition header_hash (h : Header) : Hash := be_decode (Keccak256Rlp (Header_MarshalRLPWith h)).

(** A signed transaction, and its sender as one node has cached it. *)
Definition example_tx (from : Address) : Transaction :=
  let t := mkTransaction 3 1 21000 (Some 9) 1000 [] (Some 27) (Some 11) (Some 12) 0 from in
  with_hash (be_decode (Keccak256Rlp (Transaction_MarshalRLPWith t))) t.

Definition example_genesis : Header :=
  Header_ComputeHash header_hash
    (mkHeader 0 EmptyUncleHash 0 1 EmptyRootHash EmptyRootHash (replicate 256 0) 0 0 1000000 0 0 [] 0 (replicate 8 0) 0).

Definition no_chain : Blockchain :=
  mkBlockchain (∅ : gmap (list Z) (list Z)) 0 0 (lru_New : lru Header) (lru_New : lru Z) None None [] 0 0 tt tt.

Definition chain_after (r : outcome (option unit * Blockchain)) : Blockchain :=
  match r with Ok (_, b) => b | _ => no_chain end.

Definition example_chain : Blockchain := chain_after (writeGenesisImpl example_genesis no_chain).

Definition example_block (time : Z) (from : Address) : Block :=
  BuildBlock header_hash
    (mkHeader (hHash example_genesis) 0 0 1 0 0 (replicate 256 0) 1 1 1000000 21000 time [] 0 (replicate 8 0) 0)
    [example_tx from] [example_receipt].

Definition written_chain (time : Z) (from : Address) : Blockchain :=
  chain_after (WriteBlock header_hash 4 (example_block time from) example_chain).

Definition accepted (r : outcome (option unit * Blockchain)) : bool := match r with Ok (Some _, _) => true | _ => false end.

Lemma accepted_spec r : accepted r = true -> r = Ok (Some tt, chain_after r).
Proof. by destruct r as [[[[]|] b]| |]. Qed.

Lemma example_txs_ok from : txs_ok [example_tx from].
Proof.
  split; [done|]. split; [|constructor; [|constructor]].
  - constructor; [|constructor]. split; [|by repeat split; eexists|done]. split; cbn; unfold is_u64, is_addr, opt_nonneg; cbn; try lia. constructor.
  - by vm_compute.
Qed.

Lemma header_binds_transactions_witness :
  with_from 0 <$> bkTransactions (example_block 5 0) = with_from 0 <$> bkTransactions (example_block 6 77).
Proof.
  apply (header_binds_transactions header_hash 4 4 (example_block 5 0) (example_block 6 77)
    example_chain (written_chain 5 0) example_chain (written_chain 6 77)).
  - apply accepted_spec. by vm_compute.
  - apply accepted_spec. by vm_compute.
  - by vm_compute.
  - apply example_txs_ok.
  - apply example_txs_ok.
  - apply (free_check_ok 1); by vm_compute.
Defined.

End example.
