(* ===== verification/SyncMain.v ===== *)
(** The synchronisation of blocks: what a node writes when it follows a peer that
    runs the same service, whom it follows, what a broadcast does, and how a peer
    can stop a node. *)

From Stdlib Require Import ZArith Lia.
From stdpp Require Import base gmap list numbers.
From S2P Require Import Prelude Types Text Chain Rlp RlpFacts RlpTree TxSigner CurveField Vrf Heap Validators MsgQueue Snapshots Extra Seals Ibft IbftFacts Storage StorageFacts Executor Blockchain CalcRoot BlockchainFacts EngineChain Syncer SyncFacts MockEngine MockChain ChainMain.

Open Scope Z_scope.

(** ** Following a peer *)

(** C13: A node that synchronises with a peer that runs the service on a chain of
    its own writes the peer's blocks, each given to the handler once written,
    without a gap from the one after the common ancestor up to the number of the
    peer's status: it ends exactly as the writing of these blocks does, and it
    ends whenever the status of the peer settles. *)
Theorem bulk_sync_copies `{FastRLP} `{Runtime} `{!FastRLPOk} (node peer : Shim) HeaderHash
    (J : @Node node -> Prop) (I : @Node peer -> Prop) P head loc top k status turns ts r c p :
  (forall x h, HeaderHash (with_header_hash x h) = HeaderHash h) ->
  chain_of_blocks HeaderHash P -> @reads_as peer I P ->
  @local_chain node J head loc -> agree_to P loc top k -> Z.min (stNumber status) (hNumber head) = Z.of_nat top ->
  settles P 0 ts r -> 0 < r -> (length P <= turns)%nat -> (S k < length P)%nat -> J c -> I p ->
  exists a c' bs e, (a = k \/ a = 0%nat /\ k = 1%nat) /\ J c' /\ follows P (S a) bs e /\ r <= Z.of_nat e /\
    @ends_as node (service_client peer) I unit (eq None)
      (@BulkSyncWithPeer _ node (service_client peer) HeaderHash turns status ts (mkSync node (service_client peer) c p [] None))
      (@apply_blocks node bs c' []) tt.
Proof.
  intros Hp HP HR HL HA Hst Hs Hr Ht Hk HJ HI. pose proof (@service_honest _ _ peer HeaderHash I P HP HR) as HO.
  exact (@BulkSync_ok _ _ _ node (service_client peer) HeaderHash Hp I P HP HO J head loc top k status turns ts r
    (mkSync node (service_client peer) c p [] None) HL HA Hst Hs Hr Ht Hk HJ HI).
Qed.

(** C28: The binary search finds the last block on which the two chains agree, and
    the peer's block after it; only when that is the first block may it return
    the genesis instead.  A peer that has no block after it is an error. *)
Theorem common_ancestor_found `{FastRLP} `{Runtime} `{!FastRLPOk} (node peer : Shim) HeaderHash
    (J : @Node node -> Prop) (I : @Node peer -> Prop) P head loc top k status c p :
  (forall x h, HeaderHash (with_header_hash x h) = HeaderHash h) ->
  chain_of_blocks HeaderHash P -> @reads_as peer I P ->
  @local_chain node J head loc -> agree_to P loc top k -> Z.min (stNumber status) (hNumber head) = Z.of_nat top ->
  J c -> I p ->
  exists a h c' p', found_at P k a h /\ J c' /\ I p' /\
    @findCommonAncestor _ node (service_client peer) HeaderHash status (mkSync node (service_client peer) c p [] None) =
    Ok (match P !! S a with Some b => Good (h, bkHeader b) | None => Err ErrForkNotFound end,
        mkSync node (service_client peer) c' p' [] None).
Proof.
  intros Hp HP HR HL HA Hst HJ HI. pose proof (@service_honest _ _ peer HeaderHash I P HP HR) as HO.
  destruct (@findCommonAncestor_ok _ _ _ node (service_client peer) HeaderHash Hp I P HP HO J head loc top k HL HA
    ltac:(lia) status Hst) as (a & h & Hf & Hq).
  destruct (Hq (mkSync node (service_client peer) c p [] None) HJ HI) as (c' & p' & E & HJ' & HI').
  by exists a, h, c', p'.
Qed.

(** ** Whom to follow *)

(** The peer chosen has the largest difficulty of all, which is more than that
    of the chain; none is chosen when no peer has more.  The order in which the
    peers are visited does not matter. *)
Theorem best_peer_is_best `{Shim} s c cur :
  Forall (fun q => is_Some (stDifficulty (spStatus q.2))) (syPeers s) -> sh_CurrentTD c = Some cur ->
  exists r, BestPeer s c = Ok r /\
    match r with
    | Some p => p ∈ syPeers s /\ exists d, stDifficulty (spStatus p.2) = Some d /\ cur < d /\
        Forall (fun q => exists e, stDifficulty (spStatus q.2) = Some e /\ e <= d) (syPeers s)
    | None => Forall (fun q => exists e, stDifficulty (spStatus q.2) = Some e /\ e <= cur) (syPeers s)
    end.
Proof. apply BestPeer_ok. Qed.

(** ** Announcing a block *)

(** C29: A block that a node broadcasts is decoded by each peer that knows the node
    to the block, without its senders; it becomes the last of the node's queue, of
    at most fifty blocks, and the node's status is that of the block.  The queues
    of the others stay. *)
Theorem broadcast_received `{FastRLP} `{Runtime} `{!FastRLPOk} `{Shim} HeaderHash b td sender c c' id p s :
  (forall x h, HeaderHash (with_header_hash x h) = HeaderHash h) ->
  header_complete HeaderHash (bkHeader b) -> Forall (header_complete HeaderHash) (bkUncles b) ->
  Forall tx_complete (bkTransactions b) -> len (Block_MarshalRLP b) < 2 ^ 63 -> is_word (Block_Hash b) ->
  sh_GetTD (Block_Hash b) c = Ok (Some td, c') ->
  peer_load id s = Some p -> (length (spEnqueue p) <= 50)%nat ->
  exists req, Broadcast b sender c = Ok (Some ((fun q => (q.1, req)) <$> syPeers sender), c') /\
  exists s' p', Notify HeaderHash (Some id) req s = Ok (true, s') /\ peer_load id s' = Some p' /\
    spEnqueue p' = lastn 50 (spEnqueue p ++ [mkBlock (bkHeader b) (with_from 0 <$> bkTransactions b) (bkUncles b)]) /\
    spStatus p' = mkStatus (Some td) (Block_Hash b) (hNumber (bkHeader b)) /\
    forall id', id' <> id -> peer_load id' s' = peer_load id' s.
Proof.
  intros Hp Hh Hu Ht Hl Hw Htd Hid Hq. eexists. split; [unfold Broadcast; rewrite Htd; done|].
  destruct (Notify_broadcast HeaderHash Hp b td id p s Hh Hu Ht Hl Hw Hid) as (s' & E & Hs' & Ho).
  eexists s', _. split; [exact E|]. split; [exact Hs'|]. split; [|by split].
  cbn [updateStatus spEnqueue]. by rewrite appendBlock_queue.
Qed.

(** ** Peers that stop a node *)

(** C36: A request for bodies stops the node exactly when it names a hash whose
    body the node cannot read: the nil pointer in the interface is not nil, and
    its method dereferences it. *)
Theorem missing_body_panics `{FastRLP} `{Runtime} `{KV} `{LRU} `{Roots} `{Verifier} `{BlockExecutor}
    HeaderHash turns hashes b :
  @GetObjectsByHash _ (chain_shim HeaderHash turns) (mkHashRequest hashes BODIES) b = Panic <->
  exists text, text ∈ hashes /\ forall body, ReadBody HeaderHash (Hash_UnmarshalText text) (bDb b) <> Found body.
Proof.
  unfold GetObjectsByHash, DecodeHashes. cbn [hrType hrHash].
  pose proof (objects_bodies HeaderHash turns (Hash_UnmarshalText <$> hashes) [] b) as Ho.
  destruct (existsb _ _) eqn:Ex.
  - split; [intros _|intros _; exact Ho]. apply existsb_exists in Ex as (k & Hin & Hk).
    apply list_elem_of_In, list_elem_of_fmap in Hin as (text & -> & Hin). exists text. split; [done|].
    intros body E. by rewrite E in Hk.
  - split; [destruct Ho as (objs & E & _); intros F; pose proof (eq_trans (eq_sym F) E); done|]. intros (text & Hin & Hr). exfalso.
    apply not_true_iff_false in Ex. apply Ex, existsb_exists. exists (Hash_UnmarshalText text). split.
    + apply list_elem_of_In, list_elem_of_fmap. by exists text.
    + destruct (ReadBody _ _ _) as [body| |] eqn:E; [by destruct (Hr body)|done|done].
Qed.

(** A peer that has given an ancestor and a next block and then answers the
    request for the skeleton with no headers stops the node: the last header of
    no slots is an index out of range. *)
Theorem empty_skeleton_panics `{FastRLP} `{Shim} `{V1Client} HeaderHash turns status target ts s s1 ancestor fork p' :
  findCommonAncestor HeaderHash status s = Ok (Good (ancestor, fork), s1) -> target <> 0 ->
  clt_GetHeaders (mkGetHeaders 0 (Hash_String (hHash fork)) 9 5) (sPeer s1) = (Some [], p') ->
  BulkSyncWithPeer HeaderHash (S turns) status (target :: ts) s = Panic.
Proof.
  intros Hf Ht Hc. unfold BulkSyncWithPeer, sbind at 1. rewrite Hf. cbn [obind]. unfold sbind at 1, progress, stop_progress.
  cbn [obind sync_targets sChain sPeer sHandled]. unfold sbind at 1, progress. cbn [obind sProgress UpdateHighestProgression of_option].
  rewrite (proj2 (Z.eqb_neq _ _) Ht). unfold sbind at 1. cbn [sync_to]. unfold sbind at 1.
  unfold sync_batch, build, getHeaders, stry, call, sbind. cbn [skSpan skNum sPeer].
  change (int64 (10 - 1)) with 9. rewrite Hc. done.
Qed.

(** ** Two nodes

    The peer has the first block of [MockChain], the node only the genesis; both
    have just opened their databases. *)

Definition peer_blocks : list Block := [genesis_block; a1].
Definition peer_node : Blockchain := set_caches lru_New lru_New a1_chain.
Definition local_node : Blockchain := set_caches lru_New lru_New genesis_chain.
Definition local_loc (n : nat) : Header := from_option bkHeader (bkHeader genesis_block) ([genesis_block] !! n).

Lemma travels_b n b : write_b (bkHeader b) = true -> hNumber (bkHeader b) = Z.of_nat n ->
  bkTransactions b = [] -> bkUncles b = [] ->
  0 < len (MarshalTo (Body_MarshalRLPWith (Block_Body b))) < 2 ^ 63 -> travels istanbulHeaderHash n b.
Proof. intros (Hw & Hc & Hl)%write_b_spec Hn Ht Hu Hb. split; try done. by rewrite Ht. Qed.

Lemma peer_blocks_ok : chain_of_blocks istanbulHeaderHash peer_blocks.
Proof.
  split; [done|]. intros [|[|n]] b; [intros [= <-]|intros [= <-]|done]; (apply travels_b;
    [vm_compute; reflexivity|vm_compute; reflexivity|vm_compute; reflexivity|vm_compute; reflexivity|
     split; vm_compute; reflexivity]).
Qed.

Lemma peer_stores : stores istanbulHeaderHash (bDb a1_chain) peer_blocks.
Proof.
  split.
  - intros n Hn. do 12 (destruct n as [|n]; [vm_compute; reflexivity|]). cbn in Hn. lia.
  - intros b [<-|[<-|[]]]%list_elem_of_In; vm_compute; reflexivity.
  - intros b [<-|[<-|[]]]%list_elem_of_In Ht; exfalso; apply Ht; vm_compute; reflexivity.
Qed.

Lemma local_stores : stores istanbulHeaderHash (bDb genesis_chain) [genesis_block].
Proof.
  split.
  - intros n Hn. do 11 (destruct n as [|n]; [vm_compute; reflexivity|]). cbn in Hn. lia.
  - intros b [<-|[]]%list_elem_of_In; vm_compute; reflexivity.
  - intros b [<-|[]]%list_elem_of_In Ht; exfalso; apply Ht; vm_compute; reflexivity.
Qed.

Lemma local_blocks_ok : chain_of_blocks istanbulHeaderHash [genesis_block].
Proof.
  split; [done|]. intros [|n] b; [intros [= <-]|done].
  apply (proj2 peer_blocks_ok 0%nat). reflexivity.
Qed.

Lemma opened_reads (b : Blockchain) : reads_from istanbulHeaderHash (bDb b) (bCurrentHeader b) (set_caches lru_New lru_New b).
Proof. split; [done|]. split; [done|]. intros k h Hin. by apply in_new in Hin. Qed.

Definition node_shim : Shim := chain_shim istanbulHeaderHash 4.

Lemma nodes_agree : agree_to peer_blocks local_loc 0 0.
Proof.
  split; [cbn; lia|]. intros [|n] b Hn; [intros [= <-]; split; [lia|]; intros _; vm_compute; reflexivity|lia].
Qed.

Lemma peer_status : settles peer_blocks 0 [1; 1] 1.
Proof. apply settles_next; [done|vm_compute; split; [discriminate|reflexivity]|]. apply settled. Qed.

Definition status_1 : Status := mkStatus (Some 2) (Block_Hash a1) 1.

Lemma genesis_head : bCurrentHeader genesis_chain = Some (bkHeader genesis_block).
Proof. vm_compute. reflexivity. Qed.

Lemma local_node_chain : @local_chain node_shim
  (reads_from istanbulHeaderHash (bDb genesis_chain) (Some (bkHeader genesis_block))) (bkHeader genesis_block) local_loc.
Proof. exact (core_local istanbulHeaderHash 4 _ _ _ local_stores local_blocks_ok eq_refl). Qed.

Lemma local_node_reads : reads_from istanbulHeaderHash (bDb genesis_chain) (Some (bkHeader genesis_block)) local_node.
Proof. rewrite <- genesis_head. apply opened_reads. Qed.

Lemma genesis_number : Z.min (stNumber status_1) (hNumber (bkHeader genesis_block)) = Z.of_nat 0.
Proof. vm_compute. reflexivity. Qed.

Lemma bulk_sync_copies_witness :
  exists a c' bs e, (a = 0%nat \/ a = 0%nat /\ 0%nat = 1%nat) /\
    reads_from istanbulHeaderHash (bDb genesis_chain) (Some (bkHeader genesis_block)) c' /\
    follows peer_blocks (S a) bs e /\ 1 <= Z.of_nat e /\
    @ends_as node_shim (service_client node_shim)
      (reads_from istanbulHeaderHash (bDb a1_chain) (bCurrentHeader a1_chain)) unit (eq None)
      (@BulkSyncWithPeer _ node_shim (service_client node_shim) istanbulHeaderHash 2 status_1 [1; 1]
        (mkSync node_shim (service_client node_shim) local_node peer_node [] None))
      (@apply_blocks node_shim bs c' []) tt.
Proof.
  apply (bulk_sync_copies node_shim node_shim istanbulHeaderHash
    (reads_from istanbulHeaderHash (bDb genesis_chain) (Some (bkHeader genesis_block)))
    (reads_from istanbulHeaderHash (bDb a1_chain) (bCurrentHeader a1_chain))
    peer_blocks (bkHeader genesis_block) local_loc 0 0 status_1 2 [1; 1] 1 local_node peer_node).
  - exact istanbul_hash_pure.
  - exact peer_blocks_ok.
  - exact (core_reads istanbulHeaderHash 4 _ _ _ peer_stores).
  - exact local_node_chain.
  - exact nodes_agree.
  - exact genesis_number.
  - exact peer_status.
  - lia.
  - cbn. lia.
  - cbn. lia.
  - exact local_node_reads.
  - exact (opened_reads a1_chain).
Defined.

Lemma common_ancestor_found_witness :
  exists a h c' p', found_at peer_blocks 0 a h /\
    reads_from istanbulHeaderHash (bDb genesis_chain) (Some (bkHeader genesis_block)) c' /\
    reads_from istanbulHeaderHash (bDb a1_chain) (bCurrentHeader a1_chain) p' /\
    @findCommonAncestor _ node_shim (service_client node_shim) istanbulHeaderHash status_1
      (mkSync node_shim (service_client node_shim) local_node peer_node [] None) =
    Ok (match peer_blocks !! S a with Some b => Good (h, bkHeader b) | None => Err ErrForkNotFound end,
        mkSync node_shim (service_client node_shim) c' p' [] None).
Proof.
  apply (common_ancestor_found node_shim node_shim istanbulHeaderHash
    (reads_from istanbulHeaderHash (bDb genesis_chain) (Some (bkHeader genesis_block)))
    (reads_from istanbulHeaderHash (bDb a1_chain) (bCurrentHeader a1_chain))
    peer_blocks (bkHeader genesis_block) local_loc 0 0 status_1 local_node peer_node).
  - exact istanbul_hash_pure.
  - exact peer_blocks_ok.
  - exact (core_reads istanbulHeaderHash 4 _ _ _ peer_stores).
  - exact local_node_chain.
  - exact nodes_agree.
  - exact genesis_number.
  - exact local_node_reads.
  - exact (opened_reads a1_chain).
Defined.

(** The synchronisation itself, run on the two nodes: the node's head is the
    peer's block, and the handler was given it. *)
Definition synced (o : outcome (res unit * @sync node_shim (service_client node_shim))) : option (option Hash * list Hash) :=
  match o with
  | Ok (Good _, s) => Some (hHash <$> bCurrentHeader (sChain s), Block_Hash <$> sHandled s)
  | _ => None
  end.

Lemma two_nodes_synced :
  synced (@BulkSyncWithPeer _ node_shim (service_client node_shim) istanbulHeaderHash 2 status_1 [1; 1]
    (mkSync node_shim (service_client node_shim) local_node peer_node [] None)) =
  Some (Some (Block_Hash a1), [Block_Hash a1]).
Proof. vm_compute. reflexivity. Qed.

(** Three peers with difficulties, and a node whose chain has less. *)
Definition some_peer (d : Z) : SyncPeer := mkSyncPeer (mkStatus (Some d) 0 0) [] false.
Definition three_peers : Syncer := mkSyncer [([1], some_peer 3); ([2], some_peer 7); ([3], some_peer 7)] None.

Lemma best_peer_is_best_witness :
  exists r, @BestPeer node_shim three_peers local_node = Ok r /\
    match r with
    | Some p => p ∈ syPeers three_peers /\ exists d, stDifficulty (spStatus p.2) = Some d /\ 0 < d /\
        Forall (fun q => exists e, stDifficulty (spStatus q.2) = Some e /\ e <= d) (syPeers three_peers)
    | None => Forall (fun q => exists e, stDifficulty (spStatus q.2) = Some e /\ e <= 0) (syPeers three_peers)
    end.
Proof.
  apply (@best_peer_is_best node_shim three_peers local_node 0).
  - repeat constructor; eexists; reflexivity.
  - vm_compute. reflexivity.
Defined.

(** The peer broadcasts its block to a node that knows it. *)
Definition knows_peer : Syncer := mkSyncer [([9], some_peer 1)] None.

Definition td_is (d : Z) (r : outcome (option Z * Blockchain)) : bool :=
  match r with Ok (Some x, _) => x =? d | _ => false end.
Lemma td_is_spec d r : td_is d r = true -> r = Ok (Some d, chain_of r).
Proof. destruct r as [[[x|] b]| |]; try done. cbn. by intros ->%Z.eqb_eq. Qed.

Lemma a1_difficulty : td_is 1 (GetTD (Block_Hash a1) peer_node) = true.
Proof. vm_compute. reflexivity. Qed.

Lemma a1_short : len (Block_MarshalRLP a1) < 2 ^ 63.
Proof. vm_compute. reflexivity. Qed.

Lemma broadcast_received_witness :
  exists req, @Broadcast _ node_shim a1 three_peers peer_node =
    Ok (Some ((fun q => (q.1, req)) <$> syPeers three_peers), chain_of (GetTD (Block_Hash a1) peer_node)) /\
  exists s' p', Notify istanbulHeaderHash (Some [9]) req knows_peer = Ok (true, s') /\ peer_load [9] s' = Some p' /\
    spEnqueue p' = lastn 50 ([] ++ [mkBlock (bkHeader a1) (with_from 0 <$> bkTransactions a1) (bkUncles a1)]) /\
    spStatus p' = mkStatus (Some 1) (Block_Hash a1) (hNumber (bkHeader a1)) /\
    forall id', id' <> [9] -> peer_load id' s' = peer_load id' knows_peer.
Proof.
  apply (@broadcast_received _ _ _ node_shim istanbulHeaderHash a1 1 three_peers peer_node
    (chain_of (GetTD (Block_Hash a1) peer_node)) [9] (some_peer 1) knows_peer).
  - exact istanbul_hash_pure.
  - exact (tr_header _ _ _ (proj2 peer_blocks_ok 1%nat a1 eq_refl)).
  - constructor.
  - constructor.
  - exact a1_short.
  - exact (tr_hash _ _ _ (proj2 peer_blocks_ok 1%nat a1 eq_refl)).
  - exact (td_is_spec _ _ a1_difficulty).
  - reflexivity.
  - cbn. lia.
Defined.

(** A peer that answers for its first block, and then nothing. *)
Definition silent_peer : V1Client := {|
  Remote := unit;
  clt_GetHeaders req p := (Some (if grNumber req =? 1 then [enc_header (bkHeader a1)] else []), p);
  clt_GetObjectsByHash req p := (None, p)
|}.

Definition silent_search : outcome (res (Header * Header) * @sync node_shim silent_peer) :=
  @findCommonAncestor _ node_shim silent_peer istanbulHeaderHash status_1 (mkSync node_shim silent_peer local_node tt [] None).

Definition search_found (r : outcome (res (Header * Header) * @sync node_shim silent_peer)) : bool :=
  match r with Ok (Good _, _) => true | _ => false end.
Definition search_fork (r : outcome (res (Header * Header) * @sync node_shim silent_peer)) : Header * Header :=
  match r with Ok (Good x, _) => x | _ => (zero_header, zero_header) end.
Definition search_state (r : outcome (res (Header * Header) * @sync node_shim silent_peer)) : @sync node_shim silent_peer :=
  match r with Ok (_, s) => s | _ => mkSync node_shim silent_peer local_node tt [] None end.
Lemma search_found_spec r : search_found r = true ->
  r = Ok (Good ((search_fork r).1, (search_fork r).2), search_state r).
Proof. by destruct r as [[[[a f]|e] s]| |]. Qed.

Lemma silent_found : search_found silent_search = true.
Proof. vm_compute. reflexivity. Qed.

Lemma empty_skeleton_panics_witness :
  @BulkSyncWithPeer _ node_shim silent_peer istanbulHeaderHash 3 status_1 [1]
    (mkSync node_shim silent_peer local_node tt [] None) = Panic.
Proof.
  apply (@empty_skeleton_panics _ node_shim silent_peer istanbulHeaderHash 2 status_1 1 []
    (mkSync node_shim silent_peer local_node tt [] None) (search_state silent_search) (search_fork silent_search).1
    (search_fork silent_search).2 tt).
  - exact (search_found_spec silent_search silent_found).
  - discriminate.
  - destruct (sPeer (search_state silent_search)). reflexivity.
Defined.
