(* ===== verification/TxPool.v ===== *)
(** The transaction pool, src/txpool: the account queues (queue.go, account.go),
    the slot gauge, the lookup map, and the pool with its requests (txpool.go,
    query.go).

    The handlers of the requests run in goroutines of their own.  A pending
    handler is a [task], cut at the points where it takes or releases a lock, so
    that any interleaving of handlers is a sequence of tasks. *)

From Stdlib Require Import ZArith Lia.
From stdpp Require Import base gmap list numbers.
From S2P Require Import Prelude Types Chain Rlp Heap Slice VM Opcodes Instructions Interp Txn Bloom Executor.

Open Scope Z_scope.

(** ** Queues *)

(** [minNonceQueue.Less] and [maxPriceQueue.Less]. *)
Definition nonce_Less (x y : Transaction) : bool := tNonce x <? tNonce y.
Definition price_Less (x y : Transaction) : bool :=
  big.Uint64 (tGasPrice y) <? big.Uint64 (tGasPrice x).

(** [accountQueue], a heap by nonce; the locks are those of the steps. *)
Module AccountQueue.

Definition newAccountQueue : list Transaction := heap_Init nonce_Less [].

Definition push (tx : Transaction) (q : list Transaction) : list Transaction :=
  heap_Push nonce_Less q tx.

Definition peek (q : list Transaction) : option Transaction := q !! 0%nat.

(** [None] for an empty queue. *)
Definition pop (q : list Transaction) : option (Transaction * list Transaction) :=
  if len q =? 0 then None else heap_Pop nonce_Less q.

(** [prune]: pops while the first nonce is below [nonce]. *)
Fixpoint prune_loop (fuel : nat) (nonce : Z) (q : list Transaction)
    : list Transaction * list Transaction :=
  match fuel with
  | O => ([], q)
  | S fuel' =>
    match peek q with
    | None => ([], q)
    | Some tx =>
      if nonce <=? tNonce tx then ([], q)
      else
        match pop q with
        | None => ([], q)
        | Some (tx, q) => let (pruned, q) := prune_loop fuel' nonce q in (tx :: pruned, q)
        end
    end
  end.
Definition prune (nonce : Z) (q : list Transaction) : list Transaction * list Transaction :=
  prune_loop (length q) nonce q.

(** [clear]: the removed transactions and the empty queue. *)
Definition clear (q : list Transaction) : list Transaction * list Transaction := (q, []).

End AccountQueue.

(** [pricedQueue], a heap by gas price. *)
Module PricedQueue.

Definition push (tx : Transaction) (q : list Transaction) : list Transaction :=
  heap_Push price_Less q tx.

Definition pop (q : list Transaction) : option (Transaction * list Transaction) :=
  if len q =? 0 then None else heap_Pop price_Less q.

End PricedQueue.

(** ** Accounts *)

Record account := mkAccount {
  aEnqueued : list Transaction;
  aPromoted : list Transaction;
  aNextNonce : Z
}.

Inductive poolerror :=
| ErrIntrinsicGas
| ErrBlockLimitExceeded
| ErrNegativeValue
| ErrNonEncryptedTx
| ErrInvalidSender
| ErrTxPoolOverflow
| ErrUnderpriced
| ErrNonceTooLow
| ErrInsufficientFunds
| ErrInvalidAccountState
| ErrAlreadyKnown
| ErrOversizedData
| ErrInvalidTransaction
| ErrGasCost.

Definition account_enqueue (tx : Transaction) (a : account) : account + poolerror :=
  if tNonce tx <? aNextNonce a then inr ErrNonceTooLow
  else inl (mkAccount (AccountQueue.push tx (aEnqueued a)) (aPromoted a) (aNextNonce a)).

(** The loop of [promote]: the moved transactions, both queues and the nonce
    expected after them. *)
Fixpoint promote_loop (fuel : nat) (nextNonce : Z) (enqueued promoted : list Transaction)
    : list Transaction * list Transaction * list Transaction * Z :=
  match fuel with
  | O => ([], enqueued, promoted, nextNonce)
  | S fuel' =>
    match AccountQueue.peek enqueued with
    | None => ([], enqueued, promoted, nextNonce)
    | Some tx =>
      if negb (tNonce tx =? nextNonce) then ([], enqueued, promoted, nextNonce)
      else
        match AccountQueue.pop enqueued with
        | None => ([], enqueued, promoted, nextNonce)
        | Some (tx, enqueued) =>
          let '(moved, enqueued, promoted, nextNonce) :=
            promote_loop fuel' (uint64 (nextNonce + 1)) enqueued (AccountQueue.push tx promoted) in
          (tx :: moved, enqueued, promoted, nextNonce)
        end
    end
  end.

(** [promote]: the promoted transactions and the account. *)
Definition promote (a : account) : list Transaction * account :=
  let currentNonce := aNextNonce a in
  match AccountQueue.peek (aEnqueued a) with
  | None => ([], a)
  | Some first =>
    if currentNonce <? tNonce first then ([], a)
    else
      let '(moved, enqueued, promoted, nextNonce) :=
        promote_loop (length (aEnqueued a)) (tNonce first) (aEnqueued a) (aPromoted a) in
      (moved, mkAccount enqueued promoted
                (if currentNonce <? nextNonce then nextNonce else currentNonce))
  end.

(** ** The pool *)

Record TxPool := mkTxPool {
  pAccounts : gmap Z account;
  pCount : Z;
  pExecutables : list Transaction;
  pIndex : gmap Z Transaction;
  pHeight : Z;
  pMax : Z;
  pPriceLimit : Z;
  pSealing : bool;
  pDev : bool
}.

Definition set_accounts (x : gmap Z account) (p : TxPool) : TxPool :=
  mkTxPool x (pCount p) (pExecutables p) (pIndex p) (pHeight p) (pMax p) (pPriceLimit p)
    (pSealing p) (pDev p).
Definition set_executables (x : list Transaction) (p : TxPool) : TxPool :=
  mkTxPool (pAccounts p) (pCount p) x (pIndex p) (pHeight p) (pMax p) (pPriceLimit p)
    (pSealing p) (pDev p).
Definition set_index (x : gmap Z Transaction) (p : TxPool) : TxPool :=
  mkTxPool (pAccounts p) (pCount p) (pExecutables p) x (pHeight p) (pMax p) (pPriceLimit p)
    (pSealing p) (pDev p).
Definition set_height (x : Z) (p : TxPool) : TxPool :=
  mkTxPool (pAccounts p) (pCount p) (pExecutables p) (pIndex p) x (pMax p) (pPriceLimit p)
    (pSealing p) (pDev p).

Definition NewTxPool (maxSlots priceLimit : Z) (sealing : bool) : TxPool :=
  mkTxPool ∅ 0 [] ∅ 0 maxSlots priceLimit sealing false.

(** [store]: what the pool reads of the chain. *)
Record Store := mkStore {
  stStateRoot : Hash;
  stGasLimit : Z;
  stGetNonce : Hash -> Address -> Z;
  stGetBalance : Hash -> Address -> option Z;
  stGetBlockByHash : Hash -> option (list Transaction)
}.

(** [EnableDev]. *)
Definition EnableDev (p : TxPool) : TxPool :=
  mkTxPool (pAccounts p) (pCount p) (pExecutables p) (pIndex p) (pHeight p) (pMax p)
    (pPriceLimit p) (pSealing p) true.

(** *** The lookup map *)

Definition index_add (txs : list Transaction) (p : TxPool) : TxPool :=
  set_index (foldl (fun m tx => <[tHash tx := tx]> m) (pIndex p) txs) p.

Definition index_remove (txs : list Transaction) (p : TxPool) : TxPool :=
  set_index (foldl (fun m tx => delete (tHash tx) m) (pIndex p) txs) p.

Definition index_get (hash : Hash) (p : TxPool) : option Transaction := pIndex p !! hash.

(** *** The accounts map *)

(** [initOnce]. *)
Definition initOnce (addr : Address) (nonce : Z) (p : TxPool) : TxPool :=
  match pAccounts p !! addr with
  | Some _ => p
  | None =>
    mkTxPool
      (<[addr := mkAccount AccountQueue.newAccountQueue AccountQueue.newAccountQueue nonce]> (pAccounts p))
      (uint64 (pCount p + 1)) (pExecutables p) (pIndex p) (pHeight p) (pMax p) (pPriceLimit p)
      (pSealing p) (pDev p)
  end.

Definition put_account (addr : Address) (a : account) (p : TxPool) : TxPool :=
  set_accounts (<[addr := a]> (pAccounts p)) p.

(** The accounts in the order [Range] visits them. *)
Definition accounts_of (p : TxPool) : list (Z * account) := map_to_list (pAccounts p).

Definition getPrimaries (p : TxPool) : list Transaction :=
  omap (fun e => AccountQueue.peek (aPromoted (snd e))) (accounts_of p).

(** [accountsMap.promoted]. *)
Definition promoted_count (p : TxPool) : Z :=
  foldr (fun e n => uint64 (len (aPromoted (snd e)) + n)) 0 (accounts_of p).

Definition Length (p : TxPool) : Z := promoted_count p.

(** [allTxs], in the order of the accounts. *)
Definition allTxs (includeEnqueued : bool) (p : TxPool)
    : list (Z * list Transaction) * list (Z * list Transaction) :=
  (omap (fun e => if len (aPromoted (snd e)) =? 0 then None else Some (fst e, aPromoted (snd e)))
     (accounts_of p),
   if includeEnqueued
   then omap (fun e => if len (aEnqueued (snd e)) =? 0 then None else Some (fst e, aEnqueued (snd e)))
          (accounts_of p)
   else []).

Section pool.
Context `{FastRLP} `{Runtime}.
(** The signer the pool was given, and the forks it runs with. *)
Context (signer_Sender : Transaction -> outcome (option Address)) (forks : ForksInTime).

(** *** The gauge *)

Definition txSlotSize : Z := 32 * 1024.
Definition txMaxSize : Z := 128 * 1024.

Definition slotsRequired (txs : list Transaction) : Z :=
  foldl (fun slots tx =>
    uint64 (slots + uint64 (Transaction_Size tx + txSlotSize - 1) / txSlotSize)) 0 txs.

Definition gauge_increase (slots : Z) (p : TxPool) : TxPool :=
  set_height (uint64 (pHeight p + slots)) p.

(** [atomic.AddUint64(&g.height, ^(slots - 1))]. *)
Definition gauge_decrease (slots : Z) (p : TxPool) : TxPool :=
  set_height (uint64 (pHeight p + (2 ^ 64 - 1 - uint64 (slots - 1)))) p.

(** *** Requests *)

Inductive origin := local | gossip | reorg.

#[export] Instance origin_eq_dec : EqDecision origin.
Proof. solve_decision. Defined.

Inductive task :=
| TEnqueue (tx : Transaction)
| TIndex (tx : Transaction)
| TGauge (tx : Transaction)
| TCheck (tx : Transaction)
| TPromote (addr : Address).

(** [validateTx]: the transaction with its sender, or the error. *)
Definition validateTx (st : Store) (tx : Transaction) (p : TxPool)
    : outcome (Transaction + poolerror) :=
  if txMaxSize <? len (Transaction_MarshalRLP tx) then Ok (inr ErrOversizedData)
  else if tValue tx <? 0 then Ok (inr ErrNegativeValue)
  else if negb (pDev p) && negb (tFrom tx =? 0) then Ok (inr ErrNonEncryptedTx)
  else
    let sender := if tFrom tx =? 0 then signer_Sender tx else Ok (Some (tFrom tx)) in
    obind sender (fun sender =>
    match sender with
    | None => Ok (inr ErrInvalidSender)
    | Some from =>
      let tx := with_from from tx in
      if IsUnderpriced tx (pPriceLimit p) then Ok (inr ErrUnderpriced)
      else if IsFixedRewardTx tx then Ok (inr ErrInvalidTransaction)
      else if tNonce tx <? stGetNonce st (stStateRoot st) (tFrom tx) then Ok (inr ErrNonceTooLow)
      else
        match stGetBalance st (stStateRoot st) (tFrom tx) with
        | None => Ok (inr ErrInvalidAccountState)
        | Some accountBalance =>
          if accountBalance <? Cost tx then Ok (inr ErrInsufficientFunds)
          else
            match TransactionGasCost tx (Homestead forks) (Istanbul forks) with
            | None => Ok (inr ErrGasCost)
            | Some intrinsicGas =>
              if tGas tx <? intrinsicGas then Ok (inr ErrIntrinsicGas)
              else if stGasLimit st <? tGas tx then Ok (inr ErrBlockLimitExceeded)
              else Ok (inl tx)
            end
        end
    end).

Definition createAccountOnce (st : Store) (newAddr : Address) (p : TxPool) : TxPool :=
  initOnce newAddr (stGetNonce st (stStateRoot st) newAddr) p.

(** [addTx]: the request it sends, none for a known transaction that was
    gossiped, or the error. *)
Definition addTx (st : Store) (o : origin) (tx : Transaction) (p : TxPool)
    : outcome ((TxPool * list task) + poolerror) :=
  obind (validateTx st tx p) (fun r =>
  match r with
  | inr e => Ok (inr e)
  | inl tx =>
    if pMax p <? uint64 (pHeight p + slotsRequired [tx]) then Ok (inr ErrTxPoolOverflow)
    else
      let tx := ComputeHash tx in
      match index_get (tHash tx) p with
      | Some _ => if decide (o = gossip) then Ok (inl (p, [])) else Ok (inr ErrAlreadyKnown)
      | None =>
        let p := match pAccounts p !! tFrom tx with
                 | None => createAccountOnce st (tFrom tx) p
                 | Some _ => p
                 end in
        Ok (inl (p, [TEnqueue tx]))
      end
  end).

(** A part of [handleEnqueueRequest] or [handlePromoteRequest], and what is left
    to do.  A missing account is a nil dereference. *)
Definition run_task (t : task) (p : TxPool) : outcome (TxPool * list task) :=
  match t with
  | TEnqueue tx =>
    match pAccounts p !! tFrom tx with
    | None => Panic
    | Some a =>
      match account_enqueue tx a with
      | inr _ => Ok (p, [])
      | inl a => Ok (put_account (tFrom tx) a p, [TIndex tx])
      end
    end
  | TIndex tx => Ok (index_add [tx] p, [TGauge tx])
  | TGauge tx => Ok (gauge_increase (slotsRequired [tx]) p, [TCheck tx])
  | TCheck tx =>
    match pAccounts p !! tFrom tx with
    | None => Panic
    | Some a => if aNextNonce a <? tNonce tx then Ok (p, []) else Ok (p, [TPromote (tFrom tx)])
    end
  | TPromote addr =>
    match pAccounts p !! addr with
    | None => Panic
    | Some a => let (_, a) := promote a in Ok (put_account addr a p, [])
    end
  end.

(** [addGossipTx]; a message whose field [Raw] is missing is a nil
    dereference. *)
Definition addGossipTx (st : Store) (raw : option (list Z)) (p : TxPool)
    : outcome (TxPool * list task) :=
  if negb (pSealing p) then Ok (p, [])
  else
    obind (of_option raw) (fun raw =>
    match Transaction_UnmarshalRLP zero_transaction raw with
    | None => Ok (p, [])
    | Some tx =>
      obind (addTx st gossip tx p) (fun r =>
      match r with inl (p, ts) => Ok (p, ts) | inr _ => Ok (p, []) end)
    end).

(** *** Block building *)

Definition Prepare (p : TxPool) : TxPool :=
  set_executables (foldl (fun q tx => PricedQueue.push tx q) [] (getPrimaries p)) p.

Definition Peek (p : TxPool) : option Transaction * TxPool :=
  match PricedQueue.pop (pExecutables p) with
  | None => (None, p)
  | Some (tx, q) => (Some tx, set_executables q p)
  end.

(** [Pop]: the head of the account's queue goes, and the slots of [tx]. *)
Definition Pop (tx : Transaction) (p : TxPool) : outcome TxPool :=
  match pAccounts p !! tFrom tx with
  | None => Panic
  | Some a =>
    let promoted := match AccountQueue.pop (aPromoted a) with Some (_, q) => q | None => aPromoted a end in
    let p := put_account (tFrom tx) (mkAccount (aEnqueued a) promoted (aNextNonce a)) p in
    let p := gauge_decrease (slotsRequired [tx]) p in
    match AccountQueue.peek promoted with
    | Some next => Ok (set_executables (PricedQueue.push next (pExecutables p)) p)
    | None => Ok p
    end
  end.

Definition clearAccountQueue (txs : list Transaction) (p : TxPool) : TxPool :=
  gauge_decrease (slotsRequired txs) (index_remove txs p).

Definition Drop (tx : Transaction) (p : TxPool) : outcome TxPool :=
  match pAccounts p !! tFrom tx with
  | None => Panic
  | Some a =>
    let (dropped, promoted) := AccountQueue.clear (aPromoted a) in
    let p := clearAccountQueue dropped p in
    let (dropped, enqueued) := AccountQueue.clear (aEnqueued a) in
    let p := clearAccountQueue dropped p in
    Ok (put_account (tFrom tx) (mkAccount enqueued promoted (tNonce tx)) p)
  end.

(** *** New blocks *)

(** [resetAccount], and the promotion it requests. *)
Definition resetAccount (addr : Address) (nonce : Z) (p : TxPool) : outcome (TxPool * list task) :=
  match pAccounts p !! addr with
  | None => Panic
  | Some a =>
    let (pruned, promoted) := AccountQueue.prune nonce (aPromoted a) in
    let p := gauge_decrease (slotsRequired pruned) (index_remove pruned p) in
    if nonce <=? aNextNonce a
    then Ok (put_account addr (mkAccount (aEnqueued a) promoted (aNextNonce a)) p, [])
    else
      let (pruned, enqueued) := AccountQueue.prune nonce (aEnqueued a) in
      let p := gauge_decrease (slotsRequired pruned) (index_remove pruned p) in
      let p := put_account addr (mkAccount enqueued promoted nonce) p in
      match AccountQueue.peek enqueued with
      | Some first => if tNonce first =? nonce then Ok (p, [TPromote addr]) else Ok (p, [])
      | None => Ok (p, [])
      end
  end.

(** [resetAccounts]; [nonces] in the order the map is iterated in. *)
Fixpoint resetAccounts (nonces : list (Address * Z)) (p : TxPool) : outcome (TxPool * list task) :=
  match nonces with
  | [] => Ok (p, [])
  | (addr, nonce) :: nonces =>
    match pAccounts p !! addr with
    | None => resetAccounts nonces p
    | Some _ =>
      obind (resetAccount addr nonce p) (fun '(p, ts) =>
      obind (resetAccounts nonces p) (fun '(p, ts') => Ok (p, ts ++ ts')))
    end
  end.

(** The nonces of the senders of a block's transactions, and the hashes that
    are no longer to be returned to the pool. *)
Fixpoint block_nonces (st : Store) (txs : list Transaction)
    (acc : gmap Z Z * gmap Z Transaction) : gmap Z Z * gmap Z Transaction :=
  match txs with
  | [] => acc
  | tx :: txs =>
    let '(nonces, oldTxs) := acc in
    match nonces !! tFrom tx with
    | Some _ => block_nonces st txs acc
    | None =>
      block_nonces st txs
        (<[tFrom tx := stGetNonce st (stStateRoot st) (tFrom tx)]> nonces, delete (tHash tx) oldTxs)
    end
  end.

Fixpoint new_chain (st : Store) (headers : list Hash) (acc : gmap Z Z * gmap Z Transaction)
    (p : TxPool) : gmap Z Z * gmap Z Transaction * TxPool :=
  match headers with
  | [] => (acc, p)
  | h :: headers =>
    match stGetBlockByHash st h with
    | None => new_chain st headers acc p
    | Some txs => new_chain st headers (block_nonces st txs acc) (index_remove txs p)
    end
  end.

Fixpoint old_chain (st : Store) (headers : list Hash) (oldTxs : gmap Z Transaction)
    : gmap Z Transaction :=
  match headers with
  | [] => oldTxs
  | h :: headers =>
    match stGetBlockByHash st h with
    | None => old_chain st headers oldTxs
    | Some txs => old_chain st headers (foldl (fun m tx => <[tHash tx := tx]> m) oldTxs txs)
    end
  end.

(** The loop that returns transactions to the pool; errors are logged. *)
Fixpoint readd (st : Store) (txs : list Transaction) (p : TxPool) : outcome (TxPool * list task) :=
  match txs with
  | [] => Ok (p, [])
  | tx :: txs =>
    obind (addTx st reorg tx p) (fun r =>
    match r with
    | inr _ => readd st txs p
    | inl (p, ts) => obind (readd st txs p) (fun '(p, ts') => Ok (p, ts ++ ts'))
    end)
  end.

(** [processEvent]; the maps are iterated in the order of [map_to_list]. *)
Definition processEvent (st : Store) (newChain oldChain : list Hash) (p : TxPool)
    : outcome (TxPool * list task) :=
  let oldTxs := old_chain st oldChain ∅ in
  let '(stateNonces, oldTxs, p) := new_chain st newChain (∅, oldTxs) p in
  obind (readd st (map_to_list oldTxs).*2 p) (fun '(p, ts) =>
  if decide (stateNonces = ∅) then Ok (p, ts)
  else obind (resetAccounts (map_to_list stateNonces) p) (fun '(p, ts') => Ok (p, ts ++ ts'))).

Definition ResetWithHeaders (st : Store) (headers : list Hash) (p : TxPool)
    : outcome (TxPool * list task) := processEvent st headers [] p.

(** *** Queries *)

Definition Pool_GetNonce (st : Store) (addr : Address) (p : TxPool) : Z :=
  match pAccounts p !! addr with
  | None => stGetNonce st (stStateRoot st) addr
  | Some a => aNextNonce a
  end.

Definition GetCapacity (p : TxPool) : Z * Z := (pHeight p, pMax p).
Definition GetPendingTx (hash : Hash) (p : TxPool) : option Transaction := index_get hash p.
Definition GetTxs (inclQueued : bool) (p : TxPool) := allTxs inclQueued p.

End pool.
