(* ===== verification/PoolFacts.v ===== *)
(** The queues of the transaction pool: what pruning, promotion and the priced
    queue do, in terms of the transactions as a multiset. *)

From Stdlib Require Import ZArith Lia.
From stdpp Require Import base gmap list numbers.
From S2P Require Import Prelude Types Chain Rlp Heap TxPool.

Open Scope Z_scope.

#[export] Instance nonce_order : WeakOrder nonce_Less.
Proof. split; unfold nonce_Less; intros; lia. Qed.

#[export] Instance price_order : WeakOrder price_Less.
Proof. split; unfold price_Less; intros; lia. Qed.

Abbreviation queue_ok := (heap_ok nonce_Less).

(** ** Single operations *)

Lemma peek_least q tx y : queue_ok q -> AccountQueue.peek q = Some tx -> y ∈ q -> tNonce tx <= tNonce y.
Proof.
  intros Hq Hp [k Hk]%list_elem_of_lookup_1. pose proof (root_least _ q tx k y Hq Hp Hk) as Hl.
  unfold nonce_Less in Hl. lia.
Qed.

Lemma peek_None q : AccountQueue.peek q = None -> q = [].
Proof. by destruct q. Qed.

Lemma pop_spec q tx : queue_ok q -> AccountQueue.peek q = Some tx ->
  exists q', AccountQueue.pop q = Some (tx, q') /\ q ≡ₚ tx :: q' /\ queue_ok q'.
Proof.
  intros Hq Hp. assert (q <> []) as Hne by (by destruct q).
  destruct (Pop_Some nonce_Less q Hne) as (x & q' & E). exists q'.
  pose proof (Pop_root nonce_Less q x q' E) as Hr. unfold AccountQueue.peek in Hp.
  replace x with tx in * by congruence. unfold AccountQueue.pop, len.
  destruct (Z.eqb_spec (Z.of_nat (length q)) 0) as [El|_]; [destruct q; [done|cbn [length] in El; lia]|].
  split; [done|]. split; [symmetry; exact (Pop_perm _ _ _ _ E)|exact (Pop_ok _ _ _ _ Hq E)].
Qed.

Lemma push_spec tx q : queue_ok q ->
  queue_ok (AccountQueue.push tx q) /\ AccountQueue.push tx q ≡ₚ tx :: q.
Proof. intros Hq. split; [exact (Push_ok _ _ _ Hq)|apply Push_perm]. Qed.

(** ** Pruning *)

Lemma prune_loop_spec fuel nonce q : queue_ok q -> (length q <= fuel)%nat ->
  let (pruned, q') := AccountQueue.prune_loop fuel nonce q in
  q ≡ₚ pruned ++ q' /\ queue_ok q' /\
  Forall (fun tx => tNonce tx < nonce) pruned /\ Forall (fun tx => nonce <= tNonce tx) q'.
Proof.
  revert q; induction fuel as [|fuel IH]; intros q Hq Hf; cbn [AccountQueue.prune_loop].
  { assert (q = []) as -> by (destruct q; [done|cbn in Hf; lia]). done. }
  destruct (AccountQueue.peek q) as [tx|] eqn:Ep.
  2:{ apply peek_None in Ep as ->. done. }
  destruct (Z.leb_spec nonce (tNonce tx)) as [Hle|Hlt].
  { split_and!; [done|done|done|]. apply List.Forall_forall. intros y Hy%list_elem_of_In.
    pose proof (peek_least q tx y Hq Ep Hy). lia. }
  destruct (pop_spec q tx Hq Ep) as (q' & -> & Hperm & Hq').
  specialize (IH q' Hq'). destruct (AccountQueue.prune_loop fuel nonce q') as [pruned r].
  destruct IH as (H1 & H2 & H3 & H4).
  { apply Permutation_length in Hperm. cbn in Hperm. lia. }
  split_and!; [by rewrite Hperm, H1|done|by constructor|done].
Qed.

Lemma prune_spec nonce q pruned q' : queue_ok q -> AccountQueue.prune nonce q = (pruned, q') ->
  q ≡ₚ pruned ++ q' /\ queue_ok q' /\
  Forall (fun tx => tNonce tx < nonce) pruned /\ Forall (fun tx => nonce <= tNonce tx) q'.
Proof.
  intros Hq E. pose proof (prune_loop_spec (length q) nonce q Hq ltac:(lia)) as Hs.
  unfold AccountQueue.prune in E. by rewrite E in Hs.
Qed.

(** ** Promotion *)

(** The nonces from [n] on, one transaction each. *)
Definition consecutive (n : Z) (txs : list Transaction) : Prop :=
  forall i tx, txs !! i = Some tx -> tNonce tx = n + Z.of_nat i.

Lemma consecutive_cons n tx txs : tNonce tx = n -> consecutive (n + 1) txs -> consecutive n (tx :: txs).
Proof.
  intros Hn Hc [|i] y; cbn; [intros [= <-]; lia|]. intros Hy. rewrite (Hc _ _ Hy). lia.
Qed.

(** Nonces at which the counter does not overflow. *)
Definition nonces_ok (txs : list Transaction) : Prop :=
  Forall (fun tx => 0 <= tNonce tx < 2 ^ 64 - 1) txs.

Lemma promote_loop_spec fuel n enq prom :
  queue_ok enq -> queue_ok prom -> nonces_ok enq -> (length enq <= fuel)%nat ->
  let '(moved, enq', prom', n') := promote_loop fuel n enq prom in
  enq ≡ₚ moved ++ enq' /\ prom' ≡ₚ moved ++ prom /\ queue_ok enq' /\ queue_ok prom' /\
  consecutive n moved /\ n' = n + Z.of_nat (length moved) /\
  (forall first, AccountQueue.peek enq' = Some first -> tNonce first <> n').
Proof.
  revert n enq prom; induction fuel as [|fuel IH]; intros n enq prom He Hp Hn Hf; cbn [promote_loop].
  { assert (enq = []) as -> by (destruct enq; [done|cbn in Hf; lia]).
    split_and!; try done. cbn. lia. }
  destruct (AccountQueue.peek enq) as [tx|] eqn:Ep.
  2:{ apply peek_None in Ep as ->. split_and!; try done. cbn. lia. }
  destruct (Z.eqb_spec (tNonce tx) n) as [Etx|Hne]; cbn [negb].
  2:{ split_and!; try done; [cbn; lia|]. intros first Hfirst. by simplify_eq. }
  destruct (pop_spec enq tx He Ep) as (enq1 & -> & Hperm & He1).
  destruct (push_spec tx prom Hp) as [Hp1 Hpp].
  assert (nonces_ok (tx :: enq1)) as Hn1 by (unfold nonces_ok; by rewrite <- Hperm).
  apply List.Forall_cons_iff in Hn1 as [Htx Hn1].
  rewrite uint64_small by (unfold is_u64; lia).
  specialize (IH (n + 1) enq1 (AccountQueue.push tx prom) He1 Hp1 Hn1).
  destruct (promote_loop fuel (n + 1) enq1 (AccountQueue.push tx prom)) as [[[moved enq'] prom'] n'].
  destruct IH as (H1 & H2 & H3 & H4 & H5 & H6 & H7).
  { apply Permutation_length in Hperm. cbn in Hperm. lia. }
  split_and!; [by rewrite Hperm, H1| |done|done|by apply consecutive_cons|cbn [length]; lia|done].
  rewrite H2, Hpp. cbn. by rewrite Permutation_middle.
Qed.

(** What a promotion does, without the heaps: nothing when the least nonce is
    above the expected one, else it moves a run of nonces from the least one
    that cannot be continued with a least transaction, and the expected nonce
    becomes the one after the run unless it is already higher. *)
Inductive promotes (enq prom : list Transaction) (next : Z)
    : list Transaction -> list Transaction -> list Transaction -> Z -> Prop :=
| promotes_nothing enq' prom' :
    enq' ≡ₚ enq -> prom' ≡ₚ prom -> Forall (fun tx => next < tNonce tx) enq ->
    promotes enq prom next [] enq' prom' next
| promotes_run first rest enq' prom' :
    enq ≡ₚ (first :: rest) ++ enq' -> prom' ≡ₚ (first :: rest) ++ prom ->
    tNonce first <= next -> Forall (fun tx => tNonce first <= tNonce tx) enq ->
    consecutive (tNonce first) (first :: rest) ->
    (forall tx, tx ∈ enq' -> tNonce tx = tNonce first + Z.of_nat (S (length rest)) ->
       exists y, y ∈ enq' /\ tNonce y < tNonce tx) ->
    promotes enq prom next (first :: rest) enq' prom'
      (Z.max next (tNonce first + Z.of_nat (S (length rest)))).

Lemma promote_refines a :
  queue_ok (aEnqueued a) -> queue_ok (aPromoted a) -> nonces_ok (aEnqueued a) ->
  let (moved, a') := promote a in
  queue_ok (aEnqueued a') /\ queue_ok (aPromoted a') /\
  promotes (aEnqueued a) (aPromoted a) (aNextNonce a) moved
    (aEnqueued a') (aPromoted a') (aNextNonce a').
Proof.
  intros He Hp Hn. unfold promote. destruct (AccountQueue.peek (aEnqueued a)) as [first|] eqn:Ep.
  2:{ apply peek_None in Ep. split_and!; [done|done|]. constructor; [done|done|]. by rewrite Ep. }
  destruct (Z.ltb_spec (aNextNonce a) (tNonce first)) as [Hlt|Hle].
  { split_and!; [done|done|]. constructor; [done|done|]. apply List.Forall_forall.
    intros y Hy%list_elem_of_In. pose proof (peek_least _ _ _ He Ep Hy). lia. }
  pose proof (promote_loop_spec (length (aEnqueued a)) (tNonce first) _ _ He Hp Hn ltac:(lia)) as Hs.
  destruct (promote_loop _ _ _ _) as [[[moved enq'] prom'] n'] eqn:El.
  destruct Hs as (H1 & H2 & H3 & H4 & H5 & H6 & H7). cbn [aEnqueued aPromoted aNextNonce].
  split_and!; [done|done|].
  assert (exists rest, moved = first :: rest) as [rest ->].
  { destruct (length (aEnqueued a)) as [|k] eqn:Ek.
    { apply nil_length_inv in Ek. by rewrite Ek in Ep. }
    cbn [promote_loop] in El. rewrite Ep, Z.eqb_refl in El. cbn [negb] in El.
    destruct (pop_spec _ _ He Ep) as (q' & Eq & _). rewrite Eq in El.
    destruct (promote_loop k _ _ _) as [[[m e] pr] x]. simplify_eq. eauto. }
  cbn [length] in H6.
  replace (if aNextNonce a <? n' then n' else aNextNonce a)
    with (Z.max (aNextNonce a) (tNonce first + Z.of_nat (S (length rest))))
    by (destruct (Z.ltb_spec (aNextNonce a) n'); lia).
  constructor; try done.
  - apply List.Forall_forall. intros y Hy%list_elem_of_In. exact (peek_least _ _ _ He Ep Hy).
  - intros tx Htx Etx. destruct (AccountQueue.peek enq') as [y|] eqn:Ey.
    2:{ apply peek_None in Ey as ->. by apply not_elem_of_nil in Htx. }
    exists y. split; [by eapply list_elem_of_lookup_2|].
    pose proof (peek_least _ _ _ H3 Ey Htx). specialize (H7 y eq_refl). lia.
Qed.

(** ** Executables *)

Lemma priced_pop q : q <> [] -> heap_ok price_Less q ->
  exists tx q', PricedQueue.pop q = Some (tx, q') /\ q ≡ₚ tx :: q' /\ heap_ok price_Less q' /\
    Forall (fun y => big.Uint64 (tGasPrice y) <= big.Uint64 (tGasPrice tx)) q.
Proof.
  intros Hne Hq. destruct (Pop_Some price_Less q Hne) as (tx & q' & E). exists tx, q'.
  unfold PricedQueue.pop, len.
  destruct (Z.eqb_spec (Z.of_nat (length q)) 0) as [El|_]; [destruct q; [done|cbn [length] in El; lia]|].
  split_and!; [done|symmetry; exact (Pop_perm _ _ _ _ E)|exact (Pop_ok _ _ _ _ Hq E)|].
  apply List.Forall_forall. intros y Hy%list_elem_of_In.
  pose proof (Pop_least price_Less q tx q' y Hq E Hy) as Hl. unfold price_Less in Hl. lia.
Qed.

Lemma priced_pushes txs q : heap_ok price_Less q ->
  heap_ok price_Less (foldl (fun q tx => PricedQueue.push tx q) q txs) /\
  foldl (fun q tx => PricedQueue.push tx q) q txs ≡ₚ txs ++ q.
Proof.
  revert q; induction txs as [|tx txs IH]; intros q Hq; [done|]. cbn [foldl].
  destruct (IH (PricedQueue.push tx q)) as [H1 H2]; [exact (Push_ok _ _ _ Hq)|]. split; [done|].
  rewrite H2. unfold PricedQueue.push. rewrite Push_perm. cbn. by rewrite Permutation_middle.
Qed.
