(* ===== verification/PoolSystem.v ===== *)
(** The transaction pool as a transition system: additions, block building, new
    blocks and the pending handlers, interleaved in any order.  Invariants of
    the reachable states, and what holds when the handlers are done. *)

From Stdlib Require Import ZArith Lia.
From stdpp Require Import base gmap list numbers relations.
From S2P Require Import Prelude Types Chain Rlp Heap TxPool PoolFacts.

Open Scope Z_scope.

Section system.
Context `{FastRLP} `{Runtime}.
Context (signer_Sender : Transaction -> outcome (option Address)) (forks : ForksInTime).

(** ** Slots *)

Definition slots (tx : Transaction) : Z :=
  uint64 (Transaction_Size tx + txSlotSize - 1) / txSlotSize.

Definition slots_sum (txs : list Transaction) : Z := foldr (fun tx n => slots tx + n) 0 txs.

Lemma slots_sum_app l1 l2 : slots_sum (l1 ++ l2) = slots_sum l1 + slots_sum l2.
Proof. unfold slots_sum. induction l1 as [|x l1 IH]; [done|]. cbn [app foldr]. lia. Qed.

#[export] Instance slots_sum_perm : Proper (Permutation ==> eq) slots_sum.
Proof. unfold slots_sum. induction 1; cbn [foldr] in *; lia. Qed.

Definition slots_from (n : Z) (txs : list Transaction) : Z :=
  foldl (fun n tx => uint64 (n + slots tx)) n txs.

Lemma slots_from_sum n txs : is_u64 n -> slots_from n txs = (n + slots_sum txs) mod 2 ^ 64.
Proof.
  revert n; induction txs as [|tx txs IH]; intros n Hn; cbn.
  { rewrite Z.add_0_r. symmetry. by apply Z.mod_small. }
  fold (slots_from (uint64 (n + slots tx)) txs). rewrite IH by apply uint64_range.
  fold (slots_sum txs). unfold uint64. rewrite Zplus_mod_idemp_l. f_equal. lia.
Qed.

Lemma slotsRequired_sum txs : slotsRequired txs = slots_sum txs mod 2 ^ 64.
Proof.
  change (slotsRequired txs) with (slots_from 0 txs). rewrite slots_from_sum by (unfold is_u64; lia).
  done.
Qed.

Definition queues (a : account) : list Transaction := aEnqueued a ++ aPromoted a.

(** The slots of all queued transactions. *)
Definition occupied (p : TxPool) : Z :=
  map_fold (fun _ a n => slots_sum (queues a) + n) 0 (pAccounts p).

Lemma occupied_put (m : gmap Z account) addr a a' : m !! addr = Some a ->
  map_fold (fun _ a n => slots_sum (queues a) + n) 0 (<[addr := a']> m) =
  map_fold (fun _ a n => slots_sum (queues a) + n) 0 m - slots_sum (queues a) + slots_sum (queues a').
Proof.
  intros Ha. rewrite <- insert_delete_eq.
  rewrite (map_fold_insert_L _ _ addr) by (try apply lookup_delete_eq; intros; lia).
  rewrite (map_fold_delete_L _ _ addr a m) by (done || intros; lia). lia.
Qed.

Lemma occupied_new (m : gmap Z account) addr a : m !! addr = None ->
  map_fold (fun _ a n => slots_sum (queues a) + n) 0 (<[addr := a]> m) =
  slots_sum (queues a) + map_fold (fun _ a n => slots_sum (queues a) + n) 0 m.
Proof. intros Ha. rewrite (map_fold_insert_L _ _ addr) by (done || intros; lia). done. Qed.

(** The slots of transactions that are queued and not yet in the gauge. *)
Definition task_slots (t : task) : Z :=
  match t with TIndex tx | TGauge tx => slots tx | _ => 0 end.

Definition uncounted (ts : list task) : Z := foldr (fun t n => task_slots t + n) 0 ts.

Lemma uncounted_app l1 l2 : uncounted (l1 ++ l2) = uncounted l1 + uncounted l2.
Proof. unfold uncounted. induction l1 as [|x l1 IH]; [done|]. cbn [app foldr]. lia. Qed.

#[export] Instance uncounted_perm : Proper (Permutation ==> eq) uncounted.
Proof. unfold uncounted. induction 1; cbn [foldr] in *; lia. Qed.

#[local] Ltac slots_lia :=
  unfold slots_sum, uncounted, queues; cbn [app foldr task_slots aEnqueued aPromoted]; lia.

(** ** The system *)

Abbreviation system := (TxPool * list task)%type.

(** What is assumed of the transactions that are enqueued: nothing but a nonce
    at which the counter does not overflow, or also that the sender has no
    enqueued transaction with the same nonce. *)
Definition bounded_nonce (a : account) (tx : Transaction) : Prop := 0 <= tNonce tx < 2 ^ 64 - 1.
Definition unique_nonce (a : account) (tx : Transaction) : Prop :=
  bounded_nonce a tx /\ Forall (fun y => tNonce y <> tNonce tx) (aEnqueued a).

(** A part of a handler runs. *)
Inductive handler_step (accepts : account -> Transaction -> Prop) : system -> system -> Prop :=
| handler_runs t ts1 ts2 p p' new :
    (forall tx a, t = TEnqueue tx -> pAccounts p !! tFrom tx = Some a -> accepts a tx) ->
    run_task t p = Ok (p', new) ->
    handler_step accepts (p, ts1 ++ t :: ts2) (p', ts1 ++ new ++ ts2).

(** The proposer pops a transaction that is still the head of its account. *)
Definition is_head (tx : Transaction) (p : TxPool) : Prop :=
  forall a, pAccounts p !! tFrom tx = Some a -> AccountQueue.peek (aPromoted a) = Some tx.

Inductive step (accepts : account -> Transaction -> Prop) : system -> system -> Prop :=
| step_handler s s' : handler_step accepts s s' -> step accepts s s'
| step_add st o tx p ts p' new :
    addTx signer_Sender forks st o tx p = Ok (inl (p', new)) -> step accepts (p, ts) (p', new ++ ts)
| step_gossip st raw p ts p' new :
    addGossipTx signer_Sender forks st raw p = Ok (p', new) -> step accepts (p, ts) (p', new ++ ts)
| step_prepare p ts : step accepts (p, ts) (Prepare p, ts)
| step_peek p ts : step accepts (p, ts) (snd (Peek p), ts)
| step_pop tx p ts p' : is_head tx p -> Pop tx p = Ok p' -> step accepts (p, ts) (p', ts)
| step_drop tx p ts p' : Drop tx p = Ok p' -> step accepts (p, ts) (p', ts)
| step_event st newChain oldChain p ts p' new :
    processEvent signer_Sender forks st newChain oldChain p = Ok (p', new) ->
    step accepts (p, ts) (p', new ++ ts).

Definition reachable (accepts : account -> Transaction -> Prop) (s : system) : Prop :=
  exists maxSlots priceLimit sealing, rtc (step accepts) (NewTxPool maxSlots priceLimit sealing, []) s.

(** ** The invariant *)

Definition tx_in (addr : Address) (tx : Transaction) : Prop :=
  tFrom tx = addr /\ 0 <= tNonce tx < 2 ^ 64 - 1.

Record account_ok (addr : Address) (a : account) : Prop := {
  ok_enqueued : queue_ok (aEnqueued a);
  ok_promoted : queue_ok (aPromoted a);
  ok_txs : Forall (tx_in addr) (queues a);
  ok_below : Forall (fun tx => tNonce tx < aNextNonce a) (aPromoted a)
}.

Definition task_addr (t : task) : Address :=
  match t with
  | TEnqueue tx | TIndex tx | TGauge tx | TCheck tx => tFrom tx
  | TPromote addr => addr
  end.

Record system_ok (p : TxPool) (ts : list task) : Prop := {
  ok_accounts : forall addr a, pAccounts p !! addr = Some a -> account_ok addr a;
  ok_tasks : forall t, t ∈ ts -> is_Some (pAccounts p !! task_addr t);
  ok_gauge : pHeight p = (occupied p - uncounted ts) mod 2 ^ 64
}.

Lemma system_ok_perm p ts ts' : ts ≡ₚ ts' -> system_ok p ts -> system_ok p ts'.
Proof.
  intros Hp [H1 H2 H3]. split; [done| |by rewrite <- Hp]. intros t Ht. apply H2. by rewrite Hp.
Qed.

(** Operations that touch neither accounts nor gauge. *)
Lemma system_ok_ext p p' ts :
  pAccounts p' = pAccounts p -> pHeight p' = pHeight p -> system_ok p ts -> system_ok p' ts.
Proof. intros Ea Eh [H1 H2 H3]. split; unfold occupied; rewrite ?Ea, ?Eh; done. Qed.

(** Operations on one account. *)
Lemma system_put p p' addr a a' ts ts' :
  system_ok p ts -> pAccounts p !! addr = Some a -> account_ok addr a' ->
  pAccounts p' = <[addr := a']> (pAccounts p) ->
  (forall t, t ∈ ts' -> task_addr t = addr \/ t ∈ ts) ->
  pHeight p' =
    (pHeight p + (slots_sum (queues a') - slots_sum (queues a) + uncounted ts - uncounted ts')) mod 2 ^ 64 ->
  system_ok p' ts'.
Proof.
  intros [H1 H2 H3] Ha Hok Ep Ht Eh. split.
  - intros b c. rewrite Ep. destruct (decide (b = addr)) as [->|].
    + rewrite lookup_insert_eq. by intros [= <-].
    + rewrite lookup_insert_ne by done. apply H1.
  - intros t Hin. rewrite Ep. destruct (decide (task_addr t = addr)) as [->|].
    + rewrite lookup_insert_eq. eauto.
    + rewrite lookup_insert_ne by done. destruct (Ht t Hin) as [|Hin']; [done|]. by apply H2.
  - rewrite Eh, H3. unfold occupied. rewrite Ep, (occupied_put _ _ a) by done.
    rewrite Zplus_mod_idemp_l. f_equal. lia.
Qed.

Lemma height_same p p' ts d :
  system_ok p ts -> pHeight p' = pHeight p -> d = 0 -> pHeight p' = (pHeight p + d) mod 2 ^ 64.
Proof. intros [_ _ E] -> ->. by rewrite Z.add_0_r, E, Z.mod_mod. Qed.

Lemma gauge_decrease_height n p :
  is_u64 n -> pHeight (gauge_decrease n p) = (pHeight p - n) mod 2 ^ 64.
Proof.
  intros Hn. unfold gauge_decrease. cbn [set_height pHeight]. unfold uint64, is_u64 in *.
  destruct (decide (n = 0)) as [->|].
  - change ((0 - 1) mod 2 ^ 64) with (2 ^ 64 - 1). f_equal; lia.
  - rewrite (Z.mod_small (n - 1)) by lia.
    replace (pHeight p + (2 ^ 64 - 1 - (n - 1))) with (pHeight p - n + 1 * 2 ^ 64) by lia.
    by rewrite Z_mod_plus_full.
Qed.

Lemma mod_sub_mod x y : (x - y mod 2 ^ 64) mod 2 ^ 64 = (x - y) mod 2 ^ 64.
Proof. apply Zminus_mod_idemp_r. Qed.

(** Removing transactions from the gauge. *)
Lemma decrease_required txs p :
  pHeight (gauge_decrease (slotsRequired txs) p) = (pHeight p - slots_sum txs) mod 2 ^ 64.
Proof.
  rewrite slotsRequired_sum, gauge_decrease_height by apply uint64_range. apply mod_sub_mod.
Qed.

(** ** Preservation *)

Lemma account_ok_new addr nonce :
  account_ok addr (mkAccount AccountQueue.newAccountQueue AccountQueue.newAccountQueue nonce).
Proof. split; [apply nil_ok|apply nil_ok|constructor|constructor]. Qed.

Lemma system_new p addr nonce ts : system_ok p ts -> system_ok (initOnce addr nonce p) ts.
Proof.
  intros [H1 H2 H3]. unfold initOnce. destruct (pAccounts p !! addr) eqn:Ea; [by split|].
  split; cbn [pAccounts pHeight].
  - intros b c. destruct (decide (b = addr)) as [->|].
    + rewrite lookup_insert_eq. intros [= <-]. apply account_ok_new.
    + rewrite lookup_insert_ne by done. apply H1.
  - intros t Ht. destruct (decide (task_addr t = addr)) as [->|].
    + rewrite lookup_insert_eq. eauto.
    + rewrite lookup_insert_ne by done. by apply H2.
  - rewrite H3. unfold occupied. cbn [pAccounts]. by rewrite occupied_new.
Qed.

Lemma initOnce_exists addr nonce p : is_Some (pAccounts (initOnce addr nonce p) !! addr).
Proof.
  unfold initOnce. destruct (pAccounts p !! addr) eqn:E; [by rewrite E|].
  cbn [pAccounts]. rewrite lookup_insert_eq. eauto.
Qed.

Lemma system_add_tasks p ts new :
  system_ok p ts -> (forall t, t ∈ new -> is_Some (pAccounts p !! task_addr t)) -> uncounted new = 0 ->
  system_ok p (new ++ ts).
Proof.
  intros [H1 H2 H3] Hn Hu. split; [done| |].
  - intros t [Ht|Ht]%elem_of_app; auto.
  - rewrite uncounted_app, Hu. done.
Qed.

(** What [addTx] does to the pool: at most a new account and a request for it. *)
Lemma addTx_shape st o tx p p' new :
  addTx signer_Sender forks st o tx p = Ok (inl (p', new)) ->
  (p' = p /\ new = []) \/
  exists tx' n, p' = initOnce (tFrom tx') n p /\ new = [TEnqueue tx'].
Proof.
  unfold addTx. destruct (validateTx _ _ _ _ _) as [[tx1|]| |]; cbn [obind]; try done.
  destruct (_ <? _); [done|]. destruct (index_get _ _).
  { case_decide; [|done]. intros [= <- <-]. by left. }
  intros [= <- <-]. right. exists (ComputeHash tx1).
  change (tFrom (ComputeHash tx1)) with (tFrom tx1). destruct (pAccounts p !! tFrom tx1) eqn:Ea.
  - exists 0. unfold initOnce. by rewrite Ea.
  - eexists. split; [|done]. reflexivity.
Qed.

Lemma addTx_ok st o tx p ts p' new :
  system_ok p ts -> addTx signer_Sender forks st o tx p = Ok (inl (p', new)) ->
  system_ok p' (new ++ ts).
Proof.
  intros Hs Ha. destruct (addTx_shape _ _ _ _ _ _ Ha) as [[-> ->]|(tx' & n & -> & ->)]; [done|].
  apply system_add_tasks; [by apply system_new| |done].
  intros t ->%list_elem_of_singleton. apply initOnce_exists.
Qed.

Lemma account_ok_txs addr a a' :
  account_ok addr a -> queue_ok (aEnqueued a') -> queue_ok (aPromoted a') ->
  (forall tx, tx ∈ queues a' -> tx ∈ queues a) ->
  Forall (fun tx => tNonce tx < aNextNonce a') (aPromoted a') -> account_ok addr a'.
Proof.
  intros [H1 H2 H3 H4] He Hp Hin Hb. split; [done|done| |done].
  rewrite List.Forall_forall in *. intros tx Htx. apply H3, list_elem_of_In, Hin, list_elem_of_In, Htx.
Qed.

Lemma ok_nonces addr a : account_ok addr a -> nonces_ok (aEnqueued a).
Proof.
  intros [_ _ H3 _]. apply Forall_app in H3 as [H3 _]. eapply Forall_weaken; [exact H3|]. by intros ? [].
Qed.

Lemma promote_ok addr a : account_ok addr a ->
  let (_, a') := promote a in account_ok addr a' /\ queues a' ≡ₚ queues a.
Proof.
  intros Ha. pose proof (promote_refines a (ok_enqueued _ _ Ha) (ok_promoted _ _ Ha) (ok_nonces _ _ Ha)) as Hp.
  destruct (promote a) as [moved a']. destruct Hp as (He & Hp & Hr).
  assert (queues a' ≡ₚ queues a) as Hperm.
  { unfold queues. destruct Hr as [e' p' E1 E2 _|first rest e' p' E1 E2 _ _ _ _]; rewrite ?E1, ?E2; [done|].
    by rewrite app_assoc, (Permutation_app_comm e'). }
  split; [|done]. eapply account_ok_txs; [exact Ha|done|done| |].
  { intros tx. by rewrite Hperm. }
  pose proof (ok_below _ _ Ha) as Hb. rewrite List.Forall_forall in *.
  destruct Hr as [e' p' E1 E2 _|first rest e' p' E1 E2 Hle Hmin Hc _]; intros tx Htx%list_elem_of_In.
  - apply Hb, list_elem_of_In. by rewrite <- E2.
  - rewrite E2 in Htx. apply elem_of_app in Htx as [Htx|Htx].
    + apply list_elem_of_lookup_1 in Htx as [i Hi]. rewrite (Hc i tx Hi).
      apply lookup_lt_Some in Hi. cbn [length] in Hi. lia.
    + specialize (Hb tx (proj1 (list_elem_of_In _ _) Htx)). lia.
Qed.

Lemma enqueue_ok addr tx a :
  account_ok addr a -> tx_in addr tx ->
  account_ok addr (mkAccount (AccountQueue.push tx (aEnqueued a)) (aPromoted a) (aNextNonce a)).
Proof.
  intros [H1 H2 H3 H4] Htx. destruct (push_spec tx (aEnqueued a) H1) as [Hq Hp].
  split; [done|done| |done]. unfold queues in *. cbn [aEnqueued aPromoted]. rewrite Hp. by constructor.
Qed.

Lemma run_task_ok t ts p p' new :
  (forall tx a, t = TEnqueue tx -> pAccounts p !! tFrom tx = Some a -> bounded_nonce a tx) ->
  system_ok p (t :: ts) -> run_task t p = Ok (p', new) -> system_ok p' (new ++ ts).
Proof.
  intros Hadm Hs Hr. destruct (ok_tasks _ _ Hs t (list_elem_of_here _ _)) as [a Ea].
  pose proof (ok_accounts _ _ Hs _ _ Ea) as Ha.
  assert (pAccounts p = <[task_addr t := a]> (pAccounts p)) as Eid by (by rewrite insert_id).
  destruct t as [tx|tx|tx|tx|addr]; cbn [run_task task_addr] in *.
  - rewrite Ea in Hr. unfold account_enqueue in Hr.
    destruct (Z.ltb_spec (tNonce tx) (aNextNonce a)); injection Hr as <- <-.
    + eapply system_put; [exact Hs|exact Ea|exact Ha|done|set_solver|]. eapply height_same; [exact Hs|done|]. slots_lia.
    + eapply system_put; [exact Hs|exact Ea|apply enqueue_ok; [exact Ha|split; [done|by eapply Hadm]]|done| |].
      { intros u [->|Hu]%elem_of_cons; [by left|right; set_solver]. }
      eapply height_same; [exact Hs|done|]. unfold queues. cbn [aEnqueued aPromoted].
      rewrite (proj2 (push_spec tx _ (ok_enqueued _ _ Ha))). slots_lia.
  - injection Hr as <- <-. eapply system_put; [exact Hs|exact Ea|exact Ha|done| |].
    { intros u [->|Hu]%elem_of_cons; [by left|right; set_solver]. }
    eapply height_same; [exact Hs|done|]. slots_lia.
  - injection Hr as <- <-. eapply system_put; [exact Hs|exact Ea|exact Ha|done| |].
    { intros u [->|Hu]%elem_of_cons; [by left|right; set_solver]. }
    cbn [gauge_increase set_height pHeight]. unfold uint64. rewrite slotsRequired_sum, Zplus_mod_idemp_r.
    f_equal. slots_lia.
  - rewrite Ea in Hr. destruct (_ <? _); injection Hr as <- <-;
      (eapply system_put; [exact Hs|exact Ea|exact Ha|done| |eapply height_same; [exact Hs|done|slots_lia]]).
    + set_solver.
    + intros u [->|Hu]%elem_of_cons; [by left|right; set_solver].
  - rewrite Ea in Hr. pose proof (promote_ok addr a Ha) as Hp. destruct (promote a) as [moved a'].
    injection Hr as <- <-. destruct Hp as [Ha' Hp].
    eapply system_put; [exact Hs|exact Ea|exact Ha'|done|set_solver|].
    eapply height_same; [exact Hs|done|]. rewrite Hp. slots_lia.
Qed.

(** The handlers never dereference a missing account. *)
Lemma run_task_total t p ts : system_ok p ts -> t ∈ ts -> exists p' new, run_task t p = Ok (p', new).
Proof.
  intros Hs Ht. destruct (ok_tasks _ _ Hs t Ht) as [a Ea].
  destruct t as [tx|tx|tx|tx|addr]; cbn [run_task task_addr] in *; rewrite ?Ea; eauto.
  - destruct (account_enqueue tx a); eauto.
  - destruct (_ <? _); eauto.
  - destruct (promote a). eauto.
Qed.

Lemma pop_ok addr tx a q :
  account_ok addr a -> AccountQueue.peek (aPromoted a) = Some tx -> AccountQueue.pop (aPromoted a) = Some (tx, q) ->
  let a' := mkAccount (aEnqueued a) q (aNextNonce a) in
  account_ok addr a' /\ slots_sum (queues a) = slots tx + slots_sum (queues a').
Proof.
  intros Ha Hp E. destruct (pop_spec _ _ (ok_promoted _ _ Ha) Hp) as (q' & E' & Hperm & Hq).
  replace q' with q in * by congruence. cbn. split.
  - eapply account_ok_txs; [exact Ha|apply Ha|exact Hq| |].
    + intros y. unfold queues. cbn. rewrite Hperm. rewrite !elem_of_app, elem_of_cons; tauto.
    + pose proof (ok_below _ _ Ha) as Hb. rewrite Hperm in Hb. by apply List.Forall_cons_iff in Hb as [_ Hb].
  - unfold queues. cbn. rewrite Hperm, !slots_sum_app. slots_lia.
Qed.

Lemma Pop_pool_ok tx p p' ts :
  system_ok p ts -> is_head tx p -> Pop tx p = Ok p' -> system_ok p' ts.
Proof.
  intros Hs Hh Hpop. unfold Pop in Hpop. destruct (pAccounts p !! tFrom tx) as [a|] eqn:Ea; [|done].
  pose proof (ok_accounts _ _ Hs _ _ Ea) as Ha. pose proof (Hh a Ea) as Hhead.
  destruct (pop_spec _ _ (ok_promoted _ _ Ha) Hhead) as (q & Eq & _ & _). rewrite Eq in Hpop.
  destruct (pop_ok _ _ _ _ Ha Hhead Eq) as [Ha' Hsum].
  set (p1 := gauge_decrease _ _) in Hpop.
  assert (system_ok p1 ts) as H1.
  { eapply system_put; [exact Hs|exact Ea|exact Ha'|done|by auto|]. subst p1. rewrite decrease_required.
    cbn [put_account set_accounts pHeight]. f_equal. cbn [slots_sum foldr]. lia. }
  destruct (AccountQueue.peek q); injection Hpop as <-; [|done].
  by eapply system_ok_ext; [| |exact H1].
Qed.

Lemma Drop_pool_ok tx p p' ts : system_ok p ts -> Drop tx p = Ok p' -> system_ok p' ts.
Proof.
  intros Hs Hd. unfold Drop in Hd. destruct (pAccounts p !! tFrom tx) as [a|] eqn:Ea; [|done].
  cbn [AccountQueue.clear] in Hd. injection Hd as <-.
  eapply system_put; [exact Hs|exact Ea|apply (account_ok_new _ (tNonce tx))|done|by auto|].
  cbn [put_account set_accounts pHeight]. unfold clearAccountQueue. rewrite decrease_required.
  change (pHeight (index_remove ?x ?y)) with (pHeight y).
  rewrite decrease_required. change (pHeight (index_remove ?x ?y)) with (pHeight y).
  rewrite Zminus_mod_idemp_l, (slots_sum_app (aEnqueued a) (aPromoted a) : slots_sum (queues a) = _).
  change (slots_sum (queues _)) with 0. f_equal. lia.
Qed.

Lemma pruned_ok addr a nonce pr1 prom :
  account_ok addr a -> AccountQueue.prune nonce (aPromoted a) = (pr1, prom) ->
  let a' := mkAccount (aEnqueued a) prom (aNextNonce a) in
  account_ok addr a' /\ slots_sum (queues a) = slots_sum pr1 + slots_sum (queues a').
Proof.
  intros Ha E. destruct (prune_spec _ _ _ _ (ok_promoted _ _ Ha) E) as (Hp & Hq & _ & _). cbn. split.
  - eapply account_ok_txs; [exact Ha|apply Ha|exact Hq| |].
    + intros y. unfold queues. cbn [aEnqueued aPromoted]. rewrite Hp, !elem_of_app. tauto.
    + pose proof (ok_below _ _ Ha) as Hb. rewrite Hp in Hb. by apply Forall_app in Hb as [_ Hb].
  - unfold queues. cbn [aEnqueued aPromoted]. rewrite Hp, !slots_sum_app. lia.
Qed.

Lemma pruned_both_ok addr a nonce pr1 prom pr2 enq :
  account_ok addr a -> AccountQueue.prune nonce (aPromoted a) = (pr1, prom) ->
  AccountQueue.prune nonce (aEnqueued a) = (pr2, enq) -> aNextNonce a < nonce ->
  let a' := mkAccount enq prom nonce in
  account_ok addr a' /\ slots_sum (queues a) = slots_sum pr1 + slots_sum pr2 + slots_sum (queues a').
Proof.
  intros Ha E1 E2 Hlt. destruct (pruned_ok _ _ _ _ _ Ha E1) as [Ha1 Hs1].
  destruct (prune_spec _ _ _ _ (ok_enqueued _ _ Ha) E2) as (Hp & Hq & _ & _). cbn in *. split.
  - eapply account_ok_txs; [exact Ha1|exact Hq|apply Ha1| |].
    + intros y. unfold queues. cbn [aEnqueued aPromoted]. rewrite Hp, !elem_of_app. tauto.
    + eapply Forall_weaken; [exact (ok_below _ _ Ha1)|]. cbn. lia.
  - rewrite Hs1. unfold queues. cbn [aEnqueued aPromoted]. rewrite Hp, !slots_sum_app. lia.
Qed.

Lemma resetAccount_ok addr nonce p p' new ts :
  system_ok p ts -> resetAccount addr nonce p = Ok (p', new) -> system_ok p' (new ++ ts).
Proof.
  intros Hs Hr. unfold resetAccount in Hr. destruct (pAccounts p !! addr) as [a|] eqn:Ea; [|done].
  pose proof (ok_accounts _ _ Hs _ _ Ea) as Ha.
  destruct (AccountQueue.prune nonce (aPromoted a)) as [pr1 prom] eqn:E1.
  destruct (Z.leb_spec nonce (aNextNonce a)) as [Hle|Hlt].
  { destruct (pruned_ok _ _ _ _ _ Ha E1) as [Ha1 Hs1]. injection Hr as <- <-.
    eapply system_put; [exact Hs|exact Ea|exact Ha1|done|by auto|].
    cbn [put_account set_accounts pHeight app]. rewrite decrease_required.
    change (pHeight (index_remove ?x ?y)) with (pHeight y). f_equal. lia. }
  destruct (AccountQueue.prune nonce (aEnqueued a)) as [pr2 enq] eqn:E2.
  destruct (pruned_both_ok _ _ _ _ _ _ _ Ha E1 E2 Hlt) as [Ha2 Hs2].
  set (p2 := put_account _ _ _) in Hr.
  assert (system_ok p2 ts) as H2.
  { eapply system_put; [exact Hs|exact Ea|exact Ha2|done|by auto|].
    subst p2. cbn [put_account set_accounts pHeight]. rewrite decrease_required.
    change (pHeight (index_remove ?x ?y)) with (pHeight y). rewrite decrease_required.
    change (pHeight (index_remove ?x ?y)) with (pHeight y). rewrite Zminus_mod_idemp_l. f_equal. lia. }
  destruct (AccountQueue.peek enq) as [first|]; [destruct (_ =? _)|]; injection Hr as <- <-; try done.
  apply system_add_tasks; [done| |done]. intros t ->%list_elem_of_singleton. cbn [task_addr].
  subst p2. cbn [put_account set_accounts pAccounts]. rewrite lookup_insert_eq. eauto.
Qed.

(** Handlers that add tasks one after the other. *)
Lemma system_ok_twice p ts new1 new2 : system_ok p (new2 ++ new1 ++ ts) -> system_ok p ((new1 ++ new2) ++ ts).
Proof. apply system_ok_perm. by rewrite app_assoc, (Permutation_app_comm new2). Qed.

Lemma resetAccounts_ok nonces p p' new ts :
  system_ok p ts -> resetAccounts nonces p = Ok (p', new) -> system_ok p' (new ++ ts).
Proof.
  revert p new ts; induction nonces as [|[addr nonce] nonces IH]; intros p new ts Hs Hr; cbn [resetAccounts] in Hr.
  { by injection Hr as <- <-. }
  destruct (pAccounts p !! addr) eqn:Ea; [|by eapply IH].
  destruct (resetAccount addr nonce p) as [[p1 n1]| |] eqn:E1; cbn [obind] in Hr; try done.
  destruct (resetAccounts nonces p1) as [[p2 n2]| |] eqn:E2; cbn [obind] in Hr; try done.
  injection Hr as <- <-. apply system_ok_twice. eapply IH; [|exact E2]. by eapply resetAccount_ok.
Qed.

Lemma readd_ok st txs p p' new ts :
  system_ok p ts -> readd signer_Sender forks st txs p = Ok (p', new) -> system_ok p' (new ++ ts).
Proof.
  revert p new ts; induction txs as [|tx txs IH]; intros p new ts Hs Hr; cbn [readd] in Hr.
  { by injection Hr as <- <-. }
  destruct (addTx _ _ _ _ _ _) as [[[p1 n1]|]| |] eqn:E1; cbn [obind] in Hr; try done; [|by eapply IH].
  destruct (readd _ _ _ _ p1) as [[p2 n2]| |] eqn:E2; cbn [obind] in Hr; try done.
  injection Hr as <- <-. apply system_ok_twice. eapply IH; [|exact E2]. by eapply addTx_ok.
Qed.

(** The blocks of an event only change the index. *)
Lemma new_chain_frame st hs acc p :
  pAccounts (snd (new_chain st hs acc p)) = pAccounts p /\ pHeight (snd (new_chain st hs acc p)) = pHeight p.
Proof.
  revert acc p; induction hs as [|h hs IH]; intros acc p; cbn [new_chain]; [done|].
  destruct (stGetBlockByHash st h); [|apply IH]. destruct (IH (block_nonces st l acc) (index_remove l p)) as [-> ->].
  done.
Qed.

Lemma processEvent_ok st newChain oldChain p p' new ts :
  system_ok p ts -> processEvent signer_Sender forks st newChain oldChain p = Ok (p', new) ->
  system_ok p' (new ++ ts).
Proof.
  intros Hs Hr. unfold processEvent in Hr.
  set (old := old_chain _ _ _) in Hr. pose proof (new_chain_frame st newChain (∅, old) p) as [Ea Eh].
  destruct (new_chain _ _ _ _) as [[nonces old'] p1]. cbn [snd] in Ea, Eh.
  apply (system_ok_ext p p1) in Hs; [|done|done].
  destruct (readd _ _ _ _ p1) as [[p2 n2]| |] eqn:E2; cbn [obind] in Hr; try done.
  eapply readd_ok in E2; [|exact Hs]. case_decide; [by injection Hr as <- <-|].
  destruct (resetAccounts _ p2) as [[p3 n3]| |] eqn:E3; cbn [obind] in Hr; try done.
  injection Hr as <- <-. apply system_ok_twice. by eapply resetAccounts_ok.
Qed.

Lemma gossip_shape st raw p p' new :
  addGossipTx signer_Sender forks st raw p = Ok (p', new) ->
  (p' = p /\ new = []) \/ exists tx, addTx signer_Sender forks st gossip tx p = Ok (inl (p', new)).
Proof.
  unfold addGossipTx. destruct (negb _); [intros [= <- <-]; by left|].
  destruct raw as [raw|]; cbn [of_option obind]; [|done].
  destruct (Transaction_UnmarshalRLP _ _) as [tx|]; [|intros [= <- <-]; by left].
  destruct (addTx _ _ _ _ _ _) as [[[p1 n1]|]| |] eqn:E; cbn [obind]; try done; intros [= <- <-]; eauto.
Qed.

Lemma pool_step_ok accepts s s' : (forall a tx, accepts a tx -> bounded_nonce a tx) ->
  step accepts s s' -> system_ok s.1 s.2 -> system_ok s'.1 s'.2.
Proof.
  intros Hadm Hst. destruct Hst as [s s' Hh|st o tx p ts p' new E|st raw p ts p' new E| | |tx p ts p' Hh E|tx p ts p' E|
    st nc oc p ts p' new E]; cbn [fst snd]; intros Hs.
  - destruct Hh as [t ts1 ts2 p p' new Ha E]. cbn [fst snd] in *.
    apply (system_ok_perm _ (new ++ ts1 ++ ts2)); [by rewrite !app_assoc, (Permutation_app_comm ts1)|].
    eapply run_task_ok; [|eapply system_ok_perm; [|exact Hs]; by rewrite <- Permutation_middle|exact E].
    intros tx a Et Hin. by eapply Hadm, Ha.
  - by eapply addTx_ok.
  - destruct (gossip_shape _ _ _ _ _ E) as [[-> ->]|[tx E']]; [done|by eapply addTx_ok].
  - by eapply system_ok_ext; [| |exact Hs].
  - eapply system_ok_ext; [| |exact Hs]; unfold Peek; by destruct (PricedQueue.pop _) as [[]|].
  - by eapply Pop_pool_ok.
  - by eapply Drop_pool_ok.
  - by eapply processEvent_ok.
Qed.

Lemma reachable_ok accepts p ts : (forall a tx, accepts a tx -> bounded_nonce a tx) ->
  reachable accepts (p, ts) -> system_ok p ts.
Proof.
  intros Hadm (maxSlots & priceLimit & sealing & Hr).
  enough (forall s s', rtc (step accepts) s s' -> system_ok s.1 s.2 -> system_ok s'.1 s'.2) as Hg.
  { apply (Hg _ _ Hr). split; cbn [fst snd pAccounts NewTxPool].
    - intros addr a. by rewrite lookup_empty.
    - intros t Ht. by apply not_elem_of_nil in Ht.
    - done. }
  induction 1 as [|x y z Hst _ IH]; [done|]. intros Hx. by apply IH, (pool_step_ok accepts x).
Qed.

End system.
