(* ===== verification/PoolLive.v ===== *)
(** Promotion in the transaction pool: when the pending handlers have run, no
    transaction that could be executed next is left waiting. *)

From Stdlib Require Import ZArith Lia Wf_nat.
From stdpp Require Import base gmap list numbers relations.
From S2P Require Import Prelude Types Chain Rlp Heap TxPool PoolFacts PoolSystem.

Open Scope Z_scope.

(** ** Termination of the handlers *)

(** The steps a task takes at most, with those it requests. *)
Definition weight (t : task) : nat :=
  match t with TEnqueue _ => 5 | TIndex _ => 4 | TGauge _ => 3 | TCheck _ => 2 | TPromote _ => 1 end.

Definition weights (ts : list task) : nat := sum_list_with weight ts.

Section live.
Context `{FastRLP} `{Runtime}.
Context (signer_Sender : Transaction -> outcome (option Address)) (forks : ForksInTime).

Lemma run_task_weight t p p' new : run_task t p = Ok (p', new) -> (weights new < weight t)%nat.
Proof.
  intros Hr. destruct t as [tx|tx|tx|tx|addr]; cbn [run_task weight] in *.
  - destruct (pAccounts p !! _); [|done]. destruct (account_enqueue _ _); injection Hr as <- <-; cbn; lia.
  - injection Hr as <- <-. cbn. lia.
  - injection Hr as <- <-. cbn. lia.
  - destruct (pAccounts p !! _); [|done]. destruct (_ <? _); injection Hr as <- <-; cbn; lia.
  - destruct (pAccounts p !! _); [|done]. destruct (promote _). injection Hr as <- <-. cbn. lia.
Qed.

Lemma handler_weight accepts s s' : handler_step accepts s s' -> (weights s'.2 < weights s.2)%nat.
Proof.
  intros [t ts1 ts2 p p' new _ E]. apply run_task_weight in E. cbn [snd]. unfold weights in *.
  rewrite !sum_list_with_app. cbn [sum_list_with]. lia.
Qed.

Lemma handlers_bounded accepts n s s' : nsteps (handler_step accepts) n s s' -> (n <= weights s.2)%nat.
Proof.
  induction 1 as [|n x y z Hxy _ IH]; [lia|]. apply handler_weight in Hxy. lia.
Qed.

(** ** Pending promotions *)

(** A pending task that will promote the account's transactions. *)
Definition awake (addr : Address) (next : Z) (ts : list task) : Prop :=
  TPromote addr ∈ ts \/
  exists tx, tFrom tx = addr /\ tNonce tx <= next /\ (TIndex tx ∈ ts \/ TGauge tx ∈ ts \/ TCheck tx ∈ ts).

Lemma awake_mono addr next next' ts ts' :
  next <= next' -> ts ⊆ ts' -> awake addr next ts -> awake addr next' ts'.
Proof.
  intros Hn Hsub [Hp|(tx & E & Hle & Ht)]; [left; by apply Hsub|].
  right. exists tx. split_and!; [done|lia|]. destruct Ht as [Ht|[Ht|Ht]]; eauto.
Qed.

Record live (addr : Address) (a : account) (ts : list task) : Prop := {
  live_above : Forall (fun tx => aNextNonce a <= tNonce tx) (aEnqueued a);
  live_unique : NoDup (tNonce <$> aEnqueued a);
  live_awake : aNextNonce a ∈ tNonce <$> aEnqueued a -> awake addr (aNextNonce a) ts
}.

Definition lives (p : TxPool) (ts : list task) : Prop :=
  forall addr a, pAccounts p !! addr = Some a -> live addr a ts.

Lemma live_empty addr ts prom n : live addr (mkAccount [] prom n) ts.
Proof. split; [constructor|constructor|]. intros Hin. by apply not_elem_of_nil in Hin. Qed.

Lemma live_mono addr a ts ts' : ts ⊆ ts' -> live addr a ts -> live addr a ts'.
Proof. intros Hsub [H1 H2 H3]. split; [done|done|]. intros Hin. eapply awake_mono; [|exact Hsub|auto]. lia. Qed.

(** Only the enqueued transactions and the expected nonce matter. *)
Lemma live_promoted addr a prom ts :
  live addr a ts -> live addr (mkAccount (aEnqueued a) prom (aNextNonce a)) ts.
Proof. by intros []. Qed.

(** After a promotion, what is still enqueued is above the expected nonce. *)
Lemma promote_above addr a ts : account_ok addr a -> live addr a ts ->
  let (_, a') := promote a in
  Forall (fun tx => aNextNonce a' < tNonce tx) (aEnqueued a') /\ NoDup (tNonce <$> aEnqueued a').
Proof.
  intros Ha [Hab Hu _].
  pose proof (promote_refines a (ok_enqueued _ _ Ha) (ok_promoted _ _ Ha) (ok_nonces _ _ Ha)) as Hp.
  destruct (promote a) as [moved a']. destruct Hp as (_ & _ & Hr).
  destruct Hr as [e' p' E1 E2 Hall|first rest e' p' E1 E2 Hle Hmin Hc Hlast].
  { split; by rewrite E1. }
  rewrite E1, fmap_app, NoDup_app in Hu. destruct Hu as (_ & Hdis & Hu). split; [|done].
  rewrite List.Forall_forall in Hab.
  assert (tNonce first = aNextNonce a) as Ef.
  { specialize (Hab first). rewrite <- list_elem_of_In in Hab. rewrite E1 in Hab.
    specialize (Hab (list_elem_of_here _ _)). lia. }
  assert (forall y, y ∈ e' -> tNonce first + Z.of_nat (S (length rest)) <= tNonce y) as Hge.
  { intros y Hy. assert (aNextNonce a <= tNonce y) as Hy1.
    { apply Hab, list_elem_of_In. rewrite E1. apply elem_of_app. by right. }
    destruct (Z.le_gt_cases (tNonce first + Z.of_nat (S (length rest))) (tNonce y)) as [|Hlt]; [done|].
    destruct (lookup_lt_is_Some_2 (first :: rest) (Z.to_nat (tNonce y - tNonce first))) as [z Hz].
    { cbn [length]. lia. }
    destruct (Hdis (tNonce y)); [|by apply list_elem_of_fmap_2].
    pose proof (Hc _ _ Hz) as Ez. replace (tNonce y) with (tNonce z) by lia.
    by eapply list_elem_of_fmap_2, list_elem_of_lookup_2. }
  apply List.Forall_forall. intros y Hy%list_elem_of_In. pose proof (Hge y Hy) as H1.
  destruct (Z.eq_dec (tNonce y) (tNonce first + Z.of_nat (S (length rest)))) as [Ey|]; [|lia].
  destruct (Hlast y Hy Ey) as (z & Hz & Hlt). pose proof (Hge z Hz). lia.
Qed.

Lemma live_above_strict addr a ts :
  Forall (fun tx => aNextNonce a < tNonce tx) (aEnqueued a) -> NoDup (tNonce <$> aEnqueued a) -> live addr a ts.
Proof.
  intros Hab Hu. split; [|done|].
  - eapply Forall_weaken; [exact Hab|]. cbn. lia.
  - intros (y & Ey & Hy)%list_elem_of_fmap_1. rewrite List.Forall_forall in Hab.
    specialize (Hab y (proj1 (list_elem_of_In _ _) Hy)). lia.
Qed.

(** A task that runs hands its duty on, unless it promotes the account. *)
Lemma awake_run t ts p p' new addr a :
  run_task t p = Ok (p', new) -> pAccounts p !! addr = Some a -> t <> TPromote addr ->
  awake addr (aNextNonce a) (t :: ts) -> awake addr (aNextNonce a) (new ++ ts).
Proof.
  intros Hr Ea Hne [Hin|(tx & E & Hle & Ht)].
  { left. apply elem_of_cons in Hin as [Et|Hin]; [congruence|]. apply elem_of_app. by right. }
  assert (forall u, u ∈ t :: ts -> u <> t -> u ∈ new ++ ts) as Hrest.
  { intros u [->|Hu]%elem_of_cons ?; [done|]. apply elem_of_app. by right. }
  assert (forall u, new = [u] -> u ∈ new ++ ts) as Hnew by (intros u ->; apply list_elem_of_here).
  destruct t as [tx'|tx'|tx'|tx'|addr']; cbn [run_task] in Hr.
  - right. exists tx. split_and!; [done|done|]. destruct Ht as [Ht|[Ht|Ht]]; auto.
  - injection Hr as <- <-. right. exists tx. split_and!; [done|done|].
    destruct Ht as [[Et|Ht]%elem_of_cons|[Ht|Ht]]; [|left; set_solver|auto|auto].
    injection Et as <-. auto.
  - injection Hr as <- <-. right. exists tx. split_and!; [done|done|].
    destruct Ht as [Ht|[[Et|Ht]%elem_of_cons|Ht]]; [auto| |right; left; set_solver|auto].
    injection Et as <-. auto.
  - destruct Ht as [Ht|[Ht|[Et|Ht]%elem_of_cons]]; [right; exists tx; auto|right; exists tx; auto 6| |].
    + injection Et as <-. rewrite E, Ea in Hr.
      destruct (Z.ltb_spec (aNextNonce a) (tNonce tx)); [lia|]. injection Hr as <- <-. left. auto.
    + right. exists tx. split_and!; [done|done|]. do 2 right. apply elem_of_app. by right.
  - right. exists tx. split_and!; [done|done|]. destruct Ht as [Ht|[Ht|Ht]]; auto.
Qed.

Lemma lives_ext p p' ts ts' : pAccounts p' = pAccounts p -> ts ⊆ ts' -> lives p ts -> lives p' ts'.
Proof. intros E Hsub Hl addr a. rewrite E. intros Ha. eapply live_mono; [exact Hsub|by apply Hl]. Qed.

Lemma lives_put p p' addr a' ts' :
  pAccounts p' = <[addr := a']> (pAccounts p) -> live addr a' ts' ->
  (forall b c, b <> addr -> pAccounts p !! b = Some c -> live b c ts') -> lives p' ts'.
Proof.
  intros E Ha' Hrest b c. rewrite E. destruct (decide (b = addr)) as [->|].
  - rewrite lookup_insert_eq. by intros [= <-].
  - rewrite lookup_insert_ne by done. auto.
Qed.

Lemma run_task_lives t ts p p' new :
  (forall tx a, t = TEnqueue tx -> pAccounts p !! tFrom tx = Some a -> unique_nonce a tx) ->
  system_ok p (t :: ts) -> lives p (t :: ts) -> run_task t p = Ok (p', new) -> lives p' (new ++ ts).
Proof.
  intros Hadm Hs Hl Hr.
  assert (forall b c, pAccounts p !! b = Some c -> t <> TPromote b -> live b c (new ++ ts)) as Hrest.
  { intros b c Hb Hne. destruct (Hl b c Hb) as [H1 H2 H3]. split; [done|done|].
    intros Hin. eapply awake_run; [exact Hr|exact Hb|done|auto]. }
  destruct t as [tx|tx|tx|tx|addr]; cbn [run_task] in Hr.
  - destruct (pAccounts p !! tFrom tx) as [a|] eqn:Ea; [|done]. unfold account_enqueue in Hr.
    destruct (Z.ltb_spec (tNonce tx) (aNextNonce a)) as [Hlt|Hge]; injection Hr as <- <-.
    { intros b c Hb. by apply Hrest. }
    eapply lives_put; [done| |intros b c _ Hb; by apply Hrest].
    destruct (Hrest _ _ Ea ltac:(done)) as [H1 H2 H3].
    destruct (push_spec tx (aEnqueued a) (ok_enqueued _ _ (ok_accounts _ _ Hs _ _ Ea))) as [_ Hp].
    destruct (Hadm tx a eq_refl Ea) as [_ Hu].
    split; cbn [aEnqueued aNextNonce]; rewrite Hp; [by constructor| |].
    + cbn [fmap list_fmap]. apply NoDup_cons. split; [|done]. intros (y & Ey & Hy)%list_elem_of_fmap_1.
      rewrite List.Forall_forall in Hu. by eapply Hu; [apply list_elem_of_In, Hy|].
    + cbn [fmap list_fmap]. intros [E|Hin]%elem_of_cons; [|auto].
      right. exists tx. split_and!; [done|lia|]. left. apply list_elem_of_here.
  - injection Hr as <- <-. intros b c Hb. by apply Hrest.
  - injection Hr as <- <-. intros b c Hb. by apply Hrest.
  - destruct (pAccounts p !! tFrom tx); [|done]. destruct (_ <? _); injection Hr as <- <-; intros b c Hb; by apply Hrest.
  - destruct (pAccounts p !! addr) as [a|] eqn:Ea; [|done].
    pose proof (promote_above addr a _ (ok_accounts _ _ Hs _ _ Ea) (Hl _ _ Ea)) as Hp.
    destruct (promote a) as [moved a']. injection Hr as <- <-. destruct Hp.
    eapply lives_put; [done|by apply live_above_strict|]. intros b c Hne Hb. apply Hrest; congruence.
Qed.

Lemma addTx_lives st o tx p ts p' new :
  lives p ts -> addTx signer_Sender forks st o tx p = Ok (inl (p', new)) -> lives p' (new ++ ts).
Proof.
  intros Hl Ha. destruct (addTx_shape _ _ _ _ _ _ _ _ Ha) as [[-> ->]|(tx' & n & -> & ->)]; [done|].
  unfold initOnce. destruct (pAccounts p !! tFrom tx') eqn:Ea.
  - eapply lives_ext; [done| |exact Hl]. set_solver.
  - eapply lives_put; [done|apply live_empty|]. intros b c _ Hb. eapply live_mono; [|by apply Hl]. set_solver.
Qed.

Lemma put_lives p p' addr a' ts :
  lives p ts -> pAccounts p' = <[addr := a']> (pAccounts p) -> live addr a' ts -> lives p' ts.
Proof. intros Hl E Ha'. eapply lives_put; [exact E|exact Ha'|]. intros b c _. apply Hl. Qed.

Lemma Pop_lives tx p p' ts : lives p ts -> Pop tx p = Ok p' -> lives p' ts.
Proof.
  intros Hl Hpop. unfold Pop in Hpop. destruct (pAccounts p !! tFrom tx) as [a|] eqn:Ea; [|done].
  destruct (AccountQueue.peek _); injection Hpop as <-;
    (eapply put_lives; [exact Hl|done|]; apply live_promoted, Hl, Ea).
Qed.

Lemma Drop_lives tx p p' ts : lives p ts -> Drop tx p = Ok p' -> lives p' ts.
Proof.
  intros Hl Hd. unfold Drop in Hd. destruct (pAccounts p !! tFrom tx) as [a|] eqn:Ea; [|done].
  cbn [AccountQueue.clear] in Hd. injection Hd as <-. eapply put_lives; [exact Hl|done|apply live_empty].
Qed.

(** The account after its enqueued transactions below [nonce] are removed. *)
Lemma reset_live addr a nonce pr enq prom ts new :
  account_ok addr a -> live addr a ts -> AccountQueue.prune nonce (aEnqueued a) = (pr, enq) ->
  (forall first, AccountQueue.peek enq = Some first -> tNonce first = nonce -> TPromote addr ∈ new) ->
  live addr (mkAccount enq prom nonce) (new ++ ts).
Proof.
  intros Ha [H1 H2 H3] E Hf.
  destruct (prune_spec _ _ _ _ (ok_enqueued _ _ Ha) E) as (Hp & Hq & _ & Hge).
  rewrite Hp, fmap_app, NoDup_app in H2. destruct H2 as (_ & _ & H2).
  split; cbn [aEnqueued aNextNonce]; [done|done|].
  intros (y & Ey & Hy)%list_elem_of_fmap_1. left. apply elem_of_app. left.
  destruct (AccountQueue.peek enq) as [first|] eqn:Ef.
  2:{ apply peek_None in Ef as ->. by apply not_elem_of_nil in Hy. }
  apply (Hf first eq_refl). pose proof (peek_least _ _ _ Hq Ef Hy). rewrite List.Forall_forall in Hge.
  specialize (Hge first (proj1 (list_elem_of_In _ _) (list_elem_of_lookup_2 _ _ _ Ef))). lia.
Qed.

Lemma resetAccount_lives addr nonce p p' new ts :
  system_ok p ts -> lives p ts -> resetAccount addr nonce p = Ok (p', new) -> lives p' (new ++ ts).
Proof.
  intros Hs Hl Hr. unfold resetAccount in Hr. destruct (pAccounts p !! addr) as [a|] eqn:Ea; [|done].
  destruct (AccountQueue.prune nonce (aPromoted a)) as [pr1 prom]. destruct (nonce <=? aNextNonce a).
  { injection Hr as <- <-. eapply put_lives; [exact Hl|done|]. apply live_promoted, Hl, Ea. }
  destruct (AccountQueue.prune nonce (aEnqueued a)) as [pr2 enq] eqn:E2.
  assert (lives p (new ++ ts)) as Hl' by (eapply lives_ext; [done| |exact Hl]; set_solver).
  pose proof (ok_accounts _ _ Hs _ _ Ea) as Ha.
  destruct (AccountQueue.peek enq) as [first|] eqn:Ef; [destruct (Z.eqb_spec (tNonce first) nonce)|];
    injection Hr as <- <-; (eapply put_lives; [exact Hl'|done|]; eapply reset_live; [exact Ha|by apply Hl|exact E2|]);
    rewrite Ef; intros f [= <-] E; [apply list_elem_of_here|done].
Qed.

Lemma lives_twice p ts new1 new2 : lives p (new2 ++ new1 ++ ts) -> lives p ((new1 ++ new2) ++ ts).
Proof. apply lives_ext; [done|]. set_solver. Qed.

Lemma resetAccounts_lives nonces p p' new ts :
  system_ok p ts -> lives p ts -> resetAccounts nonces p = Ok (p', new) -> lives p' (new ++ ts).
Proof.
  revert p new ts; induction nonces as [|[addr nonce] nonces IH]; intros p new ts Hs Hl Hr; cbn [resetAccounts] in Hr.
  { by injection Hr as <- <-. }
  destruct (pAccounts p !! addr) eqn:Ea; [|by eapply IH].
  destruct (resetAccount addr nonce p) as [[p1 n1]| |] eqn:E1; cbn [obind] in Hr; try done.
  destruct (resetAccounts nonces p1) as [[p2 n2]| |] eqn:E2; cbn [obind] in Hr; try done.
  injection Hr as <- <-. apply lives_twice.
  eapply IH; [by eapply resetAccount_ok|by eapply resetAccount_lives|exact E2].
Qed.

Lemma readd_lives st txs p p' new ts :
  lives p ts -> readd signer_Sender forks st txs p = Ok (p', new) -> lives p' (new ++ ts).
Proof.
  revert p new ts; induction txs as [|tx txs IH]; intros p new ts Hl Hr; cbn [readd] in Hr.
  { by injection Hr as <- <-. }
  destruct (addTx _ _ _ _ _ _) as [[[p1 n1]|]| |] eqn:E1; cbn [obind] in Hr; try done; [|by eapply IH].
  destruct (readd _ _ _ _ p1) as [[p2 n2]| |] eqn:E2; cbn [obind] in Hr; try done.
  injection Hr as <- <-. apply lives_twice. eapply IH; [|exact E2]. by eapply addTx_lives.
Qed.

Lemma processEvent_lives st newChain oldChain p p' new ts :
  system_ok p ts -> lives p ts -> processEvent signer_Sender forks st newChain oldChain p = Ok (p', new) ->
  lives p' (new ++ ts).
Proof.
  intros Hs Hl Hr. unfold processEvent in Hr.
  set (old := old_chain _ _ _) in Hr. pose proof (new_chain_frame st newChain (∅, old) p) as [Ea Eh].
  destruct (new_chain _ _ _ _) as [[nonces old'] p1]. cbn [snd] in Ea, Eh.
  apply (system_ok_ext p p1) in Hs; [|done|done]. apply (lives_ext p p1 ts ts) in Hl; [|done|done].
  destruct (readd _ _ _ _ p1) as [[p2 n2]| |] eqn:E2; cbn [obind] in Hr; try done.
  pose proof (readd_ok _ _ _ _ _ _ _ _ Hs E2) as Hs2. apply (readd_lives _ _ _ _ _ ts) in E2; [|exact Hl].
  case_decide; [by injection Hr as <- <-|].
  destruct (resetAccounts _ p2) as [[p3 n3]| |] eqn:E3; cbn [obind] in Hr; try done.
  injection Hr as <- <-. apply lives_twice. by eapply resetAccounts_lives.
Qed.

Lemma step_lives s s' : step signer_Sender forks unique_nonce s s' ->
  system_ok s.1 s.2 -> lives s.1 s.2 -> lives s'.1 s'.2.
Proof.
  intros Hst. destruct Hst as [s s' Hh|st o tx p ts p' new E|st raw p ts p' new E| | |tx p ts p' Hh E|tx p ts p' E|
    st nc oc p ts p' new E]; cbn [fst snd]; intros Hs Hl.
  - destruct Hh as [t ts1 ts2 p p' new Ha E]. cbn [fst snd] in *.
    eapply (lives_ext _ _ (new ++ ts1 ++ ts2)); [done|set_solver|].
    eapply run_task_lives; [exact Ha| |eapply lives_ext; [done| |exact Hl]; set_solver|exact E].
    eapply system_ok_perm; [|exact Hs]. by rewrite <- Permutation_middle.
  - by eapply addTx_lives.
  - destruct (gossip_shape _ _ _ _ _ _ _ E) as [[-> ->]|[tx E']]; [done|by eapply addTx_lives].
  - by eapply lives_ext; [| |exact Hl].
  - eapply lives_ext; [| |exact Hl]; [unfold Peek; by destruct (PricedQueue.pop _) as [[]|]|done].
  - by eapply Pop_lives.
  - by eapply Drop_lives.
  - by eapply processEvent_lives.
Qed.

Lemma unique_bounded a tx : unique_nonce a tx -> bounded_nonce a tx.
Proof. by intros []. Qed.

Lemma reachable_lives p ts : reachable signer_Sender forks unique_nonce (p, ts) -> lives p ts.
Proof.
  intros (maxSlots & priceLimit & sealing & Hr).
  enough (forall s s', rtc (step signer_Sender forks unique_nonce) s s' ->
    system_ok s.1 s.2 -> lives s.1 s.2 -> lives s'.1 s'.2) as Hg.
  { apply (Hg _ _ Hr).
    - apply (reachable_ok signer_Sender forks unique_nonce); [exact unique_bounded|]. do 3 eexists. apply rtc_refl.
    - intros addr a. cbn. by rewrite lookup_empty. }
  induction 1 as [|x y z Hst _ IH]; [done|]. intros Hs Hx.
  apply IH; [by eapply pool_step_ok; [exact unique_bounded| |]|by eapply step_lives].
Qed.

(** ** Settling *)

Definition is_addition (t : task) : bool := match t with TEnqueue _ => true | _ => false end.

Lemma run_task_adds_none t p p' new : run_task t p = Ok (p', new) -> existsb is_addition new = false.
Proof.
  destruct t; cbn [run_task]; repeat case_match; intros E; simplify_eq; done.
Qed.

(** The pending handlers can all run when no addition is pending. *)
Lemma handlers_settle accepts ts : forall p, (forall a tx, accepts a tx -> bounded_nonce a tx) ->
  system_ok p ts -> existsb is_addition ts = false ->
  exists p', rtc (handler_step accepts) (p, ts) (p', []).
Proof.
  induction ts as [ts IH] using (induction_ltof1 _ weights). unfold ltof in IH. intros p Hadm Hs Hno.
  destruct ts as [|t ts]; [exists p; apply rtc_refl|].
  cbn [existsb] in Hno. apply orb_false_iff in Hno as [Ht Hts].
  destruct (run_task_total t p (t :: ts) Hs ltac:(left)) as (p' & new & Hr).
  assert (handler_step accepts (p, [] ++ t :: ts) (p', [] ++ new ++ ts)) as Hh.
  { constructor; [|done]. intros tx a ->. discriminate. }
  pose proof (handler_weight _ _ _ Hh) as Hw. cbn [snd app] in Hw.
  pose proof (pool_step_ok signer_Sender forks accepts _ _ Hadm (step_handler _ _ _ _ _ Hh) Hs) as Hs'.
  cbn [fst snd app] in Hs'.
  destruct (IH (new ++ ts) Hw p' Hadm Hs') as (p'' & Hp'').
  { by rewrite existsb_app, (run_task_adds_none _ _ _ _ Hr), Hts. }
  exists p''. by eapply rtc_l.
Qed.

(** A pool without pending handlers has promoted what it can. *)
Lemma settled p addr a tx : lives p [] -> pAccounts p !! addr = Some a -> tx ∈ aEnqueued a ->
  aNextNonce a < tNonce tx.
Proof.
  intros Hl Ha Hin. destruct (Hl _ _ Ha) as [Habove _ Hawake].
  rewrite List.Forall_forall in Habove. specialize (Habove tx ltac:(by apply list_elem_of_In)).
  destruct (Z.eq_dec (aNextNonce a) (tNonce tx)) as [E|]; [|lia]. exfalso.
  destruct Hawake as [Hp|(tx' & _ & _ & [Hp|[Hp|Hp]])]; [rewrite E; by apply list_elem_of_fmap_2|..];
    by apply not_elem_of_nil in Hp.
Qed.

End live.
