(* ===== verification/PoolMain.v ===== *)
(** What the transaction pool guarantees. *)

From Stdlib Require Import ZArith Lia.
From stdpp Require Import base gmap list numbers relations.
From S2P Require Import Prelude Types Chain Rlp RlpTree Heap TxPool PoolFacts PoolSystem PoolLive MockEngine.

Open Scope Z_scope.

(** ** Claims *)

Section claims.
Context `{FastRLP} `{Runtime}.
Context (signer_Sender : Transaction -> outcome (option Address)) (forks : ForksInTime).

(** C8: In every pool that is reached by additions, gossip, chain events, block
    building and the handlers in any order, with nonces below the largest, both
    queues of each account are heaps of its own transactions and the promoted
    ones lie below the expected nonce; the gauge is the slots of the queued
    transactions less those a handler has still to count; and every pending
    handler has its account, so that it runs without a panic. *)
Theorem pool_invariant accepts p ts :
  (forall a tx, accepts a tx -> bounded_nonce a tx) -> reachable signer_Sender forks accepts (p, ts) ->
  system_ok p ts /\ forall t, t ∈ ts -> exists p' new, run_task t p = Ok (p', new).
Proof.
  intros Hadm Hr. pose proof (reachable_ok _ _ _ _ _ Hadm Hr) as Hs. split; [done|].
  intros t Ht. by eapply run_task_total.
Qed.


End claims.

(** C19: Promotion of an account's transactions refines its specification on
    multisets: with heaps for queues, it moves the transactions with the
    consecutive nonces that start at the least enqueued one, if that is not
    above the expected nonce, keeps the others, and raises the expected nonce to
    the one after the last it moved. *)
Theorem promotion_refines a :
  queue_ok (aEnqueued a) -> queue_ok (aPromoted a) -> nonces_ok (aEnqueued a) ->
  let (moved, a') := promote a in
  queue_ok (aEnqueued a') /\ queue_ok (aPromoted a') /\
  promotes (aEnqueued a) (aPromoted a) (aNextNonce a) moved
    (aEnqueued a') (aPromoted a') (aNextNonce a').
Proof. apply promote_refines. Qed.

(** ** A pool with one transaction *)

Definition pool_tx (nonce : Z) : Transaction :=
  mkTransaction nonce 5 30000 (Some 7) 1 [] (Some 37) (Some 9) (Some 10) 0 0.

(** The sender is account 3, which is rich and new. *)
Definition pool_sender (tx : Transaction) : outcome (option Address) := Ok (Some 3).
Definition pool_store : Store := mkStore 0 1000000 (fun _ _ => 0) (fun _ _ => Some 1000000) (fun _ => None).
Definition pool_forks : ForksInTime := mkForks true true true true true true true true.

Definition added (r : outcome ((TxPool * list task) + poolerror)) : TxPool * list task :=
  match r with Ok (inl s) => s | _ => (NewTxPool 0 0 false, []) end.
Definition is_added (r : outcome ((TxPool * list task) + poolerror)) : bool :=
  match r with Ok (inl _) => true | _ => false end.

Lemma is_added_spec r : is_added r = true -> r = Ok (inl ((added r).1, (added r).2)).
Proof. by destruct r as [[[p ts]|]| |]. Qed.

(** The pool after the addition of a transaction, and after its first handler. *)
Definition pool_0 : TxPool := NewTxPool 4096 1 true.
Definition addition := addTx pool_sender pool_forks pool_store local (pool_tx 0) pool_0.
Definition pool_1 : TxPool * list task := added addition.

Lemma pool_1_reachable accepts : reachable pool_sender pool_forks accepts pool_1.
Proof.
  exists 4096, 1, true. apply rtc_once.
  assert (pool_1 = (pool_1.1, pool_1.2 ++ [])) as -> by (rewrite app_nil_r; by destruct pool_1).
  apply (step_add _ _ _ pool_store local (pool_tx 0)). apply (is_added_spec addition). vm_compute. reflexivity.
Qed.

Lemma pool_invariant_witness :
  system_ok pool_1.1 pool_1.2 /\ forall t, t ∈ pool_1.2 -> exists p' new, run_task t pool_1.1 = Ok (p', new).
Proof.
  apply (pool_invariant pool_sender pool_forks bounded_nonce pool_1.1 pool_1.2).
  - intros a tx Ha. exact Ha.
  - rewrite <- surjective_pairing. apply pool_1_reachable.
Defined.





(** An account with three enqueued transactions, the last after a gap. *)
Definition gap_account : account :=
  mkAccount (foldl (fun q n => AccountQueue.push (pool_tx n) q) [] [4; 0; 1]) [] 0.

Lemma pushes_ok (ns : list Z) q : queue_ok q -> queue_ok (foldl (fun q n => AccountQueue.push (pool_tx n) q) q ns).
Proof. revert q; induction ns as [|n ns IH]; intros q Hq; cbn [foldl]; [done|]. apply IH. by apply push_spec. Qed.

Lemma gap_promoted : tNonce <$> (promote gap_account).1 = [0; 1] /\ aNextNonce (promote gap_account).2 = 2.
Proof. vm_compute. auto. Qed.

Lemma gap_ok : queue_ok (aEnqueued gap_account) /\ queue_ok (aPromoted gap_account) /\ nonces_ok (aEnqueued gap_account).
Proof.
  split; [apply pushes_ok, nil_ok|]. split; [apply nil_ok|]. unfold nonces_ok.
  apply (Forall_impl (fun tx => tNonce tx ∈ [0; 1; 4])).
  - apply (bool_decide_unpack _). vm_compute. exact I.
  - intros tx Hin. cbn in Hin. rewrite !elem_of_cons in Hin. destruct Hin as [->|[->|[->|Hin%not_elem_of_nil]]]; lia || done.
Qed.

Lemma promotion_refines_witness :
  tNonce <$> (promote gap_account).1 = [0; 1] /\ aNextNonce (promote gap_account).2 = 2 /\
  let (moved, a') := promote gap_account in
  queue_ok (aEnqueued a') /\ queue_ok (aPromoted a') /\
  promotes (aEnqueued gap_account) (aPromoted gap_account) (aNextNonce gap_account) moved
    (aEnqueued a') (aPromoted a') (aNextNonce a').
Proof.
  destruct gap_promoted as [E1 E2]. destruct gap_ok as (H1 & H2 & H3). split; [exact E1|split; [exact E2|]].
  exact (promotion_refines gap_account H1 H2 H3).
Defined.
