(* ===== verification/ExecFacts.v ===== *)
(** The transition as a host of the virtual machine: what every call does to
    the world.  The main results are by induction on the depth of nested calls:
    no call mints, a failed call is rolled back, calls return at most their gas,
    and the bound on the call depth makes them end. *)

From Stdlib Require Import ZArith Lia.
From stdpp Require Import base gmap list numbers.
From S2P Require Import Prelude Types Chain Slice VM Opcodes Instructions Interp Logic Safety Run Txn TxnFacts Bloom Executor.

Open Scope Z_scope.

(** ** What is relied on of code that is not modelled *)

(** The database, its decoders and the cache return bytes, a new snapshot is
    empty, and the cache returns what was added to it. *)
Class StateDBOk `{StateDB} := {
  cache_has : cache -> Address -> list Z -> Prop;
  cache_has_new a v : ~ cache_has cache_new a v;
  cache_Get_has k a v : fst (cache_Get k a) = Some v -> cache_has k a v;
  cache_Get_keeps k a b v : cache_has (snd (cache_Get k a)) b v -> cache_has k b v;
  cache_Add_has k a c b v : cache_has (cache_Add k a c) b v -> (b = a /\ v = c) \/ cache_has k b v;
  rlp_GetBytes_ok v r : rlp_GetBytes v = Some r -> Forall is_byte r;
  State_GetCode_ok d x : bytes_ok (State_GetCode d x);
  UnmarshalRlp_ok data n b r ch :
    UnmarshalRlp data = Some (n, b, r, ch) -> is_u64 n /\ Forall is_byte ch;
  NewSnapshot_empty d k : Snapshot_Get (NewSnapshot d) k = None
}.

(** Precompiled contracts cost an amount of gas and return bytes. *)
Class PrecompilesOk `{Precompiles} := {
  pre_gas_ok a i f : bytes_ok i -> is_u64 (pre_gas a i f);
  pre_run_ok a i r e : bytes_ok i -> pre_run a i = Ok (r, e) -> bytes_ok r;
  pre_run_ends a i : bytes_ok i -> pre_run a i <> OutOfFuel
}.

Section tx.
Context `{Runtime} `{StateDB} `{!StateDBOk}.
Implicit Types (s : Tx.Txn) (o : Tx.StateObject).

(** ** Well-formed accounts *)

Record obj_ok (o : Tx.StateObject) : Prop := {
  obj_code : bytes_ok (Tx.Code o);
  obj_hash : Forall is_byte (Tx.CodeHash (Tx.account o));
  obj_storage : forall m k v, Tx.objTxn o = Some m -> m !! k = Some (Some v) -> Forall is_byte v
}.

Record tx_ok (s : Tx.Txn) : Prop := {
  tx_objs : forall a o, Tx.getStateObject s a = Some o -> obj_ok o;
  tx_cache : forall a v, cache_has (Tx.codeCache s) a v -> bytes_ok v;
  tx_refund : 0 <= Tx.GetRefund s
}.

Lemma obj_ok_copy o : obj_ok o -> obj_ok (Tx.StateObject_Copy o).
Proof. intros []. by split. Qed.

Lemma obj_ok_new s : obj_ok (Tx.newStateObject s).
Proof. split; [apply bytes_ok_nil|apply Keccak256_bytes|done]. Qed.

Lemma obj_ok_or_new s a : tx_ok s -> obj_ok (object_or_new s a).
Proof.
  intros [Ho _ _]. unfold object_or_new. destruct (Tx.getStateObject s a) eqn:E; [by eapply Ho|].
  apply obj_ok_new.
Qed.

Lemma tx_ok_insert a o s : tx_ok s -> obj_ok o -> tx_ok (Tx.insert_obj a o s).
Proof.
  intros [Ho Hc Hr] Hob. split; [|done|done]. intros b o' Hg. rewrite get_insert in Hg.
  destruct (decide (a = b)); [|by eapply Ho].
  destruct (Tx.Deleted o); simplify_eq. by apply obj_ok_copy.
Qed.

Lemma tx_ok_upsert a c f s :
  tx_ok s -> (forall o, obj_ok o -> obj_ok (f o)) -> tx_ok (Tx.upsertAccount a c f s).
Proof.
  intros Hs Hf. unfold Tx.upsertAccount. destruct (Tx.getStateObject s a) eqn:E.
  - apply tx_ok_insert; [done|]. apply Hf. by eapply tx_objs.
  - destruct c; [|done]. apply tx_ok_insert; [done|]. apply Hf, obj_ok_new.
Qed.

Lemma obj_ok_set_account a o :
  obj_ok o -> Tx.CodeHash a = Tx.CodeHash (Tx.account o) -> obj_ok (Tx.set_account a o).
Proof. intros [] Ha. split; try done. simpl. by rewrite Ha. Qed.
Lemma obj_ok_set_balance b o : obj_ok o -> obj_ok (Tx.set_balance b o).
Proof. intros. by apply obj_ok_set_account. Qed.
Lemma obj_ok_set_nonce n o : obj_ok o -> obj_ok (Tx.set_nonce n o).
Proof. intros. by apply obj_ok_set_account. Qed.

Lemma tx_ok_AddBalance a v s : tx_ok s -> tx_ok (Tx.AddBalance a v s).
Proof. intros. apply tx_ok_upsert; [done|]. intros. by apply obj_ok_set_balance. Qed.
Lemma tx_ok_SubBalance a v s s' : tx_ok s -> Tx.SubBalance a v s = Some s' -> tx_ok s'.
Proof.
  intros Hs. unfold Tx.SubBalance. repeat case_match; intros [=]; subst; [done|].
  apply tx_ok_upsert; [done|]. intros. by apply obj_ok_set_balance.
Qed.
Lemma tx_ok_IncrNonce a s : tx_ok s -> tx_ok (Tx.IncrNonce a s).
Proof. intros. apply tx_ok_upsert; [done|]. intros. by apply obj_ok_set_nonce. Qed.
Lemma tx_ok_TouchAccount a s : tx_ok s -> tx_ok (Tx.TouchAccount a s).
Proof. intros. by apply tx_ok_upsert. Qed.
Lemma tx_ok_SetCode a c s : tx_ok s -> bytes_ok c -> tx_ok (Tx.SetCode a c s).
Proof.
  intros Hs Hc. apply tx_ok_upsert; [done|]. intros o []. split; simpl; [done|apply Keccak256_bytes|done].
Qed.
Lemma tx_ok_CreateAccount a s : tx_ok s -> tx_ok (Tx.CreateAccount a s).
Proof.
  intros Hs. apply tx_ok_insert; [done|]. destruct (Tx.getStateObject s a); [apply obj_ok_set_balance|];
    apply obj_ok_new.
Qed.
Lemma tx_ok_SetState a k v s : tx_ok s -> tx_ok (Tx.SetState a k v s).
Proof.
  intros Hs. apply tx_ok_upsert; [done|]. intros o [Hc Hh Hst]. split; simpl; try done.
  intros m k' v' [= <-] Hl. destruct (decide (k = k')) as [->|].
  - rewrite lookup_insert_eq in Hl. destruct (v =? 0); [done|]. simplify_eq. apply be_encode_bytes.
  - rewrite lookup_insert_ne in Hl by done. destruct (Tx.objTxn o) as [m|] eqn:E; [by eapply Hst|].
    by rewrite lookup_empty in Hl.
Qed.
Lemma tx_ok_Suicide a s : tx_ok s -> tx_ok (snd (Tx.Suicide_op a s)).
Proof.
  intros Hs. apply tx_ok_upsert; [done|]. intros o []. by split.
Qed.

(** Updates of the logs, the refund and the list of snapshots. *)
Lemma tx_ok_objs s s' :
  tx_ok s -> Tx.objs (Tx.txn s') = Tx.objs (Tx.txn s) -> Tx.snap s' = Tx.snap s ->
  Tx.state s' = Tx.state s -> Tx.codeCache s' = Tx.codeCache s -> 0 <= Tx.GetRefund s' -> tx_ok s'.
Proof.
  intros [Ho Hc Hr] E1 E2 E3 E4 E5. split; [|by rewrite E4|done].
  intros a o Hg. rewrite (get_objs s s') in Hg by done. by eapply Ho.
Qed.

Lemma tx_ok_put_refund r s : tx_ok s -> tx_ok (Tx.put_refund (uint64 r) s).
Proof. intros Hs. eapply tx_ok_objs; [exact Hs|done..|]. apply uint64_range. Qed.

Lemma tx_ok_SetStorage s a k v f : tx_ok s -> tx_ok (snd (Tx.SetStorage s a k v f)).
Proof.
  intros Hs. unfold Tx.SetStorage, Tx.AddRefund, Tx.SubRefund.
  assert (Hset : tx_ok (Tx.SetState a k v s)) by (by apply tx_ok_SetState).
  repeat case_match; cbn [snd]; repeat apply tx_ok_put_refund; done.
Qed.

Lemma tx_ok_GetCode s a :
  tx_ok s -> bytes_ok (fst (Tx.GetCode s a)) /\ tx_ok (snd (Tx.GetCode s a)).
Proof.
  intros [Ho Hc Hr]. unfold Tx.GetCode. destruct (Tx.getStateObject s a) as [o|] eqn:E.
  2:{ split; [apply bytes_ok_nil|by split]. }
  destruct (Tx.DirtyCode o); [split; [by eapply obj_code, Ho|by split]|].
  pose proof (cache_Get_has (Tx.codeCache s) a) as Hhas.
  pose proof (cache_Get_keeps (Tx.codeCache s) a) as Hkeep.
  destruct (cache_Get (Tx.codeCache s) a) as [[v|] k]; simpl in *.
  - split; [by eapply Hc, Hhas|]. split; [done| |done]. intros b w Hb. by eapply Hc, Hkeep.
  - split; [apply State_GetCode_ok|]. split; [done| |done].
    intros b w [[-> ->]|Hb]%cache_Add_has; [apply State_GetCode_ok|by eapply Hc, Hkeep].
Qed.

(** ** Reads return words *)

Lemma committed_word o k : is_word (Tx.StateObject_GetCommitedState o k).
Proof.
  unfold Tx.StateObject_GetCommitedState. repeat case_match; try apply word_0.
  apply BytesToHash_range. by eapply rlp_GetBytes_ok.
Qed.

Lemma GetState_word s a k : tx_ok s -> is_word (Tx.GetState s a k).
Proof.
  intros [Ho _ _]. unfold Tx.GetState. destruct (Tx.getStateObject s a) as [o|] eqn:E; [|apply word_0].
  destruct (Tx.objTxn o) as [m|] eqn:Em; [|apply committed_word].
  destruct (m !! k) as [[v|]|] eqn:Ek; [|apply word_0|apply committed_word].
  apply BytesToHash_range. eapply obj_storage; [by eapply Ho|done..].
Qed.

Lemma GetCodeHash_word s a : tx_ok s -> is_word (Tx.GetCodeHash s a).
Proof.
  intros [Ho _ _]. unfold Tx.GetCodeHash. destruct (Tx.getStateObject s a) as [o|] eqn:E; [|apply word_0].
  apply BytesToHash_range. by eapply obj_hash, Ho.
Qed.

(** ** Snapshots *)

(** [s'] was reached from [s] without a commit: the snapshots of [s] are kept. *)
Record later (s s' : Tx.Txn) : Prop := {
  later_snaps : Tx.snapshots s `prefix_of` Tx.snapshots s';
  later_snap : Tx.snap s' = Tx.snap s;
  later_state : Tx.state s' = Tx.state s
}.

Lemma later_refl s : later s s.
Proof. by split. Qed.
Lemma later_trans s1 s2 s3 : later s1 s2 -> later s2 s3 -> later s1 s3.
Proof. intros [] []. split; [by etrans|congruence..]. Qed.
Lemma later_insert a o s : later s (Tx.insert_obj a o s).
Proof. by split. Qed.
Lemma later_upsert a c f s : later s (Tx.upsertAccount a c f s).
Proof. unfold Tx.upsertAccount. repeat case_match; apply later_refl || apply later_insert. Qed.
Lemma later_put_refund r s : later s (Tx.put_refund r s).
Proof. by split. Qed.
Lemma later_SubBalance a v s s' : Tx.SubBalance a v s = Some s' -> later s s'.
Proof.
  unfold Tx.SubBalance. repeat case_match; intros [=]; subst; [apply later_refl|apply later_upsert].
Qed.
Lemma later_SetStorage s a k v f : later s (snd (Tx.SetStorage s a k v f)).
Proof.
  unfold Tx.SetStorage, Tx.AddRefund, Tx.SubRefund.
  assert (later s (Tx.SetState a k v s)) by apply later_upsert.
  repeat case_match; cbn [snd]; repeat (first [done | apply later_refl
    | eapply later_trans; [|apply later_put_refund]]).
Qed.
Lemma later_GetCode s a : later s (snd (Tx.GetCode s a)).
Proof. unfold Tx.GetCode. repeat case_match; by split. Qed.
Lemma later_Snapshot s : later s (snd (Tx.Snapshot s)).
Proof. split; try done. by apply prefix_app_r. Qed.

(** A rollback puts the accounts back: whatever was done since. *)
Lemma revert_later s s' :
  later (snd (Tx.Snapshot s)) s' ->
  Tx.RevertToSnapshot (fst (Tx.Snapshot s)) s' = Ok (Tx.set_txn (Tx.txn s) s').
Proof.
  intros [Hp _ _]. unfold Tx.RevertToSnapshot, Tx.Snapshot in *. cbn [fst snd Tx.snapshots] in *.
  assert (Tx.snapshots s' !! length (Tx.snapshots s) = Some (Tx.txn s)) as ->; [|done].
  eapply prefix_lookup_Some; [|exact Hp]. by rewrite lookup_app_r, Nat.sub_diag by done.
Qed.

Lemma get_revert s s' a :
  Tx.snap s' = Tx.snap s -> Tx.state s' = Tx.state s ->
  Tx.getStateObject (Tx.set_txn (Tx.txn s) s') a = Tx.getStateObject s a.
Proof. intros. by apply get_objs. Qed.

(** Updates read the accounts only, not the list of snapshots. *)
Definition same_accounts s s' : Prop :=
  Tx.txn s' = Tx.txn s /\ Tx.snap s' = Tx.snap s /\ Tx.state s' = Tx.state s.

Lemma same_upsert a c f s s' :
  same_accounts s s' -> same_accounts (Tx.upsertAccount a c f s) (Tx.upsertAccount a c f s').
Proof.
  intros (E1 & E2 & E3). unfold Tx.upsertAccount, Tx.newStateObject.
  rewrite (get_objs s s') by (by rewrite ?E1). rewrite E3. repeat case_match; try done.
  all: unfold same_accounts, Tx.insert_obj; cbn; by rewrite E1.
Qed.

Lemma same_CreateAccount a s s' :
  same_accounts s s' -> same_accounts (Tx.CreateAccount a s) (Tx.CreateAccount a s').
Proof.
  intros (E1 & E2 & E3). unfold Tx.CreateAccount, Tx.newStateObject.
  rewrite (get_objs s s') by (by rewrite ?E1). rewrite E3.
  unfold same_accounts, Tx.insert_obj; cbn; by rewrite E1.
Qed.

End tx.

Section exec.
Context `{Runtime} `{StateDB} `{!StateDBOk} `{Precompiles} `{!PrecompilesOk} `{Signer}.
Context (acquireState : Contract -> VM.state) (acquire_ok : forall k, pooled_ok (acquireState k)).
Implicit Types (t : Transition) (k : Contract).

Abbreviation bal t := (Tx.GetBalance (tState t)).

(** ** The world and how it may change *)

Record world t : Prop := {
  w_bal : bounded (bal t);
  w_tx : tx_ok (tState t);
  w_ctx : context_ok (tCtx t);
  w_hash : forall n, is_word (tGetHash t n);
  w_fork : EIP150 (tConfig t) = true
}.

(** From [t] to [t'] nothing was minted, the snapshots are kept, and only the
    state transaction changed. *)
Record keeps t t' : Prop := {
  kp_delta : delta 0 (bal t) (bal t');
  kp_later : later (tState t) (tState t');
  kp_rest : t' = set_state (tState t') t
}.

Lemma keeps_refl t : keeps t t.
Proof. split; [apply delta_refl|apply later_refl|by destruct t]. Qed.

Lemma keeps_trans t1 t2 t3 : keeps t1 t2 -> keeps t2 t3 -> keeps t1 t3.
Proof.
  intros [D1 L1 R1] [D2 L2 R2]. split.
  - exact (delta_trans 0 0 _ _ _ D1 D2).
  - by eapply later_trans.
  - rewrite R2, R1. done.
Qed.

Lemma keeps_set_state s t :
  later (tState t) s -> delta 0 (bal t) (Tx.GetBalance s) -> keeps t (set_state s t).
Proof. intros. by split. Qed.

Lemma keeps_world t t' : world t -> keeps t t' -> tx_ok (tState t') -> world t'.
Proof.
  intros [Hb Ht Hc Hh Hf] [Hd Hl Hr] Ht'. rewrite Hr. split; simpl; try done.
  eapply delta_bounded; [exact Hb|intros; apply bal_nonneg|done].
Qed.

(** An update of the state that keeps every balance. *)
Lemma keeps_on_state f t :
  later (tState t) (f (tState t)) -> (forall a, Tx.GetBalance (f (tState t)) a = bal t a) ->
  keeps t (on_state f t).
Proof. intros Hl Hb. apply keeps_set_state; [done|]. by apply delta_ext. Qed.

Lemma world_on_state f t :
  world t -> keeps t (on_state f t) -> tx_ok (f (tState t)) -> world (on_state f t).
Proof. intros. by eapply keeps_world. Qed.

(** *** Transfers *)

Lemma transfer_ok from to v t t' :
  world t -> (forall x, v = Some x -> 0 <= x) -> transfer from to v t = inl t' ->
  keeps t t' /\ world t'.
Proof.
  intros Hw Hv. unfold transfer. destruct v as [x|]; [|intros [= <-]; split; [apply keeps_refl|done]].
  specialize (Hv x eq_refl). destruct (Tx.SubBalance from x (tState t)) as [s|] eqn:Es; [|done].
  intros [= <-]. destruct (SubBalance_spec _ _ _ _ Hv Es) as [Hle Hb].
  assert (Hk : keeps t (set_state (Tx.AddBalance to x s) t)).
  { apply keeps_set_state.
    - eapply later_trans; [by eapply later_SubBalance|apply later_upsert].
    - replace 0 with (- x + x) by lia.
      eapply (delta_trans (- x) x _ (Tx.GetBalance s)).
      + apply (delta_at from); [intros b Hne|]; rewrite Hb; case_decide; simplify_eq; try done; lia.
      + apply (delta_at to); [intros b Hne|]; rewrite bal_AddBalance by done; case_decide;
          simplify_eq; try done; lia. }
  split; [done|]. eapply keeps_world; [done..|]. apply tx_ok_AddBalance.
  eapply tx_ok_SubBalance; [apply Hw|done].
Qed.

(** *** Self-destruction *)

Lemma selfdestruct_ok t a b : world t -> keeps t (Transition_Selfdestruct t a b) /\ world (Transition_Selfdestruct t a b).
Proof.
  intros Hw. unfold Transition_Selfdestruct.
  set (t1 := if negb _ then _ else t).
  assert (Hkw1 : keeps t t1 /\ world t1).
  { subst t1. destruct (negb _); [|split; [apply keeps_refl|done]].
    assert (Hk : keeps t (on_state (Tx.AddRefund 24000) t)).
    { apply keeps_on_state; [apply later_put_refund|]. intros. apply bal_put_refund. }
    split; [done|]. eapply world_on_state; [done..|]. apply tx_ok_put_refund, Hw. }
  destruct Hkw1 as [Hk1 Hw1]. clearbody t1.
  set (v := bal t1 a). assert (Hv : 0 <= v) by apply bal_nonneg.
  assert (Hk2 : keeps t1 (on_state (fun s => snd (Tx.Suicide_op a s))
    (on_state (Tx.AddBalance b v) t1))).
  { apply (keeps_set_state (snd (Tx.Suicide_op a (Tx.AddBalance b v (tState t1)))) t1).
    - eapply later_trans; apply later_upsert.
    - replace 0 with (v + - v) by lia.
      eapply (delta_trans v (- v) _ (Tx.GetBalance (Tx.AddBalance b v (tState t1)))).
      + apply (delta_at b); [intros x Hne|]; rewrite bal_AddBalance by done; case_decide;
          simplify_eq; try done; lia.
      + apply (delta_at a); [intros x Hne|]; rewrite bal_Suicide;
          case_decide; simplify_eq; try done.
        rewrite bal_AddBalance by done. pose proof (bal_nonneg (tState t1) b).
        case_decide; simplify_eq; fold v; lia. }
  split; [by eapply keeps_trans|]. eapply keeps_world; [done..|].
  apply tx_ok_Suicide, tx_ok_AddBalance, Hw1.
Qed.

(** ** The host *)

(** What a call of the transition does, given the same of the calls it makes. *)
Definition call_ok (r : outcome (ExecutionResult * Transition)) t k : Prop :=
  match r with
  | Ok (r, t') => result_ok k r /\ world t' /\ keeps t t'
  | _ => True
  end.

Section host.
Context (cx : Transition -> Contract -> outcome (ExecutionResult * Transition)).
Context (cx_ok : forall t k, world t -> contract_ok k -> call_ok (cx t k) t k).

(** Every host operation keeps the world and what is kept since [t0]. *)
Lemma transition_host_ok (t0 : Transition) : HostOk Transition (H0 := transition_host cx).
Proof.
  refine (@Build_HostOk Transition (transition_host cx) (fun t => world t /\ keeps t0 t)
    _ _ _ _ _ _ _ _ _ _ _); simpl.
  - intros t a k [Hw _]. apply GetState_word, Hw.
  - intros t a k v f [Hw Hk]. destruct (Tx.SetStorage (tState t) a k v f) as [st s] eqn:E. simpl.
    assert (Es : s = snd (Tx.SetStorage (tState t) a k v f)) by (by rewrite E).
    assert (Hk' : keeps t (set_state s t)).
    { subst s. apply keeps_set_state; [apply later_SetStorage|].
      apply delta_ext. intros. apply bal_SetStorage. }
    split; [|by eapply keeps_trans]. eapply keeps_world; [done..|]. subst s.
    apply tx_ok_SetStorage, Hw.
  - intros t a [Hw _]. apply bounded_word, Hw.
  - intros t a [Hw Hk]. unfold Tx.GetCodeSize.
    destruct (tx_ok_GetCode (tState t) a (w_tx _ Hw)) as [_ Ht].
    pose proof (later_GetCode (tState t) a) as Hl. pose proof (bal_GetCode (tState t) a) as Hb.
    destruct (Tx.GetCode (tState t) a) as [c s]. simpl in *.
    assert (keeps t (set_state s t)) by (apply keeps_set_state; [done|by apply delta_ext]).
    split; [by eapply keeps_world|by eapply keeps_trans].
  - intros t a [Hw _]. apply GetCodeHash_word, Hw.
  - intros t a [Hw Hk]. destruct (tx_ok_GetCode (tState t) a (w_tx _ Hw)) as [Hc Ht].
    pose proof (later_GetCode (tState t) a) as Hl. pose proof (bal_GetCode (tState t) a) as Hb.
    destruct (Tx.GetCode (tState t) a) as [c s]. simpl in *. split; [done|].
    assert (keeps t (set_state s t)) by (apply keeps_set_state; [done|by apply delta_ext]).
    split; [by eapply keeps_world|by eapply keeps_trans].
  - intros t a b [Hw Hk]. destruct (selfdestruct_ok t a b Hw). split; [done|by eapply keeps_trans].
  - intros t [Hw _]. apply Hw.
  - intros t n [Hw _]. apply Hw.
  - intros t a ts d [Hw Hk].
    assert (Hk' : keeps t (on_state (Tx.EmitLog a ts d) t)).
    { apply keeps_on_state; [by split|]. intros. apply bal_AddLog. }
    split; [|by eapply keeps_trans]. eapply world_on_state; [done..|].
    eapply tx_ok_objs; [apply Hw|done..|apply Hw].
  - intros t k [Hw Hk] Hc. specialize (cx_ok t k Hw Hc). unfold call_ok in cx_ok.
    destruct (cx t k) as [[r t']| |]; [|done..]. destruct cx_ok as (? & ? & ?).
    split_and!; [done|done|by eapply keeps_trans].
Defined.

(** The fuel of a nested call ran out. *)
Definition nested_no_fuel k : Prop :=
  exists t k', world t /\ contract_ok k' /\ cDepth k' = cDepth k + 1 /\ cx t k' = OutOfFuel.

Definition nested_ok (r : outcome (ExecutionResult * Transition)) t k : Prop :=
  call_ok r t k /\ (r = OutOfFuel -> nested_no_fuel k).

Lemma step_ok_Ok r t t' k :
  result_ok k r -> world t' -> keeps t t' -> nested_ok (Ok (r, t')) t k.
Proof. intros. split; done. Qed.

Lemma step_ok_trans r t1 t2 k : keeps t1 t2 -> nested_ok r t2 k -> nested_ok r t1 k.
Proof.
  intros Hk [Hc Hf]. split; [|done]. unfold call_ok in *. destruct r as [[r t3]| |]; [|done..].
  destruct Hc as (? & ? & ?). split_and!; [done|done|by eapply keeps_trans].
Qed.

Lemma result_ok_plain k e g : 0 <= g <= cGas k -> result_ok k (mkResult [] g 0 e).
Proof. intros. split; [apply bytes_ok_nil|done]. Qed.

Lemma Precompiled_Run_ok k f : contract_ok k ->
  match Precompiled_Run k f with
  | Ok r => result_ok k r
  | Panic => True
  | OutOfFuel => False
  end.
Proof.
  intros Hk. unfold Precompiled_Run. pose proof (pre_gas_ok (cCodeAddress k) (cInput k) f (k_input _ Hk)) as [Hg0 Hg1].
  destruct (k_gas _ Hk) as [Hk0 Hk1].
  destruct (Z.ltb_spec (cGas k) (pre_gas (cCodeAddress k) (cInput k) f)).
  { apply result_ok_plain. lia. }
  destruct (pre_run _ _) as [[v [e|]]| |] eqn:E; cbn [obind].
  - apply result_ok_plain; lia.
  - rewrite uint64_small by (unfold is_u64; lia). split; simpl; [|lia].
    eapply pre_run_ok, E. apply Hk.
  - done.
  - apply pre_run_ends in E; [done|apply Hk].
Qed.

Lemma run_ok t k : world t -> contract_ok k -> nested_ok (run acquireState cx t k) t k.
Proof.
  intros Hw Hk. unfold run. destruct (Precompiled_CanRun k (tConfig t)).
  { pose proof (Precompiled_Run_ok k (tConfig t) Hk) as Hr.
    destruct (Precompiled_Run k (tConfig t)); [|done|done].
    apply step_ok_Ok; [done|done|apply keeps_refl]. }
  destruct (@EVM_Run_ok Transition (transition_host cx) _ (transition_host_ok t)
    (acquireState k) k (tConfig t) t) as (b & _ & Hr).
  { apply acquire_ok. } { done. } { apply Hw. } { split; [done|apply keeps_refl]. }
  destruct (EVM_Run _ _ _ _) as [[[r p] t']| |].
  - destruct Hr as (? & _ & [? ?]). by apply step_ok_Ok.
  - done.
  - split; [done|]. intros _. destruct Hr as (t1 & k1 & [? _] & ? & ? & ?). by exists t1, k1.
Qed.

(** ** Rollback *)

Lemma snapshot_ok t : world t -> keeps t (snd (take_snapshot t)) /\ world (snd (take_snapshot t)).
Proof.
  intros Hw. unfold take_snapshot. simpl.
  assert (Hk : keeps t (set_state (snd (Tx.Snapshot (tState t))) t)).
  { apply keeps_set_state; [apply later_Snapshot|]. apply delta_ext. intros a. by apply bal_objs. }
  split; [done|]. eapply keeps_world; [done..|]. eapply tx_ok_objs; [apply Hw|done..|apply Hw].
Qed.

(** Reverting to the snapshot of [t] puts its accounts, logs and refund back. *)
Lemma revert_ok t t' :
  world t -> keeps (snd (take_snapshot t)) t' -> tx_ok (tState t') ->
  exists t'', revert (fst (take_snapshot t)) t' = Ok t'' /\ keeps t t'' /\ world t'' /\
    Tx.txn (tState t'') = Tx.txn (tState t).
Proof.
  intros Hw Hk Ht'. unfold revert.
  assert (Hlater : later (snd (Tx.Snapshot (tState t))) (tState t')) by (exact (kp_later _ _ Hk)).
  change (fst (take_snapshot t)) with (fst (Tx.Snapshot (tState t))).
  rewrite (revert_later (tState t) (tState t') Hlater).
  eexists. split; [done|]. set (s := Tx.set_txn (Tx.txn (tState t)) (tState t')).
  assert (Hl : later (tState t) s).
  { destruct (later_trans _ _ _ (later_Snapshot _) Hlater). by split. }
  assert (Hg : forall a, Tx.getStateObject s a = Tx.getStateObject (tState t) a).
  { intros a. apply get_revert; apply Hl. }
  assert (Hkk : keeps t (set_state s t')).
  { rewrite (kp_rest _ _ Hk). apply (keeps_set_state s t); [done|].
    apply delta_ext. intros a. unfold Tx.GetBalance. by rewrite Hg. }
  split_and!; [done| |done]. eapply keeps_world; [done..|].
  split; [|apply Ht'|apply Hw]. intros a o Ho. eapply (tx_objs _ (w_tx _ Hw) a). rewrite <- Hg. exact Ho.
Qed.

(** ** Calls *)

Lemma applyCall_ok k ct t :
  world t -> contract_ok k -> nested_ok (applyCall acquireState cx k ct t) t k.
Proof.
  intros Hw Hk. unfold applyCall. destruct (k_gas _ Hk) as [Hg0 Hg1].
  destruct (1024 + 1 <? cDepth k).
  { apply step_ok_Ok; [apply result_ok_plain; lia|done|apply keeps_refl]. }
  destruct (snapshot_ok t Hw) as [Hks Hws]. destruct (take_snapshot t) as [id t1] eqn:Es. simpl in *.
  set (t2 := on_state _ t1).
  assert (Hk2 : keeps t1 t2).
  { apply keeps_on_state; [apply later_upsert|]. intros. apply bal_TouchAccount. }
  assert (Hw2 : world t2) by (eapply world_on_state; [done..|]; apply tx_ok_TouchAccount, Hws).
  set (tr := if bool_decide (ct = Call) then _ else _).
  destruct tr as [t3|e] eqn:Etr.
  2:{ apply step_ok_Ok; [apply result_ok_plain; lia|done|]. by eapply keeps_trans. }
  assert (Hkw3 : keeps t2 t3 /\ world t3).
  { subst tr. destruct (bool_decide (ct = Call)).
    - eapply transfer_ok; [done| |exact Etr]. intros x Hx. by apply word_nonneg, (k_value _ Hk).
    - simplify_eq. split; [apply keeps_refl|done]. }
  destruct Hkw3 as [Hk3 Hw3].
  destruct (run_ok t3 k Hw3 Hk) as [Hr Hf]. assert (Hk13 : keeps t1 t3) by (by eapply keeps_trans).
  destruct (run acquireState cx t3 k) as [[r t4]| |]; [|done|by split].
  destruct Hr as (Hres & Hw4 & Hk4). assert (Hk14 : keeps t1 t4) by (by eapply keeps_trans).
  destruct (Failed r).
  - destruct (revert_ok t t4) as (t5 & Hrev & Hk5 & Hw5 & _); [done|by rewrite Es|apply Hw4|].
    rewrite Es in Hrev. simpl in Hrev. rewrite Hrev. by apply step_ok_Ok.
  - apply step_ok_Ok; [done|done|]. by eapply keeps_trans.
Qed.

(** The account of a contract being created: its balance is kept. *)
Definition create_account k t : Transition :=
  if EIP158 (tConfig t)
  then on_state (Tx.IncrNonce (cAddress k)) (on_state (Tx.CreateAccount (cAddress k)) t)
  else t.

Lemma create_account_ok k t : world t -> keeps t (create_account k t) /\ world (create_account k t).
Proof.
  intros Hw. unfold create_account. destruct (EIP158 (tConfig t)); [|split; [apply keeps_refl|done]].
  assert (Hk : keeps t (set_state (Tx.IncrNonce (cAddress k)
    (Tx.CreateAccount (cAddress k) (tState t))) t)).
  { apply keeps_set_state; [eapply later_trans; [apply later_insert|apply later_upsert]|].
    apply delta_ext. intros a. by rewrite bal_IncrNonce, bal_CreateAccount. }
  split; [done|]. eapply keeps_world; [done..|].
  apply tx_ok_IncrNonce, tx_ok_CreateAccount, Hw.
Qed.

Lemma incr_nonce_ok a t : world t -> keeps t (on_state (Tx.IncrNonce a) t) /\ world (on_state (Tx.IncrNonce a) t).
Proof.
  intros Hw. assert (Hk : keeps t (on_state (Tx.IncrNonce a) t)).
  { apply keeps_on_state; [apply later_upsert|]. intros. apply bal_IncrNonce. }
  split; [done|]. eapply world_on_state; [done..|]. apply tx_ok_IncrNonce, Hw.
Qed.

(** The end of applyCreate, after the run of the init code. *)
Definition finish_create k (id : nat) (result : ExecutionResult) t
    : outcome (ExecutionResult * Transition) :=
  if Failed result then obind (revert id t) (fun t => Ok (result, t))
  else if EIP158 (tConfig t) && (spuriousDragonMaxCodeSize <? len (ReturnValue result))
  then obind (revert id t) (fun t => Ok (mkResult [] 0 0 (Some ErrMaxCodeSizeExceeded), t))
  else
    let gasCost := uint64 (len (ReturnValue result) * 200) in
    if GasLeft result <? gasCost then
      if Homestead (tConfig t)
      then obind (revert id t) (fun t =>
             Ok (mkResult [] 0 (GasUsed result) (Some ErrCodeStoreOutOfGas), t))
      else Ok (mkResult [] (GasLeft result) (GasUsed result) (Some ErrCodeStoreOutOfGas), t)
    else
      Ok (mkResult (ReturnValue result) (uint64 (GasLeft result - gasCost)) (GasUsed result)
            (Err result), on_state (Tx.SetCode (cAddress k) (ReturnValue result)) t).

Lemma finish_create_ok k r t t' :
  world t -> contract_ok k -> keeps (snd (take_snapshot t)) t' -> world t' -> result_ok k r ->
  nested_ok (finish_create k (fst (take_snapshot t)) r t') t k.
Proof.
  intros Hw Hk Hkeep Hw' [Hv [Hg0 Hg1]]. unfold finish_create.
  destruct (revert_ok t t' Hw Hkeep (w_tx _ Hw')) as (t5 & Hrev & Hk5 & Hw5 & _). rewrite Hrev.
  assert (Hkt : keeps t t') by (eapply keeps_trans; [by apply snapshot_ok|done]).
  destruct (Failed r); [by apply step_ok_Ok|].
  destruct (_ && _); [apply step_ok_Ok; [apply result_ok_plain; lia|done|done]|].
  pose proof (uint64_range (len (ReturnValue r) * 200)) as [Hu0 Hu1].
  destruct (Z.ltb_spec (GasLeft r) (uint64 (len (ReturnValue r) * 200))).
  { destruct (Homestead (tConfig t')); apply step_ok_Ok; try done;
      (split; simpl; [apply bytes_ok_nil|lia]). }
  destruct (k_gas _ Hk). rewrite (uint64_small (GasLeft r - _)) by (unfold is_u64; lia).
  assert (Hk6 : keeps t' (on_state (Tx.SetCode (cAddress k) (ReturnValue r)) t')).
  { apply keeps_on_state; [apply later_upsert|]. intros. apply bal_SetCode. }
  apply step_ok_Ok.
  - split; simpl; [done|lia].
  - eapply world_on_state; [done..|]. by apply tx_ok_SetCode; [apply Hw'|].
  - by eapply keeps_trans.
Qed.

Lemma applyCreate_ok k t :
  world t -> contract_ok k -> nested_ok (applyCreate acquireState cx k t) t k.
Proof.
  intros Hw Hk. unfold applyCreate. destruct (k_gas _ Hk) as [Hg0 Hg1].
  destruct (1024 + 1 <? cDepth k).
  { apply step_ok_Ok; [apply result_ok_plain; lia|done|apply keeps_refl]. }
  destruct (incr_nonce_ok (cCaller k) t Hw) as [Hk1 Hw1]. set (t1 := on_state _ t) in *.
  eapply step_ok_trans; [exact Hk1|].
  destruct (hasCodeOrNonce t1 (cAddress k)).
  { apply step_ok_Ok; [apply result_ok_plain; lia|done|apply keeps_refl]. }
  destruct (snapshot_ok t1 Hw1) as [Hk2 Hw2].
  pose proof (finish_create_ok k) as Hfin. unfold finish_create in Hfin.
  specialize (fun r t' => Hfin r t1 t' Hw1 Hk).
  destruct (take_snapshot t1) as [id t2]. simpl in *. fold (create_account k t2).
  destruct (create_account_ok k t2 Hw2) as [Hk3 Hw3].
  destruct (transfer (cCaller k) (cAddress k) (cValue k) (create_account k t2)) as [t4|e] eqn:Etr.
  2:{ apply step_ok_Ok; [apply result_ok_plain; lia|done|]. by eapply keeps_trans. }
  assert (Hkw4 : keeps (create_account k t2) t4 /\ world t4).
  { eapply transfer_ok; [done| |exact Etr]. intros x Hx. by apply word_nonneg, (k_value _ Hk). }
  destruct Hkw4 as [Hk4 Hw4]. destruct (run_ok t4 k Hw4 Hk) as [Hr Hf].
  destruct (run acquireState cx t4 k) as [[r t5]| |]; [|done|by split].
  destruct Hr as (Hres & Hw5 & Hk5).
  apply Hfin; [|done|done]. by do 2 (eapply keeps_trans; [|done]).
Qed.
(** *** What a failed call leaves behind *)

(** A failed call is rolled back, but for the account touched before a transfer
    that its caller could not pay. *)
Lemma applyCall_failed k ct t r t' :
  world t -> contract_ok k -> applyCall acquireState cx k ct t = Ok (r, t') -> Failed r = true ->
  Tx.txn (tState t') = Tx.txn (tState t) \/
  Err r = Some ErrInsufficientBalance /\
  Tx.txn (tState t') = Tx.txn (Tx.TouchAccount (cAddress k) (tState t)).
Proof.
  intros Hw Hk. unfold applyCall. destruct (1024 + 1 <? cDepth k).
  { intros [= <- <-] _. by left. }
  destruct (snapshot_ok t Hw) as [Hks Hws].
  assert (Et : snd (take_snapshot t) = set_state (snd (Tx.Snapshot (tState t))) t) by done.
  destruct (take_snapshot t) as [id t1] eqn:Es. cbn [snd] in *.
  set (t2 := on_state _ t1).
  assert (Hk2 : keeps t1 t2).
  { apply keeps_on_state; [apply later_upsert|]. intros. apply bal_TouchAccount. }
  assert (Hw2 : world t2) by (eapply world_on_state; [done..|]; apply tx_ok_TouchAccount, Hws).
  set (tr := if bool_decide (ct = Call) then _ else _). destruct tr as [t3|e] eqn:Etr.
  2:{ intros [= <- <-] _. right. subst tr. destruct (bool_decide (ct = Call)); [|done].
      unfold transfer in Etr. repeat case_match; simplify_eq. split; [done|].
      by apply same_upsert. }
  assert (Hkw3 : keeps t2 t3 /\ world t3).
  { subst tr. destruct (bool_decide (ct = Call)).
    - eapply transfer_ok; [done| |exact Etr]. intros x Hx. by apply word_nonneg, (k_value _ Hk).
    - simplify_eq. split; [apply keeps_refl|done]. }
  destruct Hkw3 as [Hk3 Hw3]. destruct (run_ok t3 k Hw3 Hk) as [Hr _].
  destruct (run acquireState cx t3 k) as [[r0 t4]| |]; [|done..].
  destruct Hr as (_ & Hw4 & Hk4).
  destruct (revert_ok t t4) as (t5 & Hrev & _ & _ & Htxn);
    [done|rewrite Es; by do 2 (eapply keeps_trans; [|done])|apply Hw4|].
  rewrite Es in Hrev. cbn [fst] in Hrev. rewrite Hrev. cbn [obind].
  destruct (Failed r0) eqn:Ef; intros [= <- <-] Hf; [by left|congruence].
Qed.

(** A failed creation is rolled back to the increment of the creator's nonce, but
    for the account created before a transfer that the creator could not pay. *)
Lemma applyCreate_failed k t r t' :
  world t -> contract_ok k -> Homestead (tConfig t) = true ->
  applyCreate acquireState cx k t = Ok (r, t') -> Failed r = true ->
  let t1 := on_state (Tx.IncrNonce (cCaller k)) t in
  Err r = Some ErrDepth /\ t' = t \/
  Tx.txn (tState t') = Tx.txn (tState t1) \/
  Err r = Some ErrInsufficientBalance /\
  Tx.txn (tState t') = Tx.txn (tState (create_account k t1)).
Proof.
  intros Hw Hk Hhome. unfold applyCreate. destruct (1024 + 1 <? cDepth k).
  { intros [= <- <-] _. by left. }
  destruct (incr_nonce_ok (cCaller k) t Hw) as [Hk1 Hw1]. set (t1 := on_state _ t) in *.
  destruct (hasCodeOrNonce t1 (cAddress k)). { intros [= <- <-] _. right. by left. }
  destruct (snapshot_ok t1 Hw1) as [Hk2 Hw2].
  assert (Et : snd (take_snapshot t1) = set_state (snd (Tx.Snapshot (tState t1))) t1) by done.
  destruct (take_snapshot t1) as [id t2] eqn:Es. cbn [snd] in *. fold (create_account k t2).
  destruct (create_account_ok k t2 Hw2) as [Hk3 Hw3].
  destruct (transfer (cCaller k) (cAddress k) (cValue k) (create_account k t2)) as [t4|e] eqn:Etr.
  2:{ intros [= <- <-] _. right; right. unfold transfer in Etr. repeat case_match; simplify_eq.
      split; [done|]. unfold create_account. cbn [set_state tConfig].
      destruct (EIP158 (tConfig t1)); [|done]. by apply same_upsert, same_CreateAccount. }
  assert (Hkw4 : keeps (create_account k t2) t4 /\ world t4).
  { eapply transfer_ok; [done| |exact Etr]. intros x Hx. by apply word_nonneg, (k_value _ Hk). }
  destruct Hkw4 as [Hk4 Hw4]. destruct (run_ok t4 k Hw4 Hk) as [Hr _].
  destruct (run acquireState cx t4 k) as [[r0 t5]| |]; [|done..].
  destruct Hr as (_ & Hw5 & Hk5).
  assert (Hk25 : keeps t2 t5) by (by do 2 (eapply keeps_trans; [|done])).
  destruct (revert_ok t1 t5) as (t6 & Hrev & _ & _ & Htxn); [done|by rewrite Es|apply Hw5|].
  rewrite Es in Hrev. cbn [fst] in Hrev. rewrite Hrev. cbn [obind].
  assert (Hh5 : Homestead (tConfig t5) = true) by (rewrite (kp_rest _ _ Hk25), Et; done).
  rewrite Hh5. destruct (Failed r0) eqn:Ef; [intros [= <- <-] _; right; by left|].
  repeat case_match; intros [= <- <-] Hf; try (right; by left).
  unfold Failed in *. cbn [Err] in *. by rewrite Ef in Hf.
Qed.
End host.

(** ** Every depth *)

Lemma callx_ok n t k : world t -> contract_ok k -> call_ok (callx acquireState n t k) t k.
Proof.
  revert t k. induction n as [|n IH]; intros t k Hw Hk; [done|]. cbn [callx].
  case_bool_decide; [apply (applyCreate_ok _ IH)|apply (applyCall_ok _ IH)]; done.
Qed.

(** The depth bound: below it every nested call has fuel. *)
Lemma callx_fuel n t k :
  world t -> contract_ok k -> 1026 - cDepth k < Z.of_nat n -> (0 < n)%nat ->
  callx acquireState n t k <> OutOfFuel.
Proof.
  revert t k. induction n as [|n IH]; intros t k Hw Hk Hn Hpos; [lia|]. cbn [callx].
  assert (Hnest : forall k, cDepth k <= 1025 -> 1026 - cDepth k < Z.of_nat (S n) ->
    ~ nested_no_fuel (callx acquireState n) k).
  { intros k1 Hd Hn1 (t' & k' & Hw' & Hk' & Hd' & Ho). apply (IH t' k'); [done|done|lia|lia|done]. }
  assert (Hdeep : 1025 < cDepth k \/ cDepth k <= 1025) by lia.
  destruct Hdeep as [Hdeep|Hshallow].
  - case_bool_decide; unfold applyCreate, applyCall;
      rewrite (proj2 (Z.ltb_lt (1024 + 1) (cDepth k))) by lia; done.
  - intros Ho. apply (Hnest k Hshallow Hn).
    case_bool_decide; [apply (applyCreate_ok _ (callx_ok n) k t Hw Hk)|
      apply (applyCall_ok _ (callx_ok n) k (cType k) t Hw Hk)]; done.
Qed.
End exec.
