(* ===== verification/TxnLaws.v ===== *)
(** Laws of the state transaction of src/state/txn.go that its clients rely on:
    storage reads after writes, rollback after any sequence of operations, the
    cleaning of accounts, and the order in which a commit writes them. *)

From Stdlib Require Import ZArith Lia.
From stdpp Require Import base gmap list numbers sorting relations.
From S2P Require Import Prelude Types Chain Logic Txn TxnFacts ExecFacts.

Open Scope Z_scope.

Section laws.
Context `{Runtime} `{StateDB} `{!StateDBOk}.
Implicit Types (s : Tx.Txn) (o : Tx.StateObject) (a b : Address).

(** ** Storage *)

(** The value of a slot of an account object. *)
Definition slot o (k : Hash) : Hash :=
  match match Tx.objTxn o with None => None | Some m => m !! k end with
  | Some None => 0
  | Some (Some v) => BytesToHash v
  | None => Tx.StateObject_GetCommitedState o (BytesToHash (Tx.hashit (Hash_Bytes k)))
  end.

Lemma GetState_slot s a k :
  Tx.GetState s a k = match Tx.getStateObject s a with None => 0 | Some o => slot o k end.
Proof. done. Qed.

Lemma slot_copy o k : slot (Tx.StateObject_Copy o) k = slot o k.
Proof. done. Qed.

Lemma slot_new s k : slot (Tx.newStateObject s) k = 0.
Proof.
  unfold slot. cbn [Tx.objTxn Tx.newStateObject]. unfold Tx.StateObject_GetCommitedState.
  cbn [Tx.newStateObject Tx.account Tx.Trie]. by rewrite NewSnapshot_empty.
Qed.

Lemma slot_or_new s a k : slot (object_or_new s a) k = Tx.GetState s a k.
Proof.
  unfold object_or_new. rewrite GetState_slot.
  destruct (Tx.getStateObject s a); [done|apply slot_new].
Qed.

Lemma GetState_SetState s a k v b k' :
  is_word v ->
  Tx.GetState (Tx.SetState a k v s) b k' =
  if decide (a = b /\ k = k') then v else Tx.GetState s b k'.
Proof.
  intros Hv. rewrite GetState_slot. unfold Tx.SetState. rewrite get_upsert by done.
  destruct (decide (a = b)) as [<-|Hab].
  2:{ rewrite decide_False by tauto. done. }
  rewrite slot_copy. destruct (decide (k = k')) as [<-|Hk].
  - rewrite decide_True by done. unfold slot. cbn [Tx.objTxn Tx.set_objTxn].
    rewrite lookup_insert_eq. destruct (Z.eqb_spec v 0) as [->|]; [done|].
    by apply BytesToHash_Hash_Bytes.
  - rewrite decide_False by tauto. rewrite <- slot_or_new. unfold slot at 1.
    cbn [Tx.objTxn Tx.set_objTxn]. rewrite lookup_insert_ne by done.
    unfold slot. by destruct (Tx.objTxn (object_or_new s a)).
Qed.

Lemma GetState_put_refund r s a k : Tx.GetState (Tx.put_refund r s) a k = Tx.GetState s a k.
Proof. done. Qed.

Lemma GetState_SetStorage s a k v f b k' :
  is_word v ->
  Tx.GetState (snd (Tx.SetStorage s a k v f)) b k' =
  if decide (a = b /\ k = k') then v else Tx.GetState s b k'.
Proof.
  intros Hv. rewrite <- GetState_SetState by done. unfold Tx.SetStorage.
  destruct (Z.eqb_spec (Tx.GetState s a k) v) as [Heq|_].
  { cbn [snd]. rewrite GetState_SetState by done. destruct (decide _) as [[<- <-]|]; done. }
  unfold Tx.AddRefund, Tx.SubRefund. repeat case_match; cbn [snd]; by rewrite ?GetState_put_refund.
Qed.

(** ** Rollback *)

(** Every operation that changes the state transaction, commits apart. *)
Inductive tx_step : Tx.Txn -> Tx.Txn -> Prop :=
| step_AddBalance a v s : tx_step s (Tx.AddBalance a v s)
| step_AddSealingReward a v s : tx_step s (Tx.AddSealingReward a v s)
| step_SubBalance a v s s' : Tx.SubBalance a v s = Some s' -> tx_step s s'
| step_SetBalance a v s : tx_step s (Tx.SetBalance a v s)
| step_SetState a k v s : tx_step s (Tx.SetState a k v s)
| step_SetStorage a k v f s : tx_step s (snd (Tx.SetStorage s a k v f))
| step_SetNonce a n s : tx_step s (Tx.SetNonce a n s)
| step_IncrNonce a s : tx_step s (Tx.IncrNonce a s)
| step_SetCode a c s : tx_step s (Tx.SetCode a c s)
| step_GetCode a s : tx_step s (snd (Tx.GetCode s a))
| step_Suicide a s : tx_step s (snd (Tx.Suicide_op a s))
| step_TouchAccount a s : tx_step s (Tx.TouchAccount a s)
| step_CreateAccount a s : tx_step s (Tx.CreateAccount a s)
| step_AddLog l s : tx_step s (Tx.AddLog l s)
| step_Logs s : tx_step s (snd (Tx.Logs s))
| step_AddRefund g s : tx_step s (Tx.AddRefund g s)
| step_SubRefund g s : tx_step s (Tx.SubRefund g s)
| step_CleanDeleteObjects d s : tx_step s (Tx.CleanDeleteObjects d s)
| step_Snapshot s : tx_step s (snd (Tx.Snapshot s))
| step_Revert id s s' : Tx.RevertToSnapshot id s = Ok s' -> tx_step s s'.

Lemma later_set_txn tr s : later s (Tx.set_txn tr s).
Proof. by split. Qed.

Lemma tx_step_later s s' : tx_step s s' -> later s s'.
Proof.
  destruct 1; try apply later_upsert; try apply later_set_txn.
  - by eapply later_SubBalance.
  - apply later_SetStorage.
  - apply later_GetCode.
  - unfold Tx.Logs. case_match; [apply later_set_txn|apply later_refl].
  - apply later_Snapshot.
  - unfold Tx.RevertToSnapshot in *. case_match; simplify_eq. apply later_set_txn.
Qed.

Lemma tx_steps_later s s' : rtc tx_step s s' -> later s s'.
Proof.
  induction 1 as [s|s1 s2 s3 Hs _ IH]; [apply later_refl|].
  eapply later_trans; [by apply tx_step_later|done].
Qed.

(** [s'] reads like [s]: accounts, storage, logs and refund. *)
Definition reads_like s s' : Prop :=
  (forall a, Tx.getStateObject s' a = Tx.getStateObject s a) /\
  (forall a, Tx.GetBalance s' a = Tx.GetBalance s a) /\
  (forall a, Tx.GetNonce s' a = Tx.GetNonce s a) /\
  (forall a k, Tx.GetState s' a k = Tx.GetState s a k) /\
  (forall a k, Tx.GetCommittedState s' a k = Tx.GetCommittedState s a k) /\
  Tx.tlogs (Tx.txn s') = Tx.tlogs (Tx.txn s) /\ Tx.GetRefund s' = Tx.GetRefund s.

Lemma revert_restores s s' :
  rtc tx_step (snd (Tx.Snapshot s)) s' ->
  exists s'', Tx.RevertToSnapshot (fst (Tx.Snapshot s)) s' = Ok s'' /\ reads_like s s''.
Proof.
  intros Hsteps%tx_steps_later. eexists. split; [by apply revert_later|].
  assert (Hg : forall a, Tx.getStateObject (Tx.set_txn (Tx.txn s) s') a = Tx.getStateObject s a).
  { intros a. apply get_revert; [apply (later_snap _ _ Hsteps)|apply (later_state _ _ Hsteps)]. }
  split_and!; try done; intros; unfold Tx.GetBalance, Tx.GetNonce, Tx.GetState, Tx.GetCommittedState;
    by rewrite Hg.
Qed.

(** ** Cleaning and committing *)

Lemma get_written s a o :
  Tx.objs (Tx.txn s) !! a = Some o ->
  Tx.getStateObject s a = if Tx.Deleted o then None else Some (Tx.StateObject_Copy o).
Proof. intros E. unfold Tx.getStateObject. by rewrite E. Qed.

(** Accounts written in the block that destroyed themselves, or are empty, are
    gone; the others are as they were. *)
Lemma clean_written s a o d :
  Tx.objs (Tx.txn s) !! a = Some o ->
  Tx.getStateObject (Tx.CleanDeleteObjects d s) a =
  if Tx.Suicide o || Tx.StateObject_Empty o && d then None else Tx.getStateObject s a.
Proof.
  intros E. rewrite (get_written s a o E).
  rewrite (get_written _ a (Tx.clean_obj d o)).
  - unfold Tx.clean_obj. by destruct (_ || _ && _).
  - cbn [Tx.CleanDeleteObjects Tx.set_txn Tx.txn Tx.objs]. by rewrite lookup_fmap, E.
Qed.

#[local] Instance key_le_total {A} : Total (Tx.key_le (A := A)).
Proof. intros x y. unfold Tx.key_le. lia. Qed.
#[local] Instance key_le_trans {A} : Transitive (Tx.key_le (A := A)).
Proof. intros x y z. unfold Tx.key_le. lia. Qed.

Lemma walk_sorted {A} (m : gmap Z A) : StronglySorted Z.lt (Tx.walk m).*1.
Proof.
  unfold Tx.walk. set (l := merge_sort _ _).
  assert (Hs : StronglySorted Tx.key_le l) by apply (StronglySorted_merge_sort _).
  assert (Hn : NoDup l.*1).
  { subst l. rewrite (merge_sort_Permutation Tx.key_le (map_to_list m)). apply NoDup_fst_map_to_list. }
  revert Hn. clearbody l. induction Hs as [|x l Hl IH Hx]; intros Hn; [constructor|].
  cbn [fmap list_fmap] in *. apply NoDup_cons in Hn as [Hnx Hn]. constructor; [by apply IH|].
  apply Forall_fmap, Forall_forall. intros y Hy. cbn.
  pose proof (proj1 (Forall_forall _ _) Hx y Hy) as Hle. unfold Tx.key_le in Hle. assert (fst x <> fst y); [|lia]. intros E. apply Hnx. rewrite E.
  apply list_elem_of_fmap. by exists y.
Qed.

Lemma walk_lookup {A} (m : gmap Z A) k v : (k, v) ∈ Tx.walk m <-> m !! k = Some v.
Proof.
  unfold Tx.walk. rewrite (merge_sort_Permutation Tx.key_le (map_to_list m)).
  apply elem_of_map_to_list.
Qed.
(** The state transaction after a commit to the database [d']. *)
Definition mk_committed (d : bool) s (d' : db) : Tx.Txn :=
  Tx.mkTxn (Tx.snap s) d' (Tx.snapshots s) (Tx.txn (Tx.CleanDeleteObjects d s)) (Tx.codeCache s).
End laws.
