(* ===== verification/ApplyFacts.v ===== *)
(** Applying a transaction: gas and balance accounting, rollback on errors, and
    the block's gas pool. *)

From Stdlib Require Import ZArith Lia.
From stdpp Require Import base gmap list numbers.
From S2P Require Import Prelude Types Chain Slice VM Opcodes Instructions Interp Logic Safety Run Txn TxnFacts Bloom Executor ExecFacts.

Open Scope Z_scope.

(** A transaction with its fields in range. *)
Record msg_ok (x : Transaction) : Prop := {
  m_gas : is_u64 (tGas x);
  m_price : 0 <= tGasPrice x;
  m_value : is_word (tValue x);
  m_input : bytes_ok (tInput x);
  m_from : is_addr (tFrom x);
  m_to : forall a, tTo x = Some a -> is_addr a
}.

(** The gas of a result never exceeds [g]: settling it returns and charges
    [g] in total. *)
Lemma UpdateGasUsed_split r g refund :
  is_u64 g -> 0 <= GasLeft r <= g -> 0 <= refund ->
  let r' := UpdateGasUsed r g refund in
  GasLeft r' + GasUsed r' = g /\ 0 <= GasLeft r' /\ 0 <= GasUsed r'.
Proof.
  intros [Hg0 Hg1] Hl Hr. unfold UpdateGasUsed. cbn [GasLeft GasUsed].
  rewrite (uint64_small (g - GasLeft r)) by (unfold is_u64; lia).
  set (u := g - GasLeft r). assert (0 <= u / 2 <= u) by (Z.div_mod_to_equations; lia).
  set (f := if u / 2 <? refund then u / 2 else refund).
  assert (0 <= f <= u / 2) by (subst f; destruct (Z.ltb_spec (u / 2) refund); lia).
  rewrite !uint64_small by (unfold is_u64; lia). lia.
Qed.

(** The price of a transaction before it runs: 21000, or 53000 to create a
    contract from Homestead on, 16 (68 before Istanbul) for each non-zero byte of
    the input and 4 for each zero byte. *)
Definition zero_bytes (b : list Z) : Z := Z.of_nat (length (filter (fun b => b = 0) b)).

Definition intrinsic_gas x (hs ist : bool) : Z :=
  (if IsContractCreation x && hs then 53000 else 21000) +
  (len (tInput x) - zero_bytes (tInput x)) * (if ist then 16 else 68) + zero_bytes (tInput x) * 4.

Lemma zero_bytes_range b : 0 <= zero_bytes b <= len b.
Proof. unfold zero_bytes, len. pose proof (length_filter (fun b => b = 0) b). lia. Qed.

(** One addition with its overflow check. *)
Lemma charge_check c0 n p :
  0 <= c0 < 2 ^ 64 -> 0 <= n -> 0 < p ->
  if (MaxUint64 - c0) / p <? n then 2 ^ 64 <= c0 + n * p
  else uint64 (c0 + uint64 (n * p)) = c0 + n * p /\ c0 + n * p < 2 ^ 64.
Proof.
  intros Hc Hn Hp. unfold MaxUint64. set (M := 2 ^ 64 - 1 - c0).
  pose proof (Z.div_mod M p ltac:(lia)). pose proof (Z.mod_pos_bound M p Hp).
  assert (0 <= n * p) by nia.
  destruct (Z.ltb_spec (M / p) n) as [Hlt|Hge].
  - assert (M < n * p) by nia. subst M. lia.
  - assert (n * p <= M) by nia. subst M.
    rewrite (uint64_small (n * p)), uint64_small by (unfold is_u64; lia). lia.
Qed.

Lemma TransactionGasCost_exact x hs ist :
  len (tInput x) < 2 ^ 63 ->
  TransactionGasCost x hs ist =
  if intrinsic_gas x hs ist <? 2 ^ 64 then Some (intrinsic_gas x hs ist) else None.
Proof.
  intros Hlen. unfold TransactionGasCost, intrinsic_gas. fold (zero_bytes (tInput x)).
  pose proof (zero_bytes_range (tInput x)) as Hz.
  change (if IsContractCreation x && hs then TxGasContractCreation else TxGas)
    with (if IsContractCreation x && hs then 53000 else 21000).
  set (base := if _ && _ then 53000 else 21000).
  assert (Hb : 0 <= base <= 53000) by (subst base; destruct (_ && _); lia). clearbody base.
  set (p := if ist then 16 else 68). assert (Hp : 0 < p <= 68) by (subst p; destruct ist; lia).
  clearbody p. destruct (Z.ltb_spec 0 (len (tInput x))) as [Hpos|Hnil].
  2:{ assert (zero_bytes (tInput x) = 0) as -> by lia.
      assert (len (tInput x) = 0) as -> by (unfold len in *; lia).
      rewrite (proj2 (Z.ltb_lt _ _)) by lia. f_equal. lia. }
  rewrite (uint64_small (len (tInput x) - _)) by (unfold is_u64; lia).
  set (nz := len (tInput x) - zero_bytes (tInput x)). assert (Hnz : 0 <= nz) by lia.
  pose proof (charge_check base nz p ltac:(lia) Hnz ltac:(lia)) as H1.
  assert (0 <= nz * p) by nia. assert (0 <= zero_bytes (tInput x) * 4) by lia.
  destruct (_ <? nz); [rewrite (proj2 (Z.ltb_ge _ _)) by lia; done|]. destruct H1 as [-> H1].
  pose proof (charge_check (base + nz * p) (zero_bytes (tInput x)) 4 ltac:(lia) ltac:(lia) ltac:(lia)) as H2.
  destruct (_ <? zero_bytes _); [by rewrite (proj2 (Z.ltb_ge _ _)) by lia|]. destruct H2 as [-> H2].
  by rewrite (proj2 (Z.ltb_lt _ _)) by lia.
Qed.

Lemma TransactionGasCost_range x hs ist c :
  bytes_ok (tInput x) -> TransactionGasCost x hs ist = Some c -> 21000 <= c < 2 ^ 64.
Proof.
  intros [_ Hlen] Hc. rewrite TransactionGasCost_exact in Hc by done.
  destruct (Z.ltb_spec (intrinsic_gas x hs ist) (2 ^ 64)); simplify_eq. split; [|done].
  unfold intrinsic_gas. pose proof (zero_bytes_range (tInput x)).
  destruct (_ && _), ist; lia.
Qed.

Section apply.
Context `{Runtime} `{StateDB} `{!StateDBOk} `{Precompiles} `{!PrecompilesOk} `{Signer}.
Context (acquireState : Contract -> VM.state) (acquire_ok : forall k, pooled_ok (acquireState k)).
Implicit Types (t : Transition) (x : Transaction).

Abbreviation bal t := (Tx.GetBalance (tState t)).

(** The sender pays for the intrinsic gas: [apply] checks it except for
    transactions whose input contains the fixed-reward selector, and of these only
    a creation uses the gas. *)
Definition pays_intrinsic x t : Prop :=
  IsFixedRewardTx x = false \/ is_Some (tTo x) \/
  exists c, TransactionGasCost x (Homestead (tConfig t)) (Istanbul (tConfig t)) = Some c /\ c <= tGas x.

(** ** The steps of apply *)

Lemma subGasLimitPrice_ok x t t' :
  world t -> msg_ok x -> subGasLimitPrice x t = Some t' ->
  world t' /\ keeps t t' /\ delta (- (tGasPrice x * tGas x)) (bal t) (bal t').
Proof.
  intros Hw Hm. unfold subGasLimitPrice. set (v := tGasPrice x * tGas x).
  assert (Hv : 0 <= v).
  { destruct (m_gas _ Hm). pose proof (m_price _ Hm). subst v. nia. }
  destruct (Tx.SubBalance (tFrom x) v (tState t)) as [s|] eqn:E; [|done]. intros [= <-].
  destruct (SubBalance_spec _ _ _ _ Hv E) as [Hle Hb].
  assert (Hd : delta (- v) (bal t) (Tx.GetBalance s)).
  { apply (delta_at (tFrom x)); [intros b Hne|]; rewrite Hb; case_decide; simplify_eq; try done; lia. }
  assert (Hk : keeps t (set_state s t)).
  { apply keeps_set_state; [by eapply later_SubBalance|]. eapply delta_weaken; [exact Hd|lia]. }
  split_and!; [|done|done]. eapply keeps_world; [done..|]. eapply tx_ok_SubBalance; [apply Hw|done].
Qed.

Lemma set_gasPool_world g t : world t -> world (set_gasPool g t).
Proof. intros []. by split. Qed.

Lemma settle_ok x r t :
  world t -> msg_ok x -> 0 <= GasLeft r <= tGas x ->
  let '(r', t') := settle x r t in
  GasLeft r' + GasUsed r' = tGas x /\ 0 <= GasLeft r' /\ 0 <= GasUsed r' /\
  tx_ok (tState t') /\ later (tState t) (tState t') /\
  delta (tGas x * tGasPrice x) (bal t) (bal t') /\
  t' = set_gasPool (uint64 (tGasPool t + GasLeft r')) (set_state (tState t') t).
Proof.
  intros Hw Hm Hl. unfold settle.
  destruct (UpdateGasUsed_split r (tGas x) (Tx.GetRefund (tState t))) as (Hsum & Hl' & Hu');
    [apply Hm|done|apply Hw|].
  set (r' := UpdateGasUsed r (tGas x) _) in *. pose proof (m_price _ Hm) as Hp.
  assert (Hv1 : 0 <= GasLeft r' * tGasPrice x) by nia.
  assert (Hv2 : 0 <= GasUsed r' * tGasPrice x) by nia.
  split_and!; [done|done|done| | | |done].
  - apply tx_ok_AddBalance, tx_ok_AddBalance, Hw.
  - eapply later_trans; apply later_upsert.
  - replace (tGas x * tGasPrice x) with (GasLeft r' * tGasPrice x + GasUsed r' * tGasPrice x) by nia.
    eapply (delta_trans _ _ _ (Tx.GetBalance (Tx.AddBalance (tFrom x) (GasLeft r' * tGasPrice x) (tState t)))).
    + apply (delta_at (tFrom x)); [intros b Hne|]; rewrite bal_AddBalance by done; case_decide;
        simplify_eq; try done; lia.
    + apply (delta_at FeePool); [intros b Hne|]; cbn [addGasPool set_gasPool on_state set_state tState];
        rewrite bal_AddBalance by done; case_decide; simplify_eq; try done; lia.
Qed.

(** ** Execution *)

(** What the execution step may do to the transition. *)
Record runs t t' : Prop := {
  rn_keeps : delta 0 (bal t) (bal t') /\ later (tState t) (tState t');
  rn_world : world t';
  rn_pool : tGasPool t' = tGasPool t;
  rn_rest : tConfig t' = tConfig t /\ tTotalGas t' = tTotalGas t /\ tReceipts t' = tReceipts t /\
            tChainID t' = tChainID t
}.

Lemma keeps_runs t t' : keeps t t' -> world t' -> runs t t'.
Proof. intros [Hd Hl Hr] Hw. split; [done|done|by rewrite Hr|by rewrite Hr]. Qed.

Lemma runs_trans t1 t2 t3 : runs t1 t2 -> runs t2 t3 -> runs t1 t3.
Proof.
  intros [[D1 L1] W1 P1 (? & ? & ? & ?)] [[D2 L2] W2 P2 (? & ? & ? & ?)].
  split; [split; [exact (delta_trans 0 0 _ _ _ D1 D2)|by eapply later_trans]|done|congruence|].
  split_and!; congruence.
Qed.

(** A top-level call has depth 1: the fuel is enough for all it nests. *)
Lemma top_fuel k : cDepth k = 1 -> ~ nested_no_fuel (callx acquireState call_fuel) k.
Proof.
  intros Hd (t & k' & Hw & Hk & Hd' & Ho). revert Ho.
  apply callx_fuel; try done; [|unfold call_fuel; lia]. unfold call_fuel. lia.
Qed.

Lemma step_ok_top r t k :
  cDepth k = 1 -> nested_ok (callx acquireState call_fuel) r t k ->
  (exists res t', r = Ok (res, t') /\ result_ok k res /\ runs t t') \/ r = Panic.
Proof.
  intros Hd [Hc Hf]. destruct r as [[res t']| |]; [left|by right|].
  - destruct Hc as (? & ? & ?). exists res, t'. split_and!; [done|done|by apply keeps_runs].
  - exfalso. by apply (top_fuel k Hd), Hf.
Qed.

Lemma Create2_ok from code value gas t :
  world t -> is_addr from -> bytes_ok code -> is_word value -> is_u64 gas ->
  (exists res t', Create2 acquireState from code value gas t = Ok (res, t') /\
     0 <= GasLeft res <= gas /\ runs t t') \/
  Create2 acquireState from code value gas t = Panic.
Proof.
  intros Hw Hf Hc Hv Hg. unfold Create2. set (k := NewContractCreation _ _ _ _ _ _ _).
  assert (Hk : contract_ok k).
  { split; cbn [k NewContractCreation NewContract cCode cInput cGas cAddress cCaller cOrigin cValue];
      try done; [apply create_address_ok|by intros ? [= <-]]. }
  destruct (step_ok_top (applyCreate acquireState (callx acquireState call_fuel) k t) t k)
    as [(res & t' & E & [_ Hr] & Hruns)|E]; [done| |left|by right].
  - apply applyCreate_ok; [done|intros; by apply callx_ok|done|done].
  - by exists res, t'.
Qed.

Lemma Call2_ok from to input value gas t :
  world t -> is_addr from -> is_addr to -> bytes_ok input -> is_word value -> is_u64 gas ->
  (exists res t', Call2 acquireState from to input value gas t = Ok (res, t') /\
     0 <= GasLeft res <= gas /\ runs t t') \/
  Call2 acquireState from to input value gas t = Panic.
Proof.
  intros Hw Hf Hto Hi Hv Hg. unfold Call2.
  destruct (tx_ok_GetCode (tState t) to (w_tx _ Hw)) as [Hc Ht].
  pose proof (later_GetCode (tState t) to) as Hl. pose proof (bal_GetCode (tState t) to) as Hb.
  destruct (Tx.GetCode (tState t) to) as [code s]. cbn [fst snd] in *.
  assert (Hk1 : keeps t (set_state s t)) by (apply keeps_set_state; [done|by apply delta_ext]).
  assert (Hw1 : world (set_state s t)) by (by eapply keeps_world).
  set (k := NewContractCall _ _ _ _ _ _ _ _).
  assert (Hk : contract_ok k) by (split; cbn; try done; by intros ? [= <-]).
  destruct (step_ok_top (applyCall acquireState (callx acquireState call_fuel) k Call (set_state s t))
    (set_state s t) k) as [(res & t' & E & [_ Hr] & Hruns)|E]; [done| |left|by right].
  - apply applyCall_ok; [done|intros; by apply callx_ok|done|done].
  - exists res, t'. split_and!; [done|apply Hr..|]. eapply runs_trans; [|exact Hruns].
    by apply keeps_runs.
Qed.

Lemma WithdrawTxFee_ok from to v t r t' :
  world t -> 0 <= v -> WithdrawTxFee from to v t = inl (r, t') -> GasLeft r = 0 /\ runs t t'.
Proof.
  intros Hw Hv. unfold WithdrawTxFee. repeat (case_match; try done). intros [= <- <-].
  destruct (transfer_ok FeePool from (Some v) t t0) as [Hk [Hb Ht Hc Hh Hf]];
    [done|by intros ? [= <-]|done|].
  split; [done|]. eapply runs_trans; [by apply keeps_runs; [exact Hk|split]|].
  split; [split; [apply delta_refl|apply later_refl]|by split|done|done].
Qed.

Lemma SendFixedReward_ok from to v t r t' :
  world t -> 0 <= v -> SendFixedReward from to v t = inl (r, t') -> GasLeft r = 0 /\ runs t t'.
Proof.
  intros Hw Hv. unfold SendFixedReward. repeat (case_match; try done). intros [= <- <-].
  destruct (transfer_ok to from (Some v) t t0) as [Hk [Hb Ht Hc Hh Hf]];
    [done|by intros ? [= <-]|done|].
  split; [done|]. eapply runs_trans; [by apply keeps_runs; [exact Hk|split]|].
  split; [split; [apply delta_refl|apply later_refl]|by split|done|done].
Qed.

Lemma runs_IncrNonce a t : world t -> runs t (on_state (Tx.IncrNonce a) t).
Proof. intros Hw. destruct (incr_nonce_ok a t Hw). by apply keeps_runs. Qed.

(** A transaction that moves a reward, with no code to run. *)
Definition pays_nothing x : Prop := IsFixedRewardTx x = true /\ is_Some (tTo x).

Lemma execute_ok x g t :
  world t -> msg_ok x -> is_u64 g ->
  match execute acquireState x g t with
  | Ok (inl (r, t')) => (0 <= GasLeft r <= g /\ (pays_nothing x -> GasLeft r = 0)) /\ runs t t'
  | Ok (inr _) | Panic => True
  | OutOfFuel => False
  end.
Proof.
  intros Hw Hm Hg. pose proof (word_nonneg _ (m_value _ Hm)) as Hv. unfold execute, pays_nothing.
  destruct (tTo x) as [to|] eqn:Eto.
  2:{ destruct (Create2_ok (tFrom x) (tInput x) (tValue x) g t) as [(r & t' & -> & ? & ?)| ->];
        [done|apply Hm..|done| |]; cbn [obind]; [|done]. split; [split; [done|]|done]. by intros [_ [? ?]]. }
  assert (Hz : 0 <= 0 <= g) by (destruct Hg; lia).
  destruct (IsWithdrawFee x).
  { destruct (WithdrawTxFee _ _ _ _) as [[r t']|] eqn:E; [|done].
    destruct (WithdrawTxFee_ok _ _ _ _ _ _ Hw Hv E) as [-> Hr]. split; [done|].
    eapply runs_trans; [done|]. apply runs_IncrNonce, Hr. }
  destruct (IsFixedRewardTx x).
  { destruct (SendFixedReward _ _ _ _) as [[r t']|] eqn:E; [|done].
    destruct (SendFixedReward_ok _ _ _ _ _ _ Hw Hv E) as [-> Hr]. split; [done|].
    eapply runs_trans; [done|]. apply runs_IncrNonce, Hr. }
  pose proof (runs_IncrNonce (tFrom x) t Hw) as Hi.
  destruct (Call2_ok (tFrom x) to (tInput x) (tValue x) g (on_state (Tx.IncrNonce (tFrom x)) t))
    as [(r & t' & -> & ? & ?)| ->]; [apply Hi|apply Hm|by apply Hm|apply Hm..|done| |]; cbn [obind]; [|done].
  split; [split; [done|]; by intros [? _]|]. by eapply runs_trans.
Qed.

(** ** apply *)

(** What a transaction that was applied did. *)
Record applied x t (r : ExecutionResult) t' : Prop := {
  ap_world : world t';
  ap_delta : delta 0 (bal t) (bal t');
  ap_gas : GasLeft r + GasUsed r = tGas x;
  ap_left : 0 <= GasLeft r;
  ap_used : 0 <= GasUsed r;
  ap_pool : 0 <= tGasPool t' /\ tGasPool t' = tGasPool t - GasUsed r;
  ap_rest : tConfig t' = tConfig t /\ tTotalGas t' = tTotalGas t /\ tReceipts t' = tReceipts t /\
            tChainID t' = tChainID t
}.

(** What is left of one that was refused, before the rollback. *)
Record refused t t' : Prop := {
  rf_later : later (tState t) (tState t');
  rf_tx : tx_ok (tState t');
  rf_pool : 0 <= tGasPool t' <= tGasPool t;
  rf_world : context_ok (tCtx t') /\ forall n, is_word (tGetHash t' n);
  rf_rest : tConfig t' = tConfig t /\ tTotalGas t' = tTotalGas t /\ tReceipts t' = tReceipts t /\
            tChainID t' = tChainID t
}.

(** And after it. *)
Record rolled_back t t' : Prop := {
  rb_txn : Tx.txn (tState t') = Tx.txn (tState t);
  rb_pool : 0 <= tGasPool t' <= tGasPool t;
  rb_bal : forall a, bal t' a = bal t a;
  rb_world : world t';
  rb_rest : tConfig t' = tConfig t /\ tTotalGas t' = tTotalGas t /\ tReceipts t' = tReceipts t /\
            tChainID t' = tChainID t
}.

Lemma refused_now t t1 : world t1 -> later (tState t) (tState t1) -> 0 <= tGasPool t1 <= tGasPool t ->
  tConfig t1 = tConfig t /\ tTotalGas t1 = tTotalGas t /\ tReceipts t1 = tReceipts t /\ tChainID t1 = tChainID t ->
  refused t t1.
Proof. intros [] Hl Hp Hr. by split. Qed.

Lemma price_word x : msg_ok x -> is_word (BytesToHash (big_Bytes (tGasPrice x))).
Proof. intros. apply BytesToHash_range, big_Bytes_bytes. Qed.

Lemma world_ctx x t :
  msg_ok x -> world t ->
  world (set_ctx (with_price_origin (BytesToHash (big_Bytes (tGasPrice x))) (tFrom x) (tCtx t)) t).
Proof.
  intros Hm [Hb Ht [] Hh Hf]. split; try done. split; try done; [by apply price_word|apply Hm].
Qed.

Lemma gasLeft_bound x t c :
  msg_ok x -> pays_intrinsic x t ->
  TransactionGasCost x (Homestead (tConfig t)) (Istanbul (tConfig t)) = Some c ->
  negb (IsFixedRewardTx x) && (tGas x <? uint64 (tGas x - c)) = false ->
  pays_nothing x \/ 0 <= uint64 (tGas x - c) <= tGas x.
Proof.
  intros Hm Hpay Hc Hchk.
  assert (pays_nothing x \/ IsFixedRewardTx x = false \/
    exists c, TransactionGasCost x (Homestead (tConfig t)) (Istanbul (tConfig t)) = Some c /\ c <= tGas x) as [?|Hpay'];
    [|by left|right].
  { destruct (IsFixedRewardTx x) eqn:Ef; [|by right; left]. destruct Hpay as [?|[?|?]]; [congruence|by left|by right; right]. }
  clear Hpay. rename Hpay' into Hpay. pose proof (TransactionGasCost_range _ _ _ _ (m_input _ Hm) Hc) as Hr.
  destruct (m_gas _ Hm) as [Hg0 Hg1].
  assert (Hle : c <= tGas x).
  { destruct Hpay as [Hnf|(c' & Hc' & Hle)]; [|by rewrite Hc in Hc'; simplify_eq].
    rewrite Hnf in Hchk. cbn [negb andb] in Hchk. rewrite Z.ltb_ge in Hchk.
    destruct (Z.le_gt_cases c (tGas x)) as [|Hgt]; [done|]. exfalso.
    unfold uint64 in Hchk. rewrite <- (Z.mod_add _ 1) in Hchk by done.
    rewrite Z.mod_small in Hchk; lia. }
  rewrite uint64_small; unfold is_u64; lia.
Qed.

(** The part of [apply] after the checks. *)
Lemma apply_run x g t t0 :
  world t -> msg_ok x -> is_u64 g -> pays_nothing x \/ 0 <= g <= tGas x -> later (tState t0) (tState t) ->
  delta (- (tGasPrice x * tGas x)) (bal t0) (bal t) -> bounded (bal t0) ->
  is_u64 (tGasPool t0) -> 0 <= tGasPool t -> tGasPool t = tGasPool t0 - tGas x ->
  tConfig t = tConfig t0 /\ tTotalGas t = tTotalGas t0 /\ tReceipts t = tReceipts t0 /\
    tChainID t = tChainID t0 ->
  match obind (execute acquireState x g t) (fun r =>
          match r with
          | inr e => Ok (inr e, t)
          | inl (result, t) => let (result, t) := settle x result t in Ok (inl result, t)
          end) with
  | Ok (inl r, t') => applied x t0 r t'
  | Ok (inr _, t') => refused t0 t'
  | Panic => True
  | OutOfFuel => False
  end.
Proof.
  intros Hw Hm Hgu Hg Hl Hd Hb [Hp0 Hp1] Hpt Hpool (R1 & R2 & R3 & R4). pose proof (m_price _ Hm).
  pose proof (execute_ok x g t Hw Hm Hgu) as He. destruct (m_gas _ Hm) as [Hg0 Hg1].
  destruct (execute acquireState x g t) as [[[r t1]|e]| |]; cbn [obind]; [|..]; try done.
  2:{ apply refused_now; [done|done|lia|done]. }
  destruct He as [[Hr Hfree] [[Hd1 Hl1] Hw1 Hp1' (R1' & R2' & R3' & R4')]].
  assert (Hr' : 0 <= GasLeft r <= tGas x) by (destruct Hg as [Hg|Hg]; [rewrite (Hfree Hg); lia|lia]).
  pose proof (settle_ok x r t1 Hw1 Hm Hr') as Hs.
  destruct (settle x r t1) as [r' t2]. destruct Hs as (Hsum & Hl' & Hu' & Htx & Hlat & Hd2 & Eq).
  assert (Hdelta : delta 0 (bal t0) (bal t2)).
  { replace 0 with (- (tGasPrice x * tGas x) + 0 + tGas x * tGasPrice x) by lia.
    eapply delta_trans; [|exact Hd2]. by eapply delta_trans. }
  split; try done.
  - rewrite Eq. destruct Hw1 as [_ _ Hc Hh Hf]. split; try done. simpl.
    eapply delta_bounded; [done|intros; apply bal_nonneg|done].
  - rewrite Eq. cbn [tGasPool set_gasPool]. rewrite uint64_small by (unfold is_u64; lia). lia.
  - rewrite Eq. cbn. split_and!; congruence.
Qed.

Lemma apply_ok x t :
  world t -> msg_ok x -> is_u64 (tGasPool t) -> pays_intrinsic x t ->
  match apply acquireState x t with
  | Ok (inl r, t') => applied x t r t'
  | Ok (inr _, t') => refused t t'
  | Panic => True
  | OutOfFuel => False
  end.
Proof.
  intros Hw Hm Hpool Hpay. unfold apply. destruct Hpool as [Hp0 Hp1] eqn:Epool. clear Epool.
  destruct (negb (nonceCheck x t)). { apply refused_now; [done|apply later_refl|lia|done]. }
  destruct (subGasLimitPrice x t) as [t1|] eqn:E1. 2:{ apply refused_now; [done|apply later_refl|lia|done]. }
  destruct (subGasLimitPrice_ok x t t1 Hw Hm E1) as (Hw1 & [_ Hl1 Hr1] & Hd1).
  assert (Hpool1 : tGasPool t1 = tGasPool t) by (by rewrite Hr1).
  destruct (m_gas _ Hm) as [Hg0 Hg1]. unfold subGasPool.
  destruct (Z.ltb_spec (tGasPool t1) (tGas x)) as [|Hge].
  { apply refused_now; [done|done|lia|by rewrite Hr1]. }
  rewrite (uint64_small (tGasPool t1 - tGas x)) by (unfold is_u64; lia).
  set (t2 := set_gasPool (tGasPool t1 - tGas x) t1).
  assert (Ec : tConfig t2 = tConfig t) by (subst t2; rewrite Hr1; done).
  assert (Hrf : refused t t2).
  { apply refused_now; [by apply set_gasPool_world|done|simpl; lia|]. subst t2. cbn. by rewrite Hr1. }
  rewrite Ec. destruct (TransactionGasCost x _ _) as [c|] eqn:E2; [|done].
  destruct (negb (IsFixedRewardTx x) && _) eqn:E3; [done|].
  pose proof (gasLeft_bound x t c Hm Hpay E2 E3) as Hle.
  clear E3. destruct (negb (IsFixedRewardTx x) && _); [done|].
  apply apply_run; try done; [by apply world_ctx, set_gasPool_world|apply uint64_range|apply Hw|simpl; lia|simpl; lia|].
  subst t2. cbn. rewrite Hr1. done.
Qed.

(** [Apply] rolls the state of a refused transaction back. *)
Lemma Apply_ok x t :
  world t -> msg_ok x -> is_u64 (tGasPool t) -> pays_intrinsic x t ->
  match Apply acquireState x t with
  | Ok (inl r, t') => applied x t r t'
  | Ok (inr _, t') => rolled_back t t'
  | Panic => True
  | OutOfFuel => False
  end.
Proof.
  intros Hw Hm Hpool Hpay. unfold Apply. destruct (snapshot_ok t Hw) as [Hk Hws].
  assert (Hsnap : snd (take_snapshot t) = set_state (snd (Tx.Snapshot (tState t))) t) by done.
  assert (Hid : fst (take_snapshot t) = fst (Tx.Snapshot (tState t))) by done.
  destruct (take_snapshot t) as [id t1]. cbn [fst snd] in *.
  pose proof (apply_ok x t1 Hws Hm) as Ha. rewrite Hsnap in Ha at 1 2.
  specialize (Ha Hpool Hpay). destruct (apply acquireState x t1) as [[[r|e] t2]| |]; cbn [obind]; try done.
  - destruct Ha as [Hw2 Hd Hg Hl Hu Hpl Hrest]. split; try done.
    + exact (delta_trans 0 0 _ _ _ (kp_delta _ _ Hk) Hd).
    + by rewrite Hsnap in Hpl.
    + by rewrite Hsnap in Hrest.
  - destruct Ha as [Hl Ht Hp [Hc Hh] Hrest]. rewrite Hsnap in Hl, Hp, Hrest. unfold revert. rewrite Hid.
    rewrite (revert_later (tState t) (tState t2) Hl). cbn [obind].
    match goal with |- rolled_back _ ?u => set (t3 := u) end.
    assert (Hb : forall a, bal t3 a = bal t a).
    { intros a. apply bal_objs; [done|..]; cbn; [rewrite (later_snap _ _ Hl)|rewrite (later_state _ _ Hl)]; done. }
    assert (Hcfg : tConfig t3 = tConfig t) by apply Hrest.
    split; try done. split; try done.
    + apply (delta_bounded (bal t)); [apply Hw|intros; apply bal_nonneg|]. apply delta_ext, Hb.
    + split; [|apply Ht|apply (tx_refund _ (w_tx _ Hw))]. intros a o. cbn [tState t3 set_state].
      rewrite get_revert by apply Hl. apply Hw.
    + rewrite Hcfg. apply Hw.
Qed.
End apply.
