(* ===== verification/BlockFacts.v ===== *)
(** Executing the transactions of a block: gas, receipts and supply. *)


From Stdlib Require Import ZArith Lia.
From stdpp Require Import base gmap list numbers.
From S2P Require Import Prelude Types Chain Rlp RlpFacts TxSigner Sha256 Blake2 Precompiled PrecompiledFacts Slice VM Opcodes Instructions Interp Logic Safety Run Txn TxnFacts Bloom Executor ExecFacts ApplyFacts.

Open Scope Z_scope.

(** A recovered sender is an address. *)
Class SignerOk `{Signer} := {
  Sender_addr c x a : Sender c x = Ok (Some a) -> is_addr a;
  Sender_ends c x : Sender c x <> OutOfFuel
}.

(** Balances that only go down, at finitely many addresses. *)
Lemma delta_down (D : gset Z) f g :
  (forall a, a ∉ D -> g a = f a) -> (forall a, g a <= f a) -> delta 0 f g.
Proof.
  intros Ho Hle. exists D. split; [done|]. rewrite Z.add_0_r. clear Ho.
  induction D as [|a D Ha IH] using set_ind_L; [by rewrite !sum_empty|].
  rewrite !sum_insert by done. specialize (Hle a). lia.
Qed.

Section block.
Context `{Runtime} `{StateDB} `{!StateDBOk} `{Precompiles} `{!PrecompilesOk}
  `{Signer} `{!SignerOk}.
Context (acquireState : Contract -> VM.state) (acquire_ok : forall k, pooled_ok (acquireState k)).
Implicit Types (t : Transition) (x : Transaction) (s : Tx.Txn).

Abbreviation bal t := (Tx.GetBalance (tState t)).

(** ** Cleaning up after a transaction *)

Lemma get_clean d s a :
  Tx.getStateObject (Tx.CleanDeleteObjects d s) a = Tx.getStateObject s a \/
  Tx.getStateObject (Tx.CleanDeleteObjects d s) a = None /\ is_Some (Tx.objs (Tx.txn s) !! a).
Proof.
  unfold Tx.getStateObject.
  cbn [Tx.CleanDeleteObjects Tx.set_txn Tx.txn Tx.objs Tx.snap Tx.state]. rewrite lookup_fmap.
  destruct (Tx.objs (Tx.txn s) !! a) as [o|]; [|by left]. cbn [fmap option_fmap option_map].
  unfold Tx.clean_obj. destruct (_ || _ && _); [right; by split|by left].
Qed.

Lemma clean_delta d s :
  delta 0 (Tx.GetBalance s) (Tx.GetBalance (Tx.CleanDeleteObjects d s)).
Proof.
  apply (delta_down (dom (Tx.objs (Tx.txn s)))).
  - intros a Ha. unfold Tx.GetBalance. destruct (get_clean d s a) as [->|[_ Hs]]; [done|].
    by rewrite <- elem_of_dom in Hs.
  - intros a. unfold Tx.GetBalance at 1. destruct (get_clean d s a) as [->|[-> _]]; [done|].
    apply bal_nonneg.
Qed.

Lemma clean_tx_ok d s : tx_ok s -> tx_ok (Tx.CleanDeleteObjects d s).
Proof.
  intros [Ho Hc Hr]. split; [|done|done]. intros a o Hg.
  destruct (get_clean d s a) as [E|[E _]]; rewrite E in Hg; [by eapply Ho|done].
Qed.

Lemma world_same_ctx t t' :
  world t -> bounded (bal t') -> tx_ok (tState t') -> tCtx t' = tCtx t -> tGetHash t' = tGetHash t ->
  tConfig t' = tConfig t -> world t'.
Proof. intros [] Hb Ht Ec Eh Ef. split; rewrite ?Ec, ?Eh, ?Ef; done. Qed.

(** ** Writing a transaction *)

(** What every transaction of the block does to the transition: gas moves from
    the pool to the total, a receipt is added, nothing is minted. *)
Record written t t' : Prop := {
  wr_world : world t';
  wr_delta : delta 0 (bal t) (bal t');
  wr_pool : tGasPool t' + tTotalGas t' = tGasPool t + tTotalGas t;
  wr_range : 0 <= tGasPool t' /\ tTotalGas t <= tTotalGas t';
  wr_rest : tConfig t' = tConfig t /\ tChainID t' = tChainID t;
  wr_receipt : exists r, tReceipts t' = tReceipts t ++ [r] /\ rCumulativeGasUsed r = tTotalGas t' /\
    rGasUsed r = tTotalGas t' - tTotalGas t
}.

Lemma take_logs_ok t :
  world t -> exists s, snd (take_logs t) = set_state s t /\ world (set_state s t) /\
    forall a, Tx.GetBalance s a = bal t a.
Proof.
  intros Hw. unfold take_logs, Tx.Logs.
  destruct (Tx.tlogs (Tx.txn (tState t))); simpl; eexists; (split; [done|]).
  - assert (Hb : forall a, Tx.GetBalance (Tx.set_txn (Tx.mkTree (Tx.objs (Tx.txn (tState t))) None
      (Tx.trefund (Tx.txn (tState t)))) (tState t)) a = bal t a) by (intros; by apply bal_objs).
    split; [|done]. eapply world_same_ctx; try done.
    + eapply delta_bounded; [apply Hw|intros; apply bal_nonneg|by apply delta_ext].
    + eapply tx_ok_objs; [apply Hw|done..|apply Hw].
  - split; [by destruct t|done].
Qed.

Lemma sender_addr x t a : is_addr (tFrom x) -> sender_of x t = Ok (Some a) -> is_addr a.
Proof.
  intros Hf. unfold sender_of. destruct (tFrom x =? 0); [apply Sender_addr|by intros [= <-]].
Qed.

Lemma sender_ends x t : sender_of x t <> OutOfFuel.
Proof. unfold sender_of. destruct (tFrom x =? 0); [apply Sender_ends|done]. Qed.

Lemma msg_ok_from x a : msg_ok x -> is_addr a -> msg_ok (with_from a x).
Proof. intros [] ?. by split. Qed.

Lemma pays_from x a t : pays_intrinsic x t -> pays_intrinsic (with_from a x) t.
Proof. intros [?|[?|?]]; [by left|by right; left|by right; right]. Qed.

Lemma pays_config x t t' : tConfig t' = tConfig t -> pays_intrinsic x t -> pays_intrinsic x t'.
Proof. intros Ec. unfold pays_intrinsic. by rewrite Ec. Qed.

(** The total and the pool fit in 64 bits. *)
Definition gas_ok t : Prop := 0 <= tGasPool t /\ 0 <= tTotalGas t /\ tGasPool t + tTotalGas t < 2 ^ 64.

Lemma Write_ok x t :
  world t -> msg_ok x -> gas_ok t -> pays_intrinsic x t -> Byzantium (tConfig t) = true ->
  match Write acquireState x t with
  | Ok (inl t') => written t t'
  | Ok (inr _) | Panic => True
  | OutOfFuel => False
  end.
Proof.
  intros Hw Hm (Hp0 & Ht0 & Hsum) Hpay Hbyz. unfold Write.
  destruct (sender_of x t) as [[from|]| |] eqn:Es; [|done|done|by destruct (sender_ends x t)].
  cbn [obind].
  assert (Hm' : msg_ok (with_from from x)) by (apply msg_ok_from; [done|by eapply sender_addr, Es; apply Hm]).
  pose proof (Apply_ok acquireState acquire_ok (with_from from x) t Hw Hm') as Ha.
  specialize (Ha ltac:(unfold is_u64; lia) (pays_from _ _ _ Hpay)).
  destruct (Apply acquireState (with_from from x) t) as [[[r|e] t1]| |]; cbn [obind]; try done.
  destruct Ha as [Hw1 Hd1 Hg Hl Hu [Hpl0 Hpl] (Ec & Et & Er & Ech)].
  set (t2 := set_totalGas (uint64 (tTotalGas t1 + GasUsed r)) t1).
  assert (Hw2 : world t2) by (destruct Hw1; by split).
  assert (Hu64 : uint64 (tTotalGas t1 + GasUsed r) = tTotalGas t + GasUsed r).
  { rewrite Et. apply uint64_small. unfold is_u64.
 lia. }
  destruct (take_logs_ok t2 Hw2) as (s & Elogs & Hw3 & Hb3).
  destruct (take_logs t2) as [logs t3]. cbn [snd] in Elogs. subst t3.
  cbn [tConfig set_state set_totalGas t2]. rewrite Ec, Hbyz.
  set (t4 := on_state (Tx.CleanDeleteObjects true) (set_state s t2)).
  assert (Hd4 : delta 0 (bal t) (bal t4)).
  { replace 0 with (0 + 0 + 0) by lia. eapply delta_trans; [eapply delta_trans; [exact Hd1|]|].
    - apply (delta_ext _ (Tx.GetBalance s)). exact Hb3.
    - apply clean_delta. }
  assert (Hw4 : world t4).
  { eapply world_same_ctx; [exact Hw3|..]; try done.
    - eapply delta_bounded; [apply Hw|intros; apply bal_nonneg|exact Hd4].
    - apply clean_tx_ok, Hw3. }
  split.
  - destruct Hw4. by split.
  - exact Hd4.
  - cbn [tGasPool tTotalGas add_receipt on_state set_state set_totalGas t4 t2]. lia.
  - cbn [tGasPool tTotalGas add_receipt on_state set_state set_totalGas t4 t2]. lia.
  - cbn. by rewrite Ec, Ech.
  - eexists. cbn [tReceipts tTotalGas add_receipt on_state set_state set_totalGas t4 t2].
    rewrite Er. split; [done|]. cbn [rCumulativeGasUsed rGasUsed]. lia.
Qed.

Lemma WriteFailedReceipt_ok x t t' :
  world t -> gas_ok t -> WriteFailedReceipt x t = Ok (inl t') -> written t t'.
Proof.
  intros Hw (Hp0 & Ht0 & Hsum). unfold WriteFailedReceipt.
  destruct (sender_of x t) as [[from|]| |]; [|done..]. cbn [obind].
  destruct (take_logs_ok t Hw) as (s & Elogs & Hw3 & Hb3).
  destruct (take_logs t) as [logs t3]. cbn [snd] in Elogs. subst t3. intros [= <-].
  split; cbn; try done.
  - destruct Hw3. by split.
  - by apply delta_ext.
  - eexists. split; [done|]. cbn. lia.
Qed.

(** ** The block *)

(** From [g] gas on, each receipt has the gas of its transaction and the total
    so far, up to [g'] gas. *)
Fixpoint cumulative (g : Z) (rs : list Receipt) (g' : Z) : Prop :=
  match rs with
  | [] => g' = g
  | r :: rs =>
    0 <= rGasUsed r /\ rCumulativeGasUsed r = g + rGasUsed r /\ cumulative (g + rGasUsed r) rs g'
  end.

(** The receipts a list of transactions adds, with their gas. *)
Record processed t (n : nat) t' : Prop := {
  pr_world : world t';
  pr_delta : delta 0 (bal t) (bal t');
  pr_pool : tGasPool t' + tTotalGas t' = tGasPool t + tTotalGas t;
  pr_range : 0 <= tGasPool t' /\ tTotalGas t <= tTotalGas t';
  pr_receipts : exists rs, tReceipts t' = tReceipts t ++ rs /\ length rs = n /\
    cumulative (tTotalGas t) rs (tTotalGas t')
}.

Lemma process_txs_ok limit xs t :
  world t -> gas_ok t -> Byzantium (tConfig t) = true ->
  Forall (fun x => msg_ok x /\ (ExceedsBlockGasLimit x limit = false -> pays_intrinsic x t)) xs ->
  match process_txs acquireState limit xs t with
  | Ok (inl t') => processed t (length xs) t'
  | Ok (inr _) | Panic => True
  | OutOfFuel => False
  end.
Proof.
  revert t. induction xs as [|x xs IH]; intros t Hw Hg Hb Hxs; cbn [process_txs].
  { destruct Hg as (? & ? & ?). split; [done|apply delta_refl|done|lia|].
    exists []. by rewrite app_nil_r. }
  apply Forall_cons_1 in Hxs as [[Hm Hpay] Hxs].
  assert (Hstep : match (if ExceedsBlockGasLimit x limit then WriteFailedReceipt x t
      else Write acquireState x t) with
    | Ok (inl t') => written t t' | Ok (inr _) | Panic => True | OutOfFuel => False end).
  { destruct (ExceedsBlockGasLimit x limit).
    - destruct (WriteFailedReceipt x t) as [[]| |] eqn:E; [|done|done|].
      + by eapply WriteFailedReceipt_ok.
      + revert E. unfold WriteFailedReceipt. pose proof (sender_ends x t).
        destruct (sender_of x t) as [[]| |]; cbn [obind]; [|done|done|done]. by destruct (take_logs t).
    - apply Write_ok; auto. }
  destruct (if ExceedsBlockGasLimit x limit then _ else _) as [[t1|e]| |]; cbn [obind]; try done.
  destruct Hstep as [Hw1 Hd1 Hp1 [Hr1 Hr1'] [Ec Ech] (r & Er & Ecum & Eg)]. destruct Hg as (? & ? & ?).
  specialize (IH t1 Hw1 ltac:(unfold gas_ok; lia) ltac:(by rewrite Ec)).
  assert (Hxs1 : Forall (fun x => msg_ok x /\ (ExceedsBlockGasLimit x limit = false ->
    pays_intrinsic x t1)) xs).
  { eapply Forall_impl; [|exact Hxs]. intros y [Hy Hpy]. split; [done|]. intros E.
    exact (pays_config _ _ _ Ec (Hpy E)). }
  specialize (IH Hxs1). destruct (process_txs acquireState limit xs t1) as [[t2|e]| |]; try done.
  destruct IH as [Hw2 Hd2 Hp2 [Hr2 Hr2'] (rs & Ers & Hlen & Hfold)]. split; [done| |lia|lia|].
  - exact (delta_trans 0 0 _ _ _ Hd1 Hd2).
  - exists (r :: rs). rewrite Ers, Er, <- app_assoc. cbn [cumulative length].
    replace (tTotalGas t + rGasUsed r) with (tTotalGas t1) by lia. split_and!; [done|lia|lia|lia|done].
Qed.
End block.

(** ** Creation transactions that the intrinsic-gas check skips *)

Section mint.
Context `{Runtime} `{StateDB} `{Precompiles} `{Signer}.
Context (acquireState : Contract -> VM.state) (acquire_ok : forall k, pooled_ok (acquireState k)).
Implicit Types (t : Transition) (x : Transaction).

(** Init code that starts with STOP keeps all of its gas. *)
Lemma run_loop_stopped {W} `{Host W} fuel c (h : W) :
  VM.stop c = true -> run_loop fuel c h = Ok (tt, c, h).
Proof. intros Hs. destruct fuel; simpl; unfold bind, gets; by rewrite Hs. Qed.

Lemma step_stop {W} `{Host W} c (h : W) rest :
  ip c = 0 -> code c = 0 :: rest -> stack c = [] -> is_u64 (VM.gas c) ->
  step c h = Ok (true, set_ip 1 (set_stop true (set_gas (VM.gas c) c)), h).
Proof.
  intros Hip Hc Hs [Hg0 Hg1]. unfold step. unfold bind at 1, gets at 1. rewrite Hip, Hc.
  rewrite (proj2 (Z.leb_gt _ _)) by (unfold len; cbn [length]; lia).
  change (if 0 <? 0 then None else (0 :: rest) !! Z.to_nat 0) with (Some 0).
  unfold bind at 1. cbn [deref]. unfold ret at 1.
  change (dispatchTable 0) with (Some (mkHandler (H := W) opStop 0 0)). cbn [hstack hgas inst].
  rewrite Hs. change (len [] <? 0) with false. cbv iota. unfold bind, consumeGas, gets.
  unfold bind. rewrite (proj2 (Z.ltb_ge _ _)) by done.
  unfold modify, ret, opStop, halt, modify. st_cbn. cbn [negb]. st_cbn. rewrite Hs.
  change (stackSize <? len []) with false. cbv iota. st_cbn. rewrite Z.sub_0_r, uint64_small, Hip by done. done.
Qed.

Lemma EVM_Run_stop {W} `{Host W} p k f (h : W) rest :
  pooled_ok p -> cCode k = 0 :: rest -> Forall is_byte (cCode k) -> is_u64 (cGas k) ->
  exists p', EVM_Run p k f h = Ok (mkResult [] (cGas k) 0 None, p', h).
Proof.
  intros [Hip Hlast Hst He Hs Hr [Hm Hml] [Hb Hbl]] Hc Hby Hg. unfold EVM_Run.
  destruct (Bitmap.setCode_ok (bmap p) (cCode k)) as (b & -> & _); [done..|].
  unfold Run, bind at 1. cbn [run_loop]. unfold bind at 1, gets at 1. st_cbn. rewrite Hs.
  unfold bind at 1. erewrite step_stop; [|st_cbn; done..].
  rewrite run_loop_stopped by done. unfold bind, gets, ret. st_cbn. rewrite He, Hr. by eexists.
Qed.

Lemma run_stop cx k t rest :
  Precompiled_CanRun k (tConfig t) = false -> cCode k = 0 :: rest -> Forall is_byte (cCode k) ->
  is_u64 (cGas k) -> run acquireState cx t k = Ok (mkResult [] (cGas k) 0 None, t).
Proof.
  intros Hp Hc Hb Hg. unfold run. rewrite Hp.
  destruct (@EVM_Run_stop Transition (transition_host cx) (acquireState k) k (tConfig t) t rest)
    as [p' ->]; try done.
Qed.

Lemma applyCreate_stop cx k t t3 rest :
  cDepth k = 1 -> hasCodeOrNonce (on_state (Tx.IncrNonce (cCaller k)) t) (cAddress k) = false ->
  transfer (cCaller k) (cAddress k) (cValue k)
    (create_account k (snd (take_snapshot (on_state (Tx.IncrNonce (cCaller k)) t)))) = inl t3 ->
  Precompiled_CanRun k (tConfig t3) = false -> cCode k = 0 :: rest -> Forall is_byte (cCode k) ->
  is_u64 (cGas k) ->
  applyCreate acquireState cx k t =
  Ok (mkResult [] (cGas k) 0 None, on_state (Tx.SetCode (cAddress k) []) t3).
Proof.
  intros Hd Hh Ht Hp Hc Hb Hg. unfold applyCreate. rewrite Hd, Hh.
  change (1024 + 1 <? 1) with false. cbv iota zeta. revert Ht.
  destruct (take_snapshot (on_state (Tx.IncrNonce (cCaller k)) t)) as [id t2]. cbn [snd].
  unfold create_account. intros ->. erewrite run_stop by done.
  cbn [Failed Err ReturnValue GasLeft GasUsed]. change (spuriousDragonMaxCodeSize <? len []) with false.
  rewrite andb_false_r. change (uint64 (len [] * 200)) with 0. destruct Hg as [Hg0 Hg1].
  rewrite (proj2 (Z.ltb_ge _ _)), Z.sub_0_r, uint64_small by done. done.
Qed.
End mint.

(** The components a node puts together: the precompiled contracts and the
    transaction signer as what the executor takes them for. *)

(** ** Precompiled contracts *)

Section precompiles.
Context `{Runtime} `{Secp256k1} `{Bn256} `{!Bn256Ok} `{Ripemd160}.

(** A contract is run on an empty buffer; what is in the buffer does not matter. *)
#[export] Instance precompiled : Precompiles := {|
  pre_gas a i f := match contract_gas a i f [] with Ok (g, _) => g | _ => 0 end;
  pre_run a i :=
    match contract_run a i [] with
    | Ok (r, _) => Ok r
    | Panic => Panic
    | OutOfFuel => OutOfFuel
    end
|}.

#[export] Instance precompiled_ok : PrecompilesOk.
Proof.
  split.
  - intros a i f Hi. cbn. destruct (contract_gas_ok a i f (proj1 Hi)) as (g & Hg & Hr).
    destruct (Hr []) as [buf ->]. done.
  - intros a i r e Hi. cbn. destruct (contract_run_uniform a i Hi) as [v Hv Hg|Hp].
    + destruct (Hv []) as [buf ->]. intros [= ->]. exact Hg.
    + by rewrite Hp.
  - intros a i Hi. cbn. destruct (contract_run_uniform a i Hi) as [v Hv _|Hp].
    + by destruct (Hv []) as [buf ->].
    + by rewrite Hp.
Qed.

(** Whatever other contracts left in the buffer, a run gives this result. *)
Lemma pre_run_any_buffer a i buf : bytes_ok i ->
  match contract_run a i buf with
  | Ok (r, _) => pre_run a i = Ok r
  | o => pre_run a i = Panic /\ o = Panic
  end.
Proof.
  intros Hi. cbn [pre_run precompiled]. destruct (contract_run_uniform a i Hi) as [v Hv _|Hp].
  - destruct (Hv buf) as [b1 ->]. by destruct (Hv []) as [b2 ->].
  - by rewrite !Hp.
Qed.

End precompiles.

(** ** The signer *)

Section signer.
Context `{FastRLP} `{Runtime} `{Secp256k1}.

(** The executor asks [crypto.NewSigner] for the signer of the chain. *)
#[export] Instance tx_signer : Signer := {| Sender := EIP155_Sender |}.

Lemma recover_sender_ends R S V h : recover_sender R S V h <> OutOfFuel.
Proof.
  unfold recover_sender. destruct (encodeSignature R S V) as [[sig|]| |] eqn:E; cbn [obind]; try done.
  - apply encodeSignature_ends in E as [sig' ->]. unfold Ecrecover. rewrite RecoverPubkey_app. cbn [obind].
    by destruct (RecoverCompact _ _).
  - revert E. unfold encodeSignature, copy_right. by repeat (case_match; cbn [obind]).
Qed.

Lemma recover_sender_addr R S V h a : recover_sender R S V h = Ok (Some a) -> is_addr a.
Proof.
  unfold recover_sender. destruct (encodeSignature R S V) as [[sig|]| |]; cbn [obind]; try done.
  destruct (Ecrecover (Hash_Bytes h) sig) as [[pub|]| |]; cbn [obind]; try done. intros [= <-].
  apply BytesToAddress_addr, Forall_drop, Keccak256_bytes.
Qed.

#[export] Instance tx_signer_ok : SignerOk.
Proof.
  split; cbn [Sender tx_signer]; unfold EIP155_Sender, Frontier_Sender; intros c x.
  - intros a. destruct (negb _); apply recover_sender_addr.
  - destruct (negb _); apply recover_sender_ends.
Qed.

End signer.
