(* ===== verification/Builder.v ===== *)
(** Building a block (src/consensus/pvbft/ibft.go, buildBlock, writeTransactions
    and witeFixedReward), the queries of the staking contract
    (src/contracts/staking/query.go), and what the engine does with them
    (src/consensus/pvbft/pos.go, getNextValidators and distributeFeeRewards, and
    DistributeRewardsByRate of validator.go). *)

From Stdlib Require Import ZArith Lia.
From stdpp Require Import base gmap list numbers.
From S2P Require Import Prelude Types Text Chain Rlp TxSigner Vrf Heap Validators MsgQueue Snapshots Extra Seals Ibft Storage TrieDB Rewards VM Txn Executor Blockchain TxPool.

Open Scope Z_scope.

(** ** Decimals and the ABI

    The package shopspring/decimal; [NewFromBigInt] with the exponent 0, and a
    division by zero panics. *)
Class Decimal := {
  dec : Type;
  dec_of : Z -> dec;
  dec_Mul : dec -> dec -> dec;
  dec_Div : dec -> dec -> outcome dec;
  dec_BigInt : dec -> Z
}.

(** The packages umbracle/ethgo/abi and go-ethereum/accounts/abi, for the contract
    in src/contracts/abis: the methods [validators] and [accountStake], the
    packing of the call, and the decoding of the outputs. *)
Inductive abi_value :=
| VMap (fields : list (list Z * abi_value))
| VAddresses (l : list Address)
| VBigInt (z : Z)
| VOther.
Class StakingABI := {
  abi_method : Type;
  abi_Methods : list Z -> option abi_method;
  abi_ID : abi_method -> list Z;
  abi_Outputs_Decode : abi_method -> list Z -> option abi_value;
  (** [ethabi.JSON] and [Pack] of "accountStake". *)
  abi_Pack_accountStake : Address -> option (list Z)
}.

(** ** Distribution of fees *)

Section fees.
Context `{Decimal}.

(** The rate of each account in [stakeList], in percent. *)
Fixpoint stake_rates (stakes : list (Address * Z)) (dcStake : dec) : outcome (list (Address * dec)) :=
  match stakes with
  | [] => Ok []
  | (account, amount) :: stakes =>
    obind (dec_Div (dec_Mul (dec_of amount) (dec_of 100)) dcStake) (fun rate =>
    obind (stake_rates stakes dcStake) (fun rates => Ok ((account, rate) :: rates)))
  end.

Fixpoint set_fee_rewards (rates : list (Address * dec)) (dcFeeTotal : dec) (vf : ValidatorFee) : outcome ValidatorFee :=
  match rates with
  | [] => Ok vf
  | (account, rate) :: rates =>
    obind (dec_Div (dec_Mul dcFeeTotal rate) (dec_of 100)) (fun share =>
    set_fee_rewards rates dcFeeTotal (SetValidatorFee account (dec_BigInt share) vf))
  end.

(** [DistributeRewardsByRate]; the order in which the map is visited does not
    matter, since its accounts are different. *)
Definition DistributeRewardsByRate (total : Z) (v : ValidatorSet) (vf : ValidatorFee) : outcome ValidatorFee :=
  obind (stake_rates (map_to_list (vsStakeList v)) (dec_of (vsStakeTotal v))) (fun rates =>
  set_fee_rewards rates (dec_of total) vf).

End fees.

(** ** The staking contract *)

Definition AddrStakingContract : Address := 0x1001.
Definition queryGasLimit : Z := 100000.
(** "validators", "accountStake" and "0" *)
Definition validators_name : list Z := [118; 97; 108; 105; 100; 97; 116; 111; 114; 115].
Definition accountStake_name : list Z := [97; 99; 99; 111; 117; 110; 116; 83; 116; 97; 107; 101].
Definition zero_name : list Z := [48].

Definition field (name : list Z) (l : list (list Z * abi_value)) : option abi_value :=
  snd <$> List.find (fun p => bool_decide (p.1 = name)) l.

Section staking.
Context `{StakingABI} `{Runtime} `{StateDB} `{Precompiles} `{Signer}.
Context (acquireState : Contract -> VM.state).

Definition DecodeValidators (method : abi_method) (returnValue : list Z) : option (list Address) :=
  match abi_Outputs_Decode method returnValue with
  | Some (VMap results) => match field zero_name results with Some (VAddresses l) => Some l | _ => None end
  | _ => None
  end.

Definition DecodeAccountStake (method : abi_method) (returnValue : list Z) : option Z :=
  match abi_Outputs_Decode method returnValue with
  | Some (VMap results) => match field zero_name results with Some (VBigInt amount) => Some amount | _ => None end
  | _ => None
  end.

(** The fees and the lock are singletons of the process: what a transition does to
    them stays. *)
Definition with_singletons (t : Transition) (e : Executor) : Executor :=
  mkExecutor (eForks e) (eChainID e) (eState e) (eGetHash e) (tFees t) (tLock t).

(** The transaction of a query; [None] is an error of [Apply] or of the call. *)
Definition query (from : Address) (input : list Z) (t : Transition) : outcome (option (list Z) * Transition) :=
  obind (Apply acquireState
    (mkTransaction (Tx.GetNonce (tState t) from) 0 queryGasLimit (Some AddrStakingContract) 0 input None None None 0 from) t)
  (fun '(r, t) =>
  Ok (match r with inl res => if Types.Failed res then None else Some (ReturnValue res) | inr _ => None end, t)).

Definition QueryValidators (from : Address) (t : Transition) : outcome (option (list Address) * Transition) :=
  match abi_Methods validators_name with
  | None => Ok (None, t)
  | Some method =>
    obind (query from (abi_ID method) t) (fun '(r, t) =>
    Ok (match r with None => None | Some value => DecodeValidators method value end, t))
  end.

Definition QueryAccountStake (from : Address) (t : Transition) : outcome (option Z * Transition) :=
  match abi_Methods accountStake_name with
  | None => Ok (None, t)
  | Some method =>
    match abi_Pack_accountStake from with
    | None => Ok (None, t)
    | Some input =>
      obind (query from input t) (fun '(r, t) =>
      Ok (match r with None => None | Some value => DecodeAccountStake method value end, t))
    end
  end.

(** [getNextValidators]. *)
Definition getNextValidators (keyAddr : Address) (header : Header) (e : Executor)
    : outcome (option (list Address) * Executor) :=
  match BeginTxn (hStateRoot header) header 0 e with
  | inr _ => Ok (None, e)
  | inl t => obind (QueryValidators keyAddr t) (fun '(r, t) => Ok (r, with_singletons t e))
  end.

(** The loop of [distributeFeeRewards] over the validators: the stakes that were
    read are in the set also after an error. *)
Fixpoint read_stakes (validators : list Address) (stakeTotal : Z) (v : ValidatorSet) (t : Transition)
    : outcome (option Z * ValidatorSet * Transition) :=
  match validators with
  | [] => Ok (Some stakeTotal, v, t)
  | validator :: validators =>
    obind (QueryAccountStake validator t) (fun '(amount, t) =>
    match amount with
    | None => Ok (None, v, t)
    | Some amount => read_stakes validators (stakeTotal + amount) (AppendStakeList validator amount v) t
    end)
  end.

Definition distributeFeeRewards `{Decimal} (header : Header) (validators : list Address) (v : ValidatorSet) (e : Executor)
    : outcome (ValidatorSet * Executor) :=
  match BeginTxn (hStateRoot header) header 0 e with
  | inr _ => Ok (v, e)
  | inl t =>
    obind (read_stakes validators 0 v t) (fun '(stakeTotal, v, t) =>
    match stakeTotal with
    | None => Ok (v, with_singletons t e)
    | Some stakeTotal =>
      let v := SetStakeTotal stakeTotal v in
      let actualAmount := Tx.GetBalance (tState t) FeePool - taximeter (tFees t) in
      if 0 <? actualAmount then
        obind (DistributeRewardsByRate actualAmount v (tFees t)) (fun vf => Ok (v, with_singletons (set_fees vf t) e))
      else Ok (v, with_singletons t e)
    end)
  end.

End staking.

(** ** Time

    A [time.Time] without a monotonic reading: the seconds since the year 1, an
    int64, and the nanoseconds. *)
Record Time := mkTime { tmSec : Z; tmNsec : Z }.
Definition unixToInternal : Z := 62135596800.
Definition time_of_unix (sec : Z) : Time := mkTime (int64 (sec + unixToInternal)) 0.
Definition time_Unix (t : Time) : Z := int64 (tmSec t - unixToInternal).
Definition time_Before (t u : Time) : bool :=
  (tmSec t <? tmSec u) || (tmSec t =? tmSec u) && (tmNsec t <? tmNsec u).

(** [Add]: the seconds saturate. *)
Definition addSec (sec d : Z) : Z :=
  let sum := int64 (sec + d) in
  if Bool.eqb (sec <? sum) (0 <? d) then sum else if 0 <? d then 2 ^ 63 - 1 else - (2 ^ 63 - 1).
Definition time_Add (d : Z) (t : Time) : Time :=
  let dsec := Z.quot d (10 ^ 9) in
  let nsec := tmNsec t + Z.rem d (10 ^ 9) in
  let '(dsec, nsec) :=
    if 10 ^ 9 <=? nsec then (dsec + 1, nsec - 10 ^ 9)
    else if nsec <? 0 then (dsec - 1, nsec + 10 ^ 9) else (dsec, nsec) in
  mkTime (addSec (tmSec t) dsec) nsec.

(** ** Building a block *)

Definition RewardPool : Address := 0xC79543f253dBf1F7606499be536620c1B1358e1C.

Section build.
Context `{FastRLP} `{Runtime} `{Secp256k1} `{Curve} `{Protobuf} `{Backend}.
Context `{StateDB} `{Precompiles} `{Signer} `{LevelDB}.
Context `{KV} `{LRU} `{Roots} `{Verifier} `{BlockExecutor}.
Context (key_D : PrivateKey -> Z) (vrf_fuel : nat) (acquireState : Contract -> VM.state).
(** [i.blockTime], in nanoseconds, and the chain of the signer of rewards. *)
Context (blockTime rewardChainID : Z).

(** What the engine works on when it builds a block. *)
Record Producer := mkProducer {
  nChain : Blockchain;
  nExecutor : Executor;
  nPool : TxPool;
  nReward : BlockReward
}.

(** [Write]: a transaction that is refused leaves the transition as [Apply] does,
    with less gas in its pool, and its sender is set. *)
Definition Write_any (x : Transaction) (t : Transition) : outcome (option apply_error * Transaction * Transition) :=
  obind (sender_of x t) (fun sender =>
  let x' := match sender with Some from => with_from from x | None => x end in
  obind (Write acquireState x t) (fun r =>
  match r, sender with
  | inl t', _ => Ok (None, x', t')
  | inr e, None => Ok (Some e, x', t)
  | inr e, Some from => obind (Apply acquireState (with_from from x) t) (fun '(_, t') => Ok (Some e, x', t'))
  end)).

Definition WriteFailedReceipt_any (x : Transaction) (t : Transition) : outcome (bool * Transaction * Transition) :=
  obind (sender_of x t) (fun sender =>
  let x' := match sender with Some from => with_from from x | None => x end in
  obind (WriteFailedReceipt x t) (fun r =>
  match r with inl t' => Ok (true, x', t') | inr _ => Ok (false, x', t) end)).

(** The loop of [writeTransactions]. *)
Fixpoint write_loop (fuel : nat) (gasLimit : Z) (t : Transition) (p : TxPool)
    : outcome (list Transaction * Transition * TxPool) :=
  match fuel with
  | O => OutOfFuel
  | S fuel =>
    match Peek p with
    | (None, p) => Ok ([], t, p)
    | (Some tx, p) =>
      if ExceedsBlockGasLimit tx gasLimit then
        obind (WriteFailedReceipt_any tx t) (fun '(ok, tx, t) =>
        obind (Drop tx p) (fun p =>
        obind (write_loop fuel gasLimit t p) (fun '(txs, t, p) =>
        Ok (if ok : bool then tx :: txs else txs, t, p))))
      else
        obind (Write_any tx t) (fun '(err, tx, t) =>
        match err with
        | Some (GasLimitReachedError _) => Ok ([], t, p)
        | Some _ => obind (Drop tx p) (write_loop fuel gasLimit t)
        | None =>
          obind (Pop tx p) (fun p =>
          obind (write_loop fuel gasLimit t p) (fun '(txs, t, p) => Ok (tx :: txs, t, p)))
        end)
    end
  end.

(** The transactions that the loop can still take. *)
Definition pool_work (p : TxPool) : nat :=
  length (pExecutables p) + map_fold (fun _ a n => length (aPromoted a) + n)%nat 0%nat (pAccounts p).

(** [witeFixedReward]; the current header is not nil. *)
Definition witeFixedReward (i : Ibft) (t : Transition) (n : Producer) : outcome (option Transaction * Transition * Producer) :=
  obind (of_option (bCurrentHeader (nChain n))) (fun header =>
  let block := uint64 (hNumber header + 1) in
  obind (GetEpoch block i) (fun epoch =>
  obind (GetReward (uint64 blockTime) epoch (nReward n)) (fun br =>
  let n := mkProducer (nChain n) (nExecutor n) (nPool n) br in
  match BeginTxn (hStateRoot header) header (hMiner header) (nExecutor n) with
  | inr _ => Ok (None, t, n)
  | inl tx =>
    let nonce := Tx.GetNonce (tState tx) (iKeyAddr i) in
    match rewardTx rewardChainID (iKey i) (iKeyAddr i) RewardPool nonce (reward_value br) with
    | None => Ok (None, t, n)
    | Some x =>
      let x := ComputeHash x in
      obind (Write_any x t) (fun '(err, x, t) =>
      match err with
      | Some _ => Ok (None, t, n)
      | None =>
        let t := set_lock (Executor.SetHash block (tHash x) (CleanTag block (tLock t))) t in
        Ok (Some x, t, mkProducer (nChain n) (nExecutor n) (nPool n) (settlementReward br))
      end)
    end
  end))).

Definition writeTransactions (gasLimit : Z) (i : Ibft) (t : Transition) (n : Producer)
    : outcome (list Transaction * Transition * Producer) :=
  let p := Prepare (nPool n) in
  obind (write_loop (S (pool_work p)) gasLimit t p) (fun '(txs, t, p) =>
  obind (witeFixedReward i t (mkProducer (nChain n) (nExecutor n) p (nReward n))) (fun '(x, t, n) =>
  Ok (txs ++ option_list x, t, n))).

(** The timestamp of the block; [now] and [now'] are the two readings of the
    clock. *)
Definition block_timestamp (now now' : Time) (parent : Header) : Z :=
  let headerTime := time_Add blockTime (time_of_unix (int64 (hTimestamp parent))) in
  uint64 (time_Unix (if time_Before headerTime now then now' else headerTime)).

Definition with_result (stateRoot : Hash) (gasUsed : Z) (h : Header) : Header :=
  mkHeader (hParentHash h) (hSha3Uncles h) (hMiner h) stateRoot (hTxRoot h) (hReceiptsRoot h) (hLogsBloom h)
    (hDifficulty h) (hNumber h) (hGasLimit h) gasUsed (hTimestamp h) (hExtraData h) (hMixHash h) (hNonce h) (hHash h).

(** [buildBlock], with the prover's randomness [r]; [None] is an error. *)
Definition buildBlock (now now' : Time) (r : list Z) (snap : Snapshot) (parent : Header) (i : Ibft) (n : Producer)
    : outcome (option Block * Producer) :=
  let number := uint64 (hNumber parent + 1) in
  obind (CalculateGasLimit istanbulHeaderHash number (nChain n)) (fun '(gasLimit, chain) =>
  let n := mkProducer chain (nExecutor n) (nPool n) (nReward n) in
  match gasLimit with
  | None => Ok (None, n)
  | Some gasLimit =>
    let header :=
      mkHeader (hHash parent) EmptyUncleHash (iKeyAddr i) EmptyRootHash 0 0 (replicate 256 0) number number gasLimit 0
        (block_timestamp now now' parent) [] IstanbulDigest (replicate 8 0) 0 in
    let header := putIbftExtraValidators header (sSet snap) in
    match BeginTxn (hStateRoot parent) header (iKeyAddr i) (nExecutor n) with
    | inr _ => Ok (None, n)
    | inl t =>
      obind (ShouldWriteTransactions number i) (fun write =>
      obind (if write : bool then writeTransactions gasLimit i t n else Ok ([], t, n)) (fun '(txns, t, n) =>
      let '(_, root, t) := Transition_Commit t in
      let e := nExecutor n in
      let n := mkProducer (nChain n)
                 (with_singletons t (mkExecutor (eForks e) (eChainID e) (Tx.state (tState t)) (eGetHash e) (eFees e) (eLock e)))
                 (nPool n) (nReward n) in
      let block := BuildBlock istanbulHeaderHash (with_result root (tTotalGas t) header) txns (tReceipts t) in
      obind (writeSeal key_D vrf_fuel (iKey i) (bkHeader block) (GetInfo number i) r) (fun header =>
      match header with
      | None => Ok (None, n)
      | Some header =>
        Ok (Some (mkBlock (Header_ComputeHash istanbulHeaderHash header) (bkTransactions block) (bkUncles block)), n)
      end)))
    end
  end).

End build.
