(* ===== verification/MockWorld.v ===== *)
(** A concrete database, without accounts, and a concrete block in progress:
    what the executor's theorems are evaluated on. *)

From Stdlib Require Import ZArith Lia.
From stdpp Require Import base gmap sets list numbers.
From S2P Require Import Prelude Types Chain Slice VM Opcodes Instructions Interp Logic Safety Run MockHost Txn TxnFacts Bloom Executor ExecFacts ApplyFacts BlockFacts.

Open Scope Z_scope.

#[export] Instance empty_db : StateDB := {|
  db := unit;
  snapshot := unit;
  Snapshot_Get _ _ := None;
  Snapshot_Commit _ _ _ := (tt, tt, []);
  NewSnapshotAt _ _ := Some tt;
  NewSnapshot _ := tt;
  State_GetCode _ _ := [];
  UnmarshalRlp _ := None;
  rlp_GetBytes _ := None;
  cache := unit;
  cache_new := tt;
  cache_Get _ _ := (None, tt);
  cache_Add _ _ _ := tt
|}.

#[export] Instance no_precompiles : Precompiles := {|
  pre_gas _ _ _ := 0;
  pre_run _ i := Ok (i, None)
|}.

#[export] Instance no_signer : Signer := {| Sender _ _ := Ok None |}.

#[export] Instance empty_db_ok : StateDBOk.
Proof. refine {| cache_has := fun _ _ _ => False |}; try done; intros ? ? []. Defined.

#[export] Instance no_precompiles_ok : PrecompilesOk.
Proof. split; [done| |done]. intros a i r e Hi [= <- <-]. done. Qed.

#[export] Instance no_signer_ok : SignerOk.
Proof. by split. Qed.

Definition pooled (k : Contract) : VM.state := clean_state.

Definition mock_context : TxContext := mkTxContext 0 0 0 1 1 1000000 99 0.

(** A block in progress: account 5 has 10^9, the pool 10^6 gas. *)
Definition rich : Address := 5.
Definition payee : Address := 1000.
Definition mock_transition : Transition :=
  mkTransition all_forks (Tx.AddBalance rich 1000000000 (Tx.newTxn tt tt)) (fun _ => 0)
    mock_context 1000000 [] 0 99 (mkValidatorFee 0 ∅) (mkRewardLock ∅ ∅).

Definition payment : Transaction := mkTransaction 0 1 30000 (Some payee) 7 [] None None None 0 rich.

Lemma sum_zero (D : gset Z) : sum_over D (fun _ => 0) = 0.
Proof.
  induction D as [|a D Ha IH] using set_ind_L; [apply sum_empty|]. by rewrite sum_insert, IH by done.
Qed.

Lemma bounded_at a f : (forall b, b <> a -> f b = 0) -> 0 <= f a < 2 ^ 256 -> bounded f.
Proof.
  intros Hz [Ha0 Ha1].
  assert (Hn : forall b, 0 <= f b) by (intros b; destruct (decide (b = a)) as [->|]; [done|by rewrite Hz]).
  split; [done|]. intros D.
  pose proof (sum_subset D ({[a]} ∪ D) f ltac:(set_solver) Hn).
  pose proof (sum_diff {[a]} ({[a]} ∪ D) (fun _ => 0) f ltac:(set_solver) ltac:(set_solver)) as Hd.
  rewrite !sum_zero, sum_singleton in Hd. lia.
Qed.

Lemma mock_balance a : Tx.GetBalance (tState mock_transition) a = if decide (rich = a) then 1000000000 else 0.
Proof. cbn [tState mock_transition]. by rewrite bal_AddBalance by done. Qed.

Lemma mock_world : world mock_transition.
Proof.
  split; [|..].
  - apply (bounded_at rich); [intros b Hb|]; rewrite mock_balance.
    + by rewrite decide_False by done.
    + by vm_compute.
  - apply tx_ok_AddBalance. split; [|done|done]. intros a o Hg. by vm_compute in Hg.
  - split; unfold is_word, is_addr; cbn; lia.
  - intros n. apply word_0.
  - done.
Qed.

Lemma payment_ok : msg_ok payment.
Proof.
  split; try done. by intros a [= <-].
Qed.

(** Contract creation whose input contains the fixed-reward selector behind a
    STOP, with no gas at all. *)
Definition minting : Transaction :=
  mkTransaction 0 1 0 None 0 [0; 0x57; 0x30; 0x59; 0x20] None None None 0 rich.

Lemma pooled_pooled_ok k : pooled_ok (pooled k).
Proof. split; try done; (split; [apply nil_slice_ok|done]). Qed.

(** What is left of [apply] for a creation that passes the checks. *)
Lemma apply_creates x t t1 t2 c r t4 :
  nonceCheck x t = true -> subGasLimitPrice x t = Some t1 -> subGasPool (tGas x) t1 = Some t2 ->
  TransactionGasCost x (Homestead (tConfig t2)) (Istanbul (tConfig t2)) = Some c ->
  IsFixedRewardTx x = true -> tTo x = None ->
  Create2 pooled (tFrom x) (tInput x) (tValue x) (uint64 (tGas x - c))
    (set_ctx (with_price_origin (BytesToHash (big_Bytes (tGasPrice x))) (tFrom x) (tCtx t2)) t2) =
    Ok (r, t4) ->
  apply pooled x t = Ok (inl (fst (settle x r t4)), snd (settle x r t4)).
Proof.
  intros E1 E2 E3 E4 E5 E6 E7. unfold apply. rewrite E1, E2, E3, E4, E5. cbn [negb andb].
  unfold execute. rewrite E6, E7. cbn [obind]. by destruct (settle x r t4).
Qed.

(** The gas that comes back to the sender of [minting]. *)
Definition mint_gas : Z := 2 ^ 64 - 53068.

Lemma mint_apply :
  exists r t', apply pooled minting (snd (take_snapshot mock_transition)) = Ok (inl r, t') /\
    GasLeft r = mint_gas /\ Tx.GetBalance (tState t') rich = 1000000000 + mint_gas /\
    Tx.GetBalance (tState t') FeePool = 53068.
Proof.
  do 2 eexists. split.
  - eapply apply_creates; [vm_compute; reflexivity..|].
    unfold Create2. eapply applyCreate_stop; [exact pooled_pooled_ok|..].
    1-5: vm_compute; reflexivity.
    + cbn. repeat constructor; lia.
    + vm_compute. split; congruence.
  - by vm_compute.
Qed.
