(* ===== verification/StateMain.v ===== *)
(** The main theorems about the execution of blocks, each with an instance: the
    accounting of gas and balances of transactions and blocks, nested calls,
    rollback, storage, receipts' bloom filters; and inputs on which the executor
    mints, pays a fee twice or misses a log. *)

From Stdlib Require Import ZArith Lia.
From stdpp Require Import base gmap list numbers relations sorting.
From S2P Require Import Prelude Types Chain Slice VM Opcodes Instructions Interp Logic Safety Run MockHost Txn TxnFacts Bloom Executor ExecFacts TxnLaws ApplyFacts BlockFacts MockWorld.

Open Scope Z_scope.

Section theorems.
Context `{Runtime} `{StateDB} `{!StateDBOk} `{Precompiles} `{!PrecompilesOk} `{Signer} `{!SignerOk}.
Context (acquireState : Contract -> VM.state).
Implicit Types (t : Transition) (x : Transaction) (k : Contract).


(** [ProcessBlock] reports one receipt per transaction of the block, whose
    gas adds up to the reported total, which is within the block's gas limit. *)
Theorem process_block_receipts root header xs creator (e : Executor) t :
  (forall k, pooled_ok (acquireState k)) ->
  BeginTxn root header creator e = inl t -> world t -> 0 <= hGasLimit header < 2 ^ 63 ->
  Byzantium (tConfig t) = true ->
  Forall (fun x => msg_ok x /\
    (ExceedsBlockGasLimit x (hGasLimit header) = false -> pays_intrinsic x t)) xs ->
  match ProcessBlock acquireState root header xs creator e with
  | Ok (inl b) => length (bReceipts b) = length xs /\ cumulative 0 (bReceipts b) (bTotalGas b) /\
                  0 <= bTotalGas b <= hGasLimit header
  | Ok (inr _) | Panic => True
  | OutOfFuel => False
  end.
Proof.
  intros Hp Hb Hw Hl Hbyz Hxs. unfold ProcessBlock. rewrite Hb.
  assert (Ht : tGasPool t = hGasLimit header /\ tTotalGas t = 0 /\ tReceipts t = []).
  { unfold BeginTxn in Hb. repeat case_match; simplify_eq. cbn.
    rewrite int64_small, uint64_small by (unfold is_u64; lia). done. }
  destruct Ht as (Eg & Et & Er).
  pose proof (process_txs_ok acquireState Hp (hGasLimit header) xs t Hw) as Hok.
  specialize (Hok ltac:(unfold gas_ok; lia) Hbyz Hxs).
  destruct (process_txs acquireState (hGasLimit header) xs t) as [[t'|err]| |]; cbn [obind]; try done.
  destruct Hok as [_ _ Hpool [Hr0 Hr1] (rs & Ers & Hlen & Hcum)].
  unfold Transition_Commit. cbn [set_lock tState tConfig].
  destruct (Tx.Commit _ _) as [[s2 rt] s]. cbn. rewrite Ers, Er, Et in *. cbn [app].
  split_and!; [done|done|lia|lia].
Qed.

(** C5: applying one transaction that pays its intrinsic gas.  If it is applied,
    nothing is minted, the gas left and the gas used add up to the gas limit, and
    the block's pool loses the gas used.  If it is refused, [Apply] puts the
    state back, though not the gas pool. *)
Theorem transaction_conserves x t :
  (forall k, pooled_ok (acquireState k)) ->
  world t -> msg_ok x -> is_u64 (tGasPool t) -> pays_intrinsic x t ->
  match Apply acquireState x t with
  | Ok (inl r, t') => applied x t r t'
  | Ok (inr _, t') => Tx.txn (tState t') = Tx.txn (tState t) /\ 0 <= tGasPool t' <= tGasPool t /\
                      forall a, Tx.GetBalance (tState t') a = Tx.GetBalance (tState t) a
  | Panic => True
  | OutOfFuel => False
  end.
Proof.
  intros Hp Hw Hm Hg Hpay. pose proof (Apply_ok acquireState Hp x t Hw Hm Hg Hpay) as Hok.
  destruct (Apply acquireState x t) as [[[r|e] t']| |]; try done. by destruct Hok.
Qed.

(** C9: a call or a creation at any depth, with all it nests: it ends (1026 levels
    of fuel are enough at depth 1, because depths above 1025 return at once), it
    returns at most its gas, mints nothing, keeps every snapshot taken before
    it, and changes nothing of the transition but the state. *)
Theorem nested_calls_safe n t k :
  (forall k, pooled_ok (acquireState k)) ->
  world t -> contract_ok k -> 1026 - cDepth k < Z.of_nat n -> (0 < n)%nat ->
  match callx acquireState n t k with
  | Ok (r, t') => result_ok k r /\ world t' /\ keeps t t'
  | Panic => True
  | OutOfFuel => False
  end.
Proof.
  intros Hp Hw Hk Hn Hpos. pose proof (callx_ok acquireState Hp n t k Hw Hk) as Hok.
  pose proof (callx_fuel acquireState Hp n t k Hw Hk Hn Hpos) as Hf. unfold call_ok in Hok.
  by destruct (callx acquireState n t k) as [[r t']| |].
Qed.

(** C22: a call that fails leaves accounts, storage, logs and refunds as they were;
    except that a call whose caller cannot pay the value leaves its address
    touched. *)
Theorem failed_call_rolled_back n t k r t' :
  (forall k, pooled_ok (acquireState k)) ->
  world t -> contract_ok k -> cType k <> Create ->
  callx acquireState n t k = Ok (r, t') -> Failed r = true ->
  Tx.txn (tState t') = Tx.txn (tState t) \/
  Err r = Some ErrInsufficientBalance /\
  Tx.txn (tState t') = Tx.txn (Tx.TouchAccount (cAddress k) (tState t)).
Proof.
  intros Hp Hw Hk Hc. destruct n as [|n]; [done|]. cbn [callx]. rewrite bool_decide_false by done.
  apply applyCall_failed; try done. intros. by apply callx_ok.
Qed.

(** a creation that fails from Homestead on leaves the increment of the
    creator's nonce only; except that one whose creator cannot pay the value
    leaves the new account behind as well. *)
Theorem failed_create_rolled_back n t k r t' :
  (forall k, pooled_ok (acquireState k)) ->
  world t -> contract_ok k -> cType k = Create -> Homestead (tConfig t) = true ->
  callx acquireState n t k = Ok (r, t') -> Failed r = true ->
  let t1 := on_state (Tx.IncrNonce (cCaller k)) t in
  Err r = Some ErrDepth /\ t' = t \/
  Tx.txn (tState t') = Tx.txn (tState t1) \/
  Err r = Some ErrInsufficientBalance /\ Tx.txn (tState t') = Tx.txn (tState (create_account k t1)).
Proof.
  intros Hp Hw Hk Hc Hh. destruct n as [|n]; [done|]. cbn [callx]. rewrite bool_decide_true by done.
  apply applyCreate_failed; try done. intros. by apply callx_ok.
Qed.
End theorems.

(** ** The state transaction *)

Section state.
Context `{Runtime} `{StateDB} `{!StateDBOk}.
Implicit Types (s : Tx.Txn).

(** after [SetStorage] (with its refund accounting, on every branch of the
    EIP-2200 and legacy gas metering) the slot reads the new value, and every
    other slot of every account what it read before. *)
Theorem storage_read_back s a key v f b key' :
  is_word v ->
  Tx.GetState (snd (Tx.SetStorage s a key v f)) b key' =
  if decide (a = b /\ key = key') then v else Tx.GetState s b key'.
Proof. apply GetState_SetStorage. Qed.


(** a commit hands the trie every account written in the block exactly once,
    in increasing order of the addresses, whatever the order in which they were
    written; an account that destroyed itself, or that is empty where empty
    accounts are deleted, is handed over as deleted and without storage. *)
Theorem commit_objects d s :
  exists objects,
    (let '(db', snap', root) := Snapshot_Commit (Tx.state s) (Tx.snap s) objects in
     Tx.Commit d s = (snap', root, mk_committed d s db')) /\
    StronglySorted Z.lt (oAddress <$> objects) /\
    (forall a o, Tx.objs (Tx.txn s) !! a = Some o ->
       Tx.commit_object (a, Tx.clean_obj d o) ∈ objects) /\
    (forall x, x ∈ objects -> exists o, Tx.objs (Tx.txn s) !! oAddress x = Some o /\
       x = Tx.commit_object (oAddress x, Tx.clean_obj d o)) /\
    (forall a o, Tx.objs (Tx.txn s) !! a = Some o -> Tx.Suicide o || Tx.StateObject_Empty o && d = true ->
       oDeleted (Tx.commit_object (a, Tx.clean_obj d o)) = true /\
       oStorage (Tx.commit_object (a, Tx.clean_obj d o)) = []).
Proof.
  exists (map Tx.commit_object (Tx.walk (Tx.objs (Tx.txn (Tx.CleanDeleteObjects d s))))).
  split_and!.
  - unfold Tx.Commit. cbn [Tx.CleanDeleteObjects Tx.set_txn Tx.state Tx.snap].
    by destruct (Snapshot_Commit _ _ _) as [[d' s'] root].
  - pose proof (walk_sorted (Tx.objs (Tx.txn (Tx.CleanDeleteObjects d s)))) as Hs.
    change (map ?f ?l) with (f <$> l). by rewrite <- list_fmap_compose.
  - intros a o E. apply list_elem_of_fmap. eexists. split; [done|].
    apply walk_lookup. cbn [Tx.CleanDeleteObjects Tx.set_txn Tx.txn Tx.objs]. by rewrite lookup_fmap, E.
  - intros x Hx. apply list_elem_of_fmap in Hx as ([a o'] & -> & Hx). apply walk_lookup in Hx.
    cbn [Tx.CleanDeleteObjects Tx.set_txn Tx.txn Tx.objs] in Hx. rewrite lookup_fmap in Hx.
    cbn [oAddress Tx.commit_object fst].
    destruct (Tx.objs (Tx.txn s) !! a) as [o|] eqn:E; [|done]. exists o. split; [done|].
    by injection Hx as <-.
  - intros a o E Hd. unfold Tx.clean_obj. rewrite Hd. done.
Qed.
End state.

(** the intrinsic gas of a transaction is 21000 (53000 for a creation from
    Homestead on) plus 16 (68 before Istanbul) for each non-zero and 4 for each
    zero byte of its input; the checks in 64-bit arithmetic report an overflow
    exactly when that number does not fit. *)
Theorem intrinsic_gas_exact x hs ist :
  len (tInput x) < 2 ^ 63 ->
  TransactionGasCost x hs ist =
  if intrinsic_gas x hs ist <? 2 ^ 64 then Some (intrinsic_gas x hs ist) else None.
Proof. apply TransactionGasCost_exact. Qed.

(** the bloom filter of a receipt has the bits of the address and of every
    topic of each of its logs. *)
Theorem bloom_complete `{Runtime} receipts ls l :
  ls ∈ receipts -> l ∈ ls -> Bloom.log_present (Bloom.CreateBloom receipts) l.
Proof.
  intros Hls Hl. destruct (Bloom.CreateBloom_spec receipts) as [_ Hall].
  rewrite Forall_forall in Hall. specialize (Hall ls Hls). rewrite Forall_forall in Hall. by apply Hall.
Qed.

(** ** Deviations *)

(** the intrinsic-gas check is skipped for every transaction whose input
    contains the fixed-reward selector, contract creations included.  With a gas
    limit of 0 the gas left wraps around: this transaction is applied, and its
    sender and the fee pool end up with 2^64 more than there was. *)
Theorem fixed_reward_creation_mints :
  exists r t', Apply pooled minting mock_transition = Ok (inl r, t') /\
    Tx.GetBalance (tState mock_transition) rich = 1000000000 /\
    Tx.GetBalance (tState mock_transition) FeePool = 0 /\
    Tx.GetBalance (tState t') rich + Tx.GetBalance (tState t') FeePool = 1000000000 + 2 ^ 64.
Proof.
  destruct mint_apply as (r & t' & Ha & _ & Hb & Hf). exists r, t'. split_and!; [|done|done|].
  - unfold Apply. revert Ha. destruct (take_snapshot mock_transition) as [id t1]. cbn [snd].
    by intros ->.
  - by rewrite Hb, Hf.
Qed.

(** a validator's reward is not reduced when it is withdrawn: the same
    withdrawal succeeds again as long as the fee pool's account has the funds. *)
Theorem withdrawal_repeats `{Runtime} `{StateDB} from to v (t : Transition) r t' :
  WithdrawTxFee from to v t = inl (r, t') -> 0 <= v <= Tx.GetBalance (tState t') FeePool ->
  exists r'' t'', WithdrawTxFee from to v t' = inl (r'', t'') /\
    GetFeeReward from (tFees t'') = GetFeeReward from (tFees t).
Proof.
  unfold WithdrawTxFee. destruct (negb (IsHaveReward from (tFees t))) eqn:E1; [done|].
  destruct (negb (to =? FeePool)) eqn:E2; [done|].
  destruct (default 0 (GetFeeReward from (tFees t)) <? v) eqn:E3; [done|].
  destruct (transfer FeePool from (Some v) t) as [t1|] eqn:Et; [|done]. intros [= <- <-] Hv.
  assert (Ef : tFees t1 = tFees t).
  { unfold transfer in Et. repeat case_match; by simplify_eq. }
  unfold IsHaveReward, GetFeeReward in *. cbn [set_fees tFees SubTaximeter feePool tState] in *.
  rewrite Ef in *. rewrite E1, E3. unfold transfer. cbn [tState set_fees].
  destruct (Tx.SubBalance FeePool v (tState t1)) as [s|] eqn:Es; [by do 2 eexists|].
  exfalso. unfold Tx.SubBalance in Es. destruct (Z.sgn v =? 0); [done|].
  destruct (Z.ltb_spec (Tx.GetBalance (tState t1) FeePool) v); [|done]. cbn in Hv. lia.
Qed.

(** a membership test of the bloom filter looks at the bit before the one that
    was set, and at no bit when the number is a multiple of 8, so a log that was
    added to a filter is reported as absent. *)
Theorem bloom_misses :
  (forall (b : list Z) n, 0 <= n < 2048 ->
     Bloom.probe b n = negb (n mod 8 =? 0) && Bloom.has_bit b (n - 1)) /\
  Bloom.log_present (Bloom.CreateBloom [[mkLog 5 [] []]]) (mkLog 5 [] []) /\
  Bloom.IsLogInBloom (Bloom.CreateBloom [[mkLog 5 [] []]]) (mkLog 5 [] []) = false.
Proof.
  split_and!; [apply Bloom.probe_reads| |by vm_compute].
  destruct (Bloom.CreateBloom_spec [[mkLog 5 [] []]]) as [_ Hall].
  rewrite List.Forall_forall in Hall. specialize (Hall _ (or_introl eq_refl)).
  rewrite List.Forall_forall in Hall. apply Hall. by left.
Qed.

(** ** Instances *)

Lemma mock_pays : pays_intrinsic payment mock_transition.
Proof. by left. Qed.





(** A block on top of a database without accounts: its transactions have no
    funds, so it is a block with a failed receipt. *)
Definition mock_executor : Executor :=
  mkExecutor AllForksEnabled 99 tt (fun _ _ => 0) (mkValidatorFee 0 ∅) (mkRewardLock ∅ ∅).
Definition mock_header : Header :=
  mkHeader 0 0 0 0 0 0 (replicate 256 0) 0 1 1000000 0 1 [] 0 (replicate 8 0) 0.
Definition oversized : Transaction := mkTransaction 0 1 2000000 (Some payee) 0 [] None None None 0 rich.

Definition mock_begin : Transition :=
  mkTransition all_forks (Tx.newTxn tt tt) (fun _ => 0)
    (mkTxContext 0 0 9 1 1 1000000 99 0) 1000000 [] 0 99 (mkValidatorFee 0 ∅) (mkRewardLock ∅ ∅).

Lemma mock_begin_world : world mock_begin.
Proof.
  split; [|..].
  - by apply (bounded_at 0).
  - split; [|intros ? ? []|done]. intros a o Hg. by vm_compute in Hg.
  - split; unfold is_word, is_addr; cbn; lia.
  - intros n. apply word_0.
  - done.
Qed.

Lemma mock_block_runs :
  exists b, ProcessBlock pooled 0 mock_header [oversized] 9 mock_executor = Ok (inl b) /\
    rGasUsed <$> bReceipts b = [0].
Proof. eexists. split; [vm_compute; reflexivity|done]. Qed.

Lemma oversized_ok : msg_ok oversized.
Proof. split; try done. by intros a [= <-]. Qed.

Lemma oversized_skips :
  Forall (fun x => msg_ok x /\ (ExceedsBlockGasLimit x (hGasLimit mock_header) = false ->
    pays_intrinsic x mock_begin)) [oversized].
Proof. apply Forall_cons_2; [|apply Forall_nil_2]. split; [apply oversized_ok|done]. Qed.

Lemma process_block_receipts_witness :
  exists b, ProcessBlock pooled 0 mock_header [oversized] 9 mock_executor = Ok (inl b) /\
    length (bReceipts b) = 1%nat /\ cumulative 0 (bReceipts b) (bTotalGas b) /\
    0 <= bTotalGas b <= 1000000.
Proof.
  destruct mock_block_runs as (b & E & _). exists b. split; [exact E|].
  pose proof (process_block_receipts pooled 0 mock_header [oversized] 9 mock_executor mock_begin
    pooled_pooled_ok eq_refl mock_begin_world ltac:(done) eq_refl
    oversized_skips) as Hb.
  rewrite E in Hb. exact Hb.
Defined.

Lemma payment_applied :
  exists r t', Apply pooled payment mock_transition = Ok (inl r, t') /\ GasUsed r = 21000 /\
    Tx.GetBalance (tState t') payee = 7.
Proof. do 2 eexists. split; [vm_compute; reflexivity|done]. Qed.

Lemma mock_pool : is_u64 (tGasPool mock_transition).
Proof. done. Qed.

Lemma transaction_conserves_witness :
  exists r t', Apply pooled payment mock_transition = Ok (inl r, t') /\
    applied payment mock_transition r t'.
Proof.
  destruct payment_applied as (r & t' & E & _). exists r, t'. split; [exact E|].
  pose proof (transaction_conserves pooled payment mock_transition pooled_pooled_ok mock_world
    payment_ok mock_pool mock_pays) as Ha.
  rewrite E in Ha. exact Ha.
Defined.

(** Calls of the payee by the rich account with 7 coins and 100 gas, running [code]. *)
Definition mock_call (code : list Z) : Contract := NewContractCall 1 rich rich payee (Some 7) 100 code [].
Definition mock_create (code : list Z) : Contract :=
  with_type Create (NewContractCreation 1 rich rich payee (Some 7) 100 code).

Lemma mock_call_ok code : bytes_ok code -> contract_ok (mock_call code).
Proof. intros Hc. split; try done. by intros v [= <-]. Qed.
Lemma mock_create_ok code : bytes_ok code -> contract_ok (mock_create code).
Proof. intros Hc. split; try done. by intros v [= <-]. Qed.

Lemma invalid_ok : bytes_ok [254].
Proof. split; [|by vm_compute]. repeat constructor; lia. Qed.

Lemma mock_call_runs :
  exists r t', callx pooled call_fuel mock_transition (mock_call []) = Ok (r, t') /\ GasLeft r = 100 /\
    Tx.GetBalance (tState t') payee = 7.
Proof. do 2 eexists. split; [vm_compute; reflexivity|done]. Qed.

Lemma nested_calls_safe_witness :
  exists r t', callx pooled call_fuel mock_transition (mock_call []) = Ok (r, t') /\
    result_ok (mock_call []) r /\ world t' /\ keeps mock_transition t'.
Proof.
  destruct mock_call_runs as (r & t' & E & _). exists r, t'. split; [exact E|].
  pose proof (nested_calls_safe pooled call_fuel mock_transition (mock_call []) pooled_pooled_ok
    mock_world (mock_call_ok [] bytes_ok_nil) eq_refl (Nat.lt_0_succ _)) as Hc.
  rewrite E in Hc. exact Hc.
Defined.

Lemma invalid_call_fails :
  exists r t', callx pooled call_fuel mock_transition (mock_call [254]) = Ok (r, t') /\
    Err r = Some errOpCodeNotFound.
Proof. do 2 eexists. split; [vm_compute; reflexivity|done]. Qed.

Lemma failed_call_rolled_back_witness :
  exists r t', callx pooled call_fuel mock_transition (mock_call [254]) = Ok (r, t') /\
    Tx.txn (tState t') = Tx.txn (tState mock_transition).
Proof.
  destruct invalid_call_fails as (r & t' & E & Ee). exists r, t'. split; [exact E|].
  assert (Hf : Failed r = true) by (unfold Failed, Succeeded; by rewrite Ee).
  destruct (failed_call_rolled_back pooled call_fuel mock_transition (mock_call [254]) r t'
    pooled_pooled_ok mock_world (mock_call_ok _ invalid_ok) ltac:(discriminate) E Hf) as [Ht|[Hi _]];
    [exact Ht|congruence].
Defined.

Lemma invalid_create_fails :
  exists r t', callx pooled call_fuel mock_transition (mock_create [254]) = Ok (r, t') /\
    Err r = Some errOpCodeNotFound.
Proof. do 2 eexists. split; [vm_compute; reflexivity|done]. Qed.

Lemma failed_create_rolled_back_witness :
  exists r t', callx pooled call_fuel mock_transition (mock_create [254]) = Ok (r, t') /\
    Tx.txn (tState t') = Tx.txn (Tx.IncrNonce rich (tState mock_transition)).
Proof.
  destruct invalid_create_fails as (r & t' & E & Ee). exists r, t'. split; [exact E|].
  assert (Hf : Failed r = true) by (unfold Failed, Succeeded; by rewrite Ee).
  destruct (failed_create_rolled_back pooled call_fuel mock_transition (mock_create [254]) r t'
    pooled_pooled_ok mock_world (mock_create_ok _ invalid_ok) eq_refl eq_refl E Hf)
    as [[Hi _]|[Ht|[Hi _]]]; [congruence|exact Ht|congruence].
Defined.

Lemma storage_read_back_witness :
  Tx.GetState (snd (Tx.SetStorage (tState mock_transition) payee 1 42 all_forks)) payee 1 = 42 /\
  Tx.GetState (snd (Tx.SetStorage (tState mock_transition) payee 1 42 all_forks)) payee 2 = 0.
Proof.
  split; apply (storage_read_back (tState mock_transition) payee 1 42 all_forks payee); done.
Defined.




Lemma intrinsic_gas_exact_witness :
  TransactionGasCost minting true true = Some 53068.
Proof. rewrite (intrinsic_gas_exact minting true true ltac:(done)). vm_compute. reflexivity. Defined.

Lemma bloom_complete_witness :
  Bloom.log_present (Bloom.CreateBloom [[]; [mkLog 5 [7] []]]) (mkLog 5 [7] []).
Proof.
  apply (bloom_complete [[]; [mkLog 5 [7] []]] [mkLog 5 [7] []]); apply list_elem_of_In; cbn; tauto.
Defined.

(** Validator 5 earned 10; the fee pool has 100. *)
Definition fee_transition : Transition :=
  mkTransition all_forks (Tx.AddBalance FeePool 100 (Tx.newTxn tt tt)) (fun _ => 0)
    mock_context 1000000 [] 0 99 (SetValidatorFee rich 10 (mkValidatorFee 0 ∅)) (mkRewardLock ∅ ∅).

Lemma fee_withdrawn :
  exists r t', WithdrawTxFee rich FeePool 10 fee_transition = inl (r, t') /\
    0 <= 10 <= Tx.GetBalance (tState t') FeePool.
Proof. do 2 eexists. split; [vm_compute; reflexivity|by vm_compute]. Qed.

Lemma withdrawal_repeats_witness :
  exists r t' r'' t'', WithdrawTxFee rich FeePool 10 fee_transition = inl (r, t') /\
    WithdrawTxFee rich FeePool 10 t' = inl (r'', t'').
Proof.
  destruct fee_withdrawn as (r & t' & E & Hb).
  destruct (withdrawal_repeats rich FeePool 10 fee_transition r t' E Hb) as (r'' & t'' & E' & _).
  exists r, t', r'', t''. split; [exact E|exact E'].
Defined.
