(* ===== verification/BuildMain.v ===== *)
(** Blocks that a proposer builds: the loop over the pool ends and keeps the
    accounts of gas, balances and rewards, and the block passes the checks of the
    other validators. *)

From Stdlib Require Import ZArith Lia.
From stdpp Require Import base gmap list numbers.
From S2P Require Import Prelude Types Text Chain Rlp RlpTree TxSigner Vrf Heap Validators MsgQueue Snapshots Extra Seals Ibft Storage StorageFacts TrieDB Rewards Run VM Txn TxnFacts Executor Blockchain BlockchainFacts EngineChain TxPool PoolFacts ExecFacts ApplyFacts BlockFacts Builder MockHost MockEngine MockChain MockWorld.

Open Scope Z_scope.

(** ** The pool *)

(** All transactions that the loop can reach. *)
Record pool_holds (P : Transaction -> Prop) (p : TxPool) : Prop := {
  ph_executables : Forall P (pExecutables p);
  ph_promoted k a : pAccounts p !! k = Some a -> Forall P (aPromoted a)
}.

Definition promoted_sum (m : gmap Z account) : nat := map_fold (fun _ a n => length (aPromoted a) + n)%nat 0%nat m.

Lemma promoted_sum_insert m k a : m !! k = None -> promoted_sum (<[k := a]> m) = (length (aPromoted a) + promoted_sum m)%nat.
Proof. intros Hk. unfold promoted_sum. rewrite map_fold_insert_L; [done| |done]. intros. lia. Qed.

Lemma promoted_sum_update m k a a' : m !! k = Some a ->
  (promoted_sum (<[k := a']> m) + length (aPromoted a) = promoted_sum m + length (aPromoted a'))%nat.
Proof.
  intros Hk. rewrite <- insert_delete_eq, promoted_sum_insert by apply lookup_delete_eq.
  rewrite <- (insert_delete_id m k a Hk) at 2. rewrite promoted_sum_insert by apply lookup_delete_eq. lia.
Qed.

Lemma put_account_holds P k a p : pool_holds P p -> Forall P (aPromoted a) -> pool_holds P (put_account k a p).
Proof.
  intros [He Hp] Ha. split; [done|]. intros j b. cbn. destruct (decide (j = k)) as [->|Hne].
  - rewrite lookup_insert_eq. by intros [= <-].
  - rewrite lookup_insert_ne by done. apply Hp.
Qed.

Lemma queue_pop_perm q x q' : AccountQueue.pop q = Some (x, q') -> x :: q' ≡ₚ q.
Proof. unfold AccountQueue.pop. case_match; [done|]. apply Pop_perm. Qed.

Lemma Peek_spec P p : pool_holds P p ->
  match Peek p with
  | (None, _) => True
  | (Some tx, p') => P tx /\ pool_holds P p' /\ (S (pool_work p') = pool_work p)%nat
  end.
Proof.
  intros [He Hp]. unfold Peek, PricedQueue.pop. destruct (len _ =? 0); [done|].
  destruct (heap_Pop _ _) as [[tx q]|] eqn:E; [|done]. apply Pop_perm in E. rewrite <- E in He.
  apply Forall_cons_1 in He as [Ht Hq]. split; [done|]. split; [by split|].
  unfold pool_work. cbn [set_executables pExecutables pAccounts]. rewrite <- E. cbn [length]. lia.
Qed.

Section pool.
Context `{FastRLP}.

(** The account of a transaction that was written loses one, and shows its next. *)
Lemma Pop_spec P tx p : pool_holds P p ->
  match Pop tx p with
  | Ok p' => pool_holds P p' /\ (pool_work p' <= pool_work p)%nat
  | Panic => True
  | OutOfFuel => False
  end.
Proof.
  intros Hp. unfold Pop. destruct (pAccounts p !! tFrom tx) as [a|] eqn:Ea; [|done].
  set (q := match AccountQueue.pop (aPromoted a) with Some (_, q) => q | None => aPromoted a end).
  pose proof (ph_promoted _ _ Hp _ _ Ea) as Hprom.
  assert (Hq : Forall P q /\ (q = [] \/ S (length q) = length (aPromoted a))%nat /\ (length q <= length (aPromoted a))%nat).
  { subst q. destruct (AccountQueue.pop (aPromoted a)) as [[x q']|] eqn:E.
    - apply queue_pop_perm in E. rewrite <- E in Hprom |- *. apply Forall_cons_1 in Hprom as [_ ?]. cbn. auto with lia.
    - unfold AccountQueue.pop in E. destruct (aPromoted a) as [|y l]; [by auto|].
      destruct (len (y :: l) =? 0) eqn:El; [apply Z.eqb_eq in El; discriminate El|].
      destruct (Pop_Some nonce_Less (y :: l)) as (? & ? & ?); [done|congruence]. }
  destruct Hq as (HPq & Hcase & Hle). set (a' := mkAccount (aEnqueued a) q (aNextNonce a)).
  pose proof (promoted_sum_update _ _ a a' Ea) as Hsum. cbn [aPromoted a'] in Hsum.
  pose proof (put_account_holds P (tFrom tx) a' p Hp HPq) as Hput. unfold pool_work, AccountQueue.peek.
  fold (promoted_sum (pAccounts p)).
  destruct q as [|next q'] eqn:Eq; cbn [lookup list_lookup].
  - split; [by destruct Hput|]. cbn [gauge_decrease set_height put_account set_accounts pExecutables pAccounts] in *.
    fold (promoted_sum (<[tFrom tx := a']> (pAccounts p))). cbn in Hsum |- *. lia.
  - destruct Hcase as [|Hcase]; [done|].
    cbn [set_executables gauge_decrease set_height put_account set_accounts pExecutables pAccounts].
    fold (promoted_sum (<[tFrom tx := a']> (pAccounts p))). unfold PricedQueue.push. split.
    + split; [|apply Hput]. cbn [set_executables pExecutables]. rewrite Push_perm. apply Forall_cons_1 in HPq as [? _].
      apply Forall_cons_2; [done|]. apply Hp.
    + rewrite Push_perm. cbn [length] in *. lia.
Qed.

Lemma Drop_spec P tx p : pool_holds P p ->
  match Drop tx p with
  | Ok p' => pool_holds P p' /\ (pool_work p' <= pool_work p)%nat
  | Panic => True
  | OutOfFuel => False
  end.
Proof.
  intros Hp. unfold Drop. destruct (pAccounts p !! tFrom tx) as [a|] eqn:Ea; [|done]. cbn [AccountQueue.clear].
  set (a' := mkAccount [] [] (tNonce tx)). split.
  - apply put_account_holds; [by destruct Hp|]. apply Forall_nil_2.
  - pose proof (promoted_sum_update _ _ a a' Ea) as Hsum. unfold pool_work. cbn in Hsum |- *.
    fold (promoted_sum (pAccounts p)) (promoted_sum (<[tFrom tx := a']> (pAccounts p))). lia.
Qed.

End pool.

Lemma Prepare_holds P p : (forall k a, pAccounts p !! k = Some a -> Forall P (aPromoted a)) -> pool_holds P (Prepare p).
Proof.
  intros Hp. split; [|done]. unfold Prepare. cbn [set_executables pExecutables].
  assert (heap_ok price_Less []) as Hh by (intros ? ? ?; done).
  destruct (priced_pushes (getPrimaries p) [] Hh) as [_ Hperm]. rewrite Hperm, app_nil_r.
  apply list.Forall_forall. intros tx Htx. unfold getPrimaries, accounts_of in Htx.
  apply list_elem_of_omap in Htx as ([k a] & Hin & Hpk). apply elem_of_map_to_list in Hin.
  specialize (Hp _ _ Hin). rewrite list.Forall_forall in Hp. apply Hp. by eapply list_elem_of_lookup_2.
Qed.

(** ** The loop *)

Section loop.
Context `{FastRLP} `{Runtime} `{StateDB} `{!StateDBOk} `{Precompiles} `{!PrecompilesOk} `{Signer} `{!SignerOk}.
Context (acquireState : Contract -> VM.state) (acquire_ok : forall k, pooled_ok (acquireState k)).
Implicit Types (t : Transition) (x : Transaction).

Abbreviation bal t := (Tx.GetBalance (tState t)).

(** [n] transactions were written: nothing is minted, their gas is counted, and the
    pool of gas has lost it, and what refused ones took. *)
Record packed t (n : nat) t' : Prop := {
  pk_world : world t';
  pk_delta : delta 0 (bal t) (bal t');
  pk_pool : tGasPool t' + tTotalGas t' <= tGasPool t + tTotalGas t;
  pk_range : 0 <= tGasPool t' /\ tTotalGas t <= tTotalGas t';
  pk_rest : tConfig t' = tConfig t /\ tChainID t' = tChainID t;
  pk_receipts : exists rs, tReceipts t' = tReceipts t ++ rs /\ length rs = n /\
    cumulative (tTotalGas t) rs (tTotalGas t')
}.

Lemma cumulative_app g rs g' rs' g'' : cumulative g rs g' -> cumulative g' rs' g'' -> cumulative g (rs ++ rs') g''.
Proof.
  revert g. induction rs as [|r rs IH]; intros g; cbn; [by intros ->|]. intros (? & ? & ?) ?. auto.
Qed.

Lemma packed_refl t : world t -> gas_ok t -> packed t 0 t.
Proof.
  intros Hw (? & ? & ?). split; [done|apply delta_refl|lia|lia|done|]. exists []. by rewrite app_nil_r.
Qed.

Lemma packed_trans t n t1 m t2 : packed t n t1 -> packed t1 m t2 -> packed t (n + m) t2.
Proof.
  intros [Hw1 Hd1 Hp1 Hr1 [Ec1 Eh1] (rs1 & E1 & L1 & C1)] [Hw2 Hd2 Hp2 Hr2 [Ec2 Eh2] (rs2 & E2 & L2 & C2)].
  split; [done|exact (delta_trans 0 0 _ _ _ Hd1 Hd2)|lia|lia|split; congruence|].
  exists (rs1 ++ rs2). rewrite E2, E1, app_assoc, length_app. split_and!; [done|lia|by eapply cumulative_app].
Qed.

Lemma packed_gas t n t' : gas_ok t -> packed t n t' -> gas_ok t'.
Proof. intros (? & ? & ?) []. unfold gas_ok. lia. Qed.

Lemma written_packed t t' : written t t' -> packed t 1 t'.
Proof.
  intros [Hw Hd Hp Hr Hc (r & Er & Ecum & Eg)]. split; [done|done|lia|done|done|]. exists [r]. cbn.
  split_and!; [done|done|lia|lia|lia].
Qed.

Lemma rolled_back_packed t t' : gas_ok t -> rolled_back t t' -> packed t 0 t'.
Proof.
  intros (? & ? & ?) [_ Hp Hb Hw (Ec & Et & Er & Eh)]. split; [done|by apply delta_ext|lia|lia|done|].
  exists []. rewrite app_nil_r, Er, Et. done.
Qed.

Lemma Write_any_ok x t : world t -> msg_ok x -> gas_ok t -> pays_intrinsic x t -> Byzantium (tConfig t) = true ->
  match Write_any acquireState x t with
  | Ok (err, x', t') => packed t (match err with Some _ => 0 | None => 1 end) t' /\ exists from, x' = with_from from x
  | Panic => True
  | OutOfFuel => False
  end.
Proof.
  intros Hw Hm Hg Hpay Hbyz. unfold Write_any. pose proof (Write_ok acquireState acquire_ok x t Hw Hm Hg Hpay Hbyz) as Hok.
  destruct (sender_of x t) as [sender| |] eqn:Es; [|done|by destruct (sender_ends x t)]. cbn [obind].
  destruct (Write acquireState x t) as [[t'|e]| |] eqn:Ew; [| |done..]; cbn [obind].
  - split; [by apply written_packed|]. destruct sender; [by eexists|]. exists (tFrom x). by destruct x.
  - destruct sender as [from|]; [|split; [by apply packed_refl|exists (tFrom x); by destruct x]].
    assert (Hm' : msg_ok (with_from from x)) by (apply msg_ok_from; [done|by eapply sender_addr, Es; apply Hm]).
    pose proof (Apply_ok acquireState acquire_ok (with_from from x) t Hw Hm') as Ha. destruct (Hg) as (? & ? & ?).
    specialize (Ha ltac:(unfold is_u64; lia) (pays_from _ _ _ Hpay)).
    unfold Write in Ew. rewrite Es in Ew. cbn [obind] in Ew.
    destruct (Apply acquireState (with_from from x) t) as [[[r|e'] t']| |]; cbn [obind] in *; [|by split; [apply rolled_back_packed|eexists]|done..].
    exfalso. revert Ew. destruct (take_logs _) as [ls t2] eqn:El. case_match; [done|]. by destruct (Tx.Commit _ _) as [[? ?] ?].
Qed.

Lemma WriteFailedReceipt_any_ok x t : world t -> msg_ok x -> gas_ok t ->
  match WriteFailedReceipt_any x t with
  | Ok (ok, x', t') => packed t (if ok : bool then 1 else 0) t' /\ exists from, x' = with_from from x
  | Panic => True
  | OutOfFuel => False
  end.
Proof.
  intros Hw Hm Hg. unfold WriteFailedReceipt_any.
  destruct (sender_of x t) as [sender| |] eqn:Es; [|done|by destruct (sender_ends x t)]. cbn [obind].
  assert (exists from, match sender with Some from => with_from from x | None => x end = with_from from x) as Hx.
  { destruct sender; [by eexists|]. exists (tFrom x). by destruct x. }
  destruct (WriteFailedReceipt x t) as [[t'|e]| |] eqn:E; cbn [obind].
  - split; [|done]. apply written_packed. by eapply WriteFailedReceipt_ok.
  - split; [by apply packed_refl|done].
  - done.
  - revert E. unfold WriteFailedReceipt. rewrite Es. destruct sender; cbn [obind]; [by destruct (take_logs t)|done].
Qed.

(** What the transactions of the pool must be: well-formed, and if they are not
    over the limit of the block, with their intrinsic gas paid. *)
Definition fits_block (limit : Z) t x : Prop :=
  msg_ok x /\ (ExceedsBlockGasLimit x limit = false -> pays_intrinsic x t).

Lemma fits_config limit t t' x : tConfig t' = tConfig t -> fits_block limit t x -> fits_block limit t' x.
Proof. intros Ec [Hm Hp]. split; [done|]. intros E. exact (pays_config _ _ _ Ec (Hp E)). Qed.

Lemma holds_config limit t t' p : tConfig t' = tConfig t -> pool_holds (fits_block limit t) p -> pool_holds (fits_block limit t') p.
Proof.
  intros Ec [He Hp]. split; [by eapply Forall_impl; [|exact He]; intros; eapply fits_config|].
  intros k a Ha. eapply Forall_impl; [|exact (Hp k a Ha)]. intros. by eapply fits_config.
Qed.

(** The loop over the pool ends. *)
Lemma write_loop_ok fuel limit t p :
  world t -> gas_ok t -> Byzantium (tConfig t) = true -> pool_holds (fits_block limit t) p -> (pool_work p < fuel)%nat ->
  match write_loop acquireState fuel limit t p with
  | Ok (txs, t', _) => packed t (length txs) t'
  | Panic => True
  | OutOfFuel => False
  end.
Proof.
  revert t p. induction fuel as [|fuel IH]; intros t p Hw Hg Hb Hp Hf; [lia|]. cbn [write_loop].
  pose proof (Peek_spec _ p Hp) as Hpk. destruct (Peek p) as [[x|] p1]; [|by apply packed_refl].
  destruct Hpk as ([Hm Hpay] & Hp1 & Hwork).
  (* what the rest of the loop does after a step *)
  assert (Hrest : forall n t1 p2, packed t n t1 -> pool_holds (fits_block limit t) p2 -> (pool_work p2 <= pool_work p1)%nat ->
    match write_loop acquireState fuel limit t1 p2 with
    | Ok (txs, t', _) => packed t (n + length txs) t' | Panic => True | OutOfFuel => False end).
  { intros n t1 p2 Hpk Hp2 Hle. destruct (pk_rest _ _ _ Hpk) as [Ec _].
    specialize (IH t1 p2 (pk_world _ _ _ Hpk) (packed_gas _ _ _ Hg Hpk) ltac:(by rewrite Ec) (holds_config _ _ _ _ Ec Hp2) ltac:(lia)).
    destruct (write_loop acquireState fuel limit t1 p2) as [[[txs t'] p']| |]; [|done..]. by eapply packed_trans. }
  destruct (ExceedsBlockGasLimit x limit) eqn:Ex.
  - pose proof (WriteFailedReceipt_any_ok x t Hw Hm Hg) as Hs.
    destruct (WriteFailedReceipt_any x t) as [[[ok x'] t1]| |]; cbn [obind]; [|done..]. destruct Hs as [Hs _].
    pose proof (Drop_spec _ x' p1 Hp1) as Hd. destruct (Drop x' p1) as [p2| |]; cbn [obind]; [|done..]. destruct Hd as [Hp2 Hle].
    specialize (Hrest _ t1 p2 Hs Hp2 Hle).
    destruct (write_loop acquireState fuel limit t1 p2) as [[[txs t'] p']| |]; cbn [obind]; [|done..]. by destruct ok.
  - pose proof (Write_any_ok x t Hw Hm Hg (Hpay eq_refl) Hb) as Hs.
    destruct (Write_any acquireState x t) as [[[err x'] t1]| |]; cbn [obind]; [|done..]. destruct Hs as [Hs _].
    destruct err as [e|].
    + assert (Hdrop : match obind (Drop x' p1) (write_loop acquireState fuel limit t1) with
        | Ok (txs, t', _) => packed t (length txs) t' | Panic => True | OutOfFuel => False end).
      { pose proof (Drop_spec _ x' p1 Hp1) as Hd. destruct (Drop x' p1) as [p2| |]; cbn [obind]; [|done..].
        destruct Hd as [Hp2 Hle]. exact (Hrest _ t1 p2 Hs Hp2 Hle). }
      destruct e; done.
    + pose proof (Pop_spec _ x' p1 Hp1) as Hd. destruct (Pop x' p1) as [p2| |]; cbn [obind]; [|done..].
      destruct Hd as [Hp2 Hle]. specialize (Hrest _ t1 p2 Hs Hp2 Hle).
      by destruct (write_loop acquireState fuel limit t1 p2) as [[[txs t'] p']| |]; cbn [obind].
Qed.
End loop.

(** ** The reward *)

Section reward.
Context `{LevelDB} `{!LevelDBOk}.

Lemma paid_nonneg br z : paid br z -> 0 <= z.
Proof.
  induction 1 as [|br z t e settled v br' Hp IH Ht Hstep]; [done|]. apply paid_inv in Hp as (Hi & Hr & _).
  unfold reward_step in Hstep. destruct (GetReward t e br) as [b| |] eqn:Eg; [|discriminate Hstep..]. cbn [obind] in Hstep.
  destruct (GetReward_inv t e br b Ht Hi Hr Eg) as (_ & _ & Hpay & _). destruct settled; injection Hstep as <- <-; lia.
Qed.

Lemma supply_word : supply < 2 ^ 256.
Proof. vm_compute. reflexivity. Qed.

(** The reward that is fetched can be settled or not. *)
Lemma paid_GetReward br z t e b : paid br z -> is_u64 t -> GetReward t e br = Ok b ->
  paid b z /\ paid (settlementReward b) (z + reward_value b) /\ is_word (reward_value b).
Proof.
  intros Hp Ht Hg. assert (forall settled : bool, reward_step t e settled br =
    Ok (if settled then (reward_value b, settlementReward b) else (0, b))) as Hs.
  { intros settled. unfold reward_step. by rewrite Hg. }
  pose proof (paid_step _ _ _ _ false _ _ Hp Ht (Hs false)) as Hkept. rewrite Z.add_0_r in Hkept.
  pose proof (paid_step _ _ _ _ true _ _ Hp Ht (Hs true)) as Hpaid. split; [done|]. split; [done|].
  pose proof (paid_bounded _ _ Hpaid). pose proof (paid_nonneg _ _ Hp). pose proof supply_word.
  pose proof (paid_inv _ _ Hkept) as (_ & ? & _). unfold is_word. lia.
Qed.

Lemma GetReward_ends t e br : GetReward t e br <> OutOfFuel.
Proof.
  assert (forall b, calcEpochTotal t e b <> OutOfFuel) as Hc.
  { intros b. unfold calcEpochTotal. repeat (case_match; [done|]). by destruct (big_new _ _). }
  unfold GetReward. specialize (Hc br) as Hbr. set (m := if _ <? _ then _ else _).
  assert (m <> OutOfFuel) as Hm by (subst m; by case_match). destruct m as [b| |]; cbn [obind]; [|done..].
  case_match; [case_match|]; done || apply Hc.
Qed.
End reward.

Section fill.
Context `{FastRLP} `{Runtime} `{Secp256k1} `{Backend}.
Context `{StateDB} `{!StateDBOk} `{Precompiles} `{!PrecompilesOk} `{Signer} `{!SignerOk} `{LevelDB} `{!LevelDBOk}.
Context `{KV} `{LRU} `{Verifier} `{BlockExecutor}.
Context (acquireState : Contract -> VM.state) (blockTime rewardChainID : Z).
Implicit Types (t : Transition) (n : Producer) (i : Ibft).

Lemma rewardTx_ok prv miner nonce amount x t : is_addr miner -> is_word amount ->
  rewardTx rewardChainID prv miner RewardPool nonce amount = Some x ->
  msg_ok (ComputeHash x) /\ pays_intrinsic (ComputeHash x) t /\ tValue x = amount.
Proof.
  intros Hm Ha. unfold rewardTx, EIP155_SignTx. destruct (Sign _ _); [|done]. cbn [mbind option_bind].
  intros [= <-]. split; [|split; [right; left; by eexists|done]]. split; cbn.
  - unfold is_u64. lia.
  - done.
  - done.
  - split; [repeat constructor; unfold is_byte; lia|vm_compute; reflexivity].
  - done.
  - intros a [= <-]. vm_compute. split; [discriminate|reflexivity].
Qed.

Lemma set_lock_packed l t m t' : packed t m t' -> packed t m (set_lock l t').
Proof. intros [[] ? ? ? ? ?]. by split. Qed.

Lemma witeFixedReward_ok i t n z :
  (forall k, pooled_ok (acquireState k)) -> world t -> gas_ok t -> Byzantium (tConfig t) = true ->
  is_addr (iKeyAddr i) -> paid (nReward n) z ->
  match witeFixedReward acquireState blockTime rewardChainID i t n with
  | Ok (x, t', n') => packed t (length (option_list x)) t' /\ paid (nReward n') (z + from_option tValue 0 x)
  | Panic => True
  | OutOfFuel => False
  end.
Proof.
  intros Hacq Hw Hg Hb Hk Hp. unfold witeFixedReward.
  destruct (bCurrentHeader (nChain n)) as [header|]; [|done]. cbn [of_option obind].
  assert (forall b, GetEpoch b i <> OutOfFuel) as He by (intros; unfold GetEpoch; by repeat case_match).
  destruct (GetEpoch _ i) as [epoch| |] eqn:Ee; [|done|by destruct (He _ Ee)]. cbn [obind]. clear Ee He.
  destruct (GetReward _ epoch (nReward n)) as [br| |] eqn:Eg; [|done|by destruct (GetReward_ends _ _ _ Eg)]. cbn [obind].
  destruct (paid_GetReward _ _ _ _ _ Hp (uint64_range _) Eg) as (Hkept & Hpaid & Hword).
  destruct (BeginTxn _ _ _ _) as [tx|e]; [|rewrite Z.add_0_r; split; [by apply packed_refl|done]].
  destruct (rewardTx _ _ _ _ _ _) as [x|] eqn:Ex; [|rewrite Z.add_0_r; split; [by apply packed_refl|done]].
  destruct (rewardTx_ok _ _ _ _ _ t Hk Hword Ex) as (Hm & Hpay & Hv).
  pose proof (Write_any_ok acquireState Hacq (ComputeHash x) t Hw Hm Hg Hpay Hb) as Hs.
  destruct (Write_any acquireState (ComputeHash x) t) as [[[err x'] t1]| |]; cbn [obind]; [|done..].
  destruct Hs as [Hs [from ->]]. destruct err as [e|]; cbn [nReward option_list length from_option].
  - by rewrite Z.add_0_r.
  - split; [by apply set_lock_packed|]. change (tValue (with_from from (ComputeHash x))) with (tValue x). by rewrite Hv.
Qed.

(** C6: A proposer that fills a block from its pool ends the loop, whatever the
    transactions are; nothing is minted, the gas of the transactions that were
    written is counted and within what the block had, and each has a receipt with
    its gas and the running total.  All rewards that a node has paid since it
    started on an empty database, with the one of this block, are within the
    supply. *)
Theorem block_filling_accounts gasLimit i t n z :
  (forall k, pooled_ok (acquireState k)) -> world t -> gas_ok t -> Byzantium (tConfig t) = true ->
  is_addr (iKeyAddr i) -> paid (nReward n) z ->
  (forall k a, pAccounts (nPool n) !! k = Some a -> Forall (fits_block gasLimit t) (aPromoted a)) ->
  match writeTransactions acquireState blockTime rewardChainID gasLimit i t n with
  | Ok (txs, t', n') => packed t (length txs) t' /\
      exists pooled x, txs = pooled ++ option_list x /\ paid (nReward n') (z + from_option tValue 0 x) /\
        0 <= z + from_option tValue 0 x <= supply
  | Panic => True
  | OutOfFuel => False
  end.
Proof.
  intros Hacq Hw Hg Hb Hk Hp Hpool. unfold writeTransactions. apply Prepare_holds in Hpool.
  pose proof (write_loop_ok acquireState Hacq _ gasLimit t _ Hw Hg Hb Hpool (Nat.lt_succ_diag_r _)) as Hl.
  destruct (write_loop _ _ _ _ _) as [[[txs t1] p]| |]; cbn [obind]; [|done..]. destruct (pk_rest _ _ _ Hl) as [Ec _].
  pose proof (witeFixedReward_ok i t1 (mkProducer (nChain n) (nExecutor n) p (nReward n)) z Hacq (pk_world _ _ _ Hl)
    (packed_gas _ _ _ Hg Hl) ltac:(by rewrite Ec) Hk Hp) as Hr.
  destruct (witeFixedReward _ _ _ _ _ _) as [[[x t2] n2]| |]; cbn [obind]; [|done..]. destruct Hr as [Hr Hpaid].
  rewrite length_app. split; [by eapply packed_trans|]. exists txs, x. split; [done|]. split; [done|].
  split; [by eapply paid_nonneg|by eapply paid_bounded].
Qed.

End fill.

(** ** The header *)

Section build.
Context `{FastRLP} `{Runtime} `{Secp256k1} `{Curve} `{Protobuf} `{Backend}.
Context `{StateDB} `{Precompiles} `{Signer} `{LevelDB} `{KV} `{LRU} `{Roots} `{Verifier} `{BlockExecutor}.
Context (key_D : PrivateKey -> Z) (vrf_fuel : nat) (acquireState : Contract -> VM.state) (blockTime rewardChainID : Z).
Implicit Types (n : Producer) (i : Ibft).

(** The seal of a key is its signature, unless the signature has one of the two
    recovery codes that [Sign] does not keep. *)
Definition plain_signature (k : PrivateKey) (h : list Z) : Prop :=
  forall sig, SignCompact k h = Some sig -> sig !! 0%nat = Some 27 \/ sig !! 0%nat = Some 28.

Lemma Sign_recover `{!Secp256k1Ok} k h seal : plain_signature k h -> Sign k h = Some seal ->
  RecoverPubkey seal h = Ok (Some (public_of k)).
Proof.
  intros Hv. unfold Sign. destruct (SignCompact k h) as [sig|] eqn:Es; [|done]. cbn [mbind option_bind]. specialize (Hv sig Es).
  destruct (sign_shape k h sig Es) as (v & r & s & E & Hvr & _).
  remember (be_encode 32 r ++ be_encode 32 s) as X eqn:EX. clear EX. subst sig.
  cbn [lookup list_lookup from_option id app tail] in *. intros [= <-]. rewrite RecoverPubkey_app.
  rewrite <- (recover_sign k h _ Es). repeat f_equal. destruct Hv as [[= ->]|[= ->]]; done.
Qed.

Lemma Sign_bytes `{!Secp256k1Ok} k h seal : Sign k h = Some seal -> Forall is_byte seal.
Proof.
  unfold Sign. destruct (SignCompact k h) as [sig|] eqn:Es; [|done]. cbn [mbind option_bind].
  destruct (sign_shape k h sig Es) as (v & r & s & E & Hvr & _).
  assert (Forall is_byte (be_encode 32 r ++ be_encode 32 s)) as Hb by (apply Forall_app_2; apply be_encode_bytes).
  remember (be_encode 32 r ++ be_encode 32 s) as X eqn:EX. clear EX. subst sig.
  cbn [lookup list_lookup from_option id app tail]. intros [= <-].
  apply Forall_app_2; [done|]. apply Forall_cons_2; [|apply Forall_nil_2]. unfold is_byte. case_match; lia.
Qed.

Lemma left_padded_bytes x l : left_padded x = Ok l -> Forall is_byte l.
Proof.
  unfold left_padded. case_match; [done|]. intros [= <-]. apply Forall_app_2; [|apply big_Bytes_bytes].
  apply Forall_replicate. unfold is_byte. lia.
Qed.

Lemma Vrf_bytes k r m value proof : Vrf key_D vrf_fuel k r m = Ok (value, proof) -> Forall is_byte value /\ Forall is_byte proof.
Proof.
  unfold Vrf. destruct (Evaluate _ _ _ _ _) as [b| |] eqn:Ee; cbn [obind]; [|done..]. intros [= <- <-].
  assert (Forall is_byte b); [|split; [by apply Forall_take, Forall_drop|by apply Forall_take]].
  unfold Evaluate in Ee. destruct (hashToCurve _); [|done]. cbn [of_option obind] in Ee.
  destruct (hashToInt _ _); [|done..]. cbn [obind] in Ee.
  destruct (left_padded _) as [l1| |] eqn:E1; [|done..]. cbn [obind] in Ee.
  destruct (left_padded (_ mod _)) as [l2| |] eqn:E2; [|done..]. injection Ee as <-.
  repeat apply Forall_app_2; [by eapply left_padded_bytes..|]. unfold MarshalPublicKey.
  apply Forall_cons_2; [unfold is_byte; lia|]. apply Forall_app_2; apply be_encode_bytes.
Qed.

(** A header before its seal: what [buildBlock] fills in, and the extra data. *)
Definition unsealed (snap : Snapshot) (parent : Header) i (b : Block) (h : Header) : Prop :=
  getIbftExtra h = getIbftExtra (putIbftExtraValidators h (sSet snap)) /\
  hMixHash h = IstanbulDigest /\ hSha3Uncles h = EmptyUncleHash /\ hDifficulty h = hNumber h /\
  hNumber h = uint64 (hNumber parent + 1) /\ hParentHash h = hHash parent /\ hMiner h = iKeyAddr i /\
  hTxRoot h = (if len (bkTransactions b) =? 0 then EmptyRootHash else CalculateTransactionsRoot (bkTransactions b)).

Lemma buildBlock_inv now now' r snap parent i n n' b :
  buildBlock key_D vrf_fuel acquireState blockTime rewardChainID now now' r snap parent i n = Ok (Some b, n') ->
  exists h header gasLimit chain, unsealed snap parent i b h /\ bkUncles b = [] /\
    CalculateGasLimit istanbulHeaderHash (uint64 (hNumber parent + 1)) (nChain n) = Ok (Some gasLimit, chain) /\
    hGasLimit h = gasLimit /\
    writeSeal key_D vrf_fuel (iKey i) h (GetInfo (uint64 (hNumber parent + 1)) i) r = Ok (Some header) /\
    bkHeader b = Header_ComputeHash istanbulHeaderHash header /\
    (exists last, IsLastOfEpoch (uint64 (hNumber parent + 1)) i = Ok last /\ (last = true -> bkTransactions b = [])).
Proof.
  unfold buildBlock. destruct (CalculateGasLimit _ _ _) as [[[gasLimit|] chain]| |] eqn:Eg; cbn [obind]; [|done..].
  set (h0 := putIbftExtraValidators _ _). destruct (BeginTxn _ h0 _ _) as [t|e]; [|done].
  unfold ShouldWriteTransactions. destruct (IsLastOfEpoch _ i) as [last| |] eqn:El; cbn [obind]; [|done..].
  destruct (if negb last then _ else _) as [[[txns t1] n1]| |] eqn:Ew; cbn [obind]; [|done..].
  destruct (Transition_Commit t1) as [[s2 root] t2]. set (block := BuildBlock _ _ _ _).
  destruct (writeSeal _ _ _ _ _ _) as [[header|]| |] eqn:Es; cbn [obind]; [|done..]. intros [= <- _].
  exists (bkHeader block), header, gasLimit, chain. split; [|split_and!; try done].
  - unfold unsealed. cbn. split_and!; try done.
  - exists last. split; [done|]. cbn. intros ->. cbn in Ew. by injection Ew.
Qed.

(** What [writeSeal] puts into a header. *)
Lemma writeSeal_inv `{!FastRLPOk} `{!Secp256k1Ok} `{!CurveOk key_D} k h vals vrfData r header :
  getIbftExtra h = Some (mkExtra vals [] [] [] []) -> Forall is_addr vals -> Forall is_byte r ->
  writeSeal key_D vrf_fuel k h vrfData r = Ok (Some header) -> len (hExtraData header) < 2 ^ 63 ->
  exists msg seal value proof, let extra := mkExtra vals seal [] value proof in
    header = PutIbftExtra h extra /\ extra_wf extra /\ Sign k (Keccak256 msg) = Some seal /\
    calculateHeaderHash header = Some msg /\ Verify vrf_fuel (public_of k) vrfData value proof = Ok true.
Proof.
  intros He Hvals Hr Hs Hsize. unfold writeSeal, signSealImpl in Hs.
  destruct (calculateHeaderHash h) as [msg|] eqn:Emsg; [|done].
  cbn [mbind option_bind] in Hs. destruct (Sign k (Keccak256 msg)) as [seal|] eqn:Eseal; [|done].
  rewrite He in Hs. destruct (Vrf _ _ _ _ _) as [[value proof]| |] eqn:Ev; [|done..]. cbn [obind] in Hs.
  injection Hs as <-. cbn [set_eSeal SetVrfInfo eValidators eSeal eCommittedSeal eVrfValue eVrfProof] in *.
  destruct (Vrf_bytes _ _ _ _ _ Ev) as [Hvalue Hproof].
  assert (Hwf : extra_wf (mkExtra vals seal [] value proof)).
  { split; [done|by eapply Sign_bytes|apply Forall_nil_2|done|done|].
    change (len (vanity (hExtraData h) ++ Extra_MarshalRLPTo (mkExtra vals seal [] value proof)) < 2 ^ 63) in Hsize.
    unfold len in *. rewrite length_app in Hsize. lia. }
  exists msg, seal, value, proof. split; [done|]. split; [done|]. split; [done|]. split.
  - rewrite <- Emsg. by eapply header_hash_seal.
  - exact (vrf_complete key_D vrf_fuel k r vrfData value proof Hr Ev).
Qed.

(** C15: A block that a validator builds, on a parent whose header its chain has,
    with its own key and the seed of the parent, passes the check that every other
    validator makes of a proposal under the same snapshot: the extra data are read
    back, the seal is of a validator and the random value is the signer's.  It
    names its parent, its gas limit is close enough to the parent's, its
    transactions root is of its transactions, and it has none at the end of an
    epoch. *)
Theorem built_block_verifies `{!FastRLPOk} `{!Secp256k1Ok} `{!CurveOk key_D} now now' r snap parent i n n' b chain chain' prv :
  buildBlock key_D vrf_fuel acquireState blockTime rewardChainID now now' r snap parent i n = Ok (Some b, n') ->
  iKeyAddr i = PubKeyToAddress (public_of (iKey i)) -> Snap.Includes (iKeyAddr i) snap = true ->
  extra_wf (mkExtra (sSet snap) [] [] [] []) -> len (hExtraData (bkHeader b)) < 2 ^ 63 -> Forall is_byte r ->
  (forall msg, calculateHeaderHash (bkHeader b) = Some msg -> plain_signature (iKey i) (Keccak256 msg)) ->
  is_u64 (hNumber parent) ->
  bc_GetHeaderByNumber (hNumber parent) chain = Some prv ->
  GetInfo (uint64 (hNumber parent + 1)) i = SignVRF (uint64 (hNumber parent + 1)) (CalcVrfSeed prv) ->
  GetHeaderByNumber istanbulHeaderHash (hNumber parent) (nChain n) = Ok (Some parent, chain') ->
  is_u64 (bBlockGasTarget chain') -> is_u64 (hGasLimit parent) -> hGasLimit parent + hGasLimit parent / 1024 < 2 ^ 64 ->
  verifyHeaderImpl vrf_fuel chain (Some snap) (bkHeader b) = Ok true /\
  verifyBlockHook b i = Ok true /\
  hParentHash (bkHeader b) = hHash parent /\ hNumber (bkHeader b) = uint64 (hNumber parent + 1) /\
  gas_limit_close (hGasLimit parent) (hGasLimit (bkHeader b)) = true /\
  hTxRoot (bkHeader b) =
    (if len (bkTransactions b) =? 0 then EmptyRootHash else CalculateTransactionsRoot (bkTransactions b)) /\
  hHash (bkHeader b) = istanbulHeaderHash (bkHeader b).
Proof.
  intros Hb Haddr Hin Hwf Hsize Hr Hplain Hnum Hprv Hinfo Hparent Htarget Hlim Hover.
  assert (Hback : uint64 (uint64 (hNumber parent + 1) - 1) = hNumber parent).
  { unfold uint64, is_u64 in *. rewrite Zminus_mod_idemp_l. rewrite Z.add_simpl_r. apply Z.mod_small. lia. }
  destruct (buildBlock_inv _ _ _ _ _ _ _ _ _ Hb) as (h & header & gasLimit & c & Hu & _ & Hg & Egl & Hs & Eh & last & Elast & Hlast).
  destruct Hu as (He & Hmix & Hunc & Hdiff & Hn & Hpar & _ & Htx).
  assert (He' : getIbftExtra h = Some (mkExtra (sSet snap) [] [] [] [])).
  { rewrite He. exact (getIbftExtra_Put h (mkExtra (sSet snap) [] [] [] []) Hwf). }
  assert (Hsize' : len (hExtraData header) < 2 ^ 63) by (by rewrite Eh in Hsize).
  destruct (writeSeal_inv _ _ _ _ _ _ He' (wf_validators _ Hwf) Hr Hs Hsize') as (msg & seal & value & proof & Eput & Hwf' & Hsig & Emsg & Hver).
  assert (Hmsg : calculateHeaderHash (bkHeader b) = Some msg) by (by rewrite Eh).
  assert (Hext : getIbftExtra (bkHeader b) = Some (mkExtra (sSet snap) seal [] value proof)).
  { rewrite Eh, Eput. exact (getIbftExtra_Put h _ Hwf'). }
  assert (Hf : forall A (f : Header -> A), (forall hd, f (Header_ComputeHash istanbulHeaderHash hd) = f hd) ->
    (forall hd e, f (PutIbftExtra hd e) = f hd) -> f (bkHeader b) = f h).
  { intros A f H1' H2'. by rewrite Eh, H1', Eput, H2'. }
  rewrite (Hf _ hParentHash), (Hf _ hNumber), (Hf _ hGasLimit), (Hf _ hTxRoot) by done.
  split; [|split_and!; [|done|done| |done|by rewrite Eh]].
  - unfold verifyHeaderImpl. rewrite Hext, (Hf _ hMixHash), (Hf _ hSha3Uncles), (Hf _ hDifficulty), (Hf _ hNumber) by done.
    rewrite Hmix, Hunc, Hdiff, !Z.eqb_refl. cbn [negb]. unfold verifySigner, ecrecoverFromHeader. rewrite Hext, Hmsg.
    unfold ecrecoverImpl. cbn [eSeal]. rewrite (Sign_recover _ _ _ (Hplain _ Hmsg) Hsig). cbn [obind of_option].
    rewrite <- Haddr, Hin. cbn [negb obind]. rewrite Hn, Hback, Hprv. cbn [eVrfValue eVrfProof]. by rewrite <- Hinfo.
  - unfold verifyBlockHook. rewrite (Hf _ hNumber), Hn, Elast by done. cbn [obind]. destruct last; [|done]. by rewrite Hlast.
  - rewrite Egl. unfold CalculateGasLimit in Hg. unfold cbind in Hg. rewrite Hback, Hparent in Hg. cbn in Hg.
    injection Hg as <- _. by apply calculateGasLimit_close.
Qed.
End build.

(** C37: A node that restarts when the stored remaining allotment is 0 and a reward
    is stored pays this reward for every block that follows, without bound: the
    remaining amount becomes negative, and its absolute value is stored. *)
Theorem restart_overpays `{LevelDB} `{!LevelDBOk} m R t e db :
  0 < R -> stored_number rewardKey db = R -> stored_number remainingKey db = 0 ->
  exists br', pay_all m t e (newBlockReward db) = Ok (Z.of_nat m * R, br').
Proof. apply restart_pays. Qed.

(** ** Fees *)

(** What the decimals do on numbers that are whole: a quotient that is whole is
    exact. *)
Class DecimalOk `{Decimal} := {
  dec_is : dec -> Z -> Prop;
  dec_of_is z : dec_is (dec_of z) z;
  dec_Mul_is a b x y : dec_is a x -> dec_is b y -> dec_is (dec_Mul a b) (x * y);
  dec_Div_is a b x y q : dec_is a x -> dec_is b y -> y <> 0 -> x = q * y -> exists c, dec_Div a b = Ok c /\ dec_is c q;
  dec_BigInt_is a x : dec_is a x -> dec_BigInt a = x
}.

Section fees.
Context `{Decimal} `{!DecimalOk}.

Lemma stake_rates_full stakes s : s <> 0 -> Forall (fun e => e.2 = s) stakes ->
  exists rates, stake_rates stakes (dec_of s) = Ok rates /\ length rates = length stakes /\
    Forall (fun e => dec_is e.2 100) rates.
Proof.
  intros Hs. induction stakes as [|[a x] stakes IH]; intros Hall; [by exists []|].
  apply Forall_cons_1 in Hall as [Hx Hall]. cbn in Hx. subst x. destruct (IH Hall) as (rates & E & Hl & Hr). cbn [stake_rates].
  destruct (dec_Div_is (dec_Mul (dec_of s) (dec_of 100)) (dec_of s) (s * 100) s 100) as (c & -> & Hc);
    [apply dec_Mul_is; apply dec_of_is|apply dec_of_is|done|lia|]. cbn [obind]. rewrite E. cbn [obind].
  exists ((a, c) :: rates). cbn. split; [done|]. split; [lia|]. by apply Forall_cons_2.
Qed.

Lemma set_fee_rewards_full rates total vf : Forall (fun e => dec_is e.2 100) rates ->
  exists vf', set_fee_rewards rates (dec_of total) vf = Ok vf' /\
    taximeter vf' = taximeter vf + Z.of_nat (length rates) * total.
Proof.
  revert vf. induction rates as [|[a r] rates IH]; intros vf Hall; [exists vf; cbn; split; [done|lia]|].
  apply Forall_cons_1 in Hall as [Hr Hall]. cbn [set_fee_rewards].
  destruct (dec_Div_is (dec_Mul (dec_of total) r) (dec_of 100) (total * 100) 100 total) as (c & -> & Hc);
    [by apply dec_Mul_is; [apply dec_of_is|]|apply dec_of_is|done|done|]. cbn [obind]. rewrite (dec_BigInt_is c total Hc).
  destruct (IH (SetValidatorFee a total vf) Hall) as (vf' & -> & Ht). exists vf'. split; [done|].
  rewrite Ht. cbn [SetValidatorFee taximeter length]. lia.
Qed.

(** C38: The stakes of validators that left stay in the list while the total is of
    the current ones: when one of two validators with equal stakes has left, the
    next distribution credits twice the fees that are there. *)
Theorem stale_stake_doubles_fees a b s total vf :
  a <> b -> 0 < s ->
  let first := SetStakeTotal (s + s) (AppendStakeList b s (AppendStakeList a s NewValidatorSet)) in
  let second := SetStakeTotal s (AppendStakeList a s first) in
  exists vf', DistributeRewardsByRate total second vf = Ok vf' /\ taximeter vf' = taximeter vf + 2 * total.
Proof.
  intros Hab Hs first second. unfold DistributeRewardsByRate.
  assert (vsStakeList second = <[a := s]> (<[b := s]> (<[a := s]> ∅))) as -> by done.
  change (vsStakeTotal second) with s. set (m := <[a := s]> _).
  assert (Forall (fun e => e.2 = s) (map_to_list m)) as Hall.
  { apply list.Forall_forall. intros [k x] Hin. apply elem_of_map_to_list in Hin. subst m.
    rewrite !lookup_insert_Some, lookup_empty in Hin. cbn. intuition congruence. }
  assert (length (map_to_list m) = 2%nat) as Hlen.
  { rewrite length_map_to_list. subst m. rewrite insert_insert_ne, insert_insert_eq, !map_size_insert_None by
      (done || by rewrite ?lookup_insert_ne, ?lookup_empty). by rewrite map_size_empty. }
  destruct (stake_rates_full _ s ltac:(lia) Hall) as (rates & -> & Hl & Hr). cbn [obind].
  destruct (set_fee_rewards_full rates total vf Hr) as (vf' & E & Ht). exists vf'. split; [done|]. rewrite Ht. lia.
Qed.
End fees.

(** ** Instances *)

(** The database in memory. *)
#[export] Instance memory_ldb : LevelDB := {|
  ldb := gmap (list Z) (list Z);
  ldb_Get s k := match s !! k with Some d => Data d | None => ErrNotFound end;
  ldb_Put k d s := <[k := d]> s;
  ldb_Write b s := foldl (fun m '(k, d) => <[k := d]> m) s b
|}.

#[export] Instance memory_ldb_ok : LevelDBOk.
Proof. by refine {| ldb_map := fun s : @ldb memory_ldb => s |}. Defined.

(** What is stored when the last of an allotment was paid. *)
Definition spent_db : @ldb memory_ldb := <[rewardKey := big_Bytes (10 * WEI)]> (<[remainingKey := []]> ∅).

Lemma restart_overpays_witness :
  (exists br', pay_all (Z.to_nat 100000000) 2000000000 1 (newBlockReward spent_db) =
    Ok (Z.of_nat (Z.to_nat 100000000) * (10 * WEI), br')) /\
  supply < Z.of_nat (Z.to_nat 100000000) * (10 * WEI).
Proof.
  split; [|rewrite Z2Nat.id by lia; vm_compute; reflexivity].
  exact (restart_overpays (Z.to_nat 100000000) (10 * WEI) 2000000000 1 spent_db
    ltac:(vm_compute; reflexivity) ltac:(vm_compute; reflexivity) ltac:(vm_compute; reflexivity)).
Defined.

(** *** A block with a transaction and a reward *)

Definition fresh_executor : Executor :=
  mkExecutor AllForksEnabled 99 tt (fun _ _ => 0) (mkValidatorFee 0 ∅) (mkRewardLock ∅ ∅).

(** The pool of rewards has 10^27. *)
Definition reward_transition : Transition :=
  mkTransition all_forks (Tx.AddBalance RewardPool (10 ^ 27) (Tx.newTxn tt tt)) (fun _ => 0)
    mock_context 1000000 [] 0 99 (mkValidatorFee 0 ∅) (mkRewardLock ∅ ∅).

Lemma reward_world : world reward_transition.
Proof.
  assert (forall a, Tx.GetBalance (tState reward_transition) a = if decide (RewardPool = a) then 10 ^ 27 else 0) as Hbal.
  { intros a. cbn [tState reward_transition]. by rewrite bal_AddBalance by done. }
  split; [|..].
  - apply (bounded_at RewardPool); [intros b Hb|]; rewrite Hbal; [by rewrite decide_False by done|by vm_compute].
  - apply tx_ok_AddBalance. split; [|done|done]. intros a o Hg. by vm_compute in Hg.
  - split; unfold is_word, is_addr; cbn; lia.
  - intros n. unfold is_word; cbn; lia.
  - done.
Qed.

(** A transaction at the price 0. *)
Definition free_tx : Transaction := mkTransaction 0 0 30000 (Some payee) 0 [] None None None 0 rich.
Definition one_pool : TxPool := mkTxPool {[ rich := mkAccount [] [free_tx] 1 ]} 1 [] ∅ 1 100 0 true false.
Definition solo_ibft (chain : Blockchain) : Ibft := nIbft (new_node true (1 : @PrivateKey toy_keys) 100 chain).
Definition producer (p : TxPool) (chain : Blockchain) : Producer :=
  mkProducer chain fresh_executor p (newBlockReward (∅ : @ldb memory_ldb)).

Definition filled : outcome (list Transaction * Transition * Producer) :=
  writeTransactions pooled 2000000000 99 1000000 (solo_ibft empty_chain) reward_transition
    (producer one_pool (setCurrentHeader chain_genesis 0 empty_chain)).

Lemma solo_addr chain : is_addr (iKeyAddr (solo_ibft chain)).
Proof. apply BytesToAddress_addr, Forall_drop, Keccak256_bytes. Qed.

Lemma one_pool_fits k a : pAccounts one_pool !! k = Some a -> Forall (fits_block 1000000 reward_transition) (aPromoted a).
Proof.
  cbn [pAccounts one_pool]. rewrite lookup_singleton_Some. intros [_ <-]. apply Forall_cons_2; [|apply Forall_nil_2].
  split; [|intros _; by left]. split; try done. by intros a [= <-].
Qed.

(** The transaction and a reward of 10. *)
Definition two_written (r : outcome (list Transaction * Transition * Producer)) : bool :=
  match r with
  | Ok (txs, t, n) => (length txs =? 2)%nat && (tTotalGas t =? 42000) &&
      (getRemaining (nReward n) =? (330000000 - 10) * WEI)
  | _ => false
  end.

Lemma filled_two : two_written filled = true.
Proof. vm_compute. reflexivity. Qed.

Lemma filled_gas : gas_ok reward_transition.
Proof. unfold gas_ok. cbn. lia. Qed.

Lemma fresh_paid p chain : paid (nReward (producer p chain)) 0.
Proof. exact (paid_start (∅ : @ldb memory_ldb) eq_refl). Qed.

Lemma block_filling_accounts_witness :
  two_written filled = true /\
  match filled with
  | Ok (txs, t', n') => packed reward_transition (length txs) t' /\
      exists pooled x, txs = pooled ++ option_list x /\ paid (nReward n') (0 + from_option tValue 0 x) /\
        0 <= 0 + from_option tValue 0 x <= supply
  | Panic => True
  | OutOfFuel => False
  end.
Proof.
  split; [exact filled_two|].
  apply block_filling_accounts; [exact pooled_pooled_ok|exact reward_world|exact filled_gas|exact eq_refl|
    exact (solo_addr _)|exact (fresh_paid _ _)|exact one_pool_fits].
Defined.

(** *** A block on the genesis of one validator *)

Definition read_some (r : outcome (option Header * Blockchain)) : bool := match r with Ok (Some _, _) => true | _ => false end.
Definition header_of (r : outcome (option Header * Blockchain)) : Header := match r with Ok (Some h, _) => h | _ => zero_header end.
Lemma read_spec r : read_some r = true -> r = Ok (Some (header_of r), chain_of r).
Proof. by destruct r as [[[h|] c]| |]. Qed.

Notation genesis_read := (GetHeaderByNumber istanbulHeaderHash 0 genesis_chain).
Notation read_genesis := (header_of genesis_read).
Definition genesis_seed : list Z := SignVRF 1 (CalcVrfSeed read_genesis).
Definition first_ibft : Ibft := SetInfo 1 genesis_seed (solo_ibft genesis_chain).
Definition solo_snapshot : Snapshot := mkSnapshot 0 [] [] solo.
Definition no_pool : TxPool := mkTxPool ∅ 0 [] ∅ 0 100 0 true false.

Notation built_first :=
  (buildBlock toy_D toy_fuel pooled 2000000000 99 (mkTime unixToInternal 0) (mkTime unixToInternal 0) [5]
    solo_snapshot read_genesis first_ibft (producer no_pool genesis_chain)).

Definition first_check (r : outcome (option Block * Producer)) : bool :=
  match r with Ok (Some b, _) => len (hExtraData (bkHeader b)) <? 2 ^ 63 | _ => false end.

Lemma first_check_spec r : first_check r = true ->
  exists b n', r = Ok (Some b, n') /\ len (hExtraData (bkHeader b)) < 2 ^ 63.
Proof. destruct r as [[[b|] n']| |]; [|done..]. intros Hc%Z.ltb_lt. by exists b, n'. Qed.

Lemma first_checked : first_check built_first = true.
Proof. vm_compute. reflexivity. Qed.

Lemma genesis_height : hNumber read_genesis = 0.
Proof. vm_compute. reflexivity. Qed.

Lemma toy_plain (k : @PrivateKey toy_keys) h : plain_signature k h.
Proof. intros sig. cbn [SignCompact toy_keys]. case_match; [|done]. intros [= <-]. by left. Qed.

Lemma solo_extra_wf : extra_wf (mkExtra (sSet solo_snapshot) [] [] [] []).
Proof.
  split; [|apply Forall_nil_2|apply Forall_nil_2|apply Forall_nil_2|apply Forall_nil_2|vm_compute; reflexivity].
  apply Forall_cons_2; [|apply Forall_nil_2]. apply BytesToAddress_addr, Forall_drop, Keccak256_bytes.
Qed.

Lemma first_info : GetInfo (uint64 (hNumber read_genesis + 1)) first_ibft =
  SignVRF (uint64 (hNumber read_genesis + 1)) (CalcVrfSeed read_genesis).
Proof. rewrite genesis_height. reflexivity. Qed.

Lemma genesis_u64 : is_u64 (hNumber read_genesis).
Proof. vm_compute. split; [discriminate|reflexivity]. Qed.

Lemma genesis_found : bc_GetHeaderByNumber (hNumber read_genesis) genesis_chain = Some read_genesis.
Proof. vm_compute. reflexivity. Qed.

Lemma genesis_readable : read_some genesis_read = true.
Proof. vm_compute. reflexivity. Qed.

Lemma nChain_producer p chain : nChain (producer p chain) = chain.
Proof. reflexivity. Qed.

Lemma genesis_is_read :
  GetHeaderByNumber istanbulHeaderHash (hNumber read_genesis) (nChain (producer no_pool genesis_chain)) =
  Ok (Some read_genesis, chain_of genesis_read).
Proof. rewrite nChain_producer, genesis_height. exact (read_spec _ genesis_readable). Qed.

Lemma first_key : iKeyAddr first_ibft = PubKeyToAddress (public_of (iKey first_ibft)).
Proof. cbn [first_ibft SetInfo solo_ibft new_node nIbft iKeyAddr iKey]. reflexivity. Qed.

Lemma genesis_gas : is_u64 (bBlockGasTarget (chain_of genesis_read)) /\ is_u64 (hGasLimit read_genesis) /\
  hGasLimit read_genesis + hGasLimit read_genesis / 1024 < 2 ^ 64.
Proof. vm_compute. repeat split; discriminate. Qed.

Lemma five_bytes : Forall is_byte [5].
Proof. apply bytes_b_spec. reflexivity. Qed.

Lemma solo_included : Snap.Includes (iKeyAddr first_ibft) solo_snapshot = true.
Proof. vm_compute. reflexivity. Qed.

Lemma built_block_verifies_witness :
  exists b n', built_first = Ok (Some b, n') /\
    verifyHeaderImpl toy_fuel genesis_chain (Some solo_snapshot) (bkHeader b) = Ok true.
Proof.
  destruct (first_check_spec _ first_checked) as (b & n' & E & Hs). exists b, n'. split; [exact E|].
  destruct genesis_gas as (Ht & Hl & Ho).
  exact (proj1 (built_block_verifies _ _ _ _ _ _ _ _ _ _ _ _ _ _ genesis_chain (chain_of genesis_read) read_genesis E
    first_key solo_included solo_extra_wf Hs five_bytes (fun msg _ => toy_plain _ _) genesis_u64 genesis_found first_info
    genesis_is_read Ht Hl Ho)).
Defined.

(** *** Fees with sixteen decimals *)

(** A number of units of 10^-16; a quotient is rounded half away from zero. *)
#[export] Instance fixed_decimal : Decimal := {|
  dec := Z;
  dec_of z := z * 10 ^ 16;
  dec_Mul x y := Z.quot (x * y) (10 ^ 16);
  dec_Div x y := if y =? 0 then Panic
    else Ok (Z.sgn x * Z.sgn y * ((2 * (Z.abs x * 10 ^ 16) + Z.abs y) / (2 * Z.abs y)));
  dec_BigInt x := Z.quot x (10 ^ 16)
|}.

Lemma round_exact q y : y <> 0 ->
  Z.sgn (q * y * 10 ^ 16) * Z.sgn (y * 10 ^ 16) *
  ((2 * (Z.abs (q * y * 10 ^ 16) * 10 ^ 16) + Z.abs (y * 10 ^ 16)) / (2 * Z.abs (y * 10 ^ 16))) = q * 10 ^ 16.
Proof.
  intros Hy. set (u := 10 ^ 16). assert (0 < u) as Hu by (subst u; reflexivity). rewrite !Z.abs_mul, (Z.abs_eq u), !Z.sgn_mul, (Z.sgn_pos u) by lia.
  assert (0 < Z.abs y) as Ha by lia.
  replace (2 * (Z.abs q * Z.abs y * u * u) + Z.abs y * u) with (Z.abs q * u * (2 * (Z.abs y * u)) + Z.abs y * u) by ring.
  rewrite Z.div_add_l by nia. rewrite (Z.div_small (Z.abs y * u)) by nia. rewrite Z.add_0_r, !Z.mul_1_r.
  replace (Z.sgn q * Z.sgn y * Z.sgn y * (Z.abs q * u)) with ((Z.sgn y * Z.sgn y) * (Z.abs q * Z.sgn q) * u) by ring.
  rewrite Z.abs_sgn. destruct y; cbn [Z.sgn]; lia.
Qed.

#[export] Instance fixed_decimal_ok : DecimalOk.
Proof.
  refine {| dec_is := fun (a : @dec fixed_decimal) x => a = x * 10 ^ 16 |}; cbn [dec dec_of dec_Mul dec_Div dec_BigInt fixed_decimal].
  - done.
  - intros a b x y -> ->. replace (x * 10 ^ 16 * (y * 10 ^ 16)) with (x * y * 10 ^ 16 * 10 ^ 16) by ring.
    by apply Z.quot_mul.
  - intros a b x y q -> -> Hy ->. destruct (Z.eqb_spec (y * 10 ^ 16) 0); [lia|]. eexists. split; [done|].
    by apply round_exact.
  - intros a x ->. by apply Z.quot_mul.
Qed.

Lemma stale_stake_doubles_fees_witness :
  exists vf', DistributeRewardsByRate 1000
      (SetStakeTotal 30 (AppendStakeList 1 30 (SetStakeTotal (30 + 30) (AppendStakeList 2 30 (AppendStakeList 1 30 NewValidatorSet)))))
      (mkValidatorFee 0 ∅) = Ok vf' /\ taximeter vf' = taximeter (mkValidatorFee 0 ∅) + 2 * 1000.
Proof. exact (stale_stake_doubles_fees 1 2 30 1000 (mkValidatorFee 0 ∅) ltac:(lia) ltac:(lia)). Defined.
